(** * Tokenizer and document tree of the Astro compiler front end

    A shallow embedding of [internal/token.go] (the hand-written lexer for
    [.astro] sources) and of [internal/node.go] (the intrusive document
    tree), followed by the properties checked against them.

    Conventions of the embedding:
    - Go [int] values (offsets, counters) are modelled as [Z].  Every offset
      the lexer computes stays within a small constant of [len(buf)], far
      from the machine word bounds, so no wrap-around is modelled.
    - The input buffer is the Go slice [z.buf]: [buf] holds its [len] bytes
      and [slack] the bytes of the backing array between [len] and [cap].
      Indexing checks against [len], slicing checks against [cap], exactly
      as the Go runtime does; a failed check is a run-time panic.
    - Every [for] loop and every [goto] cycle is a [Fixpoint] on a fuel
      argument; running out of fuel is reported as [OutOfFuel], distinct
      from any result of the program.
    - The diagnostic [fmt.Printf] calls write to standard output only and
      are left out. *)

From Stdlib Require Import ZArith List Bool Lia String.
From Stdlib Require Import Strings.Byte.
From stdpp Require Import base option list gmap.
Import ListNotations.

Local Open Scope Z_scope.

(** ** Bytes *)

Definition beq (a b : byte) : bool := Byte.eqb a b.

Definition B (s : string) : list byte := list_byte_of_string s.

Definition byteZ (c : byte) : Z := Z.of_N (Byte.to_N c).

(** The byte [c - k] of Go's unsigned 8-bit arithmetic. *)
Definition byte_sub (c : byte) (k : Z) : Z := (byteZ c - k) mod 256.

(** The byte [c + k] of Go's unsigned 8-bit arithmetic. *)
Definition byte_add (c : byte) (k : Z) : Z := (byteZ c + k) mod 256.

Definition LF : byte := x0a.
Definition CR : byte := x0d.
Definition TAB : byte := x09.
Definition FF : byte := x0c.
Definition VT : byte := x0b.
Definition SP : byte := x20.
Definition NUL : byte := x00.
Definition DQ : byte := x22.
Definition BSL : byte := x5c.

Definition isLetter (c : byte) : bool :=
  ((byteZ "a" <=? byteZ c) && (byteZ c <=? byteZ "z")) ||
  ((byteZ "A" <=? byteZ c) && (byteZ c <=? byteZ "Z")).

(** The five white-space bytes the tag scanner switches on:
    [' ', '\n', '\r', '\t', '\f']. *)
Definition isTagSpace (c : byte) : bool :=
  beq c SP || beq c LF || beq c CR || beq c TAB || beq c FF.

(** [unicode.IsSpace(rune(c))] for a single byte [c], that is for the code
    points U+0000..U+00FF: the ASCII white space, U+0085 and U+00A0. *)
Definition isSpaceRune (c : byte) : bool :=
  beq c TAB || beq c LF || beq c VT || beq c FF || beq c CR || beq c SP ||
  beq c x85 || beq c xa0.

Definition isQuote (c : byte) : bool :=
  beq c "'" || beq c DQ || beq c "`".

Definition isBrace (c : byte) : bool := beq c "{" || beq c "}".

Fixpoint memb (c : byte) (l : list byte) : bool :=
  match l with
  | [] => false
  | v :: l' => beq c v || memb c l'
  end.

Fixpoint bytes_eqb (a b : list byte) : bool :=
  match a, b with
  | [], [] => true
  | x :: a', y :: b' => beq x y && bytes_eqb a' b'
  | _, _ => false
  end.

(** [bytes.HasPrefix]. *)
Fixpoint hasPrefix (s p : list byte) : bool :=
  match p, s with
  | [], _ => true
  | y :: p', x :: s' => beq x y && hasPrefix s' p'
  | _ :: _, [] => false
  end.

(** [bytes.Index] / [strings.Index]: offset of the first occurrence of
    [sep] in [s], or [-1]. *)
Fixpoint index (s sep : list byte) : Z :=
  if hasPrefix s sep then 0
  else match s with
       | [] => -1
       | _ :: s' => let i := index s' sep in if i <? 0 then -1 else i + 1
       end.

(** ** Token kinds and lexer modes *)

Inductive TokenType : Type :=
| ErrorToken
| TextToken
| StartTagToken
| EndTagToken
| SelfClosingTagToken
| CommentToken
| DoctypeToken
| FrontmatterFenceToken
| StartExpressionToken
| EndExpressionToken.

Inductive FrontmatterState : Type :=
| FrontmatterInitial
| FrontmatterOpen
| FrontmatterClosed.

Inductive MarkdownState : Type :=
| MarkdownInitial
| MarkdownOpen
| MarkdownClosed
| MarkdownInnerTag.

Inductive AttributeType : Type :=
| QuotedAttribute
| EmptyAttribute
| ExpressionAttribute
| SpreadAttribute
| ShorthandAttribute
| TemplateLiteralAttribute.

(** The only error value the lexer ever stores in [z.err] is [io.EOF]. *)
Inductive error : Type :=
| EOF.

Definition TokenType_eqb (a b : TokenType) : bool :=
  match a, b with
  | ErrorToken, ErrorToken | TextToken, TextToken
  | StartTagToken, StartTagToken | EndTagToken, EndTagToken
  | SelfClosingTagToken, SelfClosingTagToken | CommentToken, CommentToken
  | DoctypeToken, DoctypeToken | FrontmatterFenceToken, FrontmatterFenceToken
  | StartExpressionToken, StartExpressionToken
  | EndExpressionToken, EndExpressionToken => true
  | _, _ => false
  end.

Definition fm_eqb (a b : FrontmatterState) : bool :=
  match a, b with
  | FrontmatterInitial, FrontmatterInitial
  | FrontmatterOpen, FrontmatterOpen
  | FrontmatterClosed, FrontmatterClosed => true
  | _, _ => false
  end.

Definition md_eqb (a b : MarkdownState) : bool :=
  match a, b with
  | MarkdownInitial, MarkdownInitial | MarkdownOpen, MarkdownOpen
  | MarkdownClosed, MarkdownClosed | MarkdownInnerTag, MarkdownInnerTag => true
  | _, _ => false
  end.

Definition isSpreadOrShorthand (t : AttributeType) : bool :=
  match t with
  | SpreadAttribute | ShorthandAttribute => true
  | _ => false
  end.

(** [loc.Span]: a half-open range of byte offsets. *)
Record Span : Type := mkSpan { Start : Z; End : Z }.

Definition set_Start (v : Z) (s : Span) : Span := {| Start := v; End := End s |}.
Definition set_End (v : Z) (s : Span) : Span := {| Start := Start s; End := v |}.

(** ** The tokenizer state *)

Record Tokenizer : Type := mkTokenizer {
  tt : TokenType;
  prevTokenType : TokenType;
  fm : FrontmatterState;
  m : MarkdownState;
  err : option error;
  raw : Span;
  buf : list byte;
  slack : list byte;
  data : Span;
  pendingAttr : Span * Span;
  pendingAttrType : AttributeType;
  attr : list (Span * Span);
  attrTypes : list AttributeType;
  attrExpressionStack : Z;
  nAttrReturned : Z;
  dashCount : Z;
  expressionStack : list Z;
  openBraceIsExpressionStart : bool;
  rawTag : list byte;
  textIsRaw : bool;
  convertNUL : bool;
  allowCDATA : bool
}.

Definition set_tt (v : TokenType) (z : Tokenizer) : Tokenizer :=
  {| tt := v; prevTokenType := prevTokenType z; fm := fm z; m := m z; err := err z; raw
     := raw z; buf := buf z; slack := slack z; data := data z; pendingAttr :=
     pendingAttr z; pendingAttrType := pendingAttrType z; attr := attr z; attrTypes :=
     attrTypes z; attrExpressionStack := attrExpressionStack z; nAttrReturned :=
     nAttrReturned z; dashCount := dashCount z; expressionStack := expressionStack z;
     openBraceIsExpressionStart := openBraceIsExpressionStart z; rawTag := rawTag z;
     textIsRaw := textIsRaw z; convertNUL := convertNUL z; allowCDATA := allowCDATA z
     |}.

Definition set_prevTokenType (v : TokenType) (z : Tokenizer) : Tokenizer :=
  {| tt := tt z; prevTokenType := v; fm := fm z; m := m z; err := err z; raw := raw z;
     buf := buf z; slack := slack z; data := data z; pendingAttr := pendingAttr z;
     pendingAttrType := pendingAttrType z; attr := attr z; attrTypes := attrTypes z;
     attrExpressionStack := attrExpressionStack z; nAttrReturned := nAttrReturned z;
     dashCount := dashCount z; expressionStack := expressionStack z;
     openBraceIsExpressionStart := openBraceIsExpressionStart z; rawTag := rawTag z;
     textIsRaw := textIsRaw z; convertNUL := convertNUL z; allowCDATA := allowCDATA z
     |}.

Definition set_fm (v : FrontmatterState) (z : Tokenizer) : Tokenizer :=
  {| tt := tt z; prevTokenType := prevTokenType z; fm := v; m := m z; err := err z; raw
     := raw z; buf := buf z; slack := slack z; data := data z; pendingAttr :=
     pendingAttr z; pendingAttrType := pendingAttrType z; attr := attr z; attrTypes :=
     attrTypes z; attrExpressionStack := attrExpressionStack z; nAttrReturned :=
     nAttrReturned z; dashCount := dashCount z; expressionStack := expressionStack z;
     openBraceIsExpressionStart := openBraceIsExpressionStart z; rawTag := rawTag z;
     textIsRaw := textIsRaw z; convertNUL := convertNUL z; allowCDATA := allowCDATA z
     |}.

Definition set_m (v : MarkdownState) (z : Tokenizer) : Tokenizer :=
  {| tt := tt z; prevTokenType := prevTokenType z; fm := fm z; m := v; err := err z; raw
     := raw z; buf := buf z; slack := slack z; data := data z; pendingAttr :=
     pendingAttr z; pendingAttrType := pendingAttrType z; attr := attr z; attrTypes :=
     attrTypes z; attrExpressionStack := attrExpressionStack z; nAttrReturned :=
     nAttrReturned z; dashCount := dashCount z; expressionStack := expressionStack z;
     openBraceIsExpressionStart := openBraceIsExpressionStart z; rawTag := rawTag z;
     textIsRaw := textIsRaw z; convertNUL := convertNUL z; allowCDATA := allowCDATA z
     |}.

Definition set_err (v : option error) (z : Tokenizer) : Tokenizer :=
  {| tt := tt z; prevTokenType := prevTokenType z; fm := fm z; m := m z; err := v; raw
     := raw z; buf := buf z; slack := slack z; data := data z; pendingAttr :=
     pendingAttr z; pendingAttrType := pendingAttrType z; attr := attr z; attrTypes :=
     attrTypes z; attrExpressionStack := attrExpressionStack z; nAttrReturned :=
     nAttrReturned z; dashCount := dashCount z; expressionStack := expressionStack z;
     openBraceIsExpressionStart := openBraceIsExpressionStart z; rawTag := rawTag z;
     textIsRaw := textIsRaw z; convertNUL := convertNUL z; allowCDATA := allowCDATA z
     |}.

Definition set_raw (v : Span) (z : Tokenizer) : Tokenizer :=
  {| tt := tt z; prevTokenType := prevTokenType z; fm := fm z; m := m z; err := err z;
     raw := v; buf := buf z; slack := slack z; data := data z; pendingAttr :=
     pendingAttr z; pendingAttrType := pendingAttrType z; attr := attr z; attrTypes :=
     attrTypes z; attrExpressionStack := attrExpressionStack z; nAttrReturned :=
     nAttrReturned z; dashCount := dashCount z; expressionStack := expressionStack z;
     openBraceIsExpressionStart := openBraceIsExpressionStart z; rawTag := rawTag z;
     textIsRaw := textIsRaw z; convertNUL := convertNUL z; allowCDATA := allowCDATA z
     |}.

Definition set_buf (v : list byte) (z : Tokenizer) : Tokenizer :=
  {| tt := tt z; prevTokenType := prevTokenType z; fm := fm z; m := m z; err := err z;
     raw := raw z; buf := v; slack := slack z; data := data z; pendingAttr :=
     pendingAttr z; pendingAttrType := pendingAttrType z; attr := attr z; attrTypes :=
     attrTypes z; attrExpressionStack := attrExpressionStack z; nAttrReturned :=
     nAttrReturned z; dashCount := dashCount z; expressionStack := expressionStack z;
     openBraceIsExpressionStart := openBraceIsExpressionStart z; rawTag := rawTag z;
     textIsRaw := textIsRaw z; convertNUL := convertNUL z; allowCDATA := allowCDATA z
     |}.

Definition set_slack (v : list byte) (z : Tokenizer) : Tokenizer :=
  {| tt := tt z; prevTokenType := prevTokenType z; fm := fm z; m := m z; err := err z;
     raw := raw z; buf := buf z; slack := v; data := data z; pendingAttr := pendingAttr
     z; pendingAttrType := pendingAttrType z; attr := attr z; attrTypes := attrTypes z;
     attrExpressionStack := attrExpressionStack z; nAttrReturned := nAttrReturned z;
     dashCount := dashCount z; expressionStack := expressionStack z;
     openBraceIsExpressionStart := openBraceIsExpressionStart z; rawTag := rawTag z;
     textIsRaw := textIsRaw z; convertNUL := convertNUL z; allowCDATA := allowCDATA z
     |}.

Definition set_data (v : Span) (z : Tokenizer) : Tokenizer :=
  {| tt := tt z; prevTokenType := prevTokenType z; fm := fm z; m := m z; err := err z;
     raw := raw z; buf := buf z; slack := slack z; data := v; pendingAttr := pendingAttr
     z; pendingAttrType := pendingAttrType z; attr := attr z; attrTypes := attrTypes z;
     attrExpressionStack := attrExpressionStack z; nAttrReturned := nAttrReturned z;
     dashCount := dashCount z; expressionStack := expressionStack z;
     openBraceIsExpressionStart := openBraceIsExpressionStart z; rawTag := rawTag z;
     textIsRaw := textIsRaw z; convertNUL := convertNUL z; allowCDATA := allowCDATA z
     |}.

Definition set_pendingAttr (v : Span * Span) (z : Tokenizer) : Tokenizer :=
  {| tt := tt z; prevTokenType := prevTokenType z; fm := fm z; m := m z; err := err z;
     raw := raw z; buf := buf z; slack := slack z; data := data z; pendingAttr := v;
     pendingAttrType := pendingAttrType z; attr := attr z; attrTypes := attrTypes z;
     attrExpressionStack := attrExpressionStack z; nAttrReturned := nAttrReturned z;
     dashCount := dashCount z; expressionStack := expressionStack z;
     openBraceIsExpressionStart := openBraceIsExpressionStart z; rawTag := rawTag z;
     textIsRaw := textIsRaw z; convertNUL := convertNUL z; allowCDATA := allowCDATA z
     |}.

Definition set_pendingAttrType (v : AttributeType) (z : Tokenizer) : Tokenizer :=
  {| tt := tt z; prevTokenType := prevTokenType z; fm := fm z; m := m z; err := err z;
     raw := raw z; buf := buf z; slack := slack z; data := data z; pendingAttr :=
     pendingAttr z; pendingAttrType := v; attr := attr z; attrTypes := attrTypes z;
     attrExpressionStack := attrExpressionStack z; nAttrReturned := nAttrReturned z;
     dashCount := dashCount z; expressionStack := expressionStack z;
     openBraceIsExpressionStart := openBraceIsExpressionStart z; rawTag := rawTag z;
     textIsRaw := textIsRaw z; convertNUL := convertNUL z; allowCDATA := allowCDATA z
     |}.

Definition set_attr (v : list (Span * Span)) (z : Tokenizer) : Tokenizer :=
  {| tt := tt z; prevTokenType := prevTokenType z; fm := fm z; m := m z; err := err z;
     raw := raw z; buf := buf z; slack := slack z; data := data z; pendingAttr :=
     pendingAttr z; pendingAttrType := pendingAttrType z; attr := v; attrTypes :=
     attrTypes z; attrExpressionStack := attrExpressionStack z; nAttrReturned :=
     nAttrReturned z; dashCount := dashCount z; expressionStack := expressionStack z;
     openBraceIsExpressionStart := openBraceIsExpressionStart z; rawTag := rawTag z;
     textIsRaw := textIsRaw z; convertNUL := convertNUL z; allowCDATA := allowCDATA z
     |}.

Definition set_attrTypes (v : list AttributeType) (z : Tokenizer) : Tokenizer :=
  {| tt := tt z; prevTokenType := prevTokenType z; fm := fm z; m := m z; err := err z;
     raw := raw z; buf := buf z; slack := slack z; data := data z; pendingAttr :=
     pendingAttr z; pendingAttrType := pendingAttrType z; attr := attr z; attrTypes :=
     v; attrExpressionStack := attrExpressionStack z; nAttrReturned := nAttrReturned z;
     dashCount := dashCount z; expressionStack := expressionStack z;
     openBraceIsExpressionStart := openBraceIsExpressionStart z; rawTag := rawTag z;
     textIsRaw := textIsRaw z; convertNUL := convertNUL z; allowCDATA := allowCDATA z
     |}.

Definition set_attrExpressionStack (v : Z) (z : Tokenizer) : Tokenizer :=
  {| tt := tt z; prevTokenType := prevTokenType z; fm := fm z; m := m z; err := err z;
     raw := raw z; buf := buf z; slack := slack z; data := data z; pendingAttr :=
     pendingAttr z; pendingAttrType := pendingAttrType z; attr := attr z; attrTypes :=
     attrTypes z; attrExpressionStack := v; nAttrReturned := nAttrReturned z; dashCount
     := dashCount z; expressionStack := expressionStack z; openBraceIsExpressionStart :=
     openBraceIsExpressionStart z; rawTag := rawTag z; textIsRaw := textIsRaw z;
     convertNUL := convertNUL z; allowCDATA := allowCDATA z |}.

Definition set_nAttrReturned (v : Z) (z : Tokenizer) : Tokenizer :=
  {| tt := tt z; prevTokenType := prevTokenType z; fm := fm z; m := m z; err := err z;
     raw := raw z; buf := buf z; slack := slack z; data := data z; pendingAttr :=
     pendingAttr z; pendingAttrType := pendingAttrType z; attr := attr z; attrTypes :=
     attrTypes z; attrExpressionStack := attrExpressionStack z; nAttrReturned := v;
     dashCount := dashCount z; expressionStack := expressionStack z;
     openBraceIsExpressionStart := openBraceIsExpressionStart z; rawTag := rawTag z;
     textIsRaw := textIsRaw z; convertNUL := convertNUL z; allowCDATA := allowCDATA z
     |}.

Definition set_dashCount (v : Z) (z : Tokenizer) : Tokenizer :=
  {| tt := tt z; prevTokenType := prevTokenType z; fm := fm z; m := m z; err := err z;
     raw := raw z; buf := buf z; slack := slack z; data := data z; pendingAttr :=
     pendingAttr z; pendingAttrType := pendingAttrType z; attr := attr z; attrTypes :=
     attrTypes z; attrExpressionStack := attrExpressionStack z; nAttrReturned :=
     nAttrReturned z; dashCount := v; expressionStack := expressionStack z;
     openBraceIsExpressionStart := openBraceIsExpressionStart z; rawTag := rawTag z;
     textIsRaw := textIsRaw z; convertNUL := convertNUL z; allowCDATA := allowCDATA z
     |}.

Definition set_expressionStack (v : list Z) (z : Tokenizer) : Tokenizer :=
  {| tt := tt z; prevTokenType := prevTokenType z; fm := fm z; m := m z; err := err z;
     raw := raw z; buf := buf z; slack := slack z; data := data z; pendingAttr :=
     pendingAttr z; pendingAttrType := pendingAttrType z; attr := attr z; attrTypes :=
     attrTypes z; attrExpressionStack := attrExpressionStack z; nAttrReturned :=
     nAttrReturned z; dashCount := dashCount z; expressionStack := v;
     openBraceIsExpressionStart := openBraceIsExpressionStart z; rawTag := rawTag z;
     textIsRaw := textIsRaw z; convertNUL := convertNUL z; allowCDATA := allowCDATA z
     |}.

Definition set_openBraceIsExpressionStart (v : bool) (z : Tokenizer) : Tokenizer :=
  {| tt := tt z; prevTokenType := prevTokenType z; fm := fm z; m := m z; err := err z;
     raw := raw z; buf := buf z; slack := slack z; data := data z; pendingAttr :=
     pendingAttr z; pendingAttrType := pendingAttrType z; attr := attr z; attrTypes :=
     attrTypes z; attrExpressionStack := attrExpressionStack z; nAttrReturned :=
     nAttrReturned z; dashCount := dashCount z; expressionStack := expressionStack z;
     openBraceIsExpressionStart := v; rawTag := rawTag z; textIsRaw := textIsRaw z;
     convertNUL := convertNUL z; allowCDATA := allowCDATA z |}.

Definition set_rawTag (v : list byte) (z : Tokenizer) : Tokenizer :=
  {| tt := tt z; prevTokenType := prevTokenType z; fm := fm z; m := m z; err := err z;
     raw := raw z; buf := buf z; slack := slack z; data := data z; pendingAttr :=
     pendingAttr z; pendingAttrType := pendingAttrType z; attr := attr z; attrTypes :=
     attrTypes z; attrExpressionStack := attrExpressionStack z; nAttrReturned :=
     nAttrReturned z; dashCount := dashCount z; expressionStack := expressionStack z;
     openBraceIsExpressionStart := openBraceIsExpressionStart z; rawTag := v; textIsRaw
     := textIsRaw z; convertNUL := convertNUL z; allowCDATA := allowCDATA z |}.

Definition set_textIsRaw (v : bool) (z : Tokenizer) : Tokenizer :=
  {| tt := tt z; prevTokenType := prevTokenType z; fm := fm z; m := m z; err := err z;
     raw := raw z; buf := buf z; slack := slack z; data := data z; pendingAttr :=
     pendingAttr z; pendingAttrType := pendingAttrType z; attr := attr z; attrTypes :=
     attrTypes z; attrExpressionStack := attrExpressionStack z; nAttrReturned :=
     nAttrReturned z; dashCount := dashCount z; expressionStack := expressionStack z;
     openBraceIsExpressionStart := openBraceIsExpressionStart z; rawTag := rawTag z;
     textIsRaw := v; convertNUL := convertNUL z; allowCDATA := allowCDATA z |}.

Definition set_convertNUL (v : bool) (z : Tokenizer) : Tokenizer :=
  {| tt := tt z; prevTokenType := prevTokenType z; fm := fm z; m := m z; err := err z;
     raw := raw z; buf := buf z; slack := slack z; data := data z; pendingAttr :=
     pendingAttr z; pendingAttrType := pendingAttrType z; attr := attr z; attrTypes :=
     attrTypes z; attrExpressionStack := attrExpressionStack z; nAttrReturned :=
     nAttrReturned z; dashCount := dashCount z; expressionStack := expressionStack z;
     openBraceIsExpressionStart := openBraceIsExpressionStart z; rawTag := rawTag z;
     textIsRaw := textIsRaw z; convertNUL := v; allowCDATA := allowCDATA z |}.

Definition set_allowCDATA (v : bool) (z : Tokenizer) : Tokenizer :=
  {| tt := tt z; prevTokenType := prevTokenType z; fm := fm z; m := m z; err := err z;
     raw := raw z; buf := buf z; slack := slack z; data := data z; pendingAttr :=
     pendingAttr z; pendingAttrType := pendingAttrType z; attr := attr z; attrTypes :=
     attrTypes z; attrExpressionStack := attrExpressionStack z; nAttrReturned :=
     nAttrReturned z; dashCount := dashCount z; expressionStack := expressionStack z;
     openBraceIsExpressionStart := openBraceIsExpressionStart z; rawTag := rawTag z;
     textIsRaw := textIsRaw z; convertNUL := convertNUL z; allowCDATA := v |}.


Definition set_rawStart (v : Z) (z : Tokenizer) : Tokenizer :=
  set_raw (set_Start v (raw z)) z.
Definition set_rawEnd (v : Z) (z : Tokenizer) : Tokenizer :=
  set_raw (set_End v (raw z)) z.
Definition set_dataStart (v : Z) (z : Tokenizer) : Tokenizer :=
  set_data (set_Start v (data z)) z.
Definition set_dataEnd (v : Z) (z : Tokenizer) : Tokenizer :=
  set_data (set_End v (data z)) z.

Definition rawStart (z : Tokenizer) : Z := Start (raw z).
Definition rawEnd (z : Tokenizer) : Z := End (raw z).
Definition dataStart (z : Tokenizer) : Z := Start (data z).
Definition dataEnd (z : Tokenizer) : Z := End (data z).

(** [len(z.buf)] and [cap(z.buf)]. *)
Definition len (z : Tokenizer) : Z := Z.of_nat (length (buf z)).
Definition cap (z : Tokenizer) : Z := Z.of_nat (length (buf z ++ slack z)).

(** The backing array of [z.buf]. *)
Definition backing (z : Tokenizer) : list byte := buf z ++ slack z.

(** ** Results: a value and the next state, a panic, or no fuel left *)

Inductive PanicValue : Type :=
| BoundsError                (* index or slice bounds out of range *)
| Fatal (msg : list byte).   (* an explicit [panic(msg)] of the lexer *)

Inductive Res (A : Type) : Type :=
| Ok (a : A) (z : Tokenizer)
| Panicked (p : PanicValue)
| OutOfFuel.

Arguments Ok {A} a z.
Arguments Panicked {A} p.
Arguments OutOfFuel {A}.

Definition M (A : Type) : Type := Tokenizer -> Res A.

Definition ret {A} (a : A) : M A := fun z => Ok a z.

Definition bind {A C} (x : M A) (k : A -> M C) : M C :=
  fun z => match x z with
           | Ok a z' => k a z'
           | Panicked p => Panicked p
           | OutOfFuel => OutOfFuel
           end.

Notation "x <- c1 ;; c2" := (bind c1 (fun x => c2))
  (at level 100, c1 at next level, right associativity).
Notation "c1 ;;; c2" := (bind c1 (fun _ => c2))
  (at level 100, right associativity).

Definition gets {A} (f : Tokenizer -> A) : M A := fun z => Ok (f z) z.
Definition modify (f : Tokenizer -> Tokenizer) : M unit := fun z => Ok () (f z).
Definition panic {A} (p : PanicValue) : M A := fun _ => Panicked p.
Definition out_of_fuel {A} : M A := fun _ => OutOfFuel.

Definition isErr (z : Tokenizer) : bool :=
  match err z with Some _ => true | None => false end.

(** [z.raw.End--], [z.raw.End++], [z.raw.End += k]. *)
Definition rawEnd_add (k : Z) : M unit := modify (fun z => set_rawEnd (rawEnd z + k) z).

(** [l[i]] for a Go slice of length [length l]. *)
Definition at_ {A} (l : list A) (i : Z) : option A :=
  if (0 <=? i) && (i <? Z.of_nat (length l)) then l !! Z.to_nat i else None.

(** [l[a:b]] where the bounds were already checked. *)
Definition sub {A} (l : list A) (a b : Z) : list A :=
  firstn (Z.to_nat (b - a)) (skipn (Z.to_nat a) l).

(** [z.buf[i]]: checked against [len]. *)
Definition bufIndex (i : Z) : M byte := fun z =>
  match at_ (buf z) i with
  | Some c => Ok c z
  | None => Panicked BoundsError
  end.

(** [b <= cap(z.buf)], decided without looking at the slack when [b] is
    within [len(z.buf)]. *)
Definition leCap (b : Z) (z : Tokenizer) : bool :=
  (b <=? len z) || (b - len z <=? Z.of_nat (length (slack z))).

(** [z.buf[a:b]]: checked against [cap]; the result may show slack bytes. *)
Definition bufSlice (a b : Z) : M (list byte) := fun z =>
  if (0 <=? a) && (a <=? b) && leCap b z then Ok (sub (backing z) a b) z
  else Panicked BoundsError.

(** [z.buf[a:]]: the upper bound is [len]. *)
Definition bufFrom (a : Z) : M (list byte) := fun z =>
  if (0 <=? a) && (a <=? len z) then Ok (sub (buf z) a (len z)) z
  else Panicked BoundsError.

(** [z.buf[a : a+1][0]]. *)
Definition bufSlice1 (a : Z) : M byte :=
  s <- bufSlice a (a + 1) ;;
  match s with
  | c :: _ => ret c
  | [] => panic BoundsError
  end.

(** ** Reading bytes *)

(** [readByte]: the next byte of the buffer, or [0] with [z.err = io.EOF]
    at the end of the buffer. *)
Definition readByte : M byte := fun z =>
  if rawEnd z >=? len z then Ok NUL (set_err (Some EOF) z)
  else match at_ (buf z) (rawEnd z) with
       | Some x => Ok x (set_rawEnd (rawEnd z + 1) z)
       | None => Panicked BoundsError
       end.

(** [Buffered]. *)
Definition Buffered : M (list byte) := fun z => bufFrom (rawEnd z) z.

(** [Raw]: the bytes [z.buf[z.raw.Start:z.raw.End]] of the current token. *)
Definition Raw : M (list byte) := fun z => bufSlice (rawStart z) (rawEnd z) z.

Fixpoint skipWhiteSpace_loop (fuel : nat) : M unit :=
  match fuel with
  | O => out_of_fuel
  | S f =>
      c <- readByte ;;
      e <- gets isErr ;;
      if e then ret ()
      else if negb (isSpaceRune c) then rawEnd_add (-1)
      else skipWhiteSpace_loop f
  end.

Definition skipWhiteSpace (fuel : nat) : M unit :=
  e <- gets isErr ;;
  if e then ret () else skipWhiteSpace_loop fuel.

(** The [for i < len(z.rawTag)] loop of [readRawEndTag]: [Some b] is an
    early [return b], [None] means the whole name matched. *)
Fixpoint readRawEndTag_name (tag : list byte) : M (option bool) :=
  match tag with
  | [] => ret None
  | t :: tag' =>
      c <- readByte ;;
      e <- gets isErr ;;
      if e then ret (Some false)
      else if negb (beq c t) && negb (byteZ c =? byte_sub t 32)
      then rawEnd_add (-1) ;;; ret (Some false)
      else readRawEndTag_name tag'
  end.

Definition isRawTagEnd (c : byte) : bool :=
  beq c SP || beq c LF || beq c CR || beq c TAB || beq c FF || beq c "/" || beq c ">".

Definition readRawEndTag : M bool :=
  tag <- gets rawTag ;;
  r <- readRawEndTag_name tag ;;
  match r with
  | Some b => ret b
  | None =>
      c <- readByte ;;
      e <- gets isErr ;;
      if e then ret false
      else if isRawTagEnd c
      then rawEnd_add (- (3 + Z.of_nat (length tag))) ;;; ret true
      else rawEnd_add (-1) ;;; ret false
  end.

(** ** Raw text: the script-data automaton *)

Inductive ScriptState : Type :=
| scriptData
| scriptDataLessThanSign
| scriptDataEndTagOpen
| scriptDataEscapeStart
| scriptDataEscapeStartDash
| scriptDataEscaped
| scriptDataEscapedDash
| scriptDataEscapedDashDash
| scriptDataEscapedLessThanSign
| scriptDataEscapedEndTagOpen
| scriptDataDoubleEscapeStart
| scriptDataDoubleEscaped
| scriptDataDoubleEscapedDash
| scriptDataDoubleEscapedDashDash
| scriptDataDoubleEscapedLessThanSign
| scriptDataDoubleEscapeEnd.

(** [c = z.readByte(); if z.err != nil { return }], then [k c].  In the
    automaton [None] stands for [return] and [Some s] for [goto s]. *)
Definition readOrReturn (k : byte -> M (option ScriptState)) : M (option ScriptState) :=
  c <- readByte ;;
  e <- gets isErr ;;
  if e then ret None else k c.

(** The [for i < len("script")] loop of [scriptDataDoubleEscapeStart]:
    [Some r] leaves the loop early with the jump [r]. *)
Fixpoint scriptDoubleEscapeName (lower upper : list byte)
  : M (option (option ScriptState)) :=
  match lower, upper with
  | l :: lower', u :: upper' =>
      c <- readByte ;;
      e <- gets isErr ;;
      if e then ret (Some None)
      else if negb (beq c l) && negb (beq c u)
      then rawEnd_add (-1) ;;; ret (Some (Some scriptDataEscaped))
      else scriptDoubleEscapeName lower' upper'
  | _, _ => ret None
  end.

Definition scriptStep (s : ScriptState) : M (option ScriptState) :=
  match s with
  | scriptData =>
      readOrReturn (fun c =>
        if beq c "<" then ret (Some scriptDataLessThanSign) else ret (Some scriptData))
  | scriptDataLessThanSign =>
      readOrReturn (fun c =>
        if beq c "/" then ret (Some scriptDataEndTagOpen)
        else if beq c "!" then ret (Some scriptDataEscapeStart)
        else rawEnd_add (-1) ;;; ret (Some scriptData))
  | scriptDataEndTagOpen =>
      e <- gets isErr ;;
      if e then ret None
      else b <- readRawEndTag ;;
           if b then ret None else ret (Some scriptData)
  | scriptDataEscapeStart =>
      readOrReturn (fun c =>
        if beq c "-" then ret (Some scriptDataEscapeStartDash)
        else rawEnd_add (-1) ;;; ret (Some scriptData))
  | scriptDataEscapeStartDash =>
      readOrReturn (fun c =>
        if beq c "-" then ret (Some scriptDataEscapedDashDash)
        else rawEnd_add (-1) ;;; ret (Some scriptData))
  | scriptDataEscaped =>
      readOrReturn (fun c =>
        if beq c "-" then ret (Some scriptDataEscapedDash)
        else if beq c "<" then ret (Some scriptDataEscapedLessThanSign)
        else ret (Some scriptDataEscaped))
  | scriptDataEscapedDash =>
      readOrReturn (fun c =>
        if beq c "-" then ret (Some scriptDataEscapedDashDash)
        else if beq c "<" then ret (Some scriptDataEscapedLessThanSign)
        else ret (Some scriptDataEscaped))
  | scriptDataEscapedDashDash =>
      readOrReturn (fun c =>
        if beq c "-" then ret (Some scriptDataEscapedDashDash)
        else if beq c "<" then ret (Some scriptDataEscapedLessThanSign)
        else if beq c ">" then ret (Some scriptData)
        else ret (Some scriptDataEscaped))
  | scriptDataEscapedLessThanSign =>
      readOrReturn (fun c =>
        if beq c "/" then ret (Some scriptDataEscapedEndTagOpen)
        else if isLetter c then ret (Some scriptDataDoubleEscapeStart)
        else rawEnd_add (-1) ;;; ret (Some scriptData))
  | scriptDataEscapedEndTagOpen =>
      e <- gets isErr ;;
      if e then ret None
      else b <- readRawEndTag ;;
           e' <- gets isErr ;;
           if b || e' then ret None else ret (Some scriptDataEscaped)
  | scriptDataDoubleEscapeStart =>
      rawEnd_add (-1) ;;;
      r <- scriptDoubleEscapeName (B "script") (B "SCRIPT") ;;
      match r with
      | Some j => ret j
      | None =>
          readOrReturn (fun c =>
            if isRawTagEnd c then ret (Some scriptDataDoubleEscaped)
            else rawEnd_add (-1) ;;; ret (Some scriptDataEscaped))
      end
  | scriptDataDoubleEscaped =>
      readOrReturn (fun c =>
        if beq c "-" then ret (Some scriptDataDoubleEscapedDash)
        else if beq c "<" then ret (Some scriptDataDoubleEscapedLessThanSign)
        else ret (Some scriptDataDoubleEscaped))
  | scriptDataDoubleEscapedDash =>
      readOrReturn (fun c =>
        if beq c "-" then ret (Some scriptDataDoubleEscapedDashDash)
        else if beq c "<" then ret (Some scriptDataDoubleEscapedLessThanSign)
        else ret (Some scriptDataDoubleEscaped))
  | scriptDataDoubleEscapedDashDash =>
      readOrReturn (fun c =>
        if beq c "-" then ret (Some scriptDataDoubleEscapedDashDash)
        else if beq c "<" then ret (Some scriptDataDoubleEscapedLessThanSign)
        else if beq c ">" then ret (Some scriptData)
        else ret (Some scriptDataDoubleEscaped))
  | scriptDataDoubleEscapedLessThanSign =>
      readOrReturn (fun c =>
        if beq c "/" then ret (Some scriptDataDoubleEscapeEnd)
        else rawEnd_add (-1) ;;; ret (Some scriptDataDoubleEscaped))
  | scriptDataDoubleEscapeEnd =>
      b <- readRawEndTag ;;
      if b then rawEnd_add (Z.of_nat (length (B "</script>"))) ;;;
                ret (Some scriptDataEscaped)
      else e <- gets isErr ;;
           if e then ret None else ret (Some scriptDataDoubleEscaped)
  end.

Fixpoint readScript_run (fuel : nat) (s : ScriptState) : M unit :=
  match fuel with
  | O => out_of_fuel
  | S f =>
      r <- scriptStep s ;;
      match r with
      | None => ret ()
      | Some s' => readScript_run f s'
      end
  end.

(** [readScript]: the deferred [z.data.End = z.raw.End] runs on return. *)
Definition readScript (fuel : nat) : M unit :=
  readScript_run fuel scriptData ;;;
  modify (fun z => set_dataEnd (rawEnd z) z).

(** ** Comments, doctypes, CDATA *)

(** The loop of [readHTMLComment]; [dashCount] is its local counter. *)
Fixpoint readHTMLComment_loop (fuel : nat) (dashCount : Z) : M unit :=
  match fuel with
  | O => out_of_fuel
  | S f =>
      c <- readByte ;;
      e <- gets isErr ;;
      if e then
        let dc := if dashCount >? 2 then 2 else dashCount in
        modify (fun z => set_dataEnd (rawEnd z - dc) z)
      else if beq c "-" then readHTMLComment_loop f (dashCount + 1)
      else if beq c ">" then
        if dashCount >=? 2
        then modify (fun z => set_dataEnd (rawEnd z - 3) z)
        else readHTMLComment_loop f 0
      else if beq c "!" then
        if dashCount >=? 2 then
          c' <- readByte ;;
          e' <- gets isErr ;;
          if e' then modify (fun z => set_dataEnd (rawEnd z) z)
          else if beq c' ">" then modify (fun z => set_dataEnd (rawEnd z - 4) z)
          else readHTMLComment_loop f 0
        else readHTMLComment_loop f 0
      else readHTMLComment_loop f 0
  end.

Definition readHTMLComment (fuel : nat) : M unit :=
  modify (fun z => set_dataStart (rawEnd z) z) ;;;
  readHTMLComment_loop fuel 2 ;;;
  modify (fun z => if dataEnd z <? dataStart z then set_dataEnd (dataStart z) z else z).

Fixpoint readUntilCloseAngle_loop (fuel : nat) : M unit :=
  match fuel with
  | O => out_of_fuel
  | S f =>
      c <- readByte ;;
      e <- gets isErr ;;
      if e then modify (fun z => set_dataEnd (rawEnd z) z)
      else if beq c ">" then modify (fun z => set_dataEnd (rawEnd z - 1) z)
      else readUntilCloseAngle_loop f
  end.

Definition readUntilCloseAngle (fuel : nat) : M unit :=
  modify (fun z => set_dataStart (rawEnd z) z) ;;;
  readUntilCloseAngle_loop fuel.

(** ** JavaScript strings, comments and regular expressions *)

(** [readUntilChar]: after a backslash the byte compared with [chars] is
    the one at [z.data.Start]. *)
Fixpoint readUntilChar (fuel : nat) (chars : list byte) : M unit :=
  match fuel with
  | O => out_of_fuel
  | S f =>
      c <- readByte ;;
      e <- gets isErr ;;
      if e then modify (fun z => set_dataEnd (rawEnd z - 1) z)
      else if beq c BSL then
        rawEnd_add 1 ;;;
        ds <- gets dataStart ;;
        c' <- bufSlice1 ds ;;
        if memb c' chars then rawEnd_add 1 ;;; readUntilChar f chars
        else readUntilChar f chars
      else if memb c chars then modify (fun z => set_dataEnd (rawEnd z) z)
      else readUntilChar f chars
  end.

Definition readString (fuel : nat) (c : byte) : M unit :=
  if beq c "'" then readUntilChar fuel ["'"%byte; CR; LF]
  else if beq c DQ then readUntilChar fuel [DQ; CR; LF]
  else if beq c "`" then readUntilChar fuel ["`"%byte]
  else ret ().

(** The [for] loop of the multi-line comment case. *)
Fixpoint readBlockComment (fuel : nat) : M unit :=
  match fuel with
  | O => out_of_fuel
  | S f =>
      readUntilChar fuel ["*"%byte] ;;;
      c <- readByte ;;
      if beq c "/" then modify (fun z => set_dataEnd (rawEnd z) z)
      else readBlockComment f
  end.

Definition readCommentOrRegExp (fuel : nat) (boundaryChars : list byte) : M unit :=
  c <- readByte ;;
  if beq c "/" then readUntilChar fuel [CR; LF]
  else if beq c "*" then readBlockComment fuel
  else rawEnd_add (-1) ;;;
       readUntilChar fuel (["/"%byte; CR; LF] ++ boundaryChars).

(** The two-byte read at the start of [readMarkupDeclaration]: [None] when
    the input ended. *)
Definition readTwo : M (option (byte * byte)) :=
  c0 <- readByte ;;
  e0 <- gets isErr ;;
  if e0 then ret None
  else c1 <- readByte ;;
       e1 <- gets isErr ;;
       if e1 then ret None else ret (Some (c0, c1)).

(** The keyword loop of [readDoctype]: [Some b] is an early [return b]. *)
Fixpoint readDoctype_name (s : list byte) : M (option bool) :=
  match s with
  | [] => ret None
  | k :: s' =>
      c <- readByte ;;
      e <- gets isErr ;;
      if e then modify (fun z => set_dataEnd (rawEnd z) z) ;;; ret (Some false)
      else if negb (beq c k) && negb (byteZ c =? byte_add k 32)
      then modify (fun z => set_rawEnd (dataStart z) z) ;;; ret (Some false)
      else readDoctype_name s'
  end.

Definition readDoctype (fuel : nat) : M bool :=
  r <- readDoctype_name (B "DOCTYPE") ;;
  match r with
  | Some b => ret b
  | None =>
      skipWhiteSpace fuel ;;;
      e <- gets isErr ;;
      if e then
        modify (fun z => set_dataEnd (rawEnd z) (set_dataStart (rawEnd z) z)) ;;;
        ret true
      else readUntilCloseAngle fuel ;;; ret true
  end.

(** The keyword loop of [readCDATA]. *)
Fixpoint readCDATA_name (s : list byte) : M (option bool) :=
  match s with
  | [] => ret None
  | k :: s' =>
      c <- readByte ;;
      e <- gets isErr ;;
      if e then modify (fun z => set_dataEnd (rawEnd z) z) ;;; ret (Some false)
      else if negb (beq c k)
      then modify (fun z => set_rawEnd (dataStart z) z) ;;; ret (Some false)
      else readCDATA_name s'
  end.

Fixpoint readCDATA_loop (fuel : nat) (brackets : Z) : M bool :=
  match fuel with
  | O => out_of_fuel
  | S f =>
      c <- readByte ;;
      e <- gets isErr ;;
      if e then modify (fun z => set_dataEnd (rawEnd z) z) ;;; ret true
      else if beq c "]" then readCDATA_loop f (brackets + 1)
      else if beq c ">" then
        if brackets >=? 2
        then modify (fun z => set_dataEnd (rawEnd z - 3) z) ;;; ret true
        else readCDATA_loop f 0
      else readCDATA_loop f 0
  end.

Definition readCDATA (fuel : nat) : M bool :=
  r <- readCDATA_name (B "[CDATA[") ;;
  match r with
  | Some b => ret b
  | None =>
      modify (fun z => set_dataStart (rawEnd z) z) ;;;
      readCDATA_loop fuel 0
  end.

Definition readMarkupDeclaration (fuel : nat) : M TokenType :=
  modify (fun z => set_dataStart (rawEnd z) z) ;;;
  r <- readTwo ;;
  match r with
  | None => modify (fun z => set_dataEnd (rawEnd z) z) ;;; ret CommentToken
  | Some (c0, c1) =>
      if beq c0 "-" && beq c1 "-" then readHTMLComment fuel ;;; ret CommentToken
      else
        rawEnd_add (-2) ;;;
        d <- readDoctype fuel ;;
        if d then ret DoctypeToken
        else
          a <- gets allowCDATA ;;
          cd <- (if a then readCDATA fuel else ret false) ;;
          if cd then modify (set_convertNUL true) ;;; ret TextToken
          else readUntilCloseAngle fuel ;;; ret CommentToken
  end.

(** ** Tags and attributes *)

(** One alternative of [startTagIn]: does the tag name in
    [z.buf[z.data.Start:z.data.End]] equal [s], byte for byte? *)
Fixpoint startTagIs_from (i : Z) (s : list byte) : M bool :=
  match s with
  | [] => ret true
  | k :: s' =>
      ds <- gets dataStart ;;
      c <- bufIndex (ds + i) ;;
      if negb (beq c k) then ret false else startTagIs_from (i + 1) s'
  end.

Definition startTagIs (s : list byte) : M bool :=
  n <- gets (fun z => dataEnd z - dataStart z) ;;
  if negb (n =? Z.of_nat (length s)) then ret false else startTagIs_from 0 s.

Fixpoint startTagIn (ss : list (list byte)) : M bool :=
  match ss with
  | [] => ret false
  | s :: ss' =>
      b <- startTagIs s ;;
      if b then ret true else startTagIn ss'
  end.

(** The inner loop of [hasTag]: [key] and [s] agree on their common length. *)
Fixpoint agreeOnCommon (key s : list byte) : bool :=
  match key, s with
  | k :: key', c :: s' => beq k c && agreeOnCommon key' s'
  | _, _ => true
  end.

(** [hasTag] over the saved attributes, last one first. *)
Fixpoint hasTag_from (attrs : list (Span * Span)) (s : list byte) : M bool :=
  match attrs with
  | [] => ret false
  | x :: attrs' =>
      key <- bufSlice (Start (fst x)) (End (fst x)) ;;
      if agreeOnCommon key s then ret true else hasTag_from attrs' s
  end.

Definition hasTag (s : list byte) : M bool :=
  a <- gets attr ;; hasTag_from (rev a) s.

Fixpoint readTagName_loop (fuel : nat) : M unit :=
  match fuel with
  | O => out_of_fuel
  | S f =>
      c <- readByte ;;
      e <- gets isErr ;;
      if e then modify (fun z => set_dataEnd (rawEnd z) z)
      else if isTagSpace c then modify (fun z => set_dataEnd (rawEnd z - 1) z)
      else if beq c "/" || beq c ">" then
        rawEnd_add (-1) ;;; modify (fun z => set_dataEnd (rawEnd z) z)
      else readTagName_loop f
  end.

Definition readTagName (fuel : nat) : M unit :=
  modify (fun z => set_dataStart (rawEnd z - 1) z) ;;;
  readTagName_loop fuel.

Definition msgBlockComment : list byte :=
  B "Block comments (//) are not allowed inside of expressions".

Fixpoint readTagAttrExpression_loop (fuel : nat) : M unit :=
  match fuel with
  | O => out_of_fuel
  | S f =>
      c <- readByte ;;
      e <- gets isErr ;;
      if e then ret ()
      else if beq c "/" || isQuote c then
        end_ <- gets dataEnd ;;
        (if beq c "/" then
           next <- readByte ;;
           if beq next "/" then panic (Fatal msgBlockComment)
           else
             readCommentOrRegExp fuel ["}"%byte] ;;;
             de <- gets dataEnd ;;
             lastChar <- bufSlice1 (de - 1) ;;
             if beq lastChar "}" then modify (fun z => set_dataEnd (dataEnd z - 1) z)
             else ret ()
         else readString fuel c) ;;;
        modify (fun z => set_rawEnd (dataEnd z) z) ;;;
        modify (set_dataEnd end_) ;;;
        readTagAttrExpression_loop f
      else if beq c "{" then
        modify (fun z => set_attrExpressionStack (attrExpressionStack z + 1) z) ;;;
        readTagAttrExpression_loop f
      else if beq c "}" then
        modify (fun z => set_attrExpressionStack (attrExpressionStack z - 1) z) ;;;
        n <- gets attrExpressionStack ;;
        if n =? 0 then ret () else readTagAttrExpression_loop f
      else readTagAttrExpression_loop f
  end.

Definition readTagAttrExpression (fuel : nat) : M unit :=
  e <- gets isErr ;;
  if e then ret () else readTagAttrExpression_loop fuel.

(** *** [strings.TrimSpace]

    Go trims the Unicode White_Space code points, decoded as UTF-8:
    U+0009..U+000D, U+0020, U+0085, U+00A0, U+1680, U+2000..U+200A,
    U+2028, U+2029, U+202F, U+205F and U+3000. *)

Definition isAsciiSpace (c : byte) : bool :=
  beq c TAB || beq c LF || beq c VT || beq c FF || beq c CR || beq c SP.

(** Width in bytes of the white-space rune at the head of [s]; [0] if the
    first rune is not white space. *)
Definition leadingSpaceWidth (s : list byte) : nat :=
  match s with
  | c :: r =>
      if isAsciiSpace c then 1%nat
      else match r with
           | d :: r' =>
               if beq c xc2 && (beq d x85 || beq d xa0) then 2%nat
               else match r' with
                    | e :: _ =>
                        if beq c xe1 && beq d x9a && beq e x80 then 3%nat
                        else if beq c xe2 && beq d x80 &&
                                (((128 <=? byteZ e) && (byteZ e <=? 138)) ||
                                 beq e xa8 || beq e xa9 || beq e xaf) then 3%nat
                        else if beq c xe2 && beq d x81 && beq e x9f then 3%nat
                        else if beq c xe3 && beq d x80 && beq e x80 then 3%nat
                        else 0%nat
                    | [] => 0%nat
                    end
           | [] => 0%nat
           end
  | [] => 0%nat
  end.

(** The same for the last rune of a string given in reverse. *)
Definition trailingSpaceWidth (r : list byte) : nat :=
  match r with
  | e :: r1 =>
      if isAsciiSpace e then 1%nat
      else match r1 with
           | d :: r2 =>
               if beq d xc2 && (beq e x85 || beq e xa0) then 2%nat
               else match r2 with
                    | c :: _ =>
                        if Nat.eqb (leadingSpaceWidth [c; d; e]) 3 then 3%nat else 0%nat
                    | [] => 0%nat
                    end
           | [] => 0%nat
           end
  | [] => 0%nat
  end.

Fixpoint trimLeft (fuel : nat) (s : list byte) : list byte :=
  match fuel with
  | O => s
  | S f => match leadingSpaceWidth s with
           | O => s
           | w => trimLeft f (skipn w s)
           end
  end.

Fixpoint trimRightRev (fuel : nat) (r : list byte) : list byte :=
  match fuel with
  | O => r
  | S f => match trailingSpaceWidth r with
           | O => r
           | w => trimRightRev f (skipn w r)
           end
  end.

Definition TrimSpace (s : list byte) : list byte :=
  let l := trimLeft (length s) s in
  rev (trimRightRev (length l) (rev l)).

(** The spread test of [readTagAttrKey], run after the braces of a
    shorthand attribute were scanned. *)
Definition detectSpread : M unit :=
  st <- gets (fun z => Start (fst (pendingAttr z))) ;;
  pa <- bufFrom st ;;
  if Z.of_nat (length pa) >? 3 then
    let t := TrimSpace pa in
    if Z.of_nat (length t) <? 3 then panic BoundsError
    else if bytes_eqb (firstn 3 t) (B "...") then
      modify (fun z =>
        set_pendingAttrType SpreadAttribute
          (set_pendingAttr
             (set_Start (Start (fst (pendingAttr z)) + (index pa (B "...") + 3))
                        (fst (pendingAttr z)),
              snd (pendingAttr z)) z))
    else ret ()
  else ret ().

Definition set_keyStart (v : Z) (z : Tokenizer) : Tokenizer :=
  set_pendingAttr (set_Start v (fst (pendingAttr z)), snd (pendingAttr z)) z.
Definition set_keyEnd (v : Z) (z : Tokenizer) : Tokenizer :=
  set_pendingAttr (set_End v (fst (pendingAttr z)), snd (pendingAttr z)) z.
Definition set_valStart (v : Z) (z : Tokenizer) : Tokenizer :=
  set_pendingAttr (fst (pendingAttr z), set_Start v (snd (pendingAttr z))) z.
Definition set_valEnd (v : Z) (z : Tokenizer) : Tokenizer :=
  set_pendingAttr (fst (pendingAttr z), set_End v (snd (pendingAttr z))) z.

Fixpoint readTagAttrKey_loop (fuel : nat) : M unit :=
  match fuel with
  | O => out_of_fuel
  | S f =>
      c <- readByte ;;
      e <- gets isErr ;;
      if e then modify (fun z => set_keyEnd (rawEnd z) z)
      else if beq c "{" then
        modify (fun z => set_keyStart (rawEnd z) z) ;;;
        modify (set_pendingAttrType ShorthandAttribute) ;;;
        modify (set_attrExpressionStack 1) ;;;
        readTagAttrExpression fuel ;;;
        detectSpread ;;;
        readTagAttrKey_loop f
      else if isTagSpace c || beq c "/" then
        modify (fun z =>
          if isSpreadOrShorthand (pendingAttrType z)
          then set_keyEnd (rawEnd z - 2) z
          else set_keyEnd (rawEnd z - 1) z)
      else if beq c "=" || beq c ">" then
        rawEnd_add (-1) ;;;
        modify (fun z =>
          if isSpreadOrShorthand (pendingAttrType z)
          then set_keyEnd (rawEnd z - 1) z
          else set_keyEnd (rawEnd z) z)
      else readTagAttrKey_loop f
  end.

Definition readTagAttrKey (fuel : nat) : M unit :=
  modify (fun z => set_keyStart (rawEnd z) z) ;;;
  modify (set_pendingAttrType QuotedAttribute) ;;;
  readTagAttrKey_loop fuel.

(** The loop of a quoted or template-literal value. *)
Fixpoint readQuoted_loop (fuel : nat) (quote : byte) : M unit :=
  match fuel with
  | O => out_of_fuel
  | S f =>
      c <- readByte ;;
      e <- gets isErr ;;
      if e then modify (fun z => set_valEnd (rawEnd z) z)
      else if beq c quote then modify (fun z => set_valEnd (rawEnd z - 1) z)
      else readQuoted_loop f quote
  end.

(** The loop of an unquoted value. *)
Fixpoint readUnquoted_loop (fuel : nat) : M unit :=
  match fuel with
  | O => out_of_fuel
  | S f =>
      c <- readByte ;;
      e <- gets isErr ;;
      if e then modify (fun z => set_valEnd (rawEnd z) z)
      else if isTagSpace c then modify (fun z => set_valEnd (rawEnd z - 1) z)
      else if beq c ">" then
        rawEnd_add (-1) ;;; modify (fun z => set_valEnd (rawEnd z) z)
      else readUnquoted_loop f
  end.

Definition readTagAttrVal (fuel : nat) : M unit :=
  modify (fun z => set_valEnd (rawEnd z) (set_valStart (rawEnd z) z)) ;;;
  skipWhiteSpace fuel ;;;
  e0 <- gets isErr ;;
  if e0 then ret () else
  c <- readByte ;;
  e1 <- gets isErr ;;
  if e1 then ret () else
  if negb (beq c "=") then
    modify (fun z => match pendingAttrType z with
                     | QuotedAttribute => set_pendingAttrType EmptyAttribute z
                     | _ => z
                     end) ;;;
    rawEnd_add (-1)
  else
    skipWhiteSpace fuel ;;;
    e2 <- gets isErr ;;
    if e2 then ret () else
    quote <- readByte ;;
    e3 <- gets isErr ;;
    if e3 then ret () else
    if beq quote ">" then rawEnd_add (-1)
    else if beq quote "'" || beq quote DQ then
      modify (fun z => set_valStart (rawEnd z) z) ;;;
      modify (set_pendingAttrType QuotedAttribute) ;;;
      readQuoted_loop fuel quote
    else if beq quote "`" then
      modify (fun z => set_valStart (rawEnd z) z) ;;;
      modify (set_pendingAttrType TemplateLiteralAttribute) ;;;
      readQuoted_loop fuel quote
    else if beq quote "{" then
      modify (fun z => set_valStart (rawEnd z) z) ;;;
      modify (set_pendingAttrType ExpressionAttribute) ;;;
      modify (set_attrExpressionStack 1) ;;;
      readTagAttrExpression fuel ;;;
      modify (fun z => set_valEnd (rawEnd z - 1) z)
    else
      modify (fun z => set_valStart (rawEnd z - 1) z) ;;;
      modify (set_pendingAttrType QuotedAttribute) ;;;
      readUnquoted_loop fuel.

Fixpoint readTag_loop (fuel : nat) (saveAttr : bool) : M unit :=
  match fuel with
  | O => out_of_fuel
  | S f =>
      c <- readByte ;;
      e <- gets isErr ;;
      if e || beq c ">" then ret ()
      else
        rawEnd_add (-1) ;;;
        readTagAttrKey fuel ;;;
        readTagAttrVal fuel ;;;
        modify (fun z =>
          if saveAttr && negb (Start (fst (pendingAttr z)) =? End (fst (pendingAttr z)))
          then set_attrTypes (attrTypes z ++ [pendingAttrType z])
                 (set_attr (attr z ++ [pendingAttr z]) z)
          else z) ;;;
        skipWhiteSpace fuel ;;;
        e' <- gets isErr ;;
        if e' then ret () else readTag_loop f saveAttr
  end.

Definition readTag (fuel : nat) (saveAttr : bool) : M unit :=
  modify (set_pendingAttrType QuotedAttribute) ;;;
  modify (set_attr []) ;;;
  modify (set_attrTypes []) ;;;
  modify (set_attrExpressionStack 0) ;;;
  modify (set_nAttrReturned 0) ;;;
  readTagName fuel ;;;
  skipWhiteSpace fuel ;;;
  e <- gets isErr ;;
  if e then ret () else readTag_loop fuel saveAttr.

(** The HTML void elements listed in [readStartTag]. *)
Definition voidElements : list (list byte) :=
  map B ["area"; "base"; "br"; "col"; "command"; "embed"; "hr"; "img"; "input";
         "keygen"; "link"; "meta"; "param"; "source"; "track"; "wbr"]%string.

Definition readStartTag (fuel : nat) : M TokenType :=
  readTag fuel true ;;;
  ds <- gets dataStart ;;
  c <- bufIndex ds ;;
  raw0 <- (if beq c "i" then startTagIn [B "iframe"]
           else if beq c "n" then startTagIn [B "noembed"; B "noframes"]
           else if beq c "p" then startTagIn [B "plaintext"]
           else if beq c "s" then startTagIn [B "script"; B "style"]
           else if beq c "t" then startTagIn [B "textarea"; B "title"]
           else if beq c "x" then startTagIn [B "xmp"]
           else ret false) ;;
  raw1 <- (if negb raw0 then hasTag (B "data-astro-raw") else ret raw0) ;;
  (if raw1 then
     name <- (z_ <- gets id ;; bufSlice (dataStart z_) (dataEnd z_)) ;;
     modify (set_rawTag name)
   else ret ()) ;;;
  v <- startTagIn voidElements ;;
  if v then ret SelfClosingTagToken
  else
    e <- gets isErr ;;
    if e then ret StartTagToken
    else
      re <- gets rawEnd ;;
      c' <- bufIndex (re - 2) ;;
      if beq c' "/" then ret SelfClosingTagToken else ret StartTagToken.

(** The bounded loop of [readUnclosedTag]: at most [n] bytes are read. *)
Fixpoint readUnclosedTag_loop (n : nat) : M unit :=
  match n with
  | O => ret ()
  | S n' =>
      c <- readByte ;;
      e <- gets isErr ;;
      if e then modify (fun z => set_dataEnd (rawEnd z) z)
      else if isTagSpace c then modify (fun z => set_dataEnd (rawEnd z - 1) z)
      else readUnclosedTag_loop n'
  end.

Definition readUnclosedTag : M unit :=
  ds <- gets dataStart ;;
  b0 <- bufFrom ds ;;
  f <- gets fm ;;
  let b1 := if fm_eqb f FrontmatterOpen
            then (let close := index b0 (B "---") in
                  if negb (close =? -1) then firstn (Z.to_nat close) b0 else b0)
            else b0 in
  let close := index b1 [">"%byte] in
  if close =? -1 then
    modify (fun z => set_dataStart (rawEnd z - 1) z) ;;;
    readUnclosedTag_loop (length b1)
  else ret ().

(** ** Materialising a token: [Text], [TagName], [TagAttr], [Token] *)

(** [convertNewlines] works in place.  [cnCompact] is its inner copying loop,
    which turns every ["\r\n"] and every lone ["\r"] of the rest of the
    slice into ["\n"]. *)
Fixpoint cnCompact (s : list byte) : list byte :=
  match s with
  | [] => []
  | c :: r =>
      if beq c CR then
        match r with
        | d :: r' => if beq d LF then LF :: cnCompact r' else LF :: cnCompact r
        | [] => [LF]
        end
      else c :: cnCompact r
  end.

(** [convertNewlines s]: the bytes the slice holds afterwards (same length,
    the tail beyond the result keeps its old bytes) and the length of the
    slice returned. *)
Fixpoint convertNewlines (s : list byte) : list byte * nat :=
  match s with
  | [] => ([], 0%nat)
  | c :: r =>
      if negb (beq c CR) then
        let '(r', n) := convertNewlines r in (c :: r', S n)
      else
        match r with
        | d :: _ =>
            if beq d LF then
              let out := cnCompact r in
              (out ++ skipn (length out) s, length out)
            else let '(r', n) := convertNewlines r in (LF :: r', S n)
        | [] => ([LF], 1%nat)
        end
  end.

(** Write [bs] into the backing array of [z.buf] from offset [a] on. *)
Definition writeBack (a : Z) (bs : list byte) : M unit :=
  modify (fun z =>
    let arr := backing z in
    let arr' := firstn (Z.to_nat a) arr ++ bs ++
                skipn (Z.to_nat a + length bs) arr in
    set_slack (skipn (length (buf z)) arr')
      (set_buf (firstn (length (buf z)) arr') z)).

(** The effects of [Text] on the tokenizer (its result is not needed). *)
Definition Text : M unit :=
  t <- gets tt ;;
  match t with
  | TextToken | CommentToken | DoctypeToken =>
      z0 <- gets id ;;
      s <- bufSlice (dataStart z0) (dataEnd z0) ;;
      modify (fun z => set_dataEnd (rawEnd z) (set_dataStart (rawEnd z) z)) ;;;
      writeBack (dataStart z0) (fst (convertNewlines s))
  | _ => ret ()
  end.

(** [TagName]: only [hasAttr] of its result is kept. *)
Definition TagName : M bool :=
  z0 <- gets id ;;
  if dataStart z0 <? dataEnd z0 then
    match tt z0 with
    | StartTagToken | EndTagToken | SelfClosingTagToken =>
        bufSlice (dataStart z0) (dataEnd z0) ;;;
        modify (fun z => set_dataEnd (rawEnd z) (set_dataStart (rawEnd z) z)) ;;;
        ret (nAttrReturned z0 <? Z.of_nat (length (attr z0)))
    | _ => ret false
    end
  else ret false.

Section Token.

(** [unescape] lives in [escape.go], which is not among the sources at
    hand.  It rewrites an attribute value in place; the bytes it leaves
    in the value's range are taken as a parameter. *)
Variable unescape : list byte -> list byte.

(** [TagAttr]: only [moreAttr] of its result is kept. *)
Definition TagAttr : M bool :=
  z0 <- gets id ;;
  if nAttrReturned z0 <? Z.of_nat (length (attr z0)) then
    match tt z0 with
    | StartTagToken | SelfClosingTagToken =>
        match at_ (attr z0) (nAttrReturned z0), at_ (attrTypes z0) (nAttrReturned z0) with
        | Some x, Some _ =>
            modify (fun z => set_nAttrReturned (nAttrReturned z + 1) z) ;;;
            bufSlice (Start (fst x)) (End (fst x)) ;;;
            val <- bufSlice (Start (snd x)) (End (snd x)) ;;
            let '(val', n) := convertNewlines val in
            writeBack (Start (snd x)) val' ;;;
            let v := firstn n val' in
            writeBack (Start (snd x)) (firstn (length v) (unescape v ++ v)) ;;;
            gets (fun z => nAttrReturned z <? Z.of_nat (length (attr z)))
        | _, _ => panic BoundsError
        end
    | _ => ret false
    end
  else ret false.

Fixpoint Token_attrs (fuel : nat) (moreAttr : bool) : M unit :=
  match fuel with
  | O => out_of_fuel
  | S f => if moreAttr then more <- TagAttr ;; Token_attrs f more else ret ()
  end.

(** [z.Token().Type]: the effects of [Token] and the kind of the token it
    builds. *)
Definition Token_Type (fuel : nat) : M TokenType :=
  t <- gets tt ;;
  match t with
  | TextToken | CommentToken | DoctypeToken => Text ;;; ret t
  | StartTagToken | SelfClosingTagToken | EndTagToken =>
      more <- TagName ;;
      Token_attrs fuel more ;;;
      ret t
  | _ => ret t
  end.

(** ** [readRawOrRCDATA] *)

Fixpoint readRawOrRCDATA_loop (fuel : nat) : M unit :=
  match fuel with
  | O => out_of_fuel
  | S f =>
      c <- readByte ;;
      e <- gets isErr ;;
      if e then ret ()
      else if negb (beq c "<") then readRawOrRCDATA_loop f
      else
        c' <- readByte ;;
        e' <- gets isErr ;;
        if e' then ret ()
        else if negb (beq c' "/") then rawEnd_add (-1) ;;; readRawOrRCDATA_loop f
        else
          b <- readRawEndTag ;;
          e'' <- gets isErr ;;
          if b || e'' then ret () else readRawOrRCDATA_loop f
  end.

Definition readRawOrRCDATA (fuel : nat) : M unit :=
  t <- Token_Type fuel ;;
  if TokenType_eqb t SelfClosingTagToken then
    modify (fun z => set_dataEnd (rawEnd z) z) ;;;
    modify (set_rawTag [])
  else
    tag <- gets rawTag ;;
    if bytes_eqb tag (B "script") then
      readScript fuel ;;;
      modify (set_textIsRaw true) ;;;
      modify (set_rawTag [])
    else
      readRawOrRCDATA_loop fuel ;;;
      modify (fun z => set_dataEnd (rawEnd z) z) ;;;
      modify (fun z => set_textIsRaw
                         (negb (bytes_eqb (rawTag z) (B "textarea")) &&
                          negb (bytes_eqb (rawTag z) (B "title"))) z) ;;;
      modify (set_rawTag []).

(** [isAtExpressionBoundary]. *)
Definition isAtExpressionBoundary (z : Tokenizer) : bool :=
  match expressionStack z with
  | [] => false
  | _ =>
      match prevTokenType z with
      | StartTagToken | EndTagToken | SelfClosingTagToken | EndExpressionToken => false
      | _ => true
      end
  end.

(** ** [Next] *)

(** The four labelled loops of [Next]. *)
Inductive Label : Type :=
| L_loop
| L_frontmatter_loop
| L_raw_with_expression_loop
| L_expression_loop.

(** How one pass through a loop body ends: [continue], [break] (to the
    code after the loop), [goto] another loop, or [return z.tt]. *)
Inductive Ctl : Type :=
| Continue
| Break
| Goto (l : Label)
| Return.

(** [z.tt = t; return z.tt]. *)
Definition returnToken (t : TokenType) : M Ctl :=
  modify (set_tt t) ;;; ret Return.

(** The pending text before offset [x] is returned first:
    [z.raw.End = x; z.data.End = x; z.tt = TextToken; return z.tt]. *)
Definition flushText (x : Z) : M Ctl :=
  modify (set_rawEnd x) ;;;
  modify (set_dataEnd x) ;;;
  returnToken TextToken.

Definition msgFragment (element0 : list byte) : list byte :=
  B "Unable to assign attributes when using <> Fragment shorthand syntax!" ++
  [LF; LF] ++ B "To fix this, please change" ++ [LF] ++
  B "  " ++ (B "< " ++ element0 ++ B ">") ++ [LF] ++
  B "to use the longhand Fragment syntax:" ++ [LF] ++
  B "  " ++ (B "<Fragment " ++ element0 ++ B ">") ++ [LF].

(** [bytes.Split(s, []byte{'>'})[0]]. *)
Fixpoint firstField (s : list byte) : list byte :=
  match s with
  | [] => []
  | c :: s' => if beq c ">" then [] else c :: firstField s'
  end.

(** [string(z.buf[z.data.Start:z.data.End]) == "Markdown"]. *)
Definition tagIsMarkdown : M bool :=
  z0 <- gets id ;;
  name <- bufSlice (dataStart z0) (dataEnd z0) ;;
  ret (bytes_eqb name (B "Markdown")).

Definition closeInitialFrontmatter : M unit :=
  modify (fun z => if fm_eqb (fm z) FrontmatterInitial
                   then set_fm FrontmatterClosed z else z).

(** The markup-declaration, end-tag and start-tag arms that follow
    [readUnclosedTag] in the main loop. *)
Definition loop_startTag (fuel : nat) : M Ctl :=
  closeInitialFrontmatter ;;;
  t <- readStartTag fuel ;;
  modify (set_tt t) ;;;
  md <- tagIsMarkdown ;;
  modify (fun z => if md then set_m MarkdownOpen z
                   else if md_eqb (m z) MarkdownOpen then set_m MarkdownInnerTag z
                   else z) ;;;
  ret Return.

Definition loop_endTag (fuel : nat) : M Ctl :=
  closeInitialFrontmatter ;;;
  c <- readByte ;;
  e <- gets isErr ;;
  if e then ret Break
  else if beq c ">" then returnToken EndTagToken
  else if isLetter c then
    readTag fuel false ;;;
    md <- tagIsMarkdown ;;
    modify (fun z => if md then set_m MarkdownClosed z
                     else if md_eqb (m z) MarkdownInnerTag then set_m MarkdownOpen z
                     else z) ;;;
    e' <- gets isErr ;;
    if e' then returnToken ErrorToken else returnToken EndTagToken
  else rawEnd_add (-1) ;;; returnToken CommentToken.

Definition loop_comment (fuel : nat) (c : byte) : M Ctl :=
  if beq c "!" then
    t <- readMarkupDeclaration fuel ;;
    returnToken t
  else
    rawEnd_add (-1) ;;;
    readUntilCloseAngle fuel ;;;
    returnToken CommentToken.

(** One pass through the body of [loop:]. *)
Definition loop_body (fuel : nat) : M Ctl :=
  c <- readByte ;;
  e <- gets isErr ;;
  if e then ret Break else
  md <- gets m ;;
  if md_eqb md MarkdownOpen && isQuote c then
    readString fuel c ;;;
    modify (set_tt TextToken) ;;;
    modify (fun z => set_dataEnd (rawEnd z) z) ;;;
    ret Return
  else if isBrace c then
    z0 <- gets id ;;
    let x := rawEnd z0 - 1 in
    if rawStart z0 <? x then flushText x
    else rawEnd_add (-1) ;;; ret (Goto L_expression_loop)
  else
  f <- gets fm ;;
  if beq c "-" && negb (fm_eqb f FrontmatterClosed) then
    rawEnd_add (-1) ;;; ret (Goto L_frontmatter_loop)
  else if negb (beq c "<") then ret Continue
  else if fm_eqb f FrontmatterOpen then
    rawEnd_add (-1) ;;; ret (Goto L_frontmatter_loop)
  else
  c <- readByte ;;
  e <- gets isErr ;;
  if e then ret Break else
  if beq c ">" then
    z0 <- gets id ;;
    let x := rawEnd z0 - 2 in
    if rawStart z0 <? x then flushText x else returnToken StartTagToken
  else
  modify (set_openBraceIsExpressionStart true) ;;;
  let tokenType :=
    if isLetter c then Some StartTagToken
    else if beq c "/" then Some EndTagToken
    else if beq c "!" || beq c "?" then Some CommentToken
    else None in
  match tokenType with
  | None =>
      r <- Raw ;;
      if (Z.of_nat (length r) >? 1) && hasPrefix r ["<"%byte] then
        b <- Buffered ;;
        panic (Fatal (msgFragment (firstField b)))
      else rawEnd_add (-1) ;;; ret Continue
  | Some tk =>
      z0 <- gets id ;;
      let x := rawEnd z0 - 2 in
      if rawStart z0 <? x then flushText x else
      readUnclosedTag ;;;
      e <- gets isErr ;;
      if e then ret Break else
      match tk with
      | StartTagToken => loop_startTag fuel
      | EndTagToken => loop_endTag fuel
      | _ => loop_comment fuel c
      end
  end.

(** One pass through the body of [frontmatter_loop:]. *)
Definition frontmatter_body (fuel : nat) : M Ctl :=
  f0 <- gets fm ;;
  if fm_eqb f0 FrontmatterClosed then ret (Goto L_loop) else
  c <- readByte ;;
  e <- gets isErr ;;
  if e then ret Break else
  (if beq c "-" then modify (fun z => set_dashCount (dashCount z + 1) z) else ret ()) ;;;
  z1 <- gets id ;;
  let fence :=
    if dashCount z1 =? 3 then
      match fm z1 with
      | FrontmatterInitial =>
          Some (modify (set_fm FrontmatterOpen) ;;;
                modify (set_dashCount 0) ;;;
                modify (fun z => set_dataEnd (rawEnd z) z) ;;;
                modify (set_tt FrontmatterFenceToken) ;;;
                modify (set_openBraceIsExpressionStart false) ;;;
                ret Return)
      | FrontmatterOpen =>
          if rawStart z1 <? rawEnd z1 - 3 then
            Some (modify (fun z => set_dataEnd (rawEnd z - 3) z) ;;;
                  modify (set_openBraceIsExpressionStart false) ;;;
                  returnToken TextToken)
          else
            Some (modify (set_fm FrontmatterClosed) ;;;
                  modify (set_dashCount 0) ;;;
                  modify (fun z => set_dataEnd (rawEnd z) z) ;;;
                  modify (set_tt FrontmatterFenceToken) ;;;
                  modify (set_openBraceIsExpressionStart true) ;;;
                  ret Return)
      | FrontmatterClosed => None
      end
    else None in
  match fence with
  | Some k => k
  | None =>
      if beq c "-" then ret Continue
      else if beq c "/" then
        readCommentOrRegExp fuel [] ;;;
        modify (set_tt TextToken) ;;;
        modify (fun z => set_dataEnd (rawEnd z) z) ;;;
        ret Return
      else
        rs <- gets rawStart ;;
        s <- bufSlice1 rs ;;
        if beq s "<" || isBrace s || beq c "<" || isBrace c then
          modify (set_dashCount 0) ;;;
          f <- gets fm ;;
          if fm_eqb f FrontmatterOpen && (beq s "<" || beq c "<") then ret Continue
          else rawEnd_add (-1) ;;; ret (Goto L_loop)
        else if isQuote c then
          readString fuel c ;;;
          modify (set_tt TextToken) ;;;
          modify (fun z => set_dataEnd (rawEnd z) z) ;;;
          ret Return
        else modify (set_dashCount 0) ;;; ret Continue
  end.

(** One pass through the body of [raw_with_expression_loop:]. *)
Definition raw_with_expression_body (fuel : nat) : M Ctl :=
  c <- readByte ;;
  e <- gets isErr ;;
  if e then ret Break else
  if isQuote c then
    readString fuel c ;;;
    modify (set_tt TextToken) ;;;
    modify (fun z => set_dataEnd (rawEnd z) z) ;;;
    ret Return
  else if isBrace c then
    z0 <- gets id ;;
    let x := rawEnd z0 - 1 in
    if rawStart z0 <? x then flushText x
    else rawEnd_add (-1) ;;; ret (Goto L_expression_loop)
  else if negb (beq c "<") then ret Continue
  else
    c' <- readByte ;;
    e' <- gets isErr ;;
    if e' then ret Break
    else if negb (beq c' "/") then rawEnd_add (-1) ;;; ret Continue
    else
      b <- readRawEndTag ;;
      e'' <- gets isErr ;;
      if b || e'' then ret Break else ret Continue.

(** [z.expressionStack[len(z.expressionStack)-1] += k]. *)
Definition bumpTop (k : Z) (st : list Z) : list Z :=
  match rev st with
  | [] => []
  | t :: r => rev r ++ [t + k]
  end.

Definition topOf (st : list Z) : option Z :=
  match rev st with
  | [] => None
  | t :: _ => Some t
  end.

(** One pass through the body of [expression_loop:]. *)
Definition expression_body (fuel : nat) : M Ctl :=
  c <- readByte ;;
  e <- gets isErr ;;
  if e then ret Break else
  if beq c "/" then
    readCommentOrRegExp fuel [] ;;;
    modify (set_tt TextToken) ;;;
    modify (fun z => set_dataEnd (rawEnd z) z) ;;;
    ret Return
  else if isQuote c then
    readString fuel c ;;;
    modify (set_tt TextToken) ;;;
    modify (fun z => set_dataEnd (rawEnd z) z) ;;;
    ret Return
  else if beq c "<" then
    rawEnd_add (-1) ;;;
    modify (fun z => set_dataEnd (rawEnd z) z) ;;;
    tag <- gets rawTag ;;
    match tag with
    | [] => ret (Goto L_loop)
    | _ => ret (Goto L_raw_with_expression_loop)
    end
  else if negb (isBrace c) then ret Continue
  else
    z0 <- gets id ;;
    let x := rawEnd z0 - 1 in
    if rawStart z0 <? x then flushText x else
    if beq c "{" then
      if openBraceIsExpressionStart z0 then
        modify (set_openBraceIsExpressionStart false) ;;;
        modify (fun z => set_expressionStack (expressionStack z ++ [0]) z) ;;;
        modify (fun z => set_dataEnd (rawEnd z - 1) z) ;;;
        returnToken StartExpressionToken
      else
        modify (fun z => set_expressionStack (bumpTop 1 (expressionStack z)) z) ;;;
        modify (fun z => set_dataEnd (rawEnd z) z) ;;;
        returnToken TextToken
    else
      match expressionStack z0 with
      | [] =>
          modify (fun z => set_dataEnd (rawEnd z) z) ;;;
          returnToken TextToken
      | _ =>
          modify (fun z => set_expressionStack (bumpTop (-1) (expressionStack z)) z) ;;;
          st <- gets expressionStack ;;
          match topOf st with
          | Some (-1) =>
              modify (set_openBraceIsExpressionStart true) ;;;
              modify (fun z => set_expressionStack (removelast (expressionStack z)) z) ;;;
              modify (fun z => set_dataEnd (rawEnd z) z) ;;;
              returnToken EndExpressionToken
          | _ => ret Continue
          end
      end.

Definition body (fuel : nat) (l : Label) : M Ctl :=
  match l with
  | L_loop => loop_body fuel
  | L_frontmatter_loop => frontmatter_body fuel
  | L_raw_with_expression_loop => raw_with_expression_body fuel
  | L_expression_loop => expression_body fuel
  end.

(** The code that follows each loop, reached by [break]: [Some l] falls
    through into the loop [l], [None] has returned. *)
Definition afterLoop (l : Label) : M (option Label) :=
  match l with
  | L_loop =>
      z0 <- gets id ;;
      if rawStart z0 <? rawEnd z0 then
        modify (set_openBraceIsExpressionStart false) ;;;
        modify (fun z => set_dataEnd (rawEnd z) z) ;;;
        modify (set_tt TextToken) ;;;
        ret None
      else modify (set_tt ErrorToken) ;;; ret None
  | L_frontmatter_loop =>
      modify (fun z => set_dataEnd (rawEnd z) z) ;;;
      ret (Some L_raw_with_expression_loop)
  | L_raw_with_expression_loop =>
      modify (fun z => set_dataEnd (rawEnd z) z) ;;;
      modify (fun z => set_textIsRaw
                         (negb (bytes_eqb (rawTag z) (B "textarea")) &&
                          negb (bytes_eqb (rawTag z) (B "title"))) z) ;;;
      modify (set_rawTag []) ;;;
      ret (Some L_expression_loop)
  | L_expression_loop =>
      z0 <- gets id ;;
      if rawStart z0 <? rawEnd z0 then
        modify (fun z => set_dataEnd (rawEnd z) z) ;;;
        modify (set_tt TextToken) ;;;
        ret None
      else modify (set_tt ErrorToken) ;;; ret None
  end.

(** The loops of [Next], entered at label [l]. *)
Fixpoint run (fuel : nat) (l : Label) : M unit :=
  match fuel with
  | O => out_of_fuel
  | S f =>
      c <- body fuel l ;;
      match c with
      | Continue => run f l
      | Goto l' => run f l'
      | Return => ret ()
      | Break =>
          n <- afterLoop l ;;
          match n with
          | Some l' => run f l'
          | None => ret ()
          end
      end
  end.

(** [for z.err == nil { z.readByte() }]. *)
Fixpoint readToEOF (fuel : nat) : M unit :=
  match fuel with
  | O => out_of_fuel
  | S f =>
      e <- gets isErr ;;
      if e then ret () else readByte ;;; readToEOF f
  end.

(** The code of [Next] from [z.textIsRaw = false] on. *)
Definition Next_dispatch (fuel : nat) : M unit :=
  modify (set_textIsRaw false) ;;;
  modify (set_convertNUL false) ;;;
  z0 <- gets id ;;
  if negb (fm_eqb (fm z0) FrontmatterClosed) then run fuel L_frontmatter_loop
  else if isAtExpressionBoundary z0 then run fuel L_expression_loop
  else run fuel L_loop.

(** The end of the raw-text arm of [Next]: a non-empty raw text is returned
    as a text token. *)
Definition Next_rawText (fuel : nat) : M unit :=
  z1 <- gets id ;;
  if dataEnd z1 >? dataStart z1 then
    modify (set_tt TextToken) ;;;
    modify (set_convertNUL true)
  else Next_dispatch fuel.

(** [Next]: scans the next token and returns its type. *)
Definition Next (fuel : nat) : M TokenType :=
  modify (fun z => set_rawStart (rawEnd z) z) ;;;
  modify (fun z => set_dataStart (rawEnd z) z) ;;;
  modify (fun z => set_dataEnd (rawEnd z) z) ;;;
  modify (fun z => set_prevTokenType (tt z) z) ;;;
  f <- gets fm ;;
  (if fm_eqb f FrontmatterOpen then
     t <- Token_Type fuel ;;
     match t with
     | StartTagToken | EndTagToken => ret ()
     | _ => modify (set_openBraceIsExpressionStart false)
     end
   else ret ()) ;;;
  tag <- gets rawTag ;;
  (match tag with
   | [] => Next_dispatch fuel
   | _ =>
       if bytes_eqb tag (B "plaintext") then
         readToEOF fuel ;;;
         modify (fun z => set_dataEnd (rawEnd z) z) ;;;
         modify (set_textIsRaw true) ;;;
         Next_rawText fuel
       else if bytes_eqb tag (B "title") || bytes_eqb tag (B "textarea") then
         run fuel L_raw_with_expression_loop
       else
         readRawOrRCDATA fuel ;;;
         Next_rawText fuel
   end) ;;;
  gets tt.

(** [Err]. *)
Definition Err (z : Tokenizer) : option error :=
  match tt z with
  | ErrorToken => err z
  | _ => None
  end.

End Token.

(** [strings.ToLower] on a single byte: the ASCII letters [A] to [Z] are
    folded and every other byte is kept.  Go's [strings.ToLower] works on
    runes and also lowers letters outside ASCII (U+0130 becomes [i], so
    in Go a context tag spelled with it can still name a raw text
    element); context tags with bytes outside ASCII are not covered by
    this definition. *)
Definition toLower (c : byte) : byte :=
  if (byteZ "A" <=? byteZ c) && (byteZ c <=? byteZ "Z")
  then match Byte.of_N (Byte.to_N c + 32) with Some c' => c' | None => c end
  else c.

(** [NewTokenizerFragment]: [input] is everything the reader delivers and
    [slack] the unused tail of the buffer allocated for it. *)
Definition NewTokenizerFragment (input slack : list byte) (contextTag : list byte)
  : Tokenizer :=
  let s := map toLower contextTag in
  {| tt := ErrorToken; prevTokenType := ErrorToken;
     fm := FrontmatterInitial; m := MarkdownInitial; err := None;
     raw := mkSpan 0 0; buf := input; slack := slack; data := mkSpan 0 0;
     pendingAttr := (mkSpan 0 0, mkSpan 0 0); pendingAttrType := QuotedAttribute;
     attr := []; attrTypes := []; attrExpressionStack := 0; nAttrReturned := 0;
     dashCount := 0; expressionStack := []; openBraceIsExpressionStart := true;
     rawTag := if existsb (bytes_eqb s)
                    (map B ["iframe"; "noembed"; "noframes"; "plaintext"; "script";
                            "style"; "title"; "textarea"; "xmp"]%string)
               then s else [];
     textIsRaw := false; convertNUL := false; allowCDATA := false |}.

Definition NewTokenizer (input slack : list byte) : Tokenizer :=
  NewTokenizerFragment input slack [].

(** ** The token stream seen by a consumer

    A consumer that calls [Next] and, after each call, [Raw]. *)

Record Tok : Type := mkTok {
  kind : TokenType;       (* what [Next] returned *)
  span : Span;            (* [z.raw] after the call *)
  rawBytes : option (list byte)   (* [Raw()], [None] if it panics *)
}.

Inductive Stop : Type :=
| AtError (errTok : Tok) (z : Tokenizer)  (* [Next] returned [ErrorToken] *)
| AtPanic (p : PanicValue)                (* [Next] panicked *)
| AtFuel                                  (* a call of [Next] ran out of fuel *)
| AtLimit (z : Tokenizer).                (* the consumer stopped calling *)

Definition tokOf (t : TokenType) (z : Tokenizer) : Tok :=
  {| kind := t; span := raw z;
     rawBytes := match Raw z with Ok r _ => Some r | _ => None end |}.

Section Stream.

Variable unescape : list byte -> list byte.

(** At most [n] calls of [Next], each with [fuel]; the tokens returned
    before the first [ErrorToken], and how the stream stopped. *)
Fixpoint tokens (fuel n : nat) (z : Tokenizer) : list Tok * Stop :=
  match n with
  | O => ([], AtLimit z)
  | S n' =>
      match Next unescape fuel z with
      | Ok ErrorToken z' => ([], AtError (tokOf ErrorToken z') z')
      | Ok t z' =>
          let '(l, s) := tokens fuel n' z' in (tokOf t z' :: l, s)
      | Panicked p => ([], AtPanic p)
      | OutOfFuel => ([], AtFuel)
      end
  end.

(** [Next] called [n] times, whatever it returns. *)
Fixpoint NextN (fuel n : nat) (z : Tokenizer) : Res (list TokenType) :=
  match n with
  | O => Ok [] z
  | S n' =>
      match Next unescape fuel z with
      | Ok t z' =>
          match NextN fuel n' z' with
          | Ok l z'' => Ok (t :: l) z''
          | r => r
          end
      | Panicked p => Panicked p
      | OutOfFuel => OutOfFuel
      end
  end.

End Stream.

(** The concatenation of the raw bytes of a list of tokens; [None] as soon
    as one [Raw()] panicked. *)
Fixpoint concatRaw (l : list Tok) : option (list byte) :=
  match l with
  | [] => Some []
  | t :: l' =>
      match rawBytes t, concatRaw l' with
      | Some r, Some rs => Some (r ++ rs)
      | _, _ => None
      end
  end.

Definition countKind (k : TokenType) (l : list Tok) : nat :=
  length (List.filter (fun t => TokenType_eqb (kind t) k) l).

(** * The document tree ([internal/node.go])

    Nodes live in a heap addressed by node identifiers; a [*Node] is an
    optional identifier ([None] is [nil]).  The attribute slice of a node
    points into a separate store of attribute arrays, so that sharing and
    freshness of the slice can be told apart. *)

Module Tree.

Inductive NodeType : Type :=
| ErrorNode
| TextNode
| DocumentNode
| ElementNode
| CommentNode
| DoctypeNode
| RawNode
| scopeMarkerNode
| FrontmatterNode
| ExpressionNode.

(** [Attribute] of [token.go]; its [Tokenizer] pointer is an identifier. *)
Record Attribute : Type := mkAttribute {
  AttrNamespace : string;
  Key : string;
  KeyLoc : Z;
  Val : string;
  ValLoc : Z;
  AttrTokenizer : option nat;
  AttrType : AttributeType
}.

(** The zero value of [Attribute], which [make] fills a new array with. *)
Definition zeroAttribute : Attribute :=
  mkAttribute "" "" 0 "" 0 None QuotedAttribute.

Definition Ptr : Type := option nat.

Record Node : Type := mkNode {
  Fragment : bool;
  CustomElement : bool;
  Component : bool;
  Expression : bool;
  Parent : Ptr;
  FirstChild : Ptr;
  LastChild : Ptr;
  PrevSibling : Ptr;
  NextSibling : Ptr;
  Styles : list nat;
  Scripts : list nat;
  HydratedComponents : list nat;
  ClientOnlyComponents : list nat;
  HydrationDirectives : list (string * bool);
  Type_ : NodeType;
  DataAtom : Z;
  Data : string;
  Namespace : string;
  Attr : option nat;      (* the array behind the slice; [None] is a nil slice *)
  Loc : list Z
}.

Definition set_Parent (v : Ptr) (n : Node) : Node :=
  mkNode (Fragment n) (CustomElement n) (Component n) (Expression n)
    v (FirstChild n) (LastChild n) (PrevSibling n) (NextSibling n)
    (Styles n) (Scripts n) (HydratedComponents n) (ClientOnlyComponents n)
    (HydrationDirectives n) (Type_ n) (DataAtom n) (Data n) (Namespace n)
    (Attr n) (Loc n).
Definition set_FirstChild (v : Ptr) (n : Node) : Node :=
  mkNode (Fragment n) (CustomElement n) (Component n) (Expression n)
    (Parent n) v (LastChild n) (PrevSibling n) (NextSibling n)
    (Styles n) (Scripts n) (HydratedComponents n) (ClientOnlyComponents n)
    (HydrationDirectives n) (Type_ n) (DataAtom n) (Data n) (Namespace n)
    (Attr n) (Loc n).
Definition set_LastChild (v : Ptr) (n : Node) : Node :=
  mkNode (Fragment n) (CustomElement n) (Component n) (Expression n)
    (Parent n) (FirstChild n) v (PrevSibling n) (NextSibling n)
    (Styles n) (Scripts n) (HydratedComponents n) (ClientOnlyComponents n)
    (HydrationDirectives n) (Type_ n) (DataAtom n) (Data n) (Namespace n)
    (Attr n) (Loc n).
Definition set_PrevSibling (v : Ptr) (n : Node) : Node :=
  mkNode (Fragment n) (CustomElement n) (Component n) (Expression n)
    (Parent n) (FirstChild n) (LastChild n) v (NextSibling n)
    (Styles n) (Scripts n) (HydratedComponents n) (ClientOnlyComponents n)
    (HydrationDirectives n) (Type_ n) (DataAtom n) (Data n) (Namespace n)
    (Attr n) (Loc n).
Definition set_NextSibling (v : Ptr) (n : Node) : Node :=
  mkNode (Fragment n) (CustomElement n) (Component n) (Expression n)
    (Parent n) (FirstChild n) (LastChild n) (PrevSibling n) v
    (Styles n) (Scripts n) (HydratedComponents n) (ClientOnlyComponents n)
    (HydrationDirectives n) (Type_ n) (DataAtom n) (Data n) (Namespace n)
    (Attr n) (Loc n).

(** The node heap. *)
Abbreviation Heap := (gmap nat Node).

(** [x.f = v] for the node [x]; [None] is the nil-pointer panic. *)
Definition store (x : nat) (f : Node -> Node) (h : Heap) : option Heap :=
  match h !! x with
  | Some nd => Some (<[x := f nd]> h)
  | None => None
  end.

(** [if p != nil { p.f = v } else { alt }]. *)
Definition storeOr (p : Ptr) (f : Node -> Node) (alt : Heap -> option Heap)
           (h : Heap) : option Heap :=
  match p with
  | Some x => store x f h
  | None => alt h
  end.

Definition ptr_eqb (a b : Ptr) : bool := bool_decide (a = b).

Definition attached (nd : Node) : bool :=
  negb (ptr_eqb (Parent nd) None) || negb (ptr_eqb (PrevSibling nd) None) ||
  negb (ptr_eqb (NextSibling nd) None).

(** [n.InsertBefore(newChild, oldChild)]; [None] is a panic. *)
Definition InsertBefore (n newChild : nat) (oldChild : Ptr) (h : Heap) : option Heap :=
  c ← h !! newChild;
  if attached c then None else
  '(prev, next) ← match oldChild with
                  | Some o => nd ← h !! o; Some (PrevSibling nd, Some o)
                  | None => nd ← h !! n; Some (LastChild nd, None)
                  end;
  h1 ← storeOr prev (set_NextSibling (Some newChild))
         (store n (set_FirstChild (Some newChild))) h;
  h2 ← storeOr next (set_PrevSibling (Some newChild))
         (store n (set_LastChild (Some newChild))) h1;
  h3 ← store newChild (set_Parent (Some n)) h2;
  h4 ← store newChild (set_PrevSibling prev) h3;
  store newChild (set_NextSibling next) h4.

(** [n.AppendChild(c)]. *)
Definition AppendChild (n c : nat) (h : Heap) : option Heap :=
  cn ← h !! c;
  if attached cn then None else
  nd ← h !! n;
  let last := LastChild nd in
  h1 ← storeOr last (set_NextSibling (Some c))
         (store n (set_FirstChild (Some c))) h;
  h2 ← store n (set_LastChild (Some c)) h1;
  h3 ← store c (set_Parent (Some n)) h2;
  store c (set_PrevSibling last) h3.

(** [if cond { x.f = v }], where the condition and the value are read
    from the heap as it is at that point. *)
Definition RemoveChild (n c : nat) (h : Heap) : option Heap :=
  cn ← h !! c;
  if negb (ptr_eqb (Parent cn) (Some n)) then None else
  nd ← h !! n;
  h1 ← (if ptr_eqb (FirstChild nd) (Some c)
        then store n (set_FirstChild (NextSibling cn)) h else Some h);
  c1 ← h1 !! c;
  h2 ← match NextSibling c1 with
       | Some x => store x (set_PrevSibling (PrevSibling c1)) h1
       | None => Some h1
       end;
  n2 ← h2 !! n;
  c2 ← h2 !! c;
  h3 ← (if ptr_eqb (LastChild n2) (Some c)
        then store n (set_LastChild (PrevSibling c2)) h2 else Some h2);
  c3 ← h3 !! c;
  h4 ← match PrevSibling c3 with
       | Some x => store x (set_NextSibling (NextSibling c3)) h3
       | None => Some h3
       end;
  h5 ← store c (set_Parent None) h4;
  h6 ← store c (set_PrevSibling None) h5;
  store c (set_NextSibling None) h6.

(** The store of attribute arrays. *)
Abbreviation Arrays := (gmap nat (list Attribute)).

(** [len(s)] and the elements of the slice [s]. *)
Definition sliceElems (s : option nat) (a : Arrays) : option (list Attribute) :=
  match s with
  | None => Some []
  | Some k => a !! k
  end.

(** [copy(dst, src)] on the elements. *)
Definition copy (dst src : list Attribute) : list Attribute :=
  let k := Nat.min (length dst) (length src) in
  firstn k src ++ skipn k dst.

(** [n.clone()]: the identifier of the new node and the stores after the
    call; [None] for a nil or dangling receiver. *)
Definition clone (n : nat) (h : Heap) (a : Arrays) : option (nat * Heap * Arrays) :=
  nd ← h !! n;
  src ← sliceElems (Attr nd) a;
  let arr := fresh (dom a) in
  let a1 := <[arr := replicate (length src) zeroAttribute]> a in
  let mid := fresh (dom h) in
  let m :=
    {| Fragment := false; CustomElement := CustomElement nd;
       Component := Component nd; Expression := false;
       Parent := None; FirstChild := None; LastChild := None;
       PrevSibling := None; NextSibling := None;
       Styles := []; Scripts := []; HydratedComponents := [];
       ClientOnlyComponents := []; HydrationDirectives := [];
       Type_ := Type_ nd; DataAtom := DataAtom nd; Data := Data nd;
       Namespace := ""; Attr := Some arr; Loc := Loc nd |} in
  let h1 := <[mid := m]> h in
  dst ← a1 !! arr;
  src' ← sliceElems (Attr nd) a1;
  Some (mid, h1, <[arr := copy dst src']> a1).

(** [GetAttribute(n, key)]: a copy of the first attribute of [n] whose key
    is [key].  The outer [None] is the panic for a nil or dangling [n],
    the inner [None] the nil result. *)
Definition GetAttribute (n : nat) (key : string) (h : Heap) (a : Arrays)
  : option (option Attribute) :=
  nd ← h !! n;
  elems ← sliceElems (Attr nd) a;
  Some (List.find (fun x => String.eqb (Key x) key) elems).

(** How a loop over the heap ends. *)
Inductive Outcome : Type :=
| Done (h : Heap)
| Panics
| NoFuel.

(** [reparentChildren(dst, src)]: one pass of the loop per unit of fuel. *)
Fixpoint reparentChildren (fuel : nat) (dst src : nat) (h : Heap) : Outcome :=
  match fuel with
  | O => NoFuel
  | S f =>
      match h !! src with
      | None => Panics
      | Some s =>
          match FirstChild s with
          | None => Done h
          | Some child =>
              match RemoveChild src child h with
              | None => Panics
              | Some h1 =>
                  match AppendChild dst child h1 with
                  | None => Panics
                  | Some h2 => reparentChildren f dst src h2
                  end
              end
          end
      end
  end.

(** [s[low:]] for a slice of length [length s] that fills its array;
    [None] is the panic for bounds out of range. *)
Definition sliceFrom {A} (low : Z) (s : list A) : option (list A) :=
  if ((0 <=? low) && (low <=? Z.of_nat (length s)))%Z then Some (drop (Z.to_nat low) s)
  else None.

(** [copy(dst, src)] for slices of one array: what [dst] holds afterwards. *)
Definition copyInto {A} (dst src : list A) : list A :=
  let k := Nat.min (length dst) (length src) in
  take k src ++ drop k dst.

(** [s[i] = v]. *)
Definition storeAt {A} (i : Z) (v : A) (s : list A) : option (list A) :=
  if ((0 <=? i) && (i <? Z.of_nat (length s)))%Z then Some (<[Z.to_nat i := v]> s)
  else None.

(** ** [nodeStack]

    A [nodeStack] is a slice of node pointers, the top of the stack last. *)

Module nodeStack.

(** [s.pop()]: the node returned and the stack afterwards. *)
Definition pop (s : list Ptr) : Ptr * list Ptr :=
  let i := length s in
  if (0 <? i)%nat then (default None (s !! (i - 1)%nat), take (i - 1)%nat s)
  else (None, s).

(** [s.top()]. *)
Definition top (s : list Ptr) : Ptr :=
  let i := length s in
  if (0 <? i)%nat then default None (s !! (i - 1)%nat) else None.

(** The loop of [s.index(n)], with [i] entries still to look at. *)
Fixpoint index_from (i : nat) (s : list Ptr) (n : Ptr) : Z :=
  match i with
  | O => (-1)%Z
  | S j => if ptr_eqb (default None (s !! j)) n then Z.of_nat j else index_from j s n
  end.

(** [s.index(n)]. *)
Definition index (s : list Ptr) (n : Ptr) : Z := index_from (length s) s n.

(** [s.contains(a)]; [None] is the panic at a nil or dangling entry. *)
Fixpoint contains (s : list Ptr) (a : Z) (h : Heap) : option bool :=
  match s with
  | [] => Some false
  | p :: s' =>
      x ← p;
      nd ← h !! x;
      if (DataAtom nd =? a)%Z && String.eqb (Namespace nd) "" then Some true
      else contains s' a h
  end.

(** [s.insert(i, n)]: the stack afterwards, [None] for a panic. *)
Definition insert (i : Z) (n : Ptr) (s : list Ptr) : option (list Ptr) :=
  let s1 := s ++ [None] in
  dst ← sliceFrom (i + 1) s1;
  src ← sliceFrom i s1;
  let s2 := take (Z.to_nat (i + 1)) s1 ++ copyInto dst src in
  storeAt i n s2.

(** [s.remove(n)]. *)
Definition remove (n : Ptr) (s : list Ptr) : list Ptr :=
  let i := index s n in
  if (i =? -1)%Z then s
  else
    let k := Z.to_nat i in
    let s1 := take k s ++ copyInto (drop k s) (drop (S k) s) in
    let j := (length s1 - 1)%nat in
    take j (<[j := None]> s1).

End nodeStack.

(** ** [insertionModeStack]

    An insertion mode is a function; [None] is the nil function. *)

Module insertionModeStack.

(** [s.pop()]: [None] is the panic of the index [-1] on the empty stack. *)
Definition pop {IM} (s : list (option IM)) : option (option IM * list (option IM)) :=
  let i := length s in
  if (0 <? i)%nat then
    im ← s !! (i - 1)%nat;
    Some (im, take (i - 1)%nat s)
  else None.

(** [s.top()]. *)
Definition top {IM} (s : list (option IM)) : option IM :=
  let i := length s in
  if (0 <? i)%nat then default None (s !! (i - 1)%nat) else None.

End insertionModeStack.

End Tree.

(** * Inputs, observations and invariants used in the statements *)

(** ** Tag names *)

(** The tag name [z.buf[z.data.Start:z.data.End]], when the span lies within
    the input. *)
Definition tagName (z : Tokenizer) : option (list byte) :=
  if (0 <=? dataStart z) && (dataStart z <=? dataEnd z) && (dataEnd z <=? len z)
  then Some (sub (buf z) (dataStart z) (dataEnd z)) else None.

(** [readTag] stops at the end of the input or just behind a [>]. *)
Definition closedOrErr (z : Tokenizer) : Prop :=
  isErr z = true \/ at_ (buf z) (rawEnd z - 1) = Some ">"%byte.

(** ** Observations and fixed inputs *)

(** What a consumer sees of a token: its kind and its raw bytes. *)
Definition view (t : Tok) : TokenType * option (list byte) := (kind t, rawBytes t).

Definition stoppedAtError (s : Stop) : Prop :=
  match s with AtError _ _ => True | _ => False end.

(** The stream stopped at an ErrorToken, in a state for which [P] holds. *)
Definition stoppedAtErrorIn (P : Tokenizer -> Prop) (s : Stop) : Prop :=
  match s with AtError _ z => P z | _ => False end.

Definition isOk {A} (r : Res A) : Prop :=
  match r with Ok _ _ => True | _ => False end.

Definition kinds (r : list Tok * Stop) : list TokenType := map kind (fst r).

(** An [unescape] that leaves the bytes as they are. *)
Definition noUnescape (v : list byte) : list byte := v.

Definition inputScript : list byte :=
  B "<script>var x = " ++ [DQ] ++ B "</script>" ++ [DQ] ++ B ";</script>".

(** The stream that string-aware scanning of [inputScript] would give. *)
Definition stringAwareStream : list (TokenType * option (list byte)) :=
  [ (StartTagToken, Some (B "<script>"));
    (TextToken, Some (B "var x = " ++ [DQ] ++ B "</script>" ++ [DQ] ++ B ";"));
    (EndTagToken, Some (B "</script>")) ].

(** The stream in which the first [</script>] closes the element. *)
Definition firstEndTagStream : list (TokenType * option (list byte)) :=
  [ (StartTagToken, Some (B "<script>"));
    (TextToken, Some (B "var x = " ++ [DQ]));
    (EndTagToken, Some (B "</script>"));
    (TextToken, Some ([DQ] ++ B ";"));
    (EndTagToken, Some (B "</script>")) ].

Definition inputFragmentAttrs : list byte :=
  B "< class=" ++ [DQ] ++ B "x" ++ [DQ] ++ B ">hi</>".

Definition inputBr : list byte := B "<br>".
Definition inputImg : list byte := B "<img src=" ++ [DQ] ++ B "x" ++ [DQ] ++ B ">".
Definition inputPath : list byte := B "<path/>".
Definition inputDiv : list byte := B "<div>".

Definition inputLineComment : list byte := B "<a b={//x" ++ [LF] ++ B "}>".
Definition inputBlockComment : list byte := B "<a b={/*x*/}>".

(** An unterminated string that ends in an escaped quote. *)
Definition inputOvershoot : list byte := [DQ; "a"%byte; BSL; DQ].

(** An end tag whose attribute expression holds [/x/] and is never closed. *)
Definition inputRewind : list byte := B "</a b={/x/>}y".

(** The tokenizer inside [<br>], just behind [<b]. *)
Definition insideBr : Tokenizer := set_rawEnd 2 (NewTokenizer inputBr []).

Definition afterBr : Tokenizer :=
  match readStartTag 10 insideBr with
  | Ok _ z => z
  | _ => insideBr
  end.

(** The tokenizer inside [<a b={//x ...], just behind the brace. *)
Definition insideLineComment : Tokenizer := set_rawEnd 6 (NewTokenizer inputLineComment []).

(** ** Scanning states *)

(** The tokenizer in the middle of a token: [done] are the bytes of the
    tokens returned so far, [cur] the bytes of the current token that were
    read, [rem] the bytes still to read; no tag was seen and no read hit
    the end of the input. *)
Record Scan (z : Tokenizer) (done cur rem : list byte)
    (f : FrontmatterState) (d : Z) (st : list Z) (ob : bool) : Prop := mkScan {
  sc_buf : buf z = done ++ cur ++ rem;
  sc_start : rawStart z = Z.of_nat (length done);
  sc_end : rawEnd z = Z.of_nat (length done) + Z.of_nat (length cur);
  sc_err : err z = None;
  sc_fm : fm z = f;
  sc_dash : dashCount z = d;
  sc_stack : expressionStack z = st;
  sc_ob : openBraceIsExpressionStart z = ob;
  sc_tag : rawTag z = []
}.

(** Bytes that the frontmatter loop reads one by one: no slash and no
    quote, and no [<] unless the frontmatter is open. *)
Definition okByte (f : FrontmatterState) (c : byte) : bool :=
  negb (beq c "/") && negb (isQuote c) &&
  (fm_eqb f FrontmatterOpen || negb (beq c "<")).

Definition notBrace (c : byte) : bool := negb (isBrace c).

(** [s], read behind [d] dashes, has no three dashes in a row. *)
Fixpoint noThreeDashes (d : Z) (s : list byte) : bool :=
  match s with
  | [] => true
  | c :: r => if beq c "-" then (d <? 2) && noThreeDashes (d + 1) r
              else noThreeDashes 0 r
  end.

(** The number of dashes at the end of [s], read behind [d] dashes. *)
Fixpoint dashRun (d : Z) (s : list byte) : Z :=
  match s with
  | [] => d
  | c :: r => dashRun (if beq c "-" then d + 1 else 0) r
  end.

(** What every loop leaves unchanged when it is entered at the end of the
    input. *)
Record SameInput (z z' : Tokenizer) : Prop := mkSameInput {
  si_buf : buf z' = buf z;
  si_start : rawStart z' = rawStart z;
  si_end : rawEnd z' = rawEnd z;
  si_fm : fm z' = fm z;
  si_stack : expressionStack z' = expressionStack z;
  si_tag : rawTag z' = []
}.

(** The state in which [Next] enters its loops, seen from the state [z] it
    was called in. *)
Record Entered (z z1 : Tokenizer) : Prop := mkEntered {
  en_buf : buf z1 = buf z;
  en_start : rawStart z1 = rawEnd z;
  en_end : rawEnd z1 = rawEnd z;
  en_err : err z1 = err z;
  en_fm : fm z1 = fm z;
  en_dash : dashCount z1 = dashCount z;
  en_stack : expressionStack z1 = expressionStack z;
  en_ob : openBraceIsExpressionStart z1
          = if fm_eqb (fm z) FrontmatterOpen then false
            else openBraceIsExpressionStart z;
  en_tag : rawTag z1 = rawTag z;
  en_prev : prevTokenType z1 = tt z
}.

(** Which loop [Next] enters. *)
Definition entryLabel (z1 : Tokenizer) : Label :=
  if negb (fm_eqb (fm z1) FrontmatterClosed) then L_frontmatter_loop
  else if isAtExpressionBoundary z1 then L_expression_loop
  else L_loop.

(** A token that is no start tag, end tag or self-closing tag. *)
Definition noTag (t : TokenType) : Prop :=
  t <> StartTagToken /\ t <> EndTagToken /\ t <> SelfClosingTagToken.

(** The first byte of a token that the frontmatter loop goes on reading:
    no brace, and [<] only while the frontmatter is open. *)
Definition firstOk (f : FrontmatterState) (s : byte) : Prop :=
  isBrace s = false /\ (f = FrontmatterOpen \/ beq s "<" = false).

(** ** The end of the input *)

(** The tokenizer stands at the end of the input, outside raw text. *)
Record Finished (z : Tokenizer) (f : FrontmatterState) : Prop := mkFinished {
  fin_end : rawEnd z = len z;
  fin_fm : fm z = f;
  fin_tag : rawTag z = []
}.

(** ** Expressions outside tags *)

(** What a brace or other byte [c] at the start of a token does to the
    stack of counters [st] and to the flag [ob] that says whether an
    opening brace starts an expression, and the kind of the token. *)
Definition exprStep (c : byte) (st : list Z) (ob : bool)
  : TokenType * (list Z * bool) :=
  if beq c "{" then
    if ob then (StartExpressionToken, (st ++ [0], false))
    else (TextToken, (bumpTop 1 st, false))
  else if beq c "}" then
    match topOf st with
    | None => (TextToken, (st, ob))
    | Some 0 => (EndExpressionToken, (removelast st, true))
    | Some _ => (TextToken, (bumpTop (-1) st, ob))
    end
  else (TextToken, (st, ob)).

(** The input from the next brace on. *)
Fixpoint skipPlain (s : list byte) : list byte :=
  match s with
  | [] => []
  | c :: r => if isBrace c then s else skipPlain r
  end.

(** What is left of the input [c :: r] behind the token that begins with
    [c]: a brace that opens or ends an expression, or that is text outside
    every expression, is a token of its own; every other token runs up to
    the next brace. *)
Definition restAfter (c : byte) (r : list byte) (st : list Z) : list byte :=
  if beq c "{" then r
  else if beq c "}" then
    match topOf st with
    | None | Some 0 => r
    | Some _ => skipPlain r
    end
  else skipPlain r.

(** The tokenizer between two tokens, with [rem] left to read. *)
Definition Boundary (z : Tokenizer) (rem : list byte) (f : FrontmatterState)
    (st : list Z) (ob : bool) : Prop :=
  (exists done cur, Scan z done cur rem f 0 st ob) \/
  (rem = [] /\ Finished z f /\ expressionStack z = st).

(** The braces of [s] are balanced, with [depth] open ones before it. *)
Fixpoint balanced (depth : nat) (s : list byte) : bool :=
  match s with
  | [] => Nat.eqb depth 0
  | c :: r =>
      if beq c "{" then balanced (S depth) r
      else if beq c "}" then
        match depth with
        | O => false
        | S d => balanced d r
        end
      else balanced depth r
  end.

Definition isExprToken (t : Tok) : bool :=
  match kind t with
  | StartExpressionToken | EndExpressionToken => true
  | _ => false
  end.

(** The StartExpression and EndExpression tokens of a stream, in order. *)
Definition exprKinds (l : list Tok) : list TokenType :=
  map kind (List.filter isExprToken l).

(** The stack and the flag at brace depth [depth], on input without tags:
    one counter for the one open expression, which counts the braces open
    within it. *)
Definition stackAt (depth : nat) (st : list Z) (ob : bool) : Prop :=
  match depth with
  | O => st = [] /\ ob = true
  | S d => st = [Z.of_nat d] /\ ob = false
  end.

(** [m] pairs of a StartExpressionToken and an EndExpressionToken. *)
Definition exprPairs (m : nat) : list TokenType :=
  concat (repeat [StartExpressionToken; EndExpressionToken] m).

(** What one pass of the expression loop does to the stack of counters. *)
Inductive StackStep (z z' : Tokenizer) (ctl : Ctl) : Prop :=
| stack_kept :
    expressionStack z' = expressionStack z ->
    (ctl = Return -> tt z' = TextToken) ->
    StackStep z z' ctl
| stack_pushed :
    ctl = Return -> tt z' = StartExpressionToken ->
    expressionStack z' = expressionStack z ++ [0] ->
    StackStep z z' ctl
| stack_raised (st : list Z) (k : Z) :
    ctl = Return -> tt z' = TextToken ->
    expressionStack z = st ++ [k] -> expressionStack z' = st ++ [k + 1] ->
    StackStep z z' ctl
| stack_lowered (st : list Z) (k : Z) :
    ctl = Continue -> k <> 0 ->
    expressionStack z = st ++ [k] -> expressionStack z' = st ++ [k - 1] ->
    StackStep z z' ctl
| stack_popped (st : list Z) :
    ctl = Return -> tt z' = EndExpressionToken ->
    expressionStack z = st ++ [0] -> expressionStack z' = st ->
    StackStep z z' ctl.

Definition inputDivision : list byte := B "{a / 2}".

Definition inputNested : list byte := B "{a {b}-- c}d{e}".

(** ** Strings and comments *)

(** The bytes at which a single-quoted or double-quoted string that began
    with [c] ends. *)
Definition stringEnds (c : byte) : list byte := [c; CR; LF].

(** The bytes at which a line comment ends. *)
Definition lineEnds : list byte := [CR; LF].

(** The bytes at which what the tokenizer takes for a regular expression
    ends. *)
Definition regexEnds : list byte := ["/"%byte; CR; LF].

(** No byte of [inner] is a backslash or one of [chars]. *)
Definition inert (chars : list byte) (inner : list byte) : bool :=
  forallb (fun b => negb (beq b BSL) && negb (memb b chars)) inner.

(** ** Frontmatter content *)

(** Neither a backslash nor a backquote. *)
Definition plainByte (c : byte) : bool := negb (beq c BSL) && negb (beq c "`").

(** A byte at which the frontmatter loop begins to read a string, a
    comment or a regular expression. *)
Definition isDelim (c : byte) : bool := beq c "/" || isQuote c.

(** [s] holds no slash directly followed by a star. *)
Fixpoint noBlockComment (s : list byte) : bool :=
  match s with
  | [] => true
  | c :: r => negb (beq c "/" && match r with c2 :: _ => beq c2 "*" | [] => false end)
              && noBlockComment r
  end.

(** [s] holds no dash directly followed by a slash or a quote. *)
Fixpoint noDashBeforeDelim (s : list byte) : bool :=
  match s with
  | [] => true
  | c :: r => negb (beq c "-" && match r with c2 :: _ => isDelim c2 | [] => false end)
              && noDashBeforeDelim r
  end.

(** [s], read behind [d] dashes, has no three dashes in a row and no dash
    directly before a slash or a quote. *)
Fixpoint calmDashes (d : Z) (s : list byte) : bool :=
  match s with
  | [] => true
  | c :: r => if beq c "-" then (d <? 2) && calmDashes (d + 1) r
              else if isDelim c then (d =? 0) && calmDashes 0 r
              else calmDashes 0 r
  end.

(** The closing fence and the line feed behind it. *)
Definition closingFence : list byte := B "---" ++ [LF].

(** A document that is nothing but frontmatter: the line [---], the lines
    of [content], the line [---]. *)
Definition frontmatterOnly (content : list byte) : list byte :=
  B "---" ++ [LF] ++ content ++ closingFence.

(** [content] is a sequence of whole lines. *)
Definition wholeLines (content : list byte) : Prop :=
  content = [] \/ exists l, content = l ++ [LF].

(** ** Frontmatter inputs *)

(** Frontmatter whose closing fence ends the input, without a line feed. *)
Definition inputNoFinalNewline : list byte := B "---" ++ [LF] ++ B "foo" ++ [LF] ++ B "---".

(** A line of content with a backquote that is not closed. *)
Definition contentTemplate : list byte := B "a ` b" ++ [LF].

(** Four lines of content: an import with a quoted path, a double-quoted
    string with a brace in it and a line comment, a division, and text
    with [<], braces and two dashes. *)
Definition typicalLines : list byte :=
  B "import A from '../a.astro';" ++ [LF] ++
  B "const t = " ++ [DQ] ++ B "x{" ++ [DQ] ++ B "; // note" ++ [LF] ++
  B "let y = a / 2 -- 1;" ++ [LF] ++
  B "a < b {c} <d {e} --x".

Definition contentTypical : list byte := typicalLines ++ [LF].

(** ** What the tokenizer never undoes *)

(** The frontmatter states in the order in which they can follow each
    other. *)
Definition fm_leb (a b : FrontmatterState) : bool :=
  match a, b with
  | FrontmatterInitial, _ => true
  | FrontmatterOpen, FrontmatterInitial => false
  | FrontmatterOpen, _ => true
  | FrontmatterClosed, FrontmatterClosed => true
  | FrontmatterClosed, _ => false
  end.

(** From [z] to [z'] the start of the raw span did not move, an error was
    not cleared, the frontmatter state did not go back and the buffer
    holds the same bytes. *)
Record Kept (z z' : Tokenizer) : Prop := mkKept {
  kept_start : rawStart z' = rawStart z;
  kept_err : forall e, err z = Some e -> err z' = Some e;
  kept_fm : fm_leb (fm z) (fm z') = true;
  kept_buf : buf z' = buf z;
  kept_slack : slack z' = slack z
}.

(** [x], run in [z], ends in a state that is [Kept]. *)
Definition keepsAt {A} (x : M A) (z : Tokenizer) : Prop :=
  forall a z', x z = Ok a z' -> Kept z z'.

Definition keeps {A} (x : M A) : Prop := forall z, keepsAt x z.

(** ** ErrorToken and the end of the input *)

(** The token type stored in [z] is [ErrorToken] only if an error is
    stored as well. *)
Definition errorExplained (z : Tokenizer) : Prop :=
  tt z = ErrorToken -> isErr z = true.

(** How a pass through a loop body may end: a [return] leaves a token
    type that is explained, a [break] happens at the end of the input. *)
Definition passEnds (c : Ctl) (z : Tokenizer) : Prop :=
  match c with
  | Return => errorExplained z
  | Break => isErr z = true
  | _ => True
  end.

(** The same for the two loops behind which [Next] falls through into
    another loop: their [break] may have any reason. *)
Definition passReturns (c : Ctl) (z : Tokenizer) : Prop :=
  match c with
  | Return => errorExplained z
  | _ => True
  end.

(** Every result of [x] in [z] satisfies [Q]. *)
Definition ensures {A} (x : M A) (z : Tokenizer) (Q : A -> Tokenizer -> Prop) : Prop :=
  forall a z', x z = Ok a z' -> Q a z'.

(** ** Properties of every call of [Next] *)

(** The spans [l] follow each other from offset [e] on, each beginning
    where the one before it ended. *)
Fixpoint adjoining (e : Z) (l : list Span) : Prop :=
  match l with
  | [] => True
  | s :: l' => Start s = e /\ adjoining (End s) l'
  end.

(** The raw spans of a token stream, that of the final ErrorToken
    included. *)
Definition allSpans (r : list Tok * Stop) : list Span :=
  map span (fst r) ++ match snd r with
                      | AtError t _ => [span t]
                      | _ => []
                      end.

(** The tokenizer after [n] calls of [Next] on [input]. *)
Definition stateAfter (n : nat) (input : list byte) : Tokenizer :=
  match NextN noUnescape 20 n (NewTokenizer input []) with
  | Ok _ z => z
  | _ => NewTokenizer input []
  end.

(** A fence, a line of frontmatter, a fence and a line of text. *)
Definition inputFenced : list byte :=
  B "---" ++ [LF] ++ B "x" ++ [LF] ++ B "---" ++ [LF] ++ B "y".

(** ** Inputs whose tokens partition them *)

(** Text with braces, a dash and a double dash. *)
Definition inputBraces : list byte := B "a {b}} c - d -- {e".

(** ** Fragments of a [plaintext] element *)

(** The text token that spans the whole input. *)
Definition wholeInput (input : list byte) : Tok :=
  {| kind := TextToken; span := mkSpan 0 (Z.of_nat (length input));
     rawBytes := Some input |}.

Definition inputMarkup : list byte := B "<b>{x}</b> --- <!-- ".

(** ** [convertNewlines] *)

Definition noCR (s : list byte) : bool := forallb (fun c => negb (beq c CR)) s.

(** The number of carriage returns that a line feed follows. *)
Fixpoint countCRLF (s : list byte) : nat :=
  match s with
  | [] => 0
  | c :: r =>
      match r with
      | d :: _ => (if beq c CR && beq d LF then 1 else 0) + countCRLF r
      | [] => 0
      end
  end.

(** ** Comments *)

(** Bytes inside a comment that cannot end it. *)
Definition okInComment (c : byte) : bool := negb (beq c ">") && negb (beq c "!").

Definition bodyDashes : list byte := B "a - b -- c --".

(** ** [Text] *)

(** The token types whose text [Text] returns. *)
Definition hasText (t : TokenType) : bool :=
  match t with
  | TextToken | CommentToken | DoctypeToken => true
  | _ => false
  end.

(** A text token with two kinds of line ends, read from a longer buffer. *)
Definition textState : Tokenizer :=
  set_data (mkSpan 1 6)
    (set_raw (mkSpan 1 6)
       (set_tt TextToken (NewTokenizer ([ "x"%byte; "a"%byte; CR; LF; "b"%byte; CR; "y"%byte ]) []))).

(** ** What the scanning functions leave alone *)

(** From [z] to [z'] the frontmatter state, the token type, the markdown
    state, the dash count and the expression stack are the same. *)
Record Quiet (z z' : Tokenizer) : Prop := mkQuiet {
  quiet_fm : fm z' = fm z;
  quiet_tt : tt z' = tt z;
  quiet_m : m z' = m z;
  quiet_dash : dashCount z' = dashCount z;
  quiet_stack : expressionStack z' = expressionStack z
}.

(** [x], run in [z], ends in a state that is [Quiet]. *)
Definition quietAt {A} (x : M A) (z : Tokenizer) : Prop :=
  forall a z', x z = Ok a z' -> Quiet z z'.

Definition quiet {A} (x : M A) : Prop := forall z, quietAt x z.

(** ** Frontmatter fences *)

(** The two moves of the frontmatter state that a fence makes. *)
Definition fenceStep (a b : FrontmatterState) : Prop :=
  (a = FrontmatterInitial /\ b = FrontmatterOpen) \/
  (a = FrontmatterOpen /\ b = FrontmatterClosed).

(** How far the frontmatter has come: the number of fences seen. *)
Definition fmRank (f : FrontmatterState) : nat :=
  match f with
  | FrontmatterInitial => 0
  | FrontmatterOpen => 1
  | FrontmatterClosed => 2
  end.

(** A pass through the body of the loop [l] that started with the
    frontmatter state [f0]: the state is the same when the pass goes on
    in a loop, and a [return] with a fence has made one [fenceStep]. *)
Definition fencePass (f0 : FrontmatterState) (l : Label) (c : Ctl) (z : Tokenizer) : Prop :=
  match c with
  | Continue | Goto _ => fm z = f0
  | Break =>
      match l with
      | L_frontmatter_loop | L_raw_with_expression_loop => fm z = f0
      | _ => True
      end
  | Return => tt z = FrontmatterFenceToken -> fenceStep f0 (fm z)
  end.

(** The tag arms of the main loop: they return, with another token than a
    fence, or break. *)
Definition noFence (c : Ctl) (z : Tokenizer) : Prop :=
  match c with
  | Return => tt z <> FrontmatterFenceToken
  | Break => True
  | _ => False
  end.

(** ** Where the fault of attribute expressions comes from *)

(** [x] has no explicit [panic(msg)] of its own: when it panics, an index
    or a slice was out of range. *)
Definition boundsOnly {A} (x : M A) : Prop :=
  forall z p, x z = Panicked p -> p = BoundsError.

(** The buffer holds two slashes in a row. *)
Definition twoSlashes (b : list byte) : Prop :=
  exists p, at_ b p = Some "/"%byte /\ at_ b (p + 1) = Some "/"%byte.

(** ** Which braces become expression tokens *)

(** The StartExpression and EndExpression tokens of a stream with their
    raw spans, in order. *)
Definition exprSpans (l : list Tok) : list (TokenType * Span) :=
  map (fun t => (kind t, span t)) (List.filter isExprToken l).

(** The braces of [s] that open and close an expression, as the counting
    of braces has it: [s] begins at offset [pos] with [depth] braces open.
    An opening brace at depth 0 starts an expression, every other opening
    brace is counted; a closing brace at depth 1 ends the expression,
    every other one is counted down. *)
Fixpoint outerBraces (pos : Z) (depth : nat) (s : list byte) : list (TokenType * Span) :=
  match s with
  | [] => []
  | c :: r =>
      if beq c "{" then
        match depth with
        | O => (StartExpressionToken, mkSpan pos (pos + 1)) :: outerBraces (pos + 1) 1 r
        | S _ => outerBraces (pos + 1) (S depth) r
        end
      else if beq c "}" then
        match depth with
        | O => outerBraces (pos + 1) 0 r
        | S O => (EndExpressionToken, mkSpan pos (pos + 1)) :: outerBraces (pos + 1) 0 r
        | S d => outerBraces (pos + 1) d r
        end
      else outerBraces (pos + 1) depth r
  end.

(** ** Expression tokens and the stack of counters, on every input *)

Definition startCount (t : TokenType) : nat :=
  match t with StartExpressionToken => 1 | _ => 0 end.

Definition endCount (t : TokenType) : nat :=
  match t with EndExpressionToken => 1 | _ => 0 end.

(** A pass through a loop body that kept the stack of counters [st0]; a
    token it returns is neither a StartExpression nor an EndExpression
    token. *)
Definition stackPass (st0 : list Z) (c : Ctl) (z : Tokenizer) : Prop :=
  expressionStack z = st0 /\
  (c = Return -> tt z <> StartExpressionToken /\ tt z <> EndExpressionToken).

(** The state in which a stream stopped, if it left one. *)
Definition stopState (s : Stop) : option Tokenizer :=
  match s with
  | AtError _ z | AtLimit z => Some z
  | _ => None
  end.

(** ** What a brace does to the stack of counters *)

(** The effect of the brace [c], read by one pass of the expression loop
    with the flag [ob] and the stack [st]: how the pass ends, the type of
    the token if it returns one, and the stack [st'] behind it. *)
Definition braceOutcome (c : byte) (ob : bool) (st : list Z)
    (ctl : Ctl) (t : TokenType) (st' : list Z) : Prop :=
  (c = "{"%byte -> ob = true ->
   ctl = Return /\ t = StartExpressionToken /\ st' = st ++ [0]) /\
  (c = "{"%byte -> ob = false ->
   ctl = Return /\ t = TextToken /\
   (st = [] -> st' = []) /\ (forall s k, st = s ++ [k] -> st' = s ++ [k + 1])) /\
  (c = "}"%byte -> st = [] -> ctl = Return /\ t = TextToken /\ st' = []) /\
  (c = "}"%byte -> forall s, st = s ++ [0] ->
   ctl = Return /\ t = EndExpressionToken /\ st' = s) /\
  (c = "}"%byte -> forall s k, st = s ++ [k] -> k <> 0 ->
   ctl = Continue /\ st' = s ++ [k - 1]).

Definition inputQuote : list byte := B "{'}".

Definition inputAngle : list byte := B "{<}".

Definition inputFenceInside : list byte := B "{---a---}".

(** ** Start tags without attributes *)

(** A byte that [readTagName] takes into the tag name. *)
Definition nameByte (c : byte) : bool :=
  negb (isTagSpace c) && negb (beq c "/") && negb (beq c ">").

(** A tag name as [Next] reads it behind [<]: a letter, then bytes that
    are no white space, no [/] and no [>]. *)
Definition simpleName (name : list byte) : bool :=
  match name with
  | c :: r => isLetter c && forallb nameByte r
  | [] => false
  end.

(** The end of a tag without attributes: [>] or [/>]. *)
Definition tagCloser (slash : bool) : list byte := if slash then B "/>" else B ">".

(** The switch of [readStartTag] on the first byte of the tag name, which
    finds the names of the raw text elements. *)
Definition rawTextStart (name : list byte) : bool :=
  match name with
  | c :: _ =>
      if beq c "i" then existsb (bytes_eqb name) [B "iframe"]
      else if beq c "n" then existsb (bytes_eqb name) [B "noembed"; B "noframes"]
      else if beq c "p" then existsb (bytes_eqb name) [B "plaintext"]
      else if beq c "s" then existsb (bytes_eqb name) [B "script"; B "style"]
      else if beq c "t" then existsb (bytes_eqb name) [B "textarea"; B "title"]
      else if beq c "x" then existsb (bytes_eqb name) [B "xmp"]
      else false
  | [] => false
  end.

(** The token type of a start tag [name] whose last byte before [>] is
    [c2]. *)
Definition startTagType (name : list byte) (c2 : byte) : TokenType :=
  if existsb (bytes_eqb name) voidElements then SelfClosingTagToken
  else if beq c2 "/" then SelfClosingTagToken else StartTagToken.

(** What [readTag] leaves behind for a tag without attributes. *)
Record TagRead (z z1 : Tokenizer) (e ds de : Z) : Prop := mkTagRead {
  tr_end : rawEnd z1 = e;
  tr_dataStart : dataStart z1 = ds;
  tr_dataEnd : dataEnd z1 = de;
  tr_err : err z1 = None;
  tr_attr : attr z1 = [];
  tr_buf : buf z1 = buf z
}.

Definition inputUpperBr : list byte := B "<BR>".

Definition inputUnclosedBr : list byte := B "<br x".

(** ** Script text *)

(** No byte of [s] is [<]. *)
Definition noAngle (s : list byte) : bool := forallb (fun c => negb (beq c "<")) s.

Definition scriptEndTag : list byte := B "</script>".

(** Script text with a comment opener and a second [<script>] in it. *)
Definition inputDoubleEscape : list byte := B "<script><!--<script></script>--></script>".

(** * The tree invariant and sequences of mutations *)

Module TreeSpec.
Import Tree.

(** ** The tree invariant *)

(** The structural links of a node: parent, previous and next sibling. *)
Definition links (h : gmap nat Node) (x : nat) : option (Ptr * Ptr * Ptr) :=
  (fun nd => (Parent nd, PrevSibling nd, NextSibling nd)) <$> h !! x.

(** The two ends of a node's child list. *)
Definition ends (h : gmap nat Node) (x : nat) : option (Ptr * Ptr) :=
  (fun nd => (FirstChild nd, LastChild nd)) <$> h !! x.

Definition headOr (l : list nat) (d : Ptr) : Ptr :=
  match l with
  | [] => d
  | x :: _ => Some x
  end.

Definition lastOr (l : list nat) (d : Ptr) : Ptr :=
  match last l with
  | Some x => Some x
  | None => d
  end.

(** [chain h p prev l next]: the nodes of [l] are linked in this order as
    children of [p], the first one after [prev], the last one before
    [next]. *)
Fixpoint chain (h : gmap nat Node) (p : nat) (prev : Ptr) (l : list nat) (next : Ptr)
  : Prop :=
  match l with
  | [] => True
  | c :: l' =>
      links h c = Some (Some p, prev, headOr l' next) /\ chain h p (Some c) l' next
  end.

(** [kids p] lists the children of [p] in order. *)
Record TreeInvariant (h : gmap nat Node) (kids : nat -> list nat) : Prop := {
  (* FirstChild and LastChild bound the sibling chain *)
  inv_ends : forall p f l, ends h p = Some (f, l) ->
               f = head (kids p) /\ l = last (kids p) /\ chain h p None (kids p) None;
  inv_dom : forall p, h !! p = None -> kids p = [];
  inv_nodup : forall p, NoDup (kids p);
  (* a node is in the child list of exactly the node its Parent names *)
  inv_parent : forall c pa pr nx q, links h c = Some (pa, pr, nx) ->
                 (pa = Some q <-> c ∈ kids q);
  (* a node without parent has no siblings *)
  inv_detached : forall c pr nx, links h c = Some (None, pr, nx) ->
                 pr = None /\ nx = None
}.

Definition WellFormed (h : gmap nat Node) : Prop := exists kids, TreeInvariant h kids.

Definition withParent (v : Ptr) (t : Ptr * Ptr * Ptr) : Ptr * Ptr * Ptr :=
  (v, t.1.2, t.2).
Definition withPrev (v : Ptr) (t : Ptr * Ptr * Ptr) : Ptr * Ptr * Ptr :=
  (t.1.1, v, t.2).
Definition withNext (v : Ptr) (t : Ptr * Ptr * Ptr) : Ptr * Ptr * Ptr :=
  (t.1.1, t.1.2, v).

(** *** [AppendChild] *)

Definition appendLinks (n c : nat) (lst : Ptr) (x : nat) (t : Ptr * Ptr * Ptr)
  : Ptr * Ptr * Ptr :=
  (if decide (x = c) then Some n else t.1.1,
   if decide (x = c) then lst else t.1.2,
   if decide (Some x = lst) then Some c else t.2).

Definition appendEnds (n c : nat) (lst : Ptr) (x : nat) (e : Ptr * Ptr) : Ptr * Ptr :=
  (if decide (x = n /\ lst = None) then Some c else e.1,
   if decide (x = n) then Some c else e.2).

(** ** Inserting a detached node into a child list *)

(** The links and ends after [c] was spliced into the children of [n]
    between [prev] and [next]. *)
Definition insLinks (n c : nat) (prev next : Ptr) (x : nat) (t : Ptr * Ptr * Ptr)
  : Ptr * Ptr * Ptr :=
  (if decide (x = c) then Some n else t.1.1,
   if decide (x = c) then prev else if decide (Some x = next) then Some c else t.1.2,
   if decide (x = c) then next else if decide (Some x = prev) then Some c else t.2).

Definition insEnds (n c : nat) (prev next : Ptr) (x : nat) (e : Ptr * Ptr) : Ptr * Ptr :=
  (if decide (x = n /\ prev = None) then Some c else e.1,
   if decide (x = n /\ next = None) then Some c else e.2).

(** The assignments of [InsertBefore] once [prev] and [next] are known. *)
Definition splice (n c : nat) (prev next : Ptr) (h : gmap nat Node)
  : option (gmap nat Node) :=
  h1 ← storeOr prev (set_NextSibling (Some c)) (store n (set_FirstChild (Some c))) h;
  h2 ← storeOr next (set_PrevSibling (Some c)) (store n (set_LastChild (Some c))) h1;
  h3 ← store c (set_Parent (Some n)) h2;
  h4 ← store c (set_PrevSibling prev) h3;
  store c (set_NextSibling next) h4.

(** *** [RemoveChild] *)

(** The links and ends after [c], which stood between [prev] and [next],
    was taken out of the children of [n]. *)
Definition remLinks (c : nat) (prev next : Ptr) (x : nat) (t : Ptr * Ptr * Ptr)
  : Ptr * Ptr * Ptr :=
  (if decide (x = c) then None else t.1.1,
   if decide (x = c) then None else if decide (Some x = next) then prev else t.1.2,
   if decide (x = c) then None else if decide (Some x = prev) then next else t.2).

Definition remEnds (n c : nat) (prev next : Ptr) (x : nat) (e : Ptr * Ptr) : Ptr * Ptr :=
  (if decide (x = n /\ e.1 = Some c) then next else e.1,
   if decide (x = n /\ e.2 = Some c) then prev else e.2).

(** ** Sequences of mutations *)

Inductive Op : Type :=
| Append (n c : nat)
| Insert (n c : nat) (oldChild : Ptr)
| Remove (n c : nat).

Definition apply (op : Op) (h : gmap nat Node) : option (gmap nat Node) :=
  match op with
  | Append n c => AppendChild n c h
  | Insert n c o => InsertBefore n c o h
  | Remove n c => RemoveChild n c h
  end.

(** The heaps after each operation of [ops], or [None] if one panics. *)
Fixpoint run (ops : list Op) (h : gmap nat Node) : option (list (gmap nat Node)) :=
  match ops with
  | [] => Some []
  | op :: ops' =>
      h' ← apply op h;
      hs ← run ops' h';
      Some (h' :: hs)
  end.

Definition isDetached (h : gmap nat Node) (c : nat) : Prop :=
  links h c = Some (None, None, None).

Definition isChildOf (h : gmap nat Node) (c n : nat) : Prop :=
  exists pr nx, links h c = Some (Some n, pr, nx).

(** The preconditions that the operations check themselves: an inserted
    node is detached, a removed node is a child of the receiver.  The
    receiver and the nodes named exist. *)
Definition checkedPre (op : Op) (h : gmap nat Node) : Prop :=
  match op with
  | Append n c => is_Some (h !! n) /\ isDetached h c
  | Insert n c o =>
      is_Some (h !! n) /\ isDetached h c /\ (forall x, o = Some x -> is_Some (h !! x))
  | Remove n c => is_Some (h !! n) /\ isChildOf h c n
  end.

(** [InsertBefore] does not check that [oldChild] is a child of the
    receiver; the invariant needs it. *)
Definition refChildPre (op : Op) (h : gmap nat Node) : Prop :=
  match op with
  | Insert n c (Some o) => isChildOf h o n
  | _ => True
  end.

(** [P] holds before each operation of the sequence. *)
Fixpoint holdsAlong (P : Op -> gmap nat Node -> Prop) (ops : list Op) (h : gmap nat Node)
  : Prop :=
  match ops with
  | [] => True
  | op :: ops' =>
      P op h /\ forall h', apply op h = Some h' -> holdsAlong P ops' h'
  end.

(** What holds right after an operation: a removed node is detached. *)
Definition removedDetached (op : Op) (h' : gmap nat Node) : Prop :=
  match op with
  | Remove n c => isDetached h' c
  | _ => True
  end.

(** ** A small heap *)

Definition newNode : Node :=
  {| Fragment := false; CustomElement := false; Component := false;
     Expression := false; Parent := None; FirstChild := None; LastChild := None;
     PrevSibling := None; NextSibling := None; Styles := []; Scripts := [];
     HydratedComponents := []; ClientOnlyComponents := [];
     HydrationDirectives := []; Type_ := ElementNode; DataAtom := 0%Z;
     Data := ""%string; Namespace := ""%string; Attr := None; Loc := [] |}.

(** Four nodes, none attached to another. *)
Definition fourNodes : gmap nat Node :=
  <[0%nat := newNode]> (<[1%nat := newNode]> (<[2%nat := newNode]>
    (<[3%nat := newNode]> ∅))).

(** Node 2 becomes a child of node 0; then node 3 is inserted into node 1
    "before" node 2, which is no child of node 1. *)
Definition foreignReference : list Op :=
  [Append 0 2; Insert 1 3 (Some 2%nat)].

Definition smallRun : list Op :=
  [Append 0 2; Insert 0 3 (Some 2%nat); Remove 0 2; Insert 1 2 None].

(** A node with one attribute, stored as array 0. *)
Definition oneAttr : list Attribute := [zeroAttribute].

Definition attrNode : Node :=
  {| Fragment := true; CustomElement := false; Component := true;
     Expression := true; Parent := Some 1%nat; FirstChild := None; LastChild := None;
     PrevSibling := None; NextSibling := None; Styles := []; Scripts := [];
     HydratedComponents := []; ClientOnlyComponents := [];
     HydrationDirectives := []; Type_ := ElementNode; DataAtom := 7%Z;
     Data := "div"%string; Namespace := "svg"%string; Attr := Some 0%nat; Loc := [] |}.

Definition attrHeap : gmap nat Node := <[0%nat := attrNode]> (<[1%nat := newNode]> ∅).

Definition attrArrays : gmap nat (list Attribute) := <[0%nat := oneAttr]> ∅.

(** ** The child list as a caller reads it *)

(** The nodes met from [x] on along NextSibling, at most [fuel] of them;
    [None] when the fuel runs out or a pointer dangles. *)
Fixpoint siblingsFrom (fuel : nat) (h : gmap nat Node) (x : Ptr) : option (list nat) :=
  match x with
  | None => Some []
  | Some c =>
      match fuel with
      | O => None
      | S f =>
          nd ← h !! c;
          l ← siblingsFrom f h (NextSibling nd);
          Some (c :: l)
      end
  end.

(** [for c := p.FirstChild; c != nil; c = c.NextSibling]: the children of
    [p] in the order in which this loop meets them. *)
Definition children (fuel : nat) (h : gmap nat Node) (p : nat) : option (list nat) :=
  nd ← h !! p;
  siblingsFrom fuel h (FirstChild nd).

(** The child lists after [c] became the last child of [n]. *)
Definition kidsAppended (kids : nat -> list nat) (n c : nat) (p : nat) : list nat :=
  if decide (p = n) then kids n ++ [c] else kids p.

(** The child lists when those of [n] are [l]. *)
Definition kidsSet (kids : nat -> list nat) (n : nat) (l : list nat) (p : nat) : list nat :=
  if decide (p = n) then l else kids p.

(** The child lists after all children of [src] moved behind those of
    [dst]. *)
Definition kidsMoved (kids : nat -> list nat) (dst src : nat) (p : nat) : list nat :=
  if decide (p = src) then []
  else if decide (p = dst) then kids dst ++ kids src
  else kids p.

(** ** The fields that the mutators leave alone *)

(** A node without its five tree pointers. *)
Definition strip (nd : Node) : Node :=
  set_Parent None (set_FirstChild None (set_LastChild None
    (set_PrevSibling None (set_NextSibling None nd)))).

(** ** A small family: node 0 with the children 2 and 3, node 1 on its
    own *)

Definition family : gmap nat Node :=
  <[0%nat := set_LastChild (Some 3%nat) (set_FirstChild (Some 2%nat) newNode)]>
    (<[2%nat := set_NextSibling (Some 3%nat) (set_Parent (Some 0%nat) newNode)]>
       (<[3%nat := set_PrevSibling (Some 2%nat) (set_Parent (Some 0%nat) newNode)]>
          fourNodes)).

Definition familyKids (p : nat) : list nat :=
  if decide (p = 0%nat) then [2%nat; 3%nat] else [].

(** A node with an id and two class attributes. *)
Definition threeAttrs : list Attribute :=
  [mkAttribute "" "id" 1 "a" 5 None QuotedAttribute;
   mkAttribute "" "class" 9 "x" 16 None QuotedAttribute;
   mkAttribute "" "class" 20 "y" 27 None QuotedAttribute].

Definition threeArrays : gmap nat (list Attribute) := <[0%nat := threeAttrs]> ∅.

End TreeSpec.

(** * Reasoning about the tokenizer *)

(** ** The monadic embedding *)

Lemma bind_Ok {A C} (x : M A) (k : A -> M C) (z z' : Tokenizer) (c : C) :
  bind x k z = Ok c z' -> exists a z1, x z = Ok a z1 /\ k a z1 = Ok c z'.
Proof. unfold bind. destruct (x z); [eauto | discriminate..]. Qed.

Lemma ret_Ok {A} (a b : A) (z z' : Tokenizer) : ret a z = Ok b z' -> b = a /\ z' = z.
Proof. unfold ret. intros H. injection H as <- <-. auto. Qed.

Lemma gets_Ok {A} (f : Tokenizer -> A) (a : A) (z z' : Tokenizer) :
  gets f z = Ok a z' -> a = f z /\ z' = z.
Proof. unfold gets. intros H. injection H as <- <-. auto. Qed.

Lemma modify_Ok (f : Tokenizer -> Tokenizer) (u : unit) (z z' : Tokenizer) :
  modify f z = Ok u z' -> z' = f z.
Proof. unfold modify. intros H. injection H as <-. auto. Qed.

Lemma beq_eq (a b : byte) : beq a b = true <-> a = b.
Proof.
  unfold beq. split; [apply Byte.byte_dec_bl | apply Byte.byte_dec_lb].
Qed.

Lemma beq_neq (a b : byte) : beq a b = false <-> a <> b.
Proof.
  split.
  - intros H E. apply beq_eq in E. congruence.
  - intros H. destruct (beq a b) eqn:E; [|reflexivity]. apply beq_eq in E. contradiction.
Qed.

Lemma at_Some {A} (l : list A) (i : Z) (x : A) :
  at_ l i = Some x <-> 0 <= i < Z.of_nat (length l) /\ l !! Z.to_nat i = Some x.
Proof.
  unfold at_. destruct (Z.leb_spec 0 i), (Z.ltb_spec i (Z.of_nat (length l))); cbn;
    split; intros Hx; try discriminate; try (destruct Hx; lia); tauto.
Qed.

Lemma sub_length {A} (l : list A) (a b : Z) :
  0 <= a <= b -> b <= Z.of_nat (length l) ->
  Z.of_nat (length (sub l a b)) = b - a.
Proof.
  intros Ha Hb. unfold sub.
  rewrite length_take, length_drop. rewrite Nat.min_l by lia. lia.
Qed.

Lemma leCap_spec (b : Z) (z : Tokenizer) : leCap b z = (b <=? cap z).
Proof.
  unfold leCap, cap, len. rewrite length_app, Nat2Z.inj_add.
  destruct (Z.leb_spec b (Z.of_nat (length (buf z))));
    destruct (Z.leb_spec (b - Z.of_nat (length (buf z))) (Z.of_nat (length (slack z))));
    destruct (Z.leb_spec b (Z.of_nat (length (buf z)) + Z.of_nat (length (slack z))));
    cbn; try reflexivity; lia.
Qed.

Lemma bind_gets {A C} (f : Tokenizer -> A) (k : A -> M C) (z : Tokenizer) :
  bind (gets f) k z = k (f z) z.
Proof. reflexivity. Qed.

Lemma bind_modify {C} (f : Tokenizer -> Tokenizer) (k : unit -> M C) (z : Tokenizer) :
  bind (modify f) k z = k () (f z).
Proof. reflexivity. Qed.

Lemma bind_ret {A C} (a : A) (k : A -> M C) (z : Tokenizer) :
  bind (ret a) k z = k a z.
Proof. reflexivity. Qed.

Lemma bind_bind {A C D} (x : M A) (k : A -> M C) (k' : C -> M D) (z : Tokenizer) :
  bind (bind x k) k' z = bind x (fun a => bind (k a) k') z.
Proof. unfold bind. destruct (x z); reflexivity. Qed.

(** Decompose a hypothesis [H : (x <- c ;; k) z = Ok r z']. *)
Tactic Notation "inv_bind" hyp(H) "as" ident(a) ident(z1) ident(H1) ident(H2) :=
  apply bind_Ok in H; destruct H as (a & z1 & H1 & H2).

(** Run the pure steps ([gets], [modify], [ret]) at the head of [H]. *)
Ltac norm H :=
  repeat first [ rewrite bind_gets in H | rewrite bind_modify in H
               | rewrite bind_ret in H ].

(** Drop the first action of a sequence, keeping only that it returned. *)
Ltac skip_bind H :=
  let a := fresh "a" in let z1 := fresh "z" in
  let H1 := fresh "Hskip" in let H2 := fresh "Hrest" in
  apply bind_Ok in H; destruct H as (a & z1 & H1 & H2); clear H1; rename H2 into H.

(** [readByte] either reports the end of the input or hands out the byte
    under the read position and moves the position by one. *)
Lemma readByte_Ok (z z' : Tokenizer) (c : byte) :
  readByte z = Ok c z' ->
  (isErr z' = true /\ rawEnd z' = rawEnd z /\ buf z' = buf z) \/
  (z' = set_rawEnd (rawEnd z + 1) z /\ at_ (buf z) (rawEnd z) = Some c).
Proof.
  unfold readByte. destruct (rawEnd z >=? len z).
  - intros H. injection H as <- <-. left. auto.
  - destruct (at_ (buf z) (rawEnd z)) eqn:E; [|discriminate].
    intros H. injection H as <- <-. right. auto.
Qed.

(** ** Start tags: void elements and the trailing slash *)

Lemma readTag_loop_closed (fuel : nat) (saveAttr : bool) (z z' : Tokenizer) (u : unit) :
  readTag_loop fuel saveAttr z = Ok u z' -> closedOrErr z'.
Proof.
  revert z. induction fuel as [|f IH]; intros z H; [discriminate|].
  cbn [readTag_loop] in H.
  inv_bind H as c z1 Hrd H. norm H.
  destruct (isErr z1 || beq c ">") eqn:E.
  - apply ret_Ok in H as [_ ->]. apply orb_prop in E as [E|E]; [left; exact E|].
    apply beq_eq in E. subst c.
    apply readByte_Ok in Hrd as [(He & _)|(-> & Hat)]; [left; exact He|].
    right. cbn. replace (rawEnd z + 1 - 1) with (rawEnd z) by lia. exact Hat.
  - do 5 skip_bind H. norm H.
    match type of H with context [isErr ?s] => destruct (isErr s) eqn:E7 end.
    + apply ret_Ok in H as [_ ->]. left. exact E7.
    + eapply IH. exact H.
Qed.

Lemma readTag_closed (fuel : nat) (saveAttr : bool) (z z' : Tokenizer) (u : unit) :
  readTag fuel saveAttr z = Ok u z' -> closedOrErr z'.
Proof.
  unfold readTag. intros H.
  do 7 skip_bind H. norm H.
  match type of H with context [isErr ?s] => destruct (isErr s) eqn:E end.
  - apply ret_Ok in H as [_ ->]. left. exact E.
  - eapply readTag_loop_closed. exact H.
Qed.

Lemma bufIndex_Ok (i : Z) (z z' : Tokenizer) (c : byte) :
  bufIndex i z = Ok c z' -> z' = z /\ at_ (buf z) i = Some c.
Proof.
  unfold bufIndex. destruct (at_ (buf z) i); [|discriminate].
  intros H. injection H as <- <-. auto.
Qed.

Lemma bufSlice_Ok (a b : Z) (z z' : Tokenizer) (r : list byte) :
  bufSlice a b z = Ok r z' -> z' = z.
Proof.
  unfold bufSlice. destruct (_ && _); [|discriminate].
  intros H. injection H as _ <-. reflexivity.
Qed.

Lemma startTagIs_from_spec (s : list byte) (i : Z) (z z' : Tokenizer) (b : bool) :
  startTagIs_from i s z = Ok b z' ->
  z' = z /\
  (b = true <->
   forall j : nat, (j < length s)%nat ->
     at_ (buf z) (dataStart z + i + Z.of_nat j) = s !! j).
Proof.
  revert i. induction s as [|k s IH]; intros i H; cbn [startTagIs_from] in H.
  - apply ret_Ok in H as [-> ->]. split; [reflexivity|].
    split; [intros _ j Hj; cbn in Hj; lia | reflexivity].
  - norm H. inv_bind H as c z1 Hc H. apply bufIndex_Ok in Hc as [-> Hc].
    destruct (beq c k) eqn:E; cbn [negb] in H.
    + apply beq_eq in E. subst c. apply IH in H as [-> H]. split; [reflexivity|].
      rewrite H. split.
      * intros Hall [|j] Hj; cbn [length] in Hj.
        -- cbn. rewrite Z.add_0_r. exact Hc.
        -- transitivity (at_ (buf z) (dataStart z + (i + 1) + Z.of_nat j));
             [f_equal; lia | apply Hall; lia].
      * intros Hall j Hj.
        transitivity (at_ (buf z) (dataStart z + i + Z.of_nat (S j)));
          [f_equal; lia | apply (Hall (S j)); cbn [length]; lia].
    + apply ret_Ok in H as [-> ->]. split; [reflexivity|].
      split; [discriminate|]. intros Hall. specialize (Hall 0%nat).
      cbn in Hall. rewrite Z.add_0_r, Hc in Hall.
      apply beq_neq in E. assert (Some c = Some k) by (apply Hall; lia). congruence.
Qed.

Lemma tagName_pointwise (s : list byte) (z : Tokenizer) :
  s <> [] ->
  (dataEnd z - dataStart z = Z.of_nat (length s) /\
   forall j : nat, (j < length s)%nat ->
     at_ (buf z) (dataStart z + Z.of_nat j) = s !! j) <->
  tagName z = Some s.
Proof.
  intros Hne. unfold tagName. split.
  - intros [Hlen Hall].
    assert (Hpos : (0 < length s)%nat) by (destruct s; cbn; [congruence | lia]).
    assert (H0 := Hall 0%nat Hpos).
    destruct (s !! 0%nat) as [c0|] eqn:E0;
      [|apply lookup_ge_None in E0; lia].
    apply at_Some in H0 as [H0 _].
    assert (Hl := Hall (length s - 1)%nat ltac:(lia)).
    destruct (s !! (length s - 1)%nat) as [c1|] eqn:E1;
      [|apply lookup_ge_None in E1; lia].
    apply at_Some in Hl as [Hl _].
    unfold len.
    destruct (Z.leb_spec 0 (dataStart z)); [|lia].
    destruct (Z.leb_spec (dataStart z) (dataEnd z)); [|lia].
    destruct (Z.leb_spec (dataEnd z) (Z.of_nat (length (buf z)))); [|lia].
    cbn. f_equal. apply list_eq. intros j. unfold sub.
    destruct (Nat.lt_ge_cases j (length s)) as [Hj|Hj].
    + rewrite lookup_take_lt by lia. rewrite lookup_drop.
      rewrite <- (Hall j Hj). symmetry.
      unfold at_.
      destruct (Z.leb_spec 0 (dataStart z + Z.of_nat j)); [|lia].
      destruct (Z.ltb_spec (dataStart z + Z.of_nat j) (Z.of_nat (length (buf z)))); [|lia].
      cbn. f_equal. lia.
    + rewrite lookup_take_ge by lia. symmetry. apply lookup_ge_None. lia.
  - destruct (Z.leb_spec 0 (dataStart z)); [|discriminate].
    destruct (Z.leb_spec (dataStart z) (dataEnd z)); [|discriminate].
    destruct (Z.leb_spec (dataEnd z) (len z)); [|discriminate].
    cbn. intros Hs. injection Hs as Hs. unfold len in *.
    assert (Hlen : Z.of_nat (length s) = dataEnd z - dataStart z).
    { rewrite <- Hs. apply sub_length; lia. }
    split; [lia|]. intros j Hj. rewrite <- Hs. unfold sub.
    rewrite lookup_take_lt by lia. rewrite lookup_drop.
    unfold at_.
    destruct (Z.leb_spec 0 (dataStart z + Z.of_nat j)); [|lia].
    destruct (Z.ltb_spec (dataStart z + Z.of_nat j) (Z.of_nat (length (buf z)))); [|lia].
    cbn. f_equal. lia.
Qed.

Lemma startTagIs_spec (s : list byte) (z z' : Tokenizer) (b : bool) :
  s <> [] -> startTagIs s z = Ok b z' ->
  z' = z /\ (b = true <-> tagName z = Some s).
Proof.
  intros Hne H. unfold startTagIs in H. norm H.
  rewrite <- (tagName_pointwise s z Hne).
  destruct (Z.eqb_spec (dataEnd z - dataStart z) (Z.of_nat (length s))) as [E|E];
    cbn [negb] in H.
  - apply startTagIs_from_spec in H as [-> H]. split; [reflexivity|].
    rewrite H. split.
    + intros Hall. split; [exact E|]. intros j Hj.
      rewrite <- (Hall j Hj). f_equal. lia.
    + intros [_ Hall] j Hj. rewrite <- (Hall j Hj). f_equal. lia.
  - apply ret_Ok in H as [-> ->]. split; [reflexivity|].
    split; [discriminate | intros [E' _]; contradiction].
Qed.

Lemma startTagIn_spec (ss : list (list byte)) (z z' : Tokenizer) (b : bool) :
  Forall (fun s => s <> []) ss -> startTagIn ss z = Ok b z' ->
  z' = z /\ (b = true <-> exists s, In s ss /\ tagName z = Some s).
Proof.
  induction ss as [|s ss IH]; intros Hne H; cbn [startTagIn] in H.
  - apply ret_Ok in H as [-> ->]. split; [reflexivity|].
    split; [discriminate | intros (s & [] & _)].
  - inversion Hne as [|? ? Hs Hss]; subst.
    inv_bind H as b0 z1 H0 H. apply (startTagIs_spec s z z1 b0 Hs) in H0 as [-> H0].
    destruct b0.
    + apply ret_Ok in H as [-> ->]. split; [reflexivity|].
      split; [|reflexivity]. intros _. exists s. split; [left; reflexivity|].
      apply H0. reflexivity.
    + apply (IH Hss) in H as [-> H]. split; [reflexivity|].
      rewrite H. split.
      * intros (s' & Hin & Ht). exists s'. split; [right; exact Hin | exact Ht].
      * intros (s' & [<-|Hin] & Ht).
        -- apply H0 in Ht. discriminate.
        -- exists s'. auto.
Qed.

Lemma hasTag_from_state (attrs : list (Span * Span)) (s : list byte)
      (z z' : Tokenizer) (b : bool) :
  hasTag_from attrs s z = Ok b z' -> z' = z.
Proof.
  induction attrs as [|x attrs IH]; cbn [hasTag_from]; intros H.
  - apply ret_Ok in H as [_ ->]. reflexivity.
  - inv_bind H as key z1 Hk H. apply bufSlice_Ok in Hk as ->.
    destruct (agreeOnCommon key s).
    + apply ret_Ok in H as [_ ->]. reflexivity.
    + apply IH. exact H.
Qed.

Lemma voidElements_nonempty : Forall (fun s : list byte => s <> []) voidElements.
Proof. repeat constructor; discriminate. Qed.

(** The classification made by [readStartTag]. *)
Lemma readStartTag_classifies (fuel : nat) (z z' : Tokenizer) (t : TokenType) :
  readStartTag fuel z = Ok t z' ->
  (t = SelfClosingTagToken \/ t = StartTagToken) /\
  (t = SelfClosingTagToken <->
     (exists v, In v voidElements /\ tagName z' = Some v) \/
     (isErr z' = false /\ at_ (buf z') (rawEnd z' - 2) = Some "/"%byte)) /\
  (isErr z' = false -> at_ (buf z') (rawEnd z' - 1) = Some ">"%byte).
Proof.
  unfold readStartTag. intros H.
  inv_bind H as u z1 Htag H. apply readTag_closed in Htag.
  norm H. inv_bind H as c z2 Hc H. apply bufIndex_Ok in Hc as [-> _].
  inv_bind H as raw0 z2 Hraw0 H.
  assert (z2 = z1) as ->.
  { repeat match type of Hraw0 with
           | (if ?b then _ else _) _ = _ => destruct b
           end;
      first [ apply ret_Ok in Hraw0 as [_ ->]; reflexivity
            | apply startTagIn_spec in Hraw0 as [-> _];
              [reflexivity | repeat constructor; discriminate] ]. }
  inv_bind H as raw1 z2 Hraw1 H.
  assert (z2 = z1) as ->.
  { destruct (negb raw0).
    - unfold hasTag in Hraw1. norm Hraw1. apply hasTag_from_state in Hraw1. exact Hraw1.
    - apply ret_Ok in Hraw1 as [_ ->]. reflexivity. }
  inv_bind H as u' z2 Hset H.
  assert (Hz2 : tagName z2 = tagName z1 /\ isErr z2 = isErr z1 /\
                buf z2 = buf z1 /\ rawEnd z2 = rawEnd z1).
  { destruct raw1.
    - norm Hset. inv_bind Hset as name z3 Hn Hset. apply bufSlice_Ok in Hn as ->.
      apply modify_Ok in Hset as ->. repeat split.
    - apply ret_Ok in Hset as [_ ->]. repeat split. }
  destruct Hz2 as (Hname & Herr & Hbuf & Hend).
  assert (Hclosed : isErr z2 = false -> at_ (buf z2) (rawEnd z2 - 1) = Some ">"%byte).
  { rewrite Herr, Hbuf, Hend. intros E. destruct Htag as [Ht|Ht]; [congruence | exact Ht]. }
  clear Hname Herr Hbuf Hend Htag Hset.
  inv_bind H as v z3 Hv H.
  apply (startTagIn_spec _ _ _ _ voidElements_nonempty) in Hv as [-> Hv].
  destruct v.
  - apply ret_Ok in H as [-> ->]. split; [left; reflexivity|].
    split; [|exact Hclosed]. split; [|reflexivity].
    intros _. left. apply Hv. reflexivity.
  - assert (Hnv : ~ exists v, In v voidElements /\ tagName z2 = Some v).
    { intros Hex. apply Hv in Hex. discriminate. }
    norm H. destruct (isErr z2) eqn:E.
    + apply ret_Ok in H as [-> ->]. split; [right; reflexivity|].
      split; [|intros E'; first [congruence | apply Hclosed; reflexivity]]. split; [discriminate|].
      intros [Hex|[Hf _]]; [contradiction | congruence].
    + norm H. inv_bind H as c' z3 Hc' H. apply bufIndex_Ok in Hc' as [-> Hc'].
      destruct (beq c' "/") eqn:Ec; apply ret_Ok in H as [-> ->].
      * apply beq_eq in Ec. subst c'. split; [left; reflexivity|].
        split; [|intros E'; first [congruence | apply Hclosed; reflexivity]]. split; [|reflexivity].
        intros _. right. split; [exact E | exact Hc'].
      * apply beq_neq in Ec. split; [right; reflexivity|].
        split; [|intros E'; first [congruence | apply Hclosed; reflexivity]]. split; [discriminate|].
        intros [Hex|[_ Hs]]; [contradiction|]. congruence.
Qed.

(** ** Running the embedding forwards *)

Lemma bind_run {A C} (x : M A) (k : A -> M C) (z z1 : Tokenizer) (a : A) :
  x z = Ok a z1 -> bind x k z = k a z1.
Proof. unfold bind. intros ->. reflexivity. Qed.

Lemma bind_panic {A C} (x : M A) (k : A -> M C) (z : Tokenizer) (p : PanicValue) :
  x z = Panicked p -> bind x k z = Panicked p.
Proof. unfold bind. intros ->. reflexivity. Qed.

Lemma readByte_some (z : Tokenizer) (c : byte) :
  at_ (buf z) (rawEnd z) = Some c ->
  readByte z = Ok c (set_rawEnd (rawEnd z + 1) z).
Proof.
  intros H. unfold readByte. rewrite H.
  apply at_Some in H as [H _]. unfold len.
  destruct (Z.geb_spec (rawEnd z) (Z.of_nat (length (buf z)))); [lia | reflexivity].
Qed.

Lemma readByte_eof (z : Tokenizer) :
  len z <= rawEnd z -> readByte z = Ok NUL (set_err (Some EOF) z).
Proof.
  intros H. unfold readByte.
  destruct (Z.geb_spec (rawEnd z) (len z)); [reflexivity | lia].
Qed.

(** ** Comments inside attribute expressions *)

(** Two slashes in an attribute expression abort the tokenizer, whatever
    follows them. *)
Lemma attr_expression_two_slashes_panic (fuel : nat) (z : Tokenizer) :
  isErr z = false ->
  at_ (buf z) (rawEnd z) = Some "/"%byte ->
  at_ (buf z) (rawEnd z + 1) = Some "/"%byte ->
  readTagAttrExpression (S fuel) z = Panicked (Fatal msgBlockComment).
Proof.
  intros He H0 H1. unfold readTagAttrExpression. rewrite bind_gets, He.
  cbn [readTagAttrExpression_loop].
  rewrite (bind_run _ _ _ _ _ (readByte_some z _ H0)).
  rewrite bind_gets.
  change (isErr (set_rawEnd (rawEnd z + 1) z)) with (isErr z). rewrite He.
  change (beq "/" "/" || isQuote "/") with true. cbv iota.
  rewrite bind_gets.
  apply bind_panic.
  change (beq "/" "/") with true. cbv iota.
  assert (Hrd : readByte (set_rawEnd (rawEnd z + 1) z)
                = Ok "/"%byte (set_rawEnd (rawEnd z + 1 + 1) (set_rawEnd (rawEnd z + 1) z))).
  { apply (readByte_some (set_rawEnd (rawEnd z + 1) z)). exact H1. }
  rewrite (bind_run _ _ _ _ _ Hrd).
  reflexivity.
Qed.

(** ** The tokenizer on fixed inputs *)

Lemma tokens_cons (u : list byte -> list byte) (fuel n : nat) (z z' : Tokenizer)
      (t : TokenType) :
  Next u fuel z = Ok t z' -> t <> ErrorToken ->
  tokens u fuel (S n) z
  = (tokOf t z' :: fst (tokens u fuel n z'), snd (tokens u fuel n z')).
Proof.
  intros H Ht. cbn [tokens]. rewrite H.
  destruct (tokens u fuel n z') as [l s]. destruct t; try reflexivity. congruence.
Qed.

Lemma tokens_error (u : list byte -> list byte) (fuel n : nat) (z z' : Tokenizer) :
  Next u fuel z = Ok ErrorToken z' ->
  tokens u fuel (S n) z = ([], AtError (tokOf ErrorToken z') z').
Proof. intros H. cbn [tokens]. rewrite H. reflexivity. Qed.

(** When [Raw()] does not panic it returns [raw.End - raw.Start] bytes. *)
Lemma rawBytes_length (t : TokenType) (z : Tokenizer) (r : list byte) :
  rawBytes (tokOf t z) = Some r ->
  Z.of_nat (length r) = rawEnd z - rawStart z.
Proof.
  unfold tokOf, Raw, bufSlice. cbn [rawBytes].
  destruct ((0 <=? rawStart z) && (rawStart z <=? rawEnd z) && leCap (rawEnd z) z) eqn:E;
    [|discriminate].
  intros H. injection H as <-.
  rewrite leCap_spec in E. unfold cap in E.
  apply andb_prop in E as [E E3]. apply andb_prop in E as [E1 E2].
  apply sub_length; unfold backing; lia.
Qed.

(** C1 (violated by the code): for the four input bytes ["a\"] the first
    call of [Next] returns a text token whose raw span is [0, 5), one byte
    more than the input has, and the second call returns ErrorToken.
    Whatever lies behind the input in the buffer, the raw bytes of the
    tokens before the ErrorToken do not concatenate to the input. *)
Theorem raw_spans_overshoot_the_input :
  forall (unescape : list byte -> list byte) (slack : list byte) (fuel n : nat),
    let r := tokens unescape (7 + fuel) (2 + n) (NewTokenizer inputOvershoot slack) in
    stoppedAtError (snd r) /\
    map kind (fst r) = [TextToken] /\
    map span (fst r) = [mkSpan 0 5] /\
    Z.of_nat (length inputOvershoot) = 4 /\
    concatRaw (fst r) <> Some inputOvershoot.
Proof.
  intros unescape slack fuel n.
  assert (H1 : exists z1, Next unescape (7 + fuel) (NewTokenizer inputOvershoot slack)
                          = Ok TextToken z1 /\ raw z1 = mkSpan 0 5 /\
               exists z2, Next unescape (7 + fuel) z1 = Ok ErrorToken z2).
  { eexists. split; [vm_compute; reflexivity|]. split; [reflexivity|].
    eexists. vm_compute. reflexivity. }
  destruct H1 as (z1 & HN1 & Hraw & z2 & HN2).
  cbv zeta. change (2 + n)%nat with (S (S n)).
  rewrite (tokens_cons _ _ _ _ _ _ HN1) by discriminate.
  rewrite (tokens_error _ _ _ _ _ HN2). cbn [fst snd map kind span tokOf].
  rewrite Hraw. repeat split.
  cbn [concatRaw]. destruct (rawBytes (tokOf TextToken z1)) as [r|] eqn:Er; [|discriminate].
  apply rawBytes_length in Er. unfold rawEnd, rawStart in Er. rewrite Hraw in Er.
  cbn in Er. intros H. injection H as H. rewrite app_nil_r in H. subst r.
  cbn in Er. lia.
Qed.

Lemma script_string_aware_fails :
  map view (fst (tokens noUnescape 100 10 (NewTokenizer inputScript []))) <> stringAwareStream.
Proof. vm_compute. discriminate. Qed.

(** C6: for the input [< class="x">hi</>] the first call of [Next] returns
    no token, whatever the fuel; with fuel for three loop passes it panics
    with the message about attributes on the [<>] Fragment shorthand. *)
Theorem fragment_with_attributes_is_fatal :
  forall (unescape : list byte -> list byte) (slack : list byte) (fuel : nat),
    ~ isOk (Next unescape fuel (NewTokenizer inputFragmentAttrs slack)) /\
    Next unescape (3 + fuel) (NewTokenizer inputFragmentAttrs slack)
    = Panicked (Fatal (msgFragment (B "class=" ++ [DQ] ++ B "x" ++ [DQ]))).
Proof.
  intros unescape slack fuel. split.
  - destruct fuel as [|[|[|fuel]]]; vm_compute; tauto.
  - vm_compute. reflexivity.
Qed.

Lemma void_and_slash_examples :
  forall (unescape : list byte -> list byte) (slack : list byte) (fuel n : nat),
    kinds (tokens unescape (12 + fuel) (2 + n) (NewTokenizer inputBr slack))
      = [SelfClosingTagToken] /\
    kinds (tokens unescape (12 + fuel) (2 + n) (NewTokenizer inputImg slack))
      = [SelfClosingTagToken] /\
    kinds (tokens unescape (12 + fuel) (2 + n) (NewTokenizer inputPath slack))
      = [SelfClosingTagToken] /\
    kinds (tokens unescape (12 + fuel) (2 + n) (NewTokenizer inputDiv slack))
      = [StartTagToken].
Proof. intros. vm_compute. repeat split. Qed.


(** C9 (violated by the code): for the input [</a b={/x/>}y] the first call
    of [Next] reaches the end of the input and returns ErrorToken with
    [Err()] reporting end of input, yet the second call returns a
    TextToken with the raw byte [y]; only the third call returns
    ErrorToken again. *)
Theorem text_token_after_end_of_input :
  forall (unescape : list byte -> list byte) (slack : list byte) (fuel : nat),
    exists z1 z2 z3,
      Next unescape (12 + fuel) (NewTokenizer inputRewind slack) = Ok ErrorToken z1 /\
      Err z1 = Some EOF /\
      Next unescape (12 + fuel) z1 = Ok TextToken z2 /\
      rawBytes (tokOf TextToken z2) = Some (B "y") /\
      Next unescape (12 + fuel) z2 = Ok ErrorToken z3.
Proof.
  intros. do 3 eexists.
  split; [vm_compute; reflexivity|].
  split; [reflexivity|].
  split; [vm_compute; reflexivity|].
  split; [vm_compute; reflexivity|].
  vm_compute; reflexivity.
Qed.

(** Projections of a state built by setters. *)
Ltac proj_simpl :=
  unfold rawStart, rawEnd, dataStart, dataEnd;
  cbn [tt prevTokenType fm m err raw buf slack data pendingAttr pendingAttrType
       attr attrTypes attrExpressionStack nAttrReturned dashCount expressionStack
       openBraceIsExpressionStart rawTag textIsRaw convertNUL allowCDATA
       set_tt set_prevTokenType set_fm set_m set_err set_raw set_buf set_slack
       set_data set_pendingAttr set_pendingAttrType set_attr set_attrTypes
       set_attrExpressionStack set_nAttrReturned set_dashCount set_expressionStack
       set_openBraceIsExpressionStart set_rawTag set_textIsRaw set_convertNUL
       set_allowCDATA Start End set_Start set_End
       rawStart rawEnd dataStart dataEnd set_rawStart set_rawEnd set_dataStart
       set_dataEnd isErr len];
  repeat match goal with
         | |- context [Start (raw ?z)] => change (Start (raw z)) with (rawStart z)
         | |- context [End (raw ?z)] => change (End (raw z)) with (rawEnd z)
         | |- context [Start (data ?z)] => change (Start (data z)) with (dataStart z)
         | |- context [End (data ?z)] => change (End (data z)) with (dataEnd z)
         end.

Ltac proj_simpl_in H :=
  unfold rawStart, rawEnd, dataStart, dataEnd in H;
  cbn [tt prevTokenType fm m err raw buf slack data pendingAttr pendingAttrType
       attr attrTypes attrExpressionStack nAttrReturned dashCount expressionStack
       openBraceIsExpressionStart rawTag textIsRaw convertNUL allowCDATA
       set_tt set_prevTokenType set_fm set_m set_err set_raw set_buf set_slack
       set_data set_pendingAttr set_pendingAttrType set_attr set_attrTypes
       set_attrExpressionStack set_nAttrReturned set_dashCount set_expressionStack
       set_openBraceIsExpressionStart set_rawTag set_textIsRaw set_convertNUL
       set_allowCDATA Start End set_Start set_End
       rawStart rawEnd dataStart dataEnd set_rawStart set_rawEnd set_dataStart
       set_dataEnd isErr len] in H;
  repeat match type of H with
         | context [Start (raw ?z)] => change (Start (raw z)) with (rawStart z) in H
         | context [End (raw ?z)] => change (End (raw z)) with (rawEnd z) in H
         | context [Start (data ?z)] => change (Start (data z)) with (dataStart z) in H
         | context [End (data ?z)] => change (End (data z)) with (dataEnd z) in H
         end.

(** ** Scanning plain text, braces and dashes *)

Lemma at_middle {A} (l1 l2 : list A) (c : A) :
  at_ (l1 ++ c :: l2) (Z.of_nat (length l1)) = Some c.
Proof.
  apply at_Some. split.
  - rewrite length_app. cbn [length]. lia.
  - rewrite Nat2Z.id. rewrite lookup_app_r by lia.
    rewrite Nat.sub_diag. reflexivity.
Qed.

Section ScanFacts.

Context {z : Tokenizer} {done cur rem : list byte}
        {f : FrontmatterState} {d : Z} {st : list Z} {ob : bool}.

Lemma Scan_at (c : byte) (r : list byte) :
  Scan z done cur rem f d st ob -> rem = c :: r ->
  at_ (buf z) (rawEnd z) = Some c.
Proof.
  intros H ->. rewrite (sc_buf _ _ _ _ _ _ _ _ H), (sc_end _ _ _ _ _ _ _ _ H).
  rewrite app_assoc, <- Nat2Z.inj_add, <- length_app. apply at_middle.
Qed.

Lemma Scan_first (s : byte) (t : list byte) :
  Scan z done cur rem f d st ob -> cur ++ rem = s :: t ->
  bufSlice1 (rawStart z) z = Ok s z.
Proof.
  intros H E. unfold bufSlice1, bind, bufSlice.
  pose proof (sc_buf _ _ _ _ _ _ _ _ H) as Hb. rewrite E in Hb.
  pose proof (sc_start _ _ _ _ _ _ _ _ H) as Hs.
  unfold leCap, len, backing. rewrite Hs, Hb.
  assert (Hlen : Z.of_nat (length done) + 1 <= Z.of_nat (length (done ++ s :: t))).
  { rewrite length_app. cbn [length]. lia. }
  destruct (Z.leb_spec 0 (Z.of_nat (length done))); [|lia].
  destruct (Z.leb_spec (Z.of_nat (length done)) (Z.of_nat (length done) + 1)); [|lia].
  destruct (Z.leb_spec (Z.of_nat (length done) + 1) (Z.of_nat (length (done ++ s :: t))));
    [|lia].
  cbn [andb orb]. unfold sub.
  replace (Z.to_nat (Z.of_nat (length done) + 1 - Z.of_nat (length done))) with 1%nat by lia.
  rewrite Nat2Z.id. rewrite <- app_assoc. rewrite drop_app_length.
  reflexivity.
Qed.

Lemma Scan_eof :
  Scan z done cur rem f d st ob -> rem = [] ->
  readByte z = Ok NUL (set_err (Some EOF) z).
Proof.
  intros H ->. apply readByte_eof. unfold len.
  rewrite (sc_buf _ _ _ _ _ _ _ _ H), (sc_end _ _ _ _ _ _ _ _ H).
  rewrite app_nil_r, length_app. lia.
Qed.

End ScanFacts.

(** Reading the next byte moves it from [rem] to [cur]. *)
Lemma Scan_read (z : Tokenizer) (done cur : list byte) (c : byte) (rem : list byte)
      (f : FrontmatterState) (d : Z) (st : list Z) (ob : bool) :
  Scan z done cur (c :: rem) f d st ob ->
  readByte z = Ok c (set_rawEnd (rawEnd z + 1) z) /\
  Scan (set_rawEnd (rawEnd z + 1) z) done (cur ++ [c]) rem f d st ob.
Proof.
  intros H. split.
  - apply readByte_some. eapply Scan_at; eauto.
  - destruct H. constructor; proj_simpl; auto.
    + rewrite <- app_assoc. exact sc_buf0.
    + rewrite length_app. cbn [length]. lia.
Qed.

(** Run the pure steps at the head of the goal. *)
Ltac exec :=
  repeat first [ rewrite bind_bind | rewrite bind_gets | rewrite bind_modify
               | rewrite bind_ret | progress proj_simpl ].

(** Read the next byte in the goal, given [Scan z done cur (c :: rem) ...]. *)
Ltac exec_read H Hnew :=
  let Hr := fresh "Hr" in
  destruct (Scan_read _ _ _ _ _ _ _ _ _ H) as [Hr Hnew];
  rewrite (bind_run _ _ _ _ _ Hr); clear Hr;
  rewrite bind_gets; unfold isErr at 1; proj_simpl;
  rewrite (sc_err _ _ _ _ _ _ _ _ H); cbv iota.

Ltac scan_field L H :=
  let Hx := fresh "Hf" in
  pose proof (L _ _ _ _ _ _ _ _ H) as Hx; proj_simpl_in Hx;
  repeat (progress (rewrite ?length_app in Hx; cbn [length] in Hx)).

Ltac scan_fields H :=
  scan_field sc_buf H; scan_field sc_start H; scan_field sc_end H;
  scan_field sc_err H; scan_field sc_fm H; scan_field sc_dash H;
  scan_field sc_stack H; scan_field sc_ob H; scan_field sc_tag H.

Ltac scan_solve H :=
  scan_fields H; constructor; proj_simpl;
  repeat (progress (rewrite ?length_app; cbn [length]));
  try assumption; try congruence; try lia.

Section Bodies.

Variable unescape : list byte -> list byte.

(** ** One pass of [frontmatter_loop] *)

(** A byte that is neither a dash nor a slash and that does not end the
    token is skipped, and the dash count starts again. *)
Lemma frontmatter_continue (fuel : nat) (z : Tokenizer) (done cur : list byte) (c : byte)
      (rem : list byte) (f : FrontmatterState) (d : Z) (st : list Z) (ob : bool)
      (s : byte) (t : list byte) :
  Scan z done cur (c :: rem) f d st ob ->
  f <> FrontmatterClosed -> d <> 3 ->
  beq c "-" = false -> beq c "/" = false ->
  cur ++ [c] = s :: t ->
  ((beq s "<" || isBrace s || beq c "<" || isBrace c) = false /\ isQuote c = false) \/
  (f = FrontmatterOpen /\ (beq s "<" || beq c "<") = true) ->
  exists z', frontmatter_body fuel z = Ok Continue z' /\
             Scan z' done (cur ++ [c]) rem f 0 st ob.
Proof.
  intros H Hf Hd Hdash Hslash Hs Hcase.
  unfold frontmatter_body. rewrite bind_gets, (sc_fm _ _ _ _ _ _ _ _ H).
  replace (fm_eqb f FrontmatterClosed) with false by (destruct f; first [reflexivity | congruence]).
  exec_read H H1.
  rewrite Hdash. exec. unfold id. exec.
  rewrite (sc_dash _ _ _ _ _ _ _ _ H).
  destruct (Z.eqb_spec d 3) as [|_]; [contradiction|].
  rewrite Hslash.
  assert (Hfirst : bufSlice1 (rawStart z) (set_rawEnd (rawEnd z + 1) z)
                   = Ok s (set_rawEnd (rawEnd z + 1) z)).
  { apply (Scan_first (rem := rem) (cur := cur ++ [c]) s (t ++ rem)) in H1.
    - exact H1.
    - rewrite Hs. reflexivity. }
  exec. rewrite (bind_run _ _ _ _ _ Hfirst).
  destruct Hcase as [[Hc Hq] | [-> Hc]].
  - rewrite Hc, Hq. exec. eexists. split; [reflexivity|]. scan_solve H1.
  - assert (Hor : (beq s "<" || isBrace s || beq c "<" || isBrace c) = true).
    { destruct (beq s "<"), (beq c "<"), (isBrace s); try reflexivity; discriminate. }
    rewrite Hor. exec. rewrite (sc_fm _ _ _ _ _ _ _ _ H). cbn [fm_eqb andb].
    rewrite Hc. eexists. split; [reflexivity|]. scan_solve H1.
Qed.

Lemma isBrace_cases (c : byte) : isBrace c = true -> c = "{"%byte \/ c = "}"%byte.
Proof.
  unfold isBrace. intros H. apply orb_prop in H as [H|H]; apply beq_eq in H; auto.
Qed.

(** A dash that does not complete a run of three is counted and skipped. *)
Lemma frontmatter_dash (fuel : nat) (z : Tokenizer) (done cur rem : list byte)
      (f : FrontmatterState) (d : Z) (st : list Z) (ob : bool) :
  Scan z done cur ("-"%byte :: rem) f d st ob ->
  f <> FrontmatterClosed -> d + 1 <> 3 ->
  exists z', frontmatter_body fuel z = Ok Continue z' /\
             Scan z' done (cur ++ ["-"%byte]) rem f (d + 1) st ob.
Proof.
  intros H Hf Hd.
  unfold frontmatter_body. rewrite bind_gets, (sc_fm _ _ _ _ _ _ _ _ H).
  replace (fm_eqb f FrontmatterClosed) with false
    by (destruct f; first [reflexivity | congruence]).
  exec_read H H1.
  change (beq "-" "-") with true. cbv iota. exec. unfold id. exec.
  rewrite (sc_dash _ _ _ _ _ _ _ _ H).
  destruct (Z.eqb_spec (d + 1) 3) as [|_]; [contradiction|].
  eexists. split; [reflexivity|]. scan_solve H1.
Qed.

(** The third dash in a row opens the frontmatter. *)
Lemma frontmatter_open_fence (fuel : nat) (z : Tokenizer) (done cur rem : list byte)
      (st : list Z) (ob : bool) :
  Scan z done cur ("-"%byte :: rem) FrontmatterInitial 2 st ob ->
  exists z', frontmatter_body fuel z = Ok Return z' /\
             tt z' = FrontmatterFenceToken /\
             Scan z' done (cur ++ ["-"%byte]) rem FrontmatterOpen 0 st false.
Proof.
  intros H.
  unfold frontmatter_body. rewrite bind_gets, (sc_fm _ _ _ _ _ _ _ _ H).
  cbn [fm_eqb]. exec_read H H1.
  change (beq "-" "-") with true. cbv iota. exec. unfold id. exec.
  rewrite (sc_dash _ _ _ _ _ _ _ _ H), (sc_fm _ _ _ _ _ _ _ _ H).
  change (2 + 1 =? 3) with true. cbv iota. exec.
  eexists. split; [reflexivity|]. split; [reflexivity|]. scan_solve H1.
Qed.

(** While the frontmatter is open, the third dash in a row first ends the
    text before it: the text token is returned with the read position
    behind the dashes and the dash count still at three. *)
Lemma frontmatter_text_before_fence (fuel : nat) (z : Tokenizer)
      (done cur rem : list byte) (st : list Z) (ob : bool) :
  Scan z done cur ("-"%byte :: rem) FrontmatterOpen 2 st ob ->
  (3 <= length cur)%nat ->
  exists z', frontmatter_body fuel z = Ok Return z' /\
             tt z' = TextToken /\
             Scan z' done (cur ++ ["-"%byte]) rem FrontmatterOpen 3 st false.
Proof.
  intros H Hlen.
  unfold frontmatter_body. rewrite bind_gets, (sc_fm _ _ _ _ _ _ _ _ H).
  cbn [fm_eqb]. exec_read H H1.
  change (beq "-" "-") with true. cbv iota. exec. unfold id. exec.
  rewrite (sc_dash _ _ _ _ _ _ _ _ H), (sc_fm _ _ _ _ _ _ _ _ H).
  change (2 + 1 =? 3) with true. cbv iota.
  rewrite (sc_start _ _ _ _ _ _ _ _ H), (sc_end _ _ _ _ _ _ _ _ H).
  destruct (Z.ltb_spec (Z.of_nat (length done))
              (Z.of_nat (length done) + Z.of_nat (length cur) + 1 - 3)); [|lia].
  unfold returnToken. exec.
  eexists. split; [reflexivity|]. split; [reflexivity|]. scan_solve H1.
Qed.

(** With the dash count still at three from the text token before, the
    first byte of the next token, whatever it is, closes the frontmatter. *)
Lemma frontmatter_close_fence (fuel : nat) (z : Tokenizer) (done : list byte) (c : byte)
      (rem : list byte) (st : list Z) (ob : bool) :
  Scan z done [] (c :: rem) FrontmatterOpen 3 st ob ->
  beq c "-" = false ->
  exists z', frontmatter_body fuel z = Ok Return z' /\
             tt z' = FrontmatterFenceToken /\
             Scan z' done [c] rem FrontmatterClosed 0 st true.
Proof.
  intros H Hc.
  unfold frontmatter_body. rewrite bind_gets, (sc_fm _ _ _ _ _ _ _ _ H).
  cbn [fm_eqb]. exec_read H H1.
  rewrite Hc. exec. unfold id. exec.
  rewrite (sc_dash _ _ _ _ _ _ _ _ H), (sc_fm _ _ _ _ _ _ _ _ H).
  change (3 =? 3) with true. cbv iota.
  rewrite (sc_start _ _ _ _ _ _ _ _ H), (sc_end _ _ _ _ _ _ _ _ H).
  destruct (Z.ltb_spec (Z.of_nat (length done))
              (Z.of_nat (length done) + Z.of_nat (length (@nil byte)) + 1 - 3));
    [cbn [length] in *; lia|].
  exec.
  eexists. split; [reflexivity|]. split; [reflexivity|]. scan_solve H1.
Qed.

(** A brace is left to the main loop, unless the frontmatter is open and
    the token began with [<]. *)
Lemma frontmatter_brace (fuel : nat) (z : Tokenizer) (done cur : list byte) (c : byte)
      (rem : list byte) (f : FrontmatterState) (d : Z) (st : list Z) (ob : bool)
      (s : byte) (t : list byte) :
  Scan z done cur (c :: rem) f d st ob ->
  f <> FrontmatterClosed -> d <> 3 ->
  isBrace c = true ->
  cur ++ [c] = s :: t ->
  (f = FrontmatterOpen -> beq s "<" = false) ->
  exists z', frontmatter_body fuel z = Ok (Goto L_loop) z' /\
             Scan z' done cur (c :: rem) f 0 st ob.
Proof.
  intros H Hf Hd Hc Hs Hlt.
  assert (Hc' : beq c "-" = false /\ beq c "/" = false /\ beq c "<" = false).
  { apply isBrace_cases in Hc as [-> | ->]; repeat split; reflexivity. }
  destruct Hc' as (Hdash & Hslash & Hclt).
  unfold frontmatter_body. rewrite bind_gets, (sc_fm _ _ _ _ _ _ _ _ H).
  replace (fm_eqb f FrontmatterClosed) with false
    by (destruct f; first [reflexivity | congruence]).
  exec_read H H1.
  rewrite Hdash. exec. unfold id. exec.
  rewrite (sc_dash _ _ _ _ _ _ _ _ H).
  destruct (Z.eqb_spec d 3) as [|_]; [contradiction|].
  rewrite Hslash. exec.
  assert (Hfirst : bufSlice1 (rawStart z) (set_rawEnd (rawEnd z + 1) z)
                   = Ok s (set_rawEnd (rawEnd z + 1) z)).
  { apply (Scan_first (rem := rem) (cur := cur ++ [c]) s (t ++ rem)) in H1.
    - exact H1.
    - rewrite Hs. reflexivity. }
  rewrite (bind_run _ _ _ _ _ Hfirst).
  rewrite Hc, Hclt. rewrite !orb_true_r. exec.
  rewrite (sc_fm _ _ _ _ _ _ _ _ H).
  replace (fm_eqb f FrontmatterOpen && (beq s "<" || false)) with false.
  2:{ destruct f; try reflexivity. rewrite Hlt by reflexivity. reflexivity. }
  unfold rawEnd_add. exec.
  eexists. split; [reflexivity|].
  scan_solve H.
Qed.

(** At the end of the input the loop is left. *)
Lemma frontmatter_eof (fuel : nat) (z : Tokenizer) (done cur : list byte)
      (f : FrontmatterState) (d : Z) (st : list Z) (ob : bool) :
  Scan z done cur [] f d st ob ->
  f <> FrontmatterClosed ->
  frontmatter_body fuel z = Ok Break (set_err (Some EOF) z).
Proof.
  intros H Hf.
  unfold frontmatter_body. rewrite bind_gets, (sc_fm _ _ _ _ _ _ _ _ H).
  replace (fm_eqb f FrontmatterClosed) with false
    by (destruct f; first [reflexivity | congruence]).
  rewrite (bind_run _ _ _ _ _ (Scan_eof H eq_refl)).
  reflexivity.
Qed.

(** ** One pass of the main loop *)

Lemma brace_not_quote (c : byte) : isBrace c = true -> isQuote c = false.
Proof. intros H. apply isBrace_cases in H as [-> | ->]; reflexivity. Qed.

(** A brace at the start of a token is handed to the expression loop. *)
Lemma loop_brace_first (fuel : nat) (z : Tokenizer) (done : list byte) (c : byte)
      (rem : list byte) (f : FrontmatterState) (d : Z) (st : list Z) (ob : bool) :
  Scan z done [] (c :: rem) f d st ob ->
  isBrace c = true ->
  exists z', loop_body fuel z = Ok (Goto L_expression_loop) z' /\
             Scan z' done [] (c :: rem) f d st ob.
Proof.
  intros H Hc. unfold loop_body. exec_read H H1. exec.
  rewrite (brace_not_quote _ Hc), andb_false_r, Hc. unfold id. exec.
  rewrite (sc_start _ _ _ _ _ _ _ _ H), (sc_end _ _ _ _ _ _ _ _ H). cbn [length].
  match goal with
  | |- context [Z.ltb ?a ?b] => destruct (Z.ltb_spec a b); [lia|]
  end.
  unfold rawEnd_add. exec.
  eexists. split; [reflexivity|]. scan_solve H.
Qed.

(** A brace behind other bytes of the token ends the token before it. *)
Lemma loop_brace_flush (fuel : nat) (z : Tokenizer) (done cur : list byte) (c : byte)
      (rem : list byte) (f : FrontmatterState) (d : Z) (st : list Z) (ob : bool) :
  Scan z done cur (c :: rem) f d st ob ->
  isBrace c = true -> cur <> [] ->
  exists z', loop_body fuel z = Ok Return z' /\ tt z' = TextToken /\
             Scan z' done cur (c :: rem) f d st ob.
Proof.
  intros H Hc Hcur. unfold loop_body. exec_read H H1. exec.
  rewrite (brace_not_quote _ Hc), andb_false_r, Hc. unfold id. exec.
  rewrite (sc_start _ _ _ _ _ _ _ _ H), (sc_end _ _ _ _ _ _ _ _ H).
  assert (0 < length cur)%nat by (destruct cur; [congruence | cbn; lia]).
  destruct (Z.ltb_spec (Z.of_nat (length done))
                       (Z.of_nat (length done) + Z.of_nat (length cur) + 1 - 1)); [|lia].
  unfold flushText, returnToken. exec.
  eexists. split; [reflexivity|]. split; [reflexivity|]. scan_solve H.
Qed.

(** ** One pass of [expression_loop] *)

Lemma bumpTop_snoc (k : Z) (st : list Z) (t : Z) : bumpTop k (st ++ [t]) = st ++ [t + k].
Proof. unfold bumpTop. rewrite rev_app_distr. cbn. rewrite rev_involutive. reflexivity. Qed.

Lemma snoc_match {A C} (l : list A) (x : A) (a b : C) :
  match l ++ [x] with [] => a | _ :: _ => b end = b.
Proof. destruct l; reflexivity. Qed.

Lemma top_not_sentinel {C} (t : Z) (a b : C) :
  t <> -1 -> match Some t with Some (-1) => a | _ => b end = b.
Proof.
  intros H. destruct t as [|p|p]; try reflexivity.
  destruct p; try reflexivity. congruence.
Qed.

Lemma topOf_snoc (st : list Z) (t : Z) : topOf (st ++ [t]) = Some t.
Proof. unfold topOf. rewrite rev_app_distr. reflexivity. Qed.

(** A byte that is no slash, quote, [<] or brace is skipped. *)
Lemma expression_plain (fuel : nat) (z : Tokenizer) (done cur : list byte) (c : byte)
      (rem : list byte) (f : FrontmatterState) (d : Z) (st : list Z) (ob : bool) :
  Scan z done cur (c :: rem) f d st ob ->
  beq c "/" = false -> isQuote c = false -> beq c "<" = false -> isBrace c = false ->
  exists z', expression_body fuel z = Ok Continue z' /\
             Scan z' done (cur ++ [c]) rem f d st ob.
Proof.
  intros H H1 H2 H3 H4. unfold expression_body. exec_read H Hn.
  rewrite H1, H2, H3, H4. cbn [negb].
  eexists. split; [reflexivity | exact Hn].
Qed.

Lemma brace_facts (c : byte) :
  isBrace c = true -> beq c "/" = false /\ isQuote c = false /\ beq c "<" = false.
Proof. intros H. apply isBrace_cases in H as [-> | ->]; repeat split; reflexivity. Qed.

(** A brace behind other bytes of the token ends the token before it. *)
Lemma expression_flush (fuel : nat) (z : Tokenizer) (done cur : list byte) (c : byte)
      (rem : list byte) (f : FrontmatterState) (d : Z) (st : list Z) (ob : bool) :
  Scan z done cur (c :: rem) f d st ob ->
  isBrace c = true -> cur <> [] ->
  exists z', expression_body fuel z = Ok Return z' /\ tt z' = TextToken /\
             Scan z' done cur (c :: rem) f d st ob.
Proof.
  intros H Hc Hcur. unfold expression_body. exec_read H H1.
  destruct (brace_facts _ Hc) as (-> & -> & ->). rewrite Hc. cbn [negb].
  exec. unfold id. exec.
  rewrite (sc_start _ _ _ _ _ _ _ _ H), (sc_end _ _ _ _ _ _ _ _ H).
  assert (0 < length cur)%nat by (destruct cur; [congruence | cbn; lia]).
  destruct (Z.ltb_spec (Z.of_nat (length done))
                       (Z.of_nat (length done) + Z.of_nat (length cur) + 1 - 1)); [|lia].
  unfold flushText, returnToken. exec.
  eexists. split; [reflexivity|]. split; [reflexivity|]. scan_solve H.
Qed.

(** Run [expression_body] on a brace that starts the token, up to the
    switch on the brace. *)
Ltac expression_first H H1 c :=
  unfold expression_body; exec_read H H1;
  change (beq c "/") with false; change (isQuote c) with false;
  change (beq c "<") with false; change (isBrace c) with true;
  cbn [negb]; exec; unfold id; exec;
  rewrite (sc_start _ _ _ _ _ _ _ _ H), (sc_end _ _ _ _ _ _ _ _ H); cbn [length];
  match goal with
  | |- context [Z.ltb ?a ?b] => destruct (Z.ltb_spec a b); [lia|]
  end.

(** An opening brace where an expression may start is a
    StartExpressionToken and gets a counter of its own. *)
Lemma expression_start (fuel : nat) (z : Tokenizer) (done rem : list byte)
      (f : FrontmatterState) (d : Z) (st : list Z) :
  Scan z done [] ("{"%byte :: rem) f d st true ->
  exists z', expression_body fuel z = Ok Return z' /\ tt z' = StartExpressionToken /\
             Scan z' done ["{"%byte] rem f d (st ++ [0]) false.
Proof.
  intros H. expression_first H H1 "{"%byte.
  change (beq "{" "{") with true. cbv iota.
  rewrite (sc_ob _ _ _ _ _ _ _ _ H). unfold returnToken. exec.
  eexists. split; [reflexivity|]. split; [reflexivity|]. scan_solve H1.
Qed.

(** Any other opening brace is text and is counted on the innermost
    open expression, if there is one. *)
Lemma expression_nested (fuel : nat) (z : Tokenizer) (done rem : list byte)
      (f : FrontmatterState) (d : Z) (st : list Z) :
  Scan z done [] ("{"%byte :: rem) f d st false ->
  exists z', expression_body fuel z = Ok Return z' /\ tt z' = TextToken /\
             Scan z' done ["{"%byte] rem f d (bumpTop 1 st) false.
Proof.
  intros H. expression_first H H1 "{"%byte.
  change (beq "{" "{") with true. cbv iota.
  rewrite (sc_ob _ _ _ _ _ _ _ _ H). unfold returnToken. exec.
  eexists. split; [reflexivity|]. split; [reflexivity|]. scan_solve H1.
Qed.

(** A closing brace outside every expression is text. *)
Lemma expression_stray (fuel : nat) (z : Tokenizer) (done rem : list byte)
      (f : FrontmatterState) (d : Z) (ob : bool) :
  Scan z done [] ("}"%byte :: rem) f d [] ob ->
  exists z', expression_body fuel z = Ok Return z' /\ tt z' = TextToken /\
             Scan z' done ["}"%byte] rem f d [] ob.
Proof.
  intros H. expression_first H H1 "}"%byte.
  change (beq "}" "{") with false. cbv iota.
  rewrite (sc_stack _ _ _ _ _ _ _ _ H). unfold returnToken. exec.
  eexists. split; [reflexivity|]. split; [reflexivity|]. scan_solve H1.
Qed.

(** The closing brace that takes the innermost counter from 0 to -1 ends
    that expression: EndExpressionToken, and the counter is popped. *)
Lemma expression_end (fuel : nat) (z : Tokenizer) (done rem : list byte)
      (f : FrontmatterState) (d : Z) (st : list Z) (ob : bool) :
  Scan z done [] ("}"%byte :: rem) f d (st ++ [0]) ob ->
  exists z', expression_body fuel z = Ok Return z' /\ tt z' = EndExpressionToken /\
             Scan z' done ["}"%byte] rem f d st true.
Proof.
  intros H. expression_first H H1 "}"%byte.
  change (beq "}" "{") with false. cbv iota.
  rewrite (sc_stack _ _ _ _ _ _ _ _ H).
  rewrite snoc_match.
  exec. rewrite (sc_stack _ _ _ _ _ _ _ _ H).
  rewrite bumpTop_snoc, topOf_snoc. change (0 + -1) with (-1).
  unfold returnToken. exec. rewrite removelast_last.
  eexists. split; [reflexivity|]. split; [reflexivity|]. scan_solve H1.
Qed.

(** Any other closing brace lowers the innermost counter and the scan
    goes on within the same token. *)
Lemma expression_close_nested (fuel : nat) (z : Tokenizer) (done rem : list byte)
      (f : FrontmatterState) (d : Z) (st : list Z) (k : Z) (ob : bool) :
  Scan z done [] ("}"%byte :: rem) f d (st ++ [k]) ob ->
  k <> 0 ->
  exists z', expression_body fuel z = Ok Continue z' /\
             Scan z' done ["}"%byte] rem f d (st ++ [k - 1]) ob.
Proof.
  intros H Hk. expression_first H H1 "}"%byte.
  change (beq "}" "{") with false. cbv iota.
  rewrite (sc_stack _ _ _ _ _ _ _ _ H).
  rewrite snoc_match.
  exec. rewrite (sc_stack _ _ _ _ _ _ _ _ H).
  rewrite bumpTop_snoc, topOf_snoc.
  rewrite top_not_sentinel by lia.
  eexists. split; [reflexivity|]. scan_solve H1.
  all: try (f_equal; f_equal; lia).
Qed.

(** ** The loops at the end of the input *)

Lemma body_at_end (fuel : nat) (l : Label) (z : Tokenizer) :
  len z <= rawEnd z ->
  (l = L_frontmatter_loop -> fm z <> FrontmatterClosed) ->
  body fuel l z = Ok Break (set_err (Some EOF) z).
Proof.
  intros Hend Hfm.
  destruct l; cbn [body];
    [unfold loop_body | unfold frontmatter_body | unfold raw_with_expression_body
     | unfold expression_body].
  2:{ rewrite bind_gets.
      replace (fm_eqb (fm z) FrontmatterClosed) with false
        by (specialize (Hfm eq_refl); destruct (fm z); first [reflexivity | congruence]).
      rewrite (bind_run _ _ _ _ _ (readByte_eof z Hend)). reflexivity. }
  all: rewrite (bind_run _ _ _ _ _ (readByte_eof z Hend)); reflexivity.
Qed.

Lemma run_continue (f : nat) (l : Label) (z z' : Tokenizer) :
  body (S f) l z = Ok Continue z' -> run (S f) l z = run f l z'.
Proof. intros H. cbn [run]. rewrite (bind_run _ _ _ _ _ H). reflexivity. Qed.

Lemma run_goto (f : nat) (l l' : Label) (z z' : Tokenizer) :
  body (S f) l z = Ok (Goto l') z' -> run (S f) l z = run f l' z'.
Proof. intros H. cbn [run]. rewrite (bind_run _ _ _ _ _ H). reflexivity. Qed.

Lemma run_return (f : nat) (l : Label) (z z' : Tokenizer) :
  body (S f) l z = Ok Return z' -> run (S f) l z = Ok () z'.
Proof. intros H. cbn [run]. rewrite (bind_run _ _ _ _ _ H). reflexivity. Qed.

Lemma run_break (f : nat) (l : Label) (z z1 z2 : Tokenizer) (n : option Label) :
  body (S f) l z = Ok Break z1 -> afterLoop l z1 = Ok n z2 ->
  run (S f) l z = match n with Some l' => run f l' z2 | None => Ok () z2 end.
Proof.
  intros H1 H2. cbn [run]. rewrite (bind_run _ _ _ _ _ H1).
  rewrite (bind_run _ _ _ _ _ H2). destruct n; reflexivity.
Qed.

Lemma SameInput_trans (z1 z2 z3 : Tokenizer) :
  SameInput z1 z2 -> SameInput z2 z3 -> SameInput z1 z3.
Proof. intros [] []. constructor; congruence. Qed.

Lemma SameInput_err (z : Tokenizer) (e : option error) :
  rawTag z = [] -> SameInput z (set_err e z).
Proof. intros H. constructor; proj_simpl; auto. Qed.

(** The end of [Next] behind [loop:] and behind [expression_loop:]. *)
Lemma afterLoop_last (l : Label) (z : Tokenizer) :
  l = L_loop \/ l = L_expression_loop -> rawTag z = [] ->
  exists z', afterLoop l z = Ok None z' /\
             tt z' = (if rawStart z <? rawEnd z then TextToken else ErrorToken) /\
             SameInput z z'.
Proof.
  intros [-> | ->] Htag; cbn [afterLoop]; exec; unfold id; exec;
    destruct (rawStart z <? rawEnd z); exec;
    (eexists; split; [reflexivity|]; split; [reflexivity|];
     constructor; proj_simpl; auto).
Qed.

Lemma run_at_end_expression (g : nat) (z : Tokenizer) :
  len z <= rawEnd z -> rawTag z = [] ->
  exists z', run (S g) L_expression_loop z = Ok () z' /\
             tt z' = (if rawStart z <? rawEnd z then TextToken else ErrorToken) /\
             SameInput z z'.
Proof.
  intros Hend Htag.
  destruct (afterLoop_last L_expression_loop (set_err (Some EOF) z))
    as (z' & Ha & Htt & Hs); [auto | exact Htag |].
  exists z'. split.
  - rewrite (run_break _ _ _ _ _ _
               (body_at_end _ L_expression_loop z Hend ltac:(discriminate)) Ha).
    reflexivity.
  - split; [exact Htt|].
    eapply SameInput_trans; [apply (SameInput_err z (Some EOF) Htag) | exact Hs].
Qed.

Lemma run_at_end_raw (g : nat) (z : Tokenizer) :
  len z <= rawEnd z -> rawTag z = [] ->
  exists z', run (S (S g)) L_raw_with_expression_loop z = Ok () z' /\
             tt z' = (if rawStart z <? rawEnd z then TextToken else ErrorToken) /\
             SameInput z z'.
Proof.
  intros Hend Htag.
  pose (z1 := set_rawTag []
                (set_textIsRaw
                   (negb (bytes_eqb (rawTag z) (B "textarea")) &&
                    negb (bytes_eqb (rawTag z) (B "title")))
                   (set_dataEnd (rawEnd z) (set_err (Some EOF) z)))).
  assert (Ha : afterLoop L_raw_with_expression_loop (set_err (Some EOF) z)
               = Ok (Some L_expression_loop) z1) by reflexivity.
  destruct (run_at_end_expression g z1) as (z' & Hrun & Htt & Hs);
    [exact Hend | reflexivity |].
  exists z'. split.
  - rewrite (run_break _ _ _ _ _ _
               (body_at_end _ L_raw_with_expression_loop z Hend ltac:(discriminate)) Ha).
    exact Hrun.
  - split; [exact Htt|].
    eapply SameInput_trans; [|exact Hs]. constructor; subst z1; proj_simpl; auto.
Qed.

(** Entered at the end of the input, the loops fall through to the end of
    [Next]: the bytes read for the token, if any, are a text token, and
    without any the result is ErrorToken. *)
Lemma run_at_end (fuel : nat) (l : Label) (z : Tokenizer) :
  len z <= rawEnd z ->
  (l = L_frontmatter_loop -> fm z <> FrontmatterClosed) ->
  rawTag z = [] ->
  exists z', run (3 + fuel) l z = Ok () z' /\
             tt z' = (if rawStart z <? rawEnd z then TextToken else ErrorToken) /\
             SameInput z z'.
Proof.
  intros Hend Hfm Htag. change (3 + fuel)%nat with (S (S (S fuel))).
  destruct l.
  - destruct (afterLoop_last L_loop (set_err (Some EOF) z))
      as (z' & Ha & Htt & Hs); [auto | exact Htag |].
    exists z'. split.
    + rewrite (run_break _ _ _ _ _ _
                 (body_at_end _ L_loop z Hend ltac:(discriminate)) Ha).
      reflexivity.
    + split; [exact Htt|].
      eapply SameInput_trans; [apply (SameInput_err z (Some EOF) Htag) | exact Hs].
  - pose (z1 := set_dataEnd (rawEnd z) (set_err (Some EOF) z)).
    assert (Ha : afterLoop L_frontmatter_loop (set_err (Some EOF) z)
                 = Ok (Some L_raw_with_expression_loop) z1) by reflexivity.
    destruct (run_at_end_raw fuel z1) as (z' & Hrun & Htt & Hs);
      [exact Hend | exact Htag |].
    exists z'. split.
    + rewrite (run_break _ _ _ _ _ _
                 (body_at_end _ L_frontmatter_loop z Hend Hfm) Ha).
      exact Hrun.
    + split; [exact Htt|].
      eapply SameInput_trans; [|exact Hs]. constructor; subst z1; proj_simpl; auto.
  - apply run_at_end_raw; assumption.
  - apply run_at_end_expression; assumption.
Qed.

(** ** The start of [Next] *)

Lemma writeBack_nil (a : Z) (z : Tokenizer) : writeBack a [] z = Ok () z.
Proof.
  unfold writeBack, modify, backing. f_equal. cbn [app length].
  rewrite Nat.add_0_r, take_drop, take_app_length, drop_app_length.
  destruct z; reflexivity.
Qed.

Lemma sub_empty {A} (l : list A) (a : Z) : sub l a a = [].
Proof. unfold sub. rewrite Z.sub_diag. reflexivity. Qed.

Lemma bufSlice_empty (a : Z) (z : Tokenizer) :
  0 <= a -> a <= len z -> bufSlice a a z = Ok [] z.
Proof.
  intros H0 Hlen. unfold bufSlice, leCap.
  destruct (Z.leb_spec 0 a); [|lia].
  destruct (Z.leb_spec a a); [|lia].
  destruct (Z.leb_spec a (len z)); [|lia].
  cbn [andb orb]. rewrite sub_empty. reflexivity.
Qed.

Ltac enter_exists Ef :=
  match goal with
  | |- exists z1, _ /\ bind _ _ ?zz = _ => exists zz
  end;
  split;
  [ constructor; proj_simpl; try reflexivity; try (rewrite Ef; reflexivity);
    try (symmetry; assumption)
  | unfold entryLabel;
    match goal with
    | |- context [negb ?b] => destruct (negb b); [reflexivity|]
    end;
    match goal with
    | |- context [isAtExpressionBoundary ?zz] =>
        destruct (isAtExpressionBoundary zz); reflexivity
    end ].

(** Outside raw text, and behind a token that is no tag, [Next] only moves
    the start of the spans to the read position before it enters one of
    its loops. *)
Lemma Next_enter_any (fuel : nat) (z : Tokenizer) :
  rawTag z = [] ->
  (fm z = FrontmatterOpen -> noTag (tt z) /\ 0 <= rawEnd z <= len z) ->
  exists z1, Entered z z1 /\
             Next unescape fuel z
             = bind (run fuel (entryLabel z1)) (fun _ => gets tt) z1.
Proof.
  intros Htag Hopen. unfold Next. exec.
  destruct (fm_eqb (fm z) FrontmatterOpen) eqn:Ef.
  - assert (Hfm : fm z = FrontmatterOpen) by (destruct (fm z); first [reflexivity | discriminate]).
    destruct (Hopen Hfm) as [(Hn1 & Hn2 & Hn3) [H0 Hlen]].
    unfold Token_Type. exec.
    destruct (tt z) eqn:Htt; try congruence.
    1,5,6,7: exec; rewrite Htag; unfold Next_dispatch; exec; unfold id; enter_exists Ef.
    all: unfold Text; exec; rewrite Htt; unfold id; exec;
      match goal with
      | |- context [bind (bufSlice ?a ?a) ?k ?zz] =>
          rewrite (bind_run (bufSlice a a) k zz zz []
                     (bufSlice_empty a zz ltac:(exact H0) ltac:(exact Hlen)))
      end;
      exec; cbn [convertNewlines fst];
      erewrite bind_run by apply writeBack_nil;
      exec; rewrite Htag; unfold Next_dispatch; exec; unfold id; enter_exists Ef.
  - exec. rewrite Htag. unfold Next_dispatch. exec. unfold id. enter_exists Ef.
Qed.

Lemma Next_enter (fuel : nat) (z : Tokenizer) :
  rawTag z = [] ->
  (fm z = FrontmatterOpen ->
   (tt z = TextToken \/ tt z = FrontmatterFenceToken) /\ 0 <= rawEnd z <= len z) ->
  exists z1, Entered z z1 /\
             Next unescape fuel z
             = bind (run fuel (entryLabel z1)) (fun _ => gets tt) z1.
Proof.
  intros Htag Hopen. apply Next_enter_any; [exact Htag|].
  intros Hfm. destruct (Hopen Hfm) as [Htt Hb]. split; [|exact Hb].
  unfold noTag. destruct Htt as [-> | ->]; repeat split; discriminate.
Qed.

Lemma Scan_entered (z z1 : Tokenizer) (done cur rem : list byte)
      (f : FrontmatterState) (d : Z) (st : list Z) (ob : bool) :
  Scan z done cur rem f d st ob -> Entered z z1 ->
  Scan z1 (done ++ cur) [] rem f d st (if fm_eqb f FrontmatterOpen then false else ob).
Proof.
  intros H E. scan_fields H. destruct E. constructor; cbn [app length]; try congruence.
  - rewrite <- app_assoc. congruence.
  - rewrite length_app. lia.
  - rewrite length_app. lia.
  - rewrite en_ob0. subst f ob. reflexivity.
Qed.

(** ** Scanning in [frontmatter_loop] *)

Lemma okByte_facts (f : FrontmatterState) (c : byte) :
  okByte f c = true ->
  beq c "/" = false /\ isQuote c = false /\
  (f = FrontmatterOpen \/ beq c "<" = false).
Proof.
  unfold okByte. intros H.
  apply andb_prop in H as [H H3]. apply andb_prop in H as [H1 H2].
  apply negb_true_iff in H1, H2. repeat split; auto.
  apply orb_prop in H3 as [H3|H3].
  - left. destruct f; first [reflexivity | discriminate].
  - right. apply negb_true_iff in H3. exact H3.
Qed.

(** From the middle of a token that did not begin with a brace, the
    frontmatter loop reads on byte by byte.  Either it reads all of [rem],
    or it meets a brace, which ends the token before it as a text token;
    a token that began with [<] while the frontmatter is open reads over
    braces as well. *)
Lemma frontmatter_scan (done : list byte) (f : FrontmatterState) (st : list Z)
      (ob : bool) (tail : list byte) (fuel : nat) :
  f <> FrontmatterClosed ->
  forall (rem cur : list byte) (z : Tokenizer) (d : Z),
    Scan z done cur (rem ++ tail) f d st ob ->
    forallb (okByte f) rem = true -> noThreeDashes d rem = true -> d < 3 ->
    (forall s t, cur ++ rem = s :: t -> firstOk f s) ->
    (exists z',
        run (length rem + (2 + fuel)) L_frontmatter_loop z
        = run (2 + fuel) L_frontmatter_loop z' /\
        Scan z' done (cur ++ rem) tail f (dashRun d rem) st ob /\
        (f = FrontmatterInitial -> forallb notBrace rem = true)) \/
    (exists z' pre c post,
        rem = pre ++ c :: post /\ isBrace c = true /\ cur ++ pre <> [] /\
        run (length rem + (2 + fuel)) L_frontmatter_loop z = Ok () z' /\
        tt z' = TextToken /\
        Scan z' done (cur ++ pre) (c :: post ++ tail) f 0 st ob /\
        (f = FrontmatterInitial -> forallb notBrace pre = true)).
Proof.
  intros Hf. induction rem as [|c rem IH]; intros cur z d H Hok Hdash Hd Hfirst.
  - left. exists z. split; [reflexivity|]. rewrite app_nil_r. split; [exact H|].
    reflexivity.
  - cbn [forallb] in Hok. apply andb_prop in Hok as [Hc Hok].
    destruct (okByte_facts _ _ Hc) as (Hslash & Hquote & Hlt).
    cbn [noThreeDashes] in Hdash. cbn [dashRun].
    change (length (c :: rem) + (2 + fuel))%nat with (S (length rem + (2 + fuel))).
    cbn [app] in H.
    assert (Hstep : forall z1 d1,
               run (S (length rem + (2 + fuel))) L_frontmatter_loop z
               = run (length rem + (2 + fuel)) L_frontmatter_loop z1 ->
               Scan z1 done (cur ++ [c]) (rem ++ tail) f d1 st ob ->
               noThreeDashes d1 rem = true -> d1 < 3 ->
               d1 = (if beq c "-" then d + 1 else 0) ->
               (f = FrontmatterInitial -> notBrace c = true) ->
               (exists z',
                   run (S (length rem + (2 + fuel))) L_frontmatter_loop z
                   = run (2 + fuel) L_frontmatter_loop z' /\
                   Scan z' done (cur ++ c :: rem) tail f
                        (dashRun (if beq c "-" then d + 1 else 0) rem) st ob /\
                   (f = FrontmatterInitial -> forallb notBrace (c :: rem) = true)) \/
               (exists z' pre c0 post,
                   c :: rem = pre ++ c0 :: post /\ isBrace c0 = true /\
                   cur ++ pre <> [] /\
                   run (S (length rem + (2 + fuel))) L_frontmatter_loop z = Ok () z' /\
                   tt z' = TextToken /\
                   Scan z' done (cur ++ pre) (c0 :: post ++ tail) f 0 st ob /\
                   (f = FrontmatterInitial -> forallb notBrace pre = true))).
    { intros z1 d1 Hrun H1 Hd1 Hlt1 Ed Hnb.
      destruct (IH (cur ++ [c]) z1 d1 H1 Hok Hd1 Hlt1) as
          [(z' & Hr & Hs & Hp)
          | (z' & pre & c0 & post & -> & Hb & Hne & Hr & Htt & Hs & Hp)].
      - intros s t E. apply (Hfirst s t). rewrite <- E, <- app_assoc. reflexivity.
      - left. exists z'. split; [rewrite Hrun; exact Hr|].
        rewrite <- Ed. rewrite <- app_assoc in Hs. split; [exact Hs|].
        intros Hi. cbn [forallb]. rewrite (Hnb Hi), (Hp Hi). reflexivity.
      - right. exists z', (c :: pre), c0, post. split; [reflexivity|].
        split; [exact Hb|]. split; [destruct cur; discriminate|].
        split; [rewrite Hrun; exact Hr|]. split; [exact Htt|].
        rewrite <- app_assoc in Hs. split; [exact Hs|].
        intros Hi. cbn [forallb]. rewrite (Hnb Hi), (Hp Hi). reflexivity. }
    destruct (cur ++ [c]) as [|s t] eqn:Es; [destruct cur; discriminate|].
    assert (Hs : firstOk f s).
    { destruct cur as [|s' cur']; cbn in Es; injection Es as <- _;
        apply (Hfirst _ _ eq_refl). }
    destruct Hs as [Hsb Hslt].
    destruct (beq c "-") eqn:Edash.
    { apply beq_eq in Edash. subst c.
      apply andb_prop in Hdash as [Hd2 Hdash]. apply Z.ltb_lt in Hd2.
      destruct (frontmatter_dash (S (length rem + (2 + fuel))) z done cur (rem ++ tail)
                  f d st ob H Hf ltac:(lia)) as (z1 & Hb & H1).
      rewrite Es in H1.
      apply (Hstep z1 (d + 1)); auto; try lia.
      apply run_continue. exact Hb. }
    assert (Hcont : forall z1,
               body (S (length rem + (2 + fuel))) L_frontmatter_loop z = Ok Continue z1 ->
               Scan z1 done (s :: t) (rem ++ tail) f 0 st ob ->
               (f = FrontmatterInitial -> notBrace c = true) ->
               (exists z',
                   run (S (length rem + (2 + fuel))) L_frontmatter_loop z
                   = run (2 + fuel) L_frontmatter_loop z' /\
                   Scan z' done (cur ++ c :: rem) tail f (dashRun 0 rem) st ob /\
                   (f = FrontmatterInitial -> forallb notBrace (c :: rem) = true)) \/
               (exists z' pre c0 post,
                   c :: rem = pre ++ c0 :: post /\ isBrace c0 = true /\
                   cur ++ pre <> [] /\
                   run (S (length rem + (2 + fuel))) L_frontmatter_loop z = Ok () z' /\
                   tt z' = TextToken /\
                   Scan z' done (cur ++ pre) (c0 :: post ++ tail) f 0 st ob /\
                   (f = FrontmatterInitial -> forallb notBrace pre = true))).
    { intros z1 Hb H1 Hnb.
      apply (Hstep z1 0); auto; try lia. apply run_continue. exact Hb. }
    destruct (beq s "<") eqn:Eslt.
    { (* the token began with [<], in open frontmatter *)
      destruct Hslt as [-> | Hslt]; [|congruence].
      destruct (frontmatter_continue (S (length rem + (2 + fuel))) z done cur c
                  (rem ++ tail) FrontmatterOpen d st ob s t H Hf ltac:(lia)
                  Edash Hslash Es) as (z1 & Hb & H1).
      { right. split; [reflexivity|]. rewrite Eslt. reflexivity. }
      rewrite Es in H1. apply (Hcont z1 Hb H1). discriminate. }
    destruct (isBrace c) eqn:Ebrace.
    { (* a brace ends the token *)
      assert (Hcur : cur <> []).
      { intros ->. cbn in Es. injection Es as -> _. congruence. }
      destruct (frontmatter_brace (S (length rem + (2 + fuel))) z done cur c (rem ++ tail)
                  f d st ob s t H Hf ltac:(lia) Ebrace Es ltac:(auto))
        as (z1 & Hb1 & H1).
      destruct (loop_brace_flush (S (length rem + (1 + fuel))) z1 done cur c (rem ++ tail)
                  f 0 st ob H1 Ebrace Hcur) as (z2 & Hb2 & Htt & H2).
      right. exists z2, [], c, rem. split; [reflexivity|]. split; [exact Ebrace|].
      split; [rewrite app_nil_r; exact Hcur|].
      split.
      - rewrite (run_goto _ L_frontmatter_loop L_loop z z1 Hb1).
        replace (length rem + (2 + fuel))%nat with (S (length rem + (1 + fuel))) by lia.
        apply (run_return _ L_loop). exact Hb2.
      - split; [exact Htt|]. rewrite app_nil_r. split; [exact H2 | reflexivity]. }
    assert (Hnb : notBrace c = true) by (unfold notBrace; rewrite Ebrace; reflexivity).
    destruct (beq c "<") eqn:Eclt.
    { destruct Hlt as [-> | Hlt]; [|congruence].
      destruct (frontmatter_continue (S (length rem + (2 + fuel))) z done cur c
                  (rem ++ tail) FrontmatterOpen d st ob s t H Hf ltac:(lia)
                  Edash Hslash Es) as (z1 & Hb & H1).
      { right. split; [reflexivity|]. rewrite Eslt, Eclt. reflexivity. }
      rewrite Es in H1. apply (Hcont z1 Hb H1). auto. }
    destruct (frontmatter_continue (S (length rem + (2 + fuel))) z done cur c
                (rem ++ tail) f d st ob s t H Hf ltac:(lia)
                Edash Hslash Es) as (z1 & Hb & H1).
    { left. rewrite Eslt, Hsb, Eclt, Ebrace. split; [reflexivity | exact Hquote]. }
    rewrite Es in H1. apply (Hcont z1 Hb H1). auto.
Qed.

(** ** At the end of the input *)

Lemma Scan_len (z : Tokenizer) (done cur : list byte)
      (f : FrontmatterState) (d : Z) (st : list Z) (ob : bool) :
  Scan z done cur [] f d st ob -> rawEnd z = len z.
Proof.
  intros H. unfold len.
  rewrite (sc_buf _ _ _ _ _ _ _ _ H), (sc_end _ _ _ _ _ _ _ _ H).
  rewrite app_nil_r, length_app. lia.
Qed.

Lemma Finished_same (z z' : Tokenizer) :
  rawEnd z = len z -> SameInput z z' -> Finished z' (fm z).
Proof.
  intros H []. constructor; auto. unfold len. rewrite si_buf0, si_end0. exact H.
Qed.

(** At the end of the input [Next] returns ErrorToken. *)
Lemma Next_finished_any (fuel : nat) (z : Tokenizer) (f : FrontmatterState) :
  Finished z f ->
  (f = FrontmatterOpen -> noTag (tt z)) ->
  exists z', Next unescape (3 + fuel) z = Ok ErrorToken z' /\ tt z' = ErrorToken /\
             Finished z' f /\ expressionStack z' = expressionStack z.
Proof.
  intros [Hend Hfm Htag] Htt.
  destruct (Next_enter_any (3 + fuel) z Htag) as (z1 & E & HN).
  { intros Ho. split; [apply Htt; congruence|]. rewrite Hend. unfold len. lia. }
  destruct E.
  destruct (run_at_end fuel (entryLabel z1) z1) as (z' & Hrun & Ht & Hsame).
  - unfold len. rewrite en_buf0, en_end0, Hend. unfold len. lia.
  - unfold entryLabel. intros Hl Hc. rewrite Hc in Hl. cbn in Hl.
    destruct (isAtExpressionBoundary z1); discriminate.
  - congruence.
  - rewrite en_start0, en_end0, Z.ltb_irrefl in Ht.
    exists z'. split; [|split; [exact Ht|split]].
    + rewrite HN. rewrite (bind_run _ _ _ _ _ Hrun).
      unfold gets. rewrite Ht. reflexivity.
    + rewrite <- Hfm, <- en_fm0. apply Finished_same; [|exact Hsame].
      unfold len. rewrite en_buf0, en_end0. exact Hend.
    + destruct Hsame. congruence.
Qed.

Lemma Next_finished (fuel : nat) (z : Tokenizer) (f : FrontmatterState) :
  Finished z f ->
  (f = FrontmatterOpen -> tt z = TextToken \/ tt z = FrontmatterFenceToken) ->
  exists z', Next unescape (3 + fuel) z = Ok ErrorToken z' /\
             fm z' = f /\ expressionStack z' = expressionStack z.
Proof.
  intros Hfin Htt.
  destruct (Next_finished_any fuel z f Hfin) as (z' & HN & _ & Hf & Hst).
  - intros Ho. unfold noTag.
    destruct (Htt Ho) as [-> | ->]; repeat split; discriminate.
  - exists z'. split; [exact HN|]. split; [apply (fin_fm _ _ Hf) | exact Hst].
Qed.

(** ** Scanning in [expression_loop] *)

(** Behind a closing brace that did not end its expression, the expression
    loop reads on up to the next brace or to the end of the input; what it
    read is a text token. *)
Lemma expression_scan (done : list byte) (f : FrontmatterState) (d : Z) (st : list Z)
      (ob : bool) (fuel : nat) :
  forall (rem cur : list byte) (z : Tokenizer),
    Scan z done cur rem f d st ob ->
    cur <> [] ->
    forallb (okByte FrontmatterInitial) rem = true ->
    exists z' pre post,
      rem = pre ++ post /\ forallb notBrace pre = true /\
      run (length rem + (1 + fuel)) L_expression_loop z = Ok () z' /\
      tt z' = TextToken /\
      match post with
      | [] => Finished z' f /\ expressionStack z' = st
      | c :: _ => isBrace c = true /\ Scan z' done (cur ++ pre) post f d st ob
      end.
Proof.
  induction rem as [|c rem IH]; intros cur z H Hcur Hok.
  - destruct (run_at_end_expression fuel z) as (z' & Hrun & Htt & Hs).
    + rewrite (Scan_len _ _ _ _ _ _ _ H). lia.
    + exact (sc_tag _ _ _ _ _ _ _ _ H).
    + exists z', [], []. split; [reflexivity|]. split; [reflexivity|].
      split; [exact Hrun|]. split.
      * rewrite Htt, (sc_start _ _ _ _ _ _ _ _ H), (sc_end _ _ _ _ _ _ _ _ H).
        destruct cur; [congruence|]. cbn [length].
        destruct (Z.ltb_spec (Z.of_nat (length done))
                    (Z.of_nat (length done) + Z.of_nat (S (length cur)))); [reflexivity | lia].
      * split.
        -- rewrite <- (sc_fm _ _ _ _ _ _ _ _ H).
           apply Finished_same; [|exact Hs]. apply (Scan_len _ _ _ _ _ _ _ H).
        -- rewrite (si_stack _ _ Hs). apply (sc_stack _ _ _ _ _ _ _ _ H).
  - cbn [forallb] in Hok. apply andb_prop in Hok as [Hc Hok].
    destruct (okByte_facts _ _ Hc) as (Hslash & Hquote & [Hlt | Hlt]); [discriminate|].
    change (length (c :: rem) + (1 + fuel))%nat with (S (length rem + (1 + fuel))).
    destruct (isBrace c) eqn:Ebrace.
    + destruct (expression_flush (S (length rem + (1 + fuel))) z done cur c rem f d st ob
                  H Ebrace Hcur) as (z' & Hb & Htt & Hs).
      exists z', [], (c :: rem). split; [reflexivity|]. split; [reflexivity|].
      split; [apply (run_return _ L_expression_loop); exact Hb|].
      split; [exact Htt|]. split; [exact Ebrace|]. rewrite app_nil_r. exact Hs.
    + destruct (expression_plain (S (length rem + (1 + fuel))) z done cur c rem f d st ob
                  H Hslash Hquote Hlt Ebrace) as (z1 & Hb & H1).
      destruct (IH (cur ++ [c]) z1 H1 ltac:(destruct cur; discriminate) Hok)
        as (z' & pre & post & -> & Hpre & Hrun & Htt & Hpost).
      exists z', (c :: pre), post. split; [reflexivity|].
      split; [cbn [forallb]; unfold notBrace at 1; rewrite Ebrace; exact Hpre|].
      split.
      * rewrite (run_continue _ L_expression_loop z z1 Hb). exact Hrun.
      * split; [exact Htt|]. rewrite <- app_assoc in Hpost. exact Hpost.
Qed.

End Bodies.

(** ** Expressions outside tags *)

Section Expressions.

Variable unescape : list byte -> list byte.

Lemma skipPlain_split (s : list byte) :
  exists pre, s = pre ++ skipPlain s /\ forallb (fun c => negb (isBrace c)) pre = true.
Proof.
  induction s as [|c r IH].
  - exists []. split; reflexivity.
  - cbn [skipPlain]. destruct (isBrace c) eqn:E.
    + exists []. split; reflexivity.
    + destruct IH as (pre & Hs & Hp). exists (c :: pre). split.
      * cbn. rewrite <- Hs. reflexivity.
      * cbn. rewrite E. exact Hp.
Qed.

Lemma skipPlain_head (s : list byte) (c : byte) (r : list byte) :
  skipPlain s = c :: r -> isBrace c = true.
Proof.
  induction s as [|a s IH]; cbn [skipPlain]; [discriminate|].
  destruct (isBrace a) eqn:E; [|exact IH].
  intros H. injection H as -> _. exact E.
Qed.

(** Two splits of a list at its first brace agree. *)
Lemma first_brace_unique (pre : list byte) (c : byte) (post s : list byte) :
  s = pre ++ c :: post -> isBrace c = true ->
  forallb (fun c => negb (isBrace c)) pre = true ->
  skipPlain s = c :: post.
Proof.
  intros -> Hc. induction pre as [|a pre IH]; cbn [app skipPlain forallb].
  - rewrite Hc. reflexivity.
  - intros H. apply andb_prop in H as [Ha H]. apply negb_true_iff in Ha.
    rewrite Ha. exact (IH H).
Qed.

Lemma skipPlain_none (s : list byte) : forallb notBrace s = true -> skipPlain s = [].
Proof.
  induction s as [|c r IH]; [reflexivity|]. cbn [forallb skipPlain]. intros H.
  apply andb_prop in H as [Hc H]. unfold notBrace in Hc. apply negb_true_iff in Hc.
  rewrite Hc. exact (IH H).
Qed.

Lemma skipPlain_app (pre post : list byte) :
  forallb notBrace pre = true ->
  match post with [] => True | c :: _ => isBrace c = true end ->
  skipPlain (pre ++ post) = post.
Proof.
  intros Hpre Hpost. induction pre as [|a pre IH]; cbn [app].
  - destruct post as [|c post]; [reflexivity|]. cbn [skipPlain]. rewrite Hpost. reflexivity.
  - cbn [forallb] in Hpre. apply andb_prop in Hpre as [Ha Hpre].
    unfold notBrace in Ha. apply negb_true_iff in Ha. cbn [skipPlain]. rewrite Ha.
    exact (IH Hpre).
Qed.

Lemma run_tt (F : nat) (l : Label) (z z' : Tokenizer) (t : TokenType) :
  run F l z = Ok () z' -> tt z' = t ->
  bind (run F l) (fun _ => gets tt) z = Ok t z'.
Proof. intros H <-. rewrite (bind_run _ _ _ _ _ H). reflexivity. Qed.

Lemma Scan_finished (z : Tokenizer) (done cur : list byte)
      (f : FrontmatterState) (d : Z) (st : list Z) (ob : bool) :
  Scan z done cur [] f d st ob -> Finished z f.
Proof.
  intros H. constructor.
  - apply (Scan_len _ _ _ _ _ _ _ H).
  - apply (sc_fm _ _ _ _ _ _ _ _ H).
  - apply (sc_tag _ _ _ _ _ _ _ _ H).
Qed.

(** One call of [Next] before any tag and outside the frontmatter, on an
    input without slashes, quotes, [<] and runs of three dashes. *)
Lemma Next_initial (F : nat) (z : Tokenizer) (rem : list byte) (st : list Z) (ob : bool) :
  Boundary z rem FrontmatterInitial st ob ->
  forallb (okByte FrontmatterInitial) rem = true ->
  noThreeDashes 0 rem = true ->
  (length rem + 3 <= F)%nat ->
  match rem with
  | [] => exists z', Next unescape F z = Ok ErrorToken z' /\ expressionStack z' = st
  | c :: r =>
      exists z',
        Next unescape F z = Ok (fst (exprStep c st ob)) z' /\
        Boundary z' (restAfter c r st) FrontmatterInitial
                 (fst (snd (exprStep c st ob))) (snd (snd (exprStep c st ob)))
  end.
Proof.
  intros HB Hok Hdash HF.
  assert (Hend : forall z0, Finished z0 FrontmatterInitial -> expressionStack z0 = st ->
                            exists z', Next unescape F z0 = Ok ErrorToken z' /\
                                       expressionStack z' = st).
  { intros z0 Hfin Hst. replace F with (3 + (F - 3))%nat by lia.
    destruct (Next_finished unescape (F - 3) z0 FrontmatterInitial Hfin ltac:(discriminate))
      as (z' & HN & _ & Hs).
    exists z'. split; [exact HN | congruence]. }
  destruct HB as [(done & cur & H) | (-> & Hfin & Hst)]; [|apply Hend; assumption].
  destruct rem as [|c r];
    [apply Hend; [apply (Scan_finished _ _ _ _ _ _ _ H)
                 | apply (sc_stack _ _ _ _ _ _ _ _ H)]|].
  destruct (Next_enter unescape F z (sc_tag _ _ _ _ _ _ _ _ H)) as (z1 & E & HN).
  { rewrite (sc_fm _ _ _ _ _ _ _ _ H). discriminate. }
  pose proof (Scan_entered _ _ _ _ _ _ _ _ _ H E) as H1. cbn [fm_eqb] in H1.
  assert (Hl : entryLabel z1 = L_frontmatter_loop).
  { unfold entryLabel. rewrite (sc_fm _ _ _ _ _ _ _ _ H1). reflexivity. }
  rewrite HN, Hl. clear HN Hl E H z. cbn [length] in HF.
  cbn [forallb] in Hok. apply andb_prop in Hok as [Hc Hok].
  assert (HF' : exists x, F = (S (S (S (length r + (1 + x)))))%nat)
    by (exists (F - length r - 4)%nat; lia).
  destruct HF' as [x ->]. clear HF.
  destruct (isBrace c) eqn:Ebrace.
  - (* the token begins with a brace *)
    destruct (frontmatter_brace (S (S (S (length r + (1 + x))))) z1 (done ++ cur) [] c r
                FrontmatterInitial 0 st ob c []
                H1 ltac:(discriminate) ltac:(lia) Ebrace eq_refl ltac:(discriminate))
      as (z2 & Hb2 & H2).
    destruct (loop_brace_first (S (S (length r + (1 + x)))) z2 (done ++ cur) c r
                FrontmatterInitial 0 st ob H2 Ebrace)
      as (z3 & Hb3 & H3).
    assert (Hrun : run (S (S (S (length r + (1 + x))))) L_frontmatter_loop z1
                   = run (S (length r + (1 + x))) L_expression_loop z3).
    { rewrite (run_goto _ L_frontmatter_loop L_loop z1 z2 Hb2).
      apply (run_goto _ L_loop L_expression_loop z2 z3 Hb3). }
    assert (Hret : forall z' t st' ob',
               expression_body (S (length r + (1 + x))) z3 = Ok Return z' ->
               tt z' = t ->
               Scan z' (done ++ cur) [c] r FrontmatterInitial 0 st' ob' ->
               exists z'0,
                 bind (run (S (S (S (length r + (1 + x))))) L_frontmatter_loop)
                      (fun _ => gets tt) z1 = Ok t z'0 /\
                 Boundary z'0 r FrontmatterInitial st' ob').
    { intros z' t st' ob' Hb Htt Hs. exists z'. split.
      - apply run_tt; [|exact Htt]. rewrite Hrun.
        apply (run_return _ L_expression_loop). exact Hb.
      - left. eauto. }
    apply isBrace_cases in Ebrace as [-> | ->].
    + (* an opening brace *)
      unfold exprStep, restAfter. change (beq "{" "{") with true. cbv iota.
      destruct ob; cbn [fst snd].
      * destruct (expression_start (S (length r + (1 + x))) z3 _ _ _ _ _ H3)
          as (z' & Hb & Htt & Hs).
        eapply Hret; eauto.
      * destruct (expression_nested (S (length r + (1 + x))) z3 _ _ _ _ _ H3)
          as (z' & Hb & Htt & Hs).
        eapply Hret; eauto.
    + (* a closing brace *)
      unfold exprStep, restAfter. change (beq "}" "{") with false.
      change (beq "}" "}") with true. cbv iota.
      destruct st as [|k st _] using rev_ind.
      * cbn [topOf rev fst snd].
        destruct (expression_stray (S (length r + (1 + x))) z3 _ _ _ _ _ H3)
          as (z' & Hb & Htt & Hs).
        eapply Hret; eauto.
      * rewrite topOf_snoc.
        destruct (Z.eq_dec k 0) as [-> | Hk].
        -- cbn [fst snd]. rewrite removelast_last.
           destruct (expression_end (S (length r + (1 + x))) z3 _ _ _ _ _ _ H3)
             as (z' & Hb & Htt & Hs).
           eapply Hret; eauto.
        -- assert (Hstep : (match k with
                            | 0 => (EndExpressionToken, (removelast (st ++ [k]), true))
                            | _ => (TextToken, (bumpTop (-1) (st ++ [k]), ob))
                            end) = (TextToken, (st ++ [k - 1], ob))).
           { rewrite bumpTop_snoc. destruct k; [congruence | reflexivity..]. }
           assert (Hrest : (match k with 0 => r | _ => skipPlain r end) = skipPlain r).
           { destruct k; [congruence | reflexivity..]. }
           rewrite Hstep, Hrest. cbn [fst snd].
           destruct (expression_close_nested (S (length r + (1 + x))) z3 _ _ _ _ _ _ _
                       H3 Hk) as (z4 & Hb4 & H4).
           destruct (expression_scan (done ++ cur) FrontmatterInitial 0 (st ++ [k - 1]) ob x
                       r ["}"%byte] z4 H4 ltac:(discriminate) Hok)
             as (z' & pre & post & -> & Hpre & Hr & Htt & Hpost).
           exists z'. split.
           ++ apply run_tt; [|exact Htt]. rewrite Hrun.
              rewrite (run_continue _ L_expression_loop z3 z4 Hb4). exact Hr.
           ++ rewrite skipPlain_app; [|exact Hpre|destruct post; [exact I | apply Hpost]].
              destruct post as [|c0 post]; [right; destruct Hpost; auto|].
              left. destruct Hpost as [_ Hs]. eauto.
  - (* the token begins with another byte *)
    assert (Hcb : beq c "{" = false /\ beq c "}" = false).
    { unfold isBrace in Ebrace. apply orb_false_iff in Ebrace. exact Ebrace. }
    destruct Hcb as [Hc1 Hc2].
    unfold exprStep, restAfter. rewrite Hc1, Hc2. cbn [fst snd].
    destruct (okByte_facts _ _ Hc) as (_ & _ & [Hlt | Hlt]); [discriminate|].
    destruct (frontmatter_scan (done ++ cur) FrontmatterInitial st ob [] (1 + x)
                ltac:(discriminate) (c :: r) [] z1 0) as
        [(z' & Hr & Hs & Hp)
        | (z' & pre & c0 & post & Hsplit & Hb & Hne & Hr & Htt & Hs & Hp)].
    + rewrite app_nil_r. exact H1.
    + cbn [forallb]. rewrite Hc, Hok. reflexivity.
    + exact Hdash.
    + lia.
    + intros s t E. cbn in E. injection E as <- _. split; auto.
    + (* up to the end of the input *)
      specialize (Hp eq_refl). cbn [forallb] in Hp. apply andb_prop in Hp as [_ Hp].
      rewrite (skipPlain_none _ Hp).
      destruct (run_at_end x L_frontmatter_loop z') as (z'' & Hrun & Htt & Hsame).
      * rewrite (Scan_len _ _ _ _ _ _ _ Hs). lia.
      * intros _. rewrite (sc_fm _ _ _ _ _ _ _ _ Hs). discriminate.
      * apply (sc_tag _ _ _ _ _ _ _ _ Hs).
      * exists z''. split.
        -- apply run_tt.
           ++ replace (S (S (S (length r + (1 + x)))))%nat
                with (length (c :: r) + (2 + (1 + x)))%nat by (cbn [length]; lia).
              rewrite Hr. exact Hrun.
           ++ rewrite Htt, (sc_start _ _ _ _ _ _ _ _ Hs), (sc_end _ _ _ _ _ _ _ _ Hs).
              cbn [app length].
              destruct (Z.ltb_spec (Z.of_nat (length (done ++ cur)))
                          (Z.of_nat (length (done ++ cur)) + Z.of_nat (S (length r))));
                [reflexivity | lia].
        -- right. split; [reflexivity|]. split.
           ++ rewrite <- (sc_fm _ _ _ _ _ _ _ _ Hs).
              apply Finished_same; [|exact Hsame]. apply (Scan_len _ _ _ _ _ _ _ Hs).
           ++ rewrite (si_stack _ _ Hsame). apply (sc_stack _ _ _ _ _ _ _ _ Hs).
    + (* up to the next brace *)
      specialize (Hp eq_refl).
      destruct pre as [|c' pre]; [cbn in Hne; congruence|].
      cbn [app] in Hsplit. injection Hsplit as <- ->.
      cbn [forallb] in Hp. apply andb_prop in Hp as [_ Hp].
      rewrite (skipPlain_app pre (c0 :: post) Hp Hb).
      exists z'. split.
      * apply run_tt; [|exact Htt].
        replace (S (S (S (length (pre ++ c0 :: post) + (1 + x)))))%nat
          with (length (c :: pre ++ c0 :: post) + (2 + (1 + x)))%nat by (cbn [length]; lia).
        exact Hr.
      * left. rewrite app_nil_r in Hs. eauto.
Qed.

Lemma balanced_skipPlain (s : list byte) (depth : nat) :
  balanced depth (skipPlain s) = balanced depth s.
Proof.
  induction s as [|c r IH]; [reflexivity|]. cbn [skipPlain].
  destruct (isBrace c) eqn:E; [reflexivity|].
  unfold isBrace in E. apply orb_false_iff in E as [E1 E2].
  cbn [balanced]. rewrite E1, E2. exact IH.
Qed.

Lemma forallb_skipPlain (P : byte -> bool) (s : list byte) :
  forallb P s = true -> forallb P (skipPlain s) = true.
Proof.
  induction s as [|c r IH]; [reflexivity|]. cbn [skipPlain].
  destruct (isBrace c); [auto|]. cbn [forallb]. intros H.
  apply andb_prop in H as [_ H]. exact (IH H).
Qed.

Lemma noThreeDashes_skipPlain (s : list byte) (d : Z) :
  noThreeDashes d s = true -> noThreeDashes 0 (skipPlain s) = true.
Proof.
  revert d. induction s as [|c r IH]; intros d; [reflexivity|]. cbn [skipPlain].
  destruct (isBrace c) eqn:E.
  - apply isBrace_cases in E as [-> | ->]; cbn [noThreeDashes];
      change (beq "{" "-") with false; change (beq "}" "-") with false; auto.
  - cbn [noThreeDashes]. destruct (beq c "-").
    + intros H. apply andb_prop in H as [_ H]. exact (IH _ H).
    + apply IH.
Qed.

Lemma skipPlain_length (s : list byte) : (length (skipPlain s) <= length s)%nat.
Proof.
  induction s as [|c r IH]; [reflexivity|]. cbn [skipPlain].
  destruct (isBrace c); cbn [length]; lia.
Qed.

Lemma restAfter_length (c : byte) (r : list byte) (st : list Z) :
  (length (restAfter c r st) <= length r)%nat.
Proof.
  unfold restAfter. pose proof (skipPlain_length r).
  destruct (beq c "{"); [lia|]. destruct (beq c "}"); [|lia].
  destruct (topOf st) as [[|p|p]|]; lia.
Qed.

Lemma exprStep_not_error (c : byte) (st : list Z) (ob : bool) :
  fst (exprStep c st ob) <> ErrorToken.
Proof.
  unfold exprStep. destruct (beq c "{"); [destruct ob; discriminate|].
  destruct (beq c "}"); [|discriminate].
  destruct (topOf st) as [[|p|p]|]; discriminate.
Qed.

Lemma exprKinds_cons (t : TokenType) (z : Tokenizer) (l : list Tok) :
  exprKinds (tokOf t z :: l)
  = match t with
    | StartExpressionToken | EndExpressionToken => t :: exprKinds l
    | _ => exprKinds l
    end.
Proof. unfold exprKinds. cbn [List.filter]. unfold isExprToken at 1. destruct t; reflexivity. Qed.

(** The expression tokens of an input without slashes, quotes, [<] and
    runs of three dashes whose braces are balanced from depth [depth] on. *)
Lemma tokens_expressions (F : nat) :
  forall (k : nat) (rem : list byte), (length rem <= k)%nat ->
  forall (z : Tokenizer) (depth : nat) (st : list Z) (ob : bool) (n : nat),
    Boundary z rem FrontmatterInitial st ob ->
    stackAt depth st ob ->
    forallb (okByte FrontmatterInitial) rem = true ->
    noThreeDashes 0 rem = true ->
    balanced depth rem = true ->
    (length rem + 3 <= F)%nat -> (length rem < n)%nat ->
    stoppedAtErrorIn (fun z' => expressionStack z' = []) (snd (tokens unescape F n z)) /\
    exists m, exprKinds (fst (tokens unescape F n z))
              = match depth with
                | O => exprPairs m
                | S _ => EndExpressionToken :: exprPairs m
                end.
Proof.
  induction k as [|k IH]; intros rem Hk z depth st ob n HB Hst Hok Hdash Hbal HF Hn.
  - destruct rem; [|cbn in Hk; lia].
    destruct n as [|n]; [cbn in Hn; lia|].
    destruct (Next_initial F z [] st ob HB Hok Hdash HF) as (z' & HN & Hs).
    rewrite (tokens_error _ _ _ _ _ HN).
    destruct depth; [|discriminate]. destruct Hst as [-> _].
    split; [exact Hs|]. exists 0%nat. reflexivity.
  - destruct rem as [|c r].
    { apply (IH [] ltac:(cbn; lia) z depth st ob n); auto. }
    destruct n as [|n]; [lia|].
    destruct (Next_initial F z (c :: r) st ob HB Hok Hdash HF) as (z' & HN & HB').
    rewrite (tokens_cons _ _ _ _ _ _ HN (exprStep_not_error c st ob)).
    cbn [fst snd]. rewrite exprKinds_cons.
    cbn [length] in Hk, HF, Hn. pose proof (restAfter_length c r st) as Hlen.
    cbn [forallb] in Hok. apply andb_prop in Hok as [Hc Hok].
    assert (Hrec : forall depth' ,
               stackAt depth' (fst (snd (exprStep c st ob))) (snd (snd (exprStep c st ob))) ->
               forallb (okByte FrontmatterInitial) (restAfter c r st) = true ->
               noThreeDashes 0 (restAfter c r st) = true ->
               balanced depth' (restAfter c r st) = true ->
               stoppedAtErrorIn (fun z' => expressionStack z' = [])
                                (snd (tokens unescape F n z')) /\
               exists m, exprKinds (fst (tokens unescape F n z'))
                         = match depth' with
                           | O => exprPairs m
                           | S _ => EndExpressionToken :: exprPairs m
                           end).
    { intros depth' Hst' Hok' Hdash' Hbal'.
      apply (IH (restAfter c r st) ltac:(lia) z' depth' _ _ n HB' Hst' Hok' Hdash' Hbal');
        lia. }
    cbn [noThreeDashes balanced] in Hdash, Hbal.
    destruct (beq c "{") eqn:Eo.
    + (* an opening brace *)
      apply beq_eq in Eo. subst c. change (beq "{" "-") with false in Hdash.
      revert HB' Hrec. unfold exprStep, restAfter. change (beq "{" "{") with true.
      cbv iota. intros HB' Hrec.
      destruct depth as [|d]; destruct Hst as [-> ->]; cbn [fst snd] in *.
      * destruct (Hrec 1%nat) as (Hstop & m & Hm); auto; [split; reflexivity|].
        split; [exact Hstop|]. exists (S m). rewrite Hm. reflexivity.
      * destruct (Hrec (S (S d))) as (Hstop & m & Hm); auto.
        { split; [|reflexivity]. unfold bumpTop. cbn. f_equal. lia. }
        split; [exact Hstop|]. exists m. exact Hm.
    + destruct (beq c "}") eqn:Ec.
      * (* a closing brace *)
        apply beq_eq in Ec. subst c. change (beq "}" "-") with false in Hdash.
        revert HB' Hrec. unfold exprStep, restAfter. change (beq "}" "{") with false.
        change (beq "}" "}") with true. cbv iota. intros HB' Hrec.
        destruct depth as [|[|d]]; [discriminate| |]; destruct Hst as [-> ->].
        -- change (topOf [Z.of_nat 0]) with (Some 0) in *. cbn [fst snd removelast] in *.
           destruct (Hrec 0%nat) as (Hstop & m & Hm); auto; [split; reflexivity|].
           split; [exact Hstop|]. exists m. rewrite Hm. reflexivity.
        -- change (topOf [Z.of_nat (S d)]) with (Some (Z.of_nat (S d))) in *.
           assert (Hpos : exists p, Z.of_nat (S d) = Z.pos p) by (eexists; reflexivity).
           destruct Hpos as [p Hp]. rewrite Hp in *. cbn [fst snd] in *.
           destruct (Hrec (S d)) as (Hstop & m & Hm).
           ++ split; [|reflexivity]. unfold bumpTop. cbn [rev app]. f_equal. lia.
           ++ apply forallb_skipPlain. exact Hok.
           ++ apply (noThreeDashes_skipPlain _ _ Hdash).
           ++ rewrite balanced_skipPlain. exact Hbal.
           ++ split; [exact Hstop|]. exists m. exact Hm.
      * (* any other byte *)
        revert HB' Hrec. unfold exprStep, restAfter. rewrite Eo, Ec. cbn [fst snd].
        intros HB' Hrec.
        destruct (Hrec depth) as (Hstop & m & Hm).
        -- exact Hst.
        -- apply forallb_skipPlain. exact Hok.
        -- destruct (beq c "-").
           ++ apply andb_prop in Hdash as [_ Hdash].
              apply (noThreeDashes_skipPlain _ _ Hdash).
           ++ apply (noThreeDashes_skipPlain _ _ Hdash).
        -- rewrite balanced_skipPlain. exact Hbal.
        -- split; [exact Hstop|]. exists m. exact Hm.
Qed.

(** ** The counters of the expression stack *)

Lemma readByte_stack (z z' : Tokenizer) (c : byte) :
  readByte z = Ok c z' -> expressionStack z' = expressionStack z.
Proof.
  unfold readByte. destruct (rawEnd z >=? len z).
  - intros H. injection H as _ <-. reflexivity.
  - destruct (at_ (buf z) (rawEnd z)); [|discriminate].
    intros H. injection H as _ <-. reflexivity.
Qed.

Lemma bufSlice1_state (a : Z) (z z' : Tokenizer) (c : byte) :
  bufSlice1 a z = Ok c z' -> z' = z.
Proof.
  unfold bufSlice1. intros H. inv_bind H as s z1 H1 H2.
  apply bufSlice_Ok in H1 as ->.
  destruct s; [discriminate|]. apply ret_Ok in H2 as [_ ->]. reflexivity.
Qed.

Lemma readUntilChar_stack (fuel : nat) (chars : list byte) (z z' : Tokenizer) (u : unit) :
  readUntilChar fuel chars z = Ok u z' -> expressionStack z' = expressionStack z.
Proof.
  revert z. induction fuel as [|f IH]; intros z H; [discriminate|].
  cbn [readUntilChar] in H. inv_bind H as c z1 Hc H.
  apply readByte_stack in Hc. norm H.
  destruct (isErr z1).
  - apply modify_Ok in H. subst z'. exact Hc.
  - destruct (beq c BSL).
    + unfold rawEnd_add in H. norm H. inv_bind H as c' z2 Hc' H.
      apply bufSlice1_state in Hc'. subst z2.
      destruct (memb c' chars).
      * norm H. apply IH in H. rewrite H. exact Hc.
      * apply IH in H. rewrite H. exact Hc.
    + destruct (memb c chars).
      * apply modify_Ok in H. subst z'. exact Hc.
      * apply IH in H. rewrite H. exact Hc.
Qed.

Lemma readString_stack (fuel : nat) (c : byte) (z z' : Tokenizer) (u : unit) :
  readString fuel c z = Ok u z' -> expressionStack z' = expressionStack z.
Proof.
  unfold readString.
  destruct (beq c "'"); [apply readUntilChar_stack|].
  destruct (beq c DQ); [apply readUntilChar_stack|].
  destruct (beq c "`"); [apply readUntilChar_stack|].
  intros H. apply ret_Ok in H as [_ ->]. reflexivity.
Qed.

Lemma readBlockComment_stack (fuel : nat) (z z' : Tokenizer) (u : unit) :
  readBlockComment fuel z = Ok u z' -> expressionStack z' = expressionStack z.
Proof.
  revert z. induction fuel as [|f IH]; intros z H; [discriminate|].
  cbn [readBlockComment] in H. inv_bind H as u1 z1 H1 H.
  apply readUntilChar_stack in H1. inv_bind H as c z2 Hc H.
  apply readByte_stack in Hc.
  destruct (beq c "/").
  - apply modify_Ok in H. subst z'. cbn. congruence.
  - apply IH in H. congruence.
Qed.

Lemma readCommentOrRegExp_stack (fuel : nat) (bs : list byte) (z z' : Tokenizer)
      (u : unit) :
  readCommentOrRegExp fuel bs z = Ok u z' -> expressionStack z' = expressionStack z.
Proof.
  unfold readCommentOrRegExp. intros H. inv_bind H as c z1 Hc H.
  apply readByte_stack in Hc.
  destruct (beq c "/"); [apply readUntilChar_stack in H; congruence|].
  destruct (beq c "*"); [apply readBlockComment_stack in H; congruence|].
  unfold rawEnd_add in H. norm H. apply readUntilChar_stack in H.
  rewrite H. exact Hc.
Qed.

Lemma snoc_cases {A} (l : list A) : l = [] \/ exists st k, l = st ++ [k].
Proof. destruct l as [|k st _] using rev_ind; eauto. Qed.

Lemma expression_body_stack (fuel : nat) (z z' : Tokenizer) (ctl : Ctl) :
  expression_body fuel z = Ok ctl z' -> StackStep z z' ctl.
Proof.
  unfold expression_body. intros H. inv_bind H as c z1 Hc H.
  apply readByte_stack in Hc. norm H.
  destruct (isErr z1).
  { apply ret_Ok in H as [-> ->]. apply stack_kept; [exact Hc | discriminate]. }
  destruct (beq c "/").
  { inv_bind H as u z2 H2 H. apply readCommentOrRegExp_stack in H2. norm H.
    apply ret_Ok in H as [-> ->]. apply stack_kept; [cbn; congruence | reflexivity]. }
  destruct (isQuote c).
  { inv_bind H as u z2 H2 H. apply readString_stack in H2. norm H.
    apply ret_Ok in H as [-> ->]. apply stack_kept; [cbn; congruence | reflexivity]. }
  destruct (beq c "<").
  { unfold rawEnd_add in H. norm H.
    match type of H with
    | context [match ?t with [] => _ | _ :: _ => _ end] => destruct t
    end; apply ret_Ok in H as [-> ->];
      (apply stack_kept; [exact Hc | discriminate]). }
  destruct (negb (isBrace c)).
  { apply ret_Ok in H as [-> ->]. apply stack_kept; [exact Hc | discriminate]. }
  norm H. unfold id in H. cbv beta zeta in H.
  destruct (rawStart z1 <? rawEnd z1 - 1).
  { unfold flushText, returnToken in H. norm H. apply ret_Ok in H as [-> ->].
    apply stack_kept; [exact Hc | reflexivity]. }
  destruct (snoc_cases (expressionStack z1)) as [Est | (st & k & Est)].
  - (* no expression is open *)
    destruct (beq c "{").
    + destruct (openBraceIsExpressionStart z1);
        unfold returnToken in H; norm H; apply ret_Ok in H as [-> ->].
      * apply stack_pushed; [reflexivity | reflexivity | cbn; congruence].
      * apply stack_kept; [|reflexivity]. cbn. rewrite Est. cbn. congruence.
    + rewrite Est in H. unfold returnToken in H. norm H. apply ret_Ok in H as [-> ->].
      apply stack_kept; [cbn; congruence | reflexivity].
  - destruct (beq c "{").
    + destruct (openBraceIsExpressionStart z1);
        unfold returnToken in H; norm H; apply ret_Ok in H as [-> ->].
      * apply stack_pushed; [reflexivity | reflexivity | cbn; congruence].
      * apply (stack_raised _ _ _ st k); [reflexivity | reflexivity | congruence |].
        cbn. rewrite Est. apply bumpTop_snoc.
    + rewrite Est in H. rewrite snoc_match in H. norm H. cbn in H.
      rewrite Est in H. rewrite bumpTop_snoc, topOf_snoc in H.
      destruct (Z.eq_dec k 0) as [-> | Hk].
      * change (0 + -1) with (-1) in H. cbv iota in H.
        unfold returnToken in H. norm H. apply ret_Ok in H as [-> ->].
        apply (stack_popped _ _ _ st); [reflexivity | reflexivity | congruence |].
        cbn. apply removelast_last.
      * rewrite top_not_sentinel in H by lia. apply ret_Ok in H as [-> ->].
        apply (stack_lowered _ _ _ st k); [reflexivity | exact Hk | congruence |].
        cbn. reflexivity.
Qed.

End Expressions.

Lemma countKind_exprKinds (k : TokenType) (l : list Tok) :
  k = StartExpressionToken \/ k = EndExpressionToken ->
  countKind k l = length (List.filter (fun t => TokenType_eqb t k) (exprKinds l)).
Proof.
  intros Hk. unfold countKind, exprKinds.
  induction l as [|a l IH]; [reflexivity|].
  cbn [List.filter]. unfold isExprToken at 1.
  destruct a as [ka sp rb]. cbn [kind].
  destruct Hk as [-> | ->]; destruct ka; cbn [TokenType_eqb map List.filter length kind];
    rewrite ?IH; reflexivity.
Qed.

Lemma exprPairs_counts (m : nat) :
  length (List.filter (fun t => TokenType_eqb t StartExpressionToken) (exprPairs m)) = m /\
  length (List.filter (fun t => TokenType_eqb t EndExpressionToken) (exprPairs m)) = m.
Proof.
  induction m as [|m [IH1 IH2]]; [split; reflexivity|].
  unfold exprPairs in *. cbn [repeat concat app List.filter TokenType_eqb length].
  rewrite IH1, IH2. split; reflexivity.
Qed.

Lemma NewTokenizer_boundary (input slack : list byte) :
  Boundary (NewTokenizer input slack) input FrontmatterInitial [] true.
Proof. left. exists [], []. constructor; reflexivity. Qed.


(** ** Reading strings and comments *)

(** [readUntilChar] reads on to the first of [chars], as long as it meets
    no backslash. *)
Lemma readUntilChar_scan (chars done : list byte) (f : FrontmatterState) (d : Z)
      (st : list Z) (ob : bool) (q : byte) (rest : list byte) :
  beq q BSL = false -> memb q chars = true ->
  forall (inner cur : list byte) (z : Tokenizer) (F : nat),
    Scan z done cur (inner ++ q :: rest) f d st ob ->
    inert chars inner = true ->
    (length inner < F)%nat ->
    exists z', readUntilChar F chars z = Ok () z' /\
               Scan z' done (cur ++ inner ++ [q]) rest f d st ob.
Proof.
  intros Hq Hm. induction inner as [|b inner IH]; intros cur z F H Hin HF.
  - destruct F as [|F]; [cbn in HF; lia|]. cbn [readUntilChar app] in *.
    exec_read H H1. rewrite Hq, Hm. exec.
    eexists. split; [reflexivity|]. scan_solve H1.
  - destruct F as [|F]; [cbn in HF; lia|]. cbn [readUntilChar app length] in *.
    cbn [inert forallb] in Hin. apply andb_prop in Hin as [Hb Hin].
    apply andb_prop in Hb as [Hb1 Hb2]. apply negb_true_iff in Hb1, Hb2.
    exec_read H H1. rewrite Hb1, Hb2.
    destruct (IH (cur ++ [b]) _ F H1 Hin ltac:(lia)) as (z' & Hr & Hs).
    exists z'. split; [exact Hr|]. rewrite <- app_assoc in Hs. exact Hs.
Qed.

(** A list that ends in a line feed splits at the first of [chars], if
    the line feed is one of them. *)
Lemma delim_split (chars : list byte) :
  memb LF chars = true ->
  forall (s l : list byte), s = l ++ [LF] ->
    exists inner q rest,
      s = inner ++ q :: rest /\
      forallb (fun b => negb (memb b chars)) inner = true /\ memb q chars = true.
Proof.
  intros HLF. induction s as [|c s IH]; intros l Hl; [destruct l; discriminate|].
  destruct (memb c chars) eqn:Ec.
  - exists [], c, s. repeat split; assumption.
  - destruct l as [|c' l]; cbn in Hl.
    + injection Hl as -> ->. congruence.
    + injection Hl as -> Hs.
      destruct (IH l Hs) as (inner & q & rest & -> & Hb & Hq).
      exists (c' :: inner), q, rest. split; [reflexivity|]. split; [|exact Hq].
      cbn [forallb]. rewrite Ec. exact Hb.
Qed.

Lemma inert_intro (chars inner : list byte) :
  forallb (fun b => negb (beq b BSL)) inner = true ->
  forallb (fun b => negb (memb b chars)) inner = true ->
  inert chars inner = true.
Proof.
  unfold inert. induction inner as [|b inner IH]; [reflexivity|]. cbn [forallb].
  intros H1 H2. apply andb_prop in H1 as [-> H1]. apply andb_prop in H2 as [-> H2].
  cbn [andb]. apply IH; assumption.
Qed.

(** The first pure steps of a pass of [frontmatter_loop] over a byte that
    is no dash, with the dash count below three. *)
Ltac frontmatter_head H H1 Hf Hd Hdash :=
  unfold frontmatter_body; rewrite bind_gets, (sc_fm _ _ _ _ _ _ _ _ H);
  match goal with
  | |- context [fm_eqb ?f FrontmatterClosed] =>
      replace (fm_eqb f FrontmatterClosed) with false
        by (destruct f; first [reflexivity | congruence])
  end;
  exec_read H H1;
  rewrite Hdash; exec; unfold id; exec;
  rewrite (sc_dash _ _ _ _ _ _ _ _ H);
  match goal with
  | |- context [Z.eqb ?d 3] => destruct (Z.eqb_spec d 3) as [|_]; [contradiction|]
  end.

(** A single or double quote, in a token that did not begin with [<] or
    a brace, is read as a string up to the matching quote or the end of
    the line; the token ends there. *)
Lemma frontmatter_string (fuel : nat) (z : Tokenizer) (done cur : list byte) (c : byte)
      (inner : list byte) (q : byte) (rest : list byte) (f : FrontmatterState) (d : Z)
      (st : list Z) (ob : bool) (s : byte) (t : list byte) :
  Scan z done cur (c :: inner ++ q :: rest) f d st ob ->
  f <> FrontmatterClosed -> d <> 3 ->
  c = "'"%byte \/ c = DQ ->
  cur ++ [c] = s :: t ->
  (beq s "<" || isBrace s) = false ->
  inert (stringEnds c) inner = true ->
  beq q BSL = false -> memb q (stringEnds c) = true ->
  (length inner < fuel)%nat ->
  exists z', frontmatter_body fuel z = Ok Return z' /\ tt z' = TextToken /\
             Scan z' done (cur ++ c :: inner ++ [q]) rest f d st ob.
Proof.
  intros H Hf Hd Hc Hs Hmode Hin Hq Hm HF.
  assert (Hc' : beq c "-" = false /\ beq c "/" = false /\ beq c "<" = false /\
                isBrace c = false /\ isQuote c = true).
  { destruct Hc as [-> | ->]; repeat split; reflexivity. }
  destruct Hc' as (Hdash & Hslash & Hclt & Hcb & Hcq).
  frontmatter_head H H1 Hf Hd Hdash.
  rewrite Hslash. exec.
  assert (Hfirst : bufSlice1 (rawStart z) (set_rawEnd (rawEnd z + 1) z)
                   = Ok s (set_rawEnd (rawEnd z + 1) z)).
  { apply (Scan_first (cur := cur ++ [c]) s (t ++ inner ++ q :: rest)) in H1.
    - exact H1.
    - rewrite Hs. reflexivity. }
  rewrite (bind_run _ _ _ _ _ Hfirst).
  apply orb_false_elim in Hmode as [Hs1 Hs2].
  rewrite Hs1, Hs2, Hclt, Hcb, Hcq. cbn [orb].
  destruct (readUntilChar_scan (stringEnds c) done f d st ob q rest Hq Hm
              inner (cur ++ [c]) _ fuel H1 Hin HF) as (z' & Hr & H').
  assert (Hstr : readString fuel c (set_rawEnd (rawEnd z + 1) z) = Ok () z').
  { unfold readString. destruct Hc as [-> | ->]; exact Hr. }
  rewrite (bind_run _ _ _ _ _ Hstr). exec.
  eexists. split; [reflexivity|]. split; [reflexivity|].
  rewrite <- app_assoc in H'. scan_solve H'.
Qed.

(** Two slashes begin a line comment, which is read to the end of the
    line; the token ends there. *)
Lemma frontmatter_line_comment (fuel : nat) (z : Tokenizer) (done cur inner : list byte)
      (q : byte) (rest : list byte) (f : FrontmatterState) (d : Z)
      (st : list Z) (ob : bool) :
  Scan z done cur ("/"%byte :: "/"%byte :: inner ++ q :: rest) f d st ob ->
  f <> FrontmatterClosed -> d <> 3 ->
  inert lineEnds inner = true ->
  beq q BSL = false -> memb q lineEnds = true ->
  (length inner < fuel)%nat ->
  exists z', frontmatter_body fuel z = Ok Return z' /\ tt z' = TextToken /\
             Scan z' done (cur ++ "/"%byte :: "/"%byte :: inner ++ [q]) rest f d st ob.
Proof.
  intros H Hf Hd Hin Hq Hm HF.
  frontmatter_head H H1 Hf Hd (eq_refl : beq "/" "-" = false).
  change (beq "/" "/") with true. cbv iota.
  unfold readCommentOrRegExp. exec.
  destruct (Scan_read _ _ _ _ _ _ _ _ _ H1) as [Hr2 H2].
  rewrite (bind_run _ _ _ _ _ Hr2). change (beq "/" "/") with true. cbv iota.
  destruct (readUntilChar_scan lineEnds done f d st ob q rest Hq Hm
              inner _ _ fuel H2 Hin HF) as (z' & Hr & H').
  rewrite (bind_run _ _ _ _ _ Hr). exec.
  eexists. split; [reflexivity|]. split; [reflexivity|].
  rewrite <- !app_assoc in H'. scan_solve H'.
Qed.

(** A slash that is followed neither by a slash nor by a star begins what
    is read as a regular expression, up to the next slash or the end of
    the line; the token ends there. *)
Lemma frontmatter_regex (fuel : nat) (z : Tokenizer) (done cur inner : list byte)
      (q : byte) (rest : list byte) (f : FrontmatterState) (d : Z)
      (st : list Z) (ob : bool) (c2 : byte) (r : list byte) :
  Scan z done cur ("/"%byte :: inner ++ q :: rest) f d st ob ->
  f <> FrontmatterClosed -> d <> 3 ->
  inner ++ q :: rest = c2 :: r -> beq c2 "/" = false -> beq c2 "*" = false ->
  inert regexEnds inner = true ->
  beq q BSL = false -> memb q regexEnds = true ->
  (length inner < fuel)%nat ->
  exists z', frontmatter_body fuel z = Ok Return z' /\ tt z' = TextToken /\
             Scan z' done (cur ++ "/"%byte :: inner ++ [q]) rest f d st ob.
Proof.
  intros H Hf Hd E Hc1 Hc2 Hin Hq Hm HF.
  frontmatter_head H H1 Hf Hd (eq_refl : beq "/" "-" = false).
  change (beq "/" "/") with true. cbv iota.
  unfold readCommentOrRegExp. exec.
  pose proof H1 as H1'. rewrite E in H1'.
  destruct (Scan_read _ _ _ _ _ _ _ _ _ H1') as [Hr2 H2].
  rewrite (bind_run _ _ _ _ _ Hr2). rewrite Hc1, Hc2.
  unfold rawEnd_add. exec. rewrite app_nil_r.
  assert (H3 : Scan (set_rawEnd (rawEnd z + 1 + 1 + -1) (set_rawEnd (rawEnd z + 1) z))
                    done (cur ++ ["/"%byte]) (inner ++ q :: rest) f d st ob).
  { scan_solve H1. }
  destruct (readUntilChar_scan regexEnds done f d st ob q rest Hq Hm
              inner _ _ fuel H3 Hin HF) as (z' & Hr & H').
  match goal with
  | |- context [bind (readUntilChar fuel ?cs) ?k ?zz] =>
      change cs with regexEnds
  end.
  rewrite (bind_run _ _ _ _ _ Hr). exec.
  eexists. split; [reflexivity|]. split; [reflexivity|].
  rewrite <- !app_assoc in H'. scan_solve H'.
Qed.

(** ** Content of the frontmatter *)

Lemma wholeLines_tail (c : byte) (rem : list byte) :
  wholeLines (c :: rem) -> wholeLines rem.
Proof.
  intros [E | [l E]]; [discriminate|].
  destruct l as [|c' l]; cbn in E; injection E as _ ->; [left | right; eauto]; reflexivity.
Qed.

Lemma wholeLines_suffix (pre rem : list byte) :
  wholeLines (pre ++ rem) -> wholeLines rem.
Proof.
  induction pre as [|c pre IH]; [auto|]. intros H. apply IH.
  apply (wholeLines_tail c). exact H.
Qed.

Lemma wholeLines_next (c : byte) (rem : list byte) :
  wholeLines (c :: rem) -> c <> LF -> exists l, rem = l ++ [LF].
Proof.
  intros [E | [l E]] Hc; [discriminate|].
  destruct l as [|c' l]; cbn in E; injection E as -> ->; [congruence | eauto].
Qed.

Lemma plainByte_facts (c : byte) :
  plainByte c = true -> beq c BSL = false /\ beq c "`" = false.
Proof.
  unfold plainByte. intros H. apply andb_prop in H as [H1 H2].
  apply negb_true_iff in H1, H2. auto.
Qed.

(** In plain content that ends in a line feed, reading up to one of
    [chars], the line feed among them, comes to an end. *)
Lemma scan_to_delim (chars rem l : list byte) :
  memb LF chars = true -> rem = l ++ [LF] -> forallb plainByte rem = true ->
  exists inner q rest,
    rem = inner ++ q :: rest /\ inert chars inner = true /\
    beq q BSL = false /\ memb q chars = true.
Proof.
  intros HLF Hl Hp.
  destruct (delim_split chars HLF rem l Hl) as (inner & q & rest & -> & Hb & Hq).
  exists inner, q, rest. split; [reflexivity|].
  rewrite forallb_app in Hp. apply andb_prop in Hp as [Hp1 Hp2].
  cbn [forallb] in Hp2. apply andb_prop in Hp2 as [Hp2 _].
  split; [|split; [apply (plainByte_facts _ Hp2) | exact Hq]].
  apply inert_intro; [|exact Hb].
  clear -Hp1. induction inner as [|b inner IH]; [reflexivity|].
  cbn [forallb] in *. apply andb_prop in Hp1 as [Hb Hp1].
  destruct (plainByte_facts _ Hb) as [-> _]. cbn [negb andb]. auto.
Qed.

Lemma noBlockComment_suffix (pre s : list byte) :
  noBlockComment (pre ++ s) = true -> noBlockComment s = true.
Proof.
  induction pre as [|c pre IH]; [auto|]. cbn [app noBlockComment].
  intros H. apply andb_prop in H as [_ H]. auto.
Qed.

Lemma calmDashes_mono (s : list byte) (d1 d2 : Z) :
  0 <= d1 <= d2 -> calmDashes d2 s = true -> calmDashes d1 s = true.
Proof.
  revert d1 d2. induction s as [|c s IH]; intros d1 d2 Hd; [reflexivity|].
  cbn [calmDashes]. destruct (beq c "-").
  - intros H. apply andb_prop in H as [H1 H2]. apply Z.ltb_lt in H1.
    apply andb_true_intro. split; [apply Z.ltb_lt; lia|].
    apply (IH (d1 + 1) (d2 + 1)); [lia | exact H2].
  - destruct (isDelim c); [|auto].
    intros H. apply andb_prop in H as [H1 H2]. apply Z.eqb_eq in H1.
    apply andb_true_intro. split; [apply Z.eqb_eq; lia | exact H2].
Qed.

Lemma calmDashes_suffix (pre s : list byte) (d : Z) :
  0 <= d -> calmDashes d (pre ++ s) = true -> calmDashes 0 s = true.
Proof.
  revert d. induction pre as [|c pre IH]; intros d Hd H.
  - apply (calmDashes_mono s 0 d); [lia | exact H].
  - cbn [app calmDashes] in H. destruct (beq c "-").
    + apply andb_prop in H as [_ H]. apply (IH (d + 1)); [lia | exact H].
    + destruct (isDelim c).
      * apply andb_prop in H as [_ H]. apply (IH 0); [lia | exact H].
      * apply (IH 0); [lia | exact H].
Qed.

Lemma calmDashes_intro (s : list byte) (d : Z) :
  noThreeDashes d s = true -> noDashBeforeDelim s = true ->
  (d <> 0 -> forall c r, s = c :: r -> isDelim c = false) ->
  calmDashes d s = true.
Proof.
  revert d. induction s as [|c s IH]; intros d H3 Hn Hhead; [reflexivity|].
  cbn [noThreeDashes noDashBeforeDelim calmDashes] in *.
  apply andb_prop in Hn as [Hc Hn]. apply negb_true_iff in Hc.
  destruct (beq c "-") eqn:Edash.
  - apply andb_prop in H3 as [H2 H3]. rewrite H2. cbn [andb].
    apply IH; [exact H3 | exact Hn|].
    intros _ c2 r ->. cbn [andb] in Hc. exact Hc.
  - destruct (isDelim c) eqn:Edel.
    + destruct (Z.eqb_spec d 0) as [_ | Hd].
      * cbn [andb]. apply IH; [exact H3 | exact Hn | congruence].
      * rewrite (Hhead Hd c s eq_refl) in Edel. discriminate.
    + apply IH; [exact H3 | exact Hn | congruence].
Qed.

(** ** Scanning in open frontmatter *)

(** From the middle of a token that did not begin with a brace, in open
    frontmatter, the loop reads on byte by byte.  Either it reads all of
    [rem], or the token ends as a text token inside [rem]: before a brace,
    or behind a string, a comment or a regular expression.  A token that
    began with [<] reads over braces and quotes. *)
Lemma frontmatter_scan_open (done : list byte) (st : list Z) (ob : bool)
      (tail : list byte) (fuel : nat) :
  forall (rem cur : list byte) (z : Tokenizer) (d : Z),
    Scan z done cur (rem ++ tail) FrontmatterOpen d st ob ->
    wholeLines rem ->
    forallb plainByte rem = true -> noBlockComment rem = true ->
    calmDashes d rem = true -> 0 <= d < 3 ->
    (forall s t, cur ++ rem = s :: t -> isBrace s = false) ->
    (exists z',
        run (length rem + (2 + fuel)) L_frontmatter_loop z
        = run (2 + fuel) L_frontmatter_loop z' /\
        Scan z' done (cur ++ rem) tail FrontmatterOpen (dashRun d rem) st ob) \/
    (exists z' pre rest,
        rem = pre ++ rest /\ cur ++ pre <> [] /\
        run (length rem + (2 + fuel)) L_frontmatter_loop z = Ok () z' /\
        tt z' = TextToken /\
        Scan z' done (cur ++ pre) (rest ++ tail) FrontmatterOpen 0 st ob).
Proof.
  induction rem as [|c rem IH]; intros cur z d H Hlines Hplain Hblock Hcalm Hd Hfirst.
  { left. exists z. split; [reflexivity|]. rewrite app_nil_r. exact H. }
  cbn [forallb] in Hplain. apply andb_prop in Hplain as [Hc Hplain].
  destruct (plainByte_facts _ Hc) as [Hcbsl Hcbq].
  cbn [noBlockComment] in Hblock. apply andb_prop in Hblock as [Hcblock Hblock].
  apply negb_true_iff in Hcblock.
  cbn [calmDashes] in Hcalm. cbn [dashRun].
  change (length (c :: rem) + (2 + fuel))%nat with (S (length rem + (2 + fuel))).
  set (G := (length rem + (2 + fuel))%nat) in *.
  cbn [app] in H.
  pose proof (wholeLines_tail _ _ Hlines) as Hlines'.
  assert (Hstep : forall z1 d1,
             body (S G) L_frontmatter_loop z = Ok Continue z1 ->
             Scan z1 done (cur ++ [c]) (rem ++ tail) FrontmatterOpen d1 st ob ->
             calmDashes d1 rem = true -> 0 <= d1 < 3 ->
             d1 = (if beq c "-" then d + 1 else 0) ->
             (exists z',
                 run (S G) L_frontmatter_loop z = run (2 + fuel) L_frontmatter_loop z' /\
                 Scan z' done (cur ++ c :: rem) tail FrontmatterOpen
                      (dashRun (if beq c "-" then d + 1 else 0) rem) st ob) \/
             (exists z' pre rest,
                 c :: rem = pre ++ rest /\ cur ++ pre <> [] /\
                 run (S G) L_frontmatter_loop z = Ok () z' /\
                 tt z' = TextToken /\
                 Scan z' done (cur ++ pre) (rest ++ tail) FrontmatterOpen 0 st ob)).
  { intros z1 d1 Hb H1 Hcalm1 Hd1 Ed.
    rewrite (run_continue _ _ _ _ Hb).
    destruct (IH (cur ++ [c]) z1 d1 H1 Hlines' Hplain Hblock Hcalm1 Hd1) as
        [(z' & Hr & Hs) | (z' & pre & rest & -> & Hne & Hr & Htt & Hs)].
    - intros s t E. apply (Hfirst s t). rewrite <- E, <- app_assoc. reflexivity.
    - left. exists z'. split; [exact Hr|].
      rewrite <- Ed. rewrite <- app_assoc in Hs. exact Hs.
    - right. exists z', (c :: pre), rest. split; [reflexivity|].
      split; [destruct cur; discriminate|].
      split; [exact Hr|]. split; [exact Htt|].
      rewrite <- app_assoc in Hs. exact Hs. }
  assert (Hend : forall z1 pre rest,
             c :: rem = pre ++ rest -> pre <> [] ->
             body (S G) L_frontmatter_loop z = Ok Return z1 ->
             tt z1 = TextToken ->
             Scan z1 done (cur ++ pre) (rest ++ tail) FrontmatterOpen 0 st ob ->
             exists z' pre rest,
               c :: rem = pre ++ rest /\ cur ++ pre <> [] /\
               run (S G) L_frontmatter_loop z = Ok () z' /\
               tt z' = TextToken /\
               Scan z' done (cur ++ pre) (rest ++ tail) FrontmatterOpen 0 st ob).
  { intros z1 pre rest E Hne Hb Htt H1. exists z1, pre, rest.
    split; [exact E|]. split; [destruct cur, pre; try discriminate; congruence|].
    split; [apply (run_return _ L_frontmatter_loop); exact Hb|].
    split; [exact Htt | exact H1]. }
  destruct (cur ++ [c]) as [|s t] eqn:Es; [destruct cur; discriminate|].
  assert (Hsb : isBrace s = false).
  { destruct cur as [|s' cur']; cbn in Es; injection Es as <- _;
      apply (Hfirst _ _ eq_refl). }
  destruct (beq c "-") eqn:Edash.
  { apply beq_eq in Edash. subst c.
    apply andb_prop in Hcalm as [Hd2 Hcalm]. apply Z.ltb_lt in Hd2.
    destruct (frontmatter_dash (S G) z done cur (rem ++ tail)
                FrontmatterOpen d st ob H ltac:(discriminate) ltac:(lia)) as (z1 & Hb & H1).
    rewrite Es in H1. apply (Hstep z1 (d + 1)); auto; lia. }
  destruct (beq c "/") eqn:Eslash.
  { (* a comment or a regular expression *)
    apply beq_eq in Eslash. subst c. right.
    change (isDelim "/") with true in Hcalm. cbv iota in Hcalm.
    apply andb_prop in Hcalm as [Hd0 _]. apply Z.eqb_eq in Hd0. subst d.
    destruct (wholeLines_next _ _ Hlines ltac:(discriminate)) as [l Hl].
    destruct rem as [|c2 rem2]; [destruct l; discriminate|].
    cbn [andb] in Hcblock.
    destruct (beq c2 "/") eqn:Ec2.
    - apply beq_eq in Ec2. subst c2.
      destruct (wholeLines_next _ _ Hlines' ltac:(discriminate)) as [l2 Hl2].
      cbn [forallb] in Hplain. apply andb_prop in Hplain as [_ Hplain2].
      destruct (scan_to_delim lineEnds rem2 l2 eq_refl Hl2 Hplain2)
        as (inner & q & rest & -> & Hin & Hq & Hm).
      cbn [app] in H. rewrite <- app_assoc in H. cbn [app] in H.
      destruct (frontmatter_line_comment (S G) z done cur inner q (rest ++ tail)
                  FrontmatterOpen 0 st ob H ltac:(discriminate) ltac:(lia) Hin Hq Hm)
        as (z1 & Hb & Htt & H1).
      { subst G. cbn [length]. rewrite length_app. lia. }
      refine (Hend z1 ("/"%byte :: "/"%byte :: inner ++ [q]) rest _ _ Hb Htt H1);
        [cbn [app]; rewrite <- app_assoc; reflexivity | discriminate].
    - destruct (scan_to_delim regexEnds (c2 :: rem2) l eq_refl Hl Hplain)
        as (inner & q & rest & E & Hin & Hq & Hm).
      rewrite E in H. rewrite <- app_assoc in H. cbn [app] in H.
      destruct (frontmatter_regex (S G) z done cur inner q (rest ++ tail)
                  FrontmatterOpen 0 st ob c2 (rem2 ++ tail)
                  H ltac:(discriminate) ltac:(lia)) as (z1 & Hb & Htt & H1); auto.
      { change (inner ++ q :: rest ++ tail) with (inner ++ (q :: rest) ++ tail).
        rewrite app_assoc, <- E. reflexivity. }
      { subst G. rewrite E, length_app. lia. }
      refine (Hend z1 ("/"%byte :: inner ++ [q]) rest _ _ Hb Htt H1);
        [rewrite E; cbn [app]; rewrite <- app_assoc; reflexivity | discriminate]. }
  assert (Hcont : forall z1,
             body (S G) L_frontmatter_loop z = Ok Continue z1 ->
             Scan z1 done (s :: t) (rem ++ tail) FrontmatterOpen 0 st ob ->
             (exists z',
                 run (S G) L_frontmatter_loop z = run (2 + fuel) L_frontmatter_loop z' /\
                 Scan z' done (cur ++ c :: rem) tail FrontmatterOpen (dashRun 0 rem) st ob) \/
             (exists z' pre rest,
                 c :: rem = pre ++ rest /\ cur ++ pre <> [] /\
                 run (S G) L_frontmatter_loop z = Ok () z' /\
                 tt z' = TextToken /\
                 Scan z' done (cur ++ pre) (rest ++ tail) FrontmatterOpen 0 st ob)).
  { intros z1 Hb H1. apply (Hstep z1 0); auto; try lia.
    destruct (isDelim c).
    - apply andb_prop in Hcalm as [_ Hcalm]. exact Hcalm.
    - exact Hcalm. }
  destruct (beq s "<") eqn:Eslt.
  { (* the token began with [<] *)
    destruct (frontmatter_continue (S G) z done cur c
                (rem ++ tail) FrontmatterOpen d st ob s t H ltac:(discriminate) ltac:(lia)
                Edash Eslash Es) as (z1 & Hb & H1).
    { right. split; [reflexivity|]. rewrite Eslt. reflexivity. }
    rewrite Es in H1. apply (Hcont z1 Hb H1). }
  destruct (isBrace c) eqn:Ebrace.
  { (* a brace ends the token *)
    assert (Hcur : cur <> []).
    { intros ->. cbn in Es. injection Es as -> _. congruence. }
    destruct (frontmatter_brace (S G) z done cur c (rem ++ tail)
                FrontmatterOpen d st ob s t H ltac:(discriminate) ltac:(lia) Ebrace Es
                ltac:(auto))
      as (z1 & Hb1 & H1).
    destruct (loop_brace_flush (S (length rem + (1 + fuel))) z1 done cur c (rem ++ tail)
                FrontmatterOpen 0 st ob H1 Ebrace Hcur) as (z2 & Hb2 & Htt & H2).
    right. exists z2, [], (c :: rem). split; [reflexivity|].
    split; [rewrite app_nil_r; exact Hcur|].
    split.
    - rewrite (run_goto _ L_frontmatter_loop L_loop z z1 Hb1).
      subst G.
      replace (length rem + (2 + fuel))%nat with (S (length rem + (1 + fuel))) by lia.
      apply (run_return _ L_loop). exact Hb2.
    - split; [exact Htt|]. rewrite app_nil_r. exact H2. }
  destruct (beq c "<") eqn:Eclt.
  { destruct (frontmatter_continue (S G) z done cur c
                (rem ++ tail) FrontmatterOpen d st ob s t H ltac:(discriminate) ltac:(lia)
                Edash Eslash Es) as (z1 & Hb & H1).
    { right. split; [reflexivity|]. rewrite Eslt, Eclt. reflexivity. }
    rewrite Es in H1. apply (Hcont z1 Hb H1). }
  destruct (isQuote c) eqn:Equote.
  { (* a string *)
    right.
    assert (Hdel : isDelim c = true) by (unfold isDelim; rewrite Equote; apply orb_true_r).
    rewrite Hdel in Hcalm.
    apply andb_prop in Hcalm as [Hd0 _]. apply Z.eqb_eq in Hd0. subst d.
    assert (Hc' : c = "'"%byte \/ c = DQ).
    { unfold isQuote in Equote. rewrite Hcbq, orb_false_r in Equote.
      apply orb_prop in Equote as [E | E]; apply beq_eq in E; auto. }
    assert (HcLF : c <> LF) by (destruct Hc' as [-> | ->]; discriminate).
    destruct (wholeLines_next _ _ Hlines HcLF) as [l Hl].
    assert (HLF : memb LF (stringEnds c) = true).
    { destruct Hc' as [-> | ->]; reflexivity. }
    destruct (scan_to_delim (stringEnds c) rem l HLF Hl Hplain)
      as (inner & q & rest & -> & Hin & Hq & Hm).
    rewrite <- app_assoc in H. cbn [app] in H.
    destruct (frontmatter_string (S G) z done cur c inner q (rest ++ tail)
                FrontmatterOpen 0 st ob s t H ltac:(discriminate) ltac:(lia) Hc' Es)
      as (z1 & Hb & Htt & H1); auto.
    { rewrite Eslt, Hsb. reflexivity. }
    { subst G. rewrite length_app. lia. }
    refine (Hend z1 (c :: inner ++ [q]) rest _ _ Hb Htt H1);
      [cbn [app]; rewrite <- app_assoc; reflexivity | discriminate]. }
  destruct (frontmatter_continue (S G) z done cur c
              (rem ++ tail) FrontmatterOpen d st ob s t H ltac:(discriminate) ltac:(lia)
              Edash Eslash Es) as (z1 & Hb & H1).
  { left. rewrite Eslt, Hsb, Eclt, Ebrace. split; [reflexivity | exact Equote]. }
  rewrite Es in H1. apply (Hcont z1 Hb H1).
Qed.

(** ** The closing fence at the start of a token *)

(** When the three dashes are all that the token holds, the third dash
    closes the frontmatter. *)
Lemma frontmatter_fence_itself (fuel : nat) (z : Tokenizer) (done cur rem : list byte)
      (st : list Z) (ob : bool) :
  Scan z done cur ("-"%byte :: rem) FrontmatterOpen 2 st ob ->
  (length cur <= 2)%nat ->
  exists z', frontmatter_body fuel z = Ok Return z' /\
             tt z' = FrontmatterFenceToken /\
             Scan z' done (cur ++ ["-"%byte]) rem FrontmatterClosed 0 st true.
Proof.
  intros H Hlen.
  unfold frontmatter_body. rewrite bind_gets, (sc_fm _ _ _ _ _ _ _ _ H).
  cbn [fm_eqb]. exec_read H H1.
  change (beq "-" "-") with true. cbv iota. exec. unfold id. exec.
  rewrite (sc_dash _ _ _ _ _ _ _ _ H), (sc_fm _ _ _ _ _ _ _ _ H).
  change (2 + 1 =? 3) with true. cbv iota.
  rewrite (sc_start _ _ _ _ _ _ _ _ H), (sc_end _ _ _ _ _ _ _ _ H).
  match goal with
  | |- context [Z.ltb ?a ?b] => destruct (Z.ltb_spec a b); [lia|]
  end.
  exec.
  eexists. split; [reflexivity|]. split; [reflexivity|]. scan_solve H1.
Qed.

(** Behind the frontmatter the main loop reads over a byte that is no
    quote, no brace and no [<]. *)
Lemma loop_plain (fuel : nat) (z : Tokenizer) (done cur : list byte) (c : byte)
      (rem : list byte) (d : Z) (st : list Z) (ob : bool) :
  Scan z done cur (c :: rem) FrontmatterClosed d st ob ->
  isQuote c = false -> isBrace c = false -> beq c "<" = false ->
  exists z', loop_body fuel z = Ok Continue z' /\
             Scan z' done (cur ++ [c]) rem FrontmatterClosed d st ob.
Proof.
  intros H Hq Hb Hlt. unfold loop_body. exec_read H H1. exec.
  rewrite Hq, andb_false_r, Hb. exec. rewrite (sc_fm _ _ _ _ _ _ _ _ H).
  cbn [fm_eqb negb]. rewrite andb_false_r, Hlt. cbn [negb].
  eexists. split; [reflexivity|]. exact H1.
Qed.

(** ** The tokens of the frontmatter *)

Section Frontmatter.

Variable unescape : list byte -> list byte.

Lemma dashRun_app (a b : list byte) (d : Z) :
  dashRun d (a ++ b) = dashRun (dashRun d a) b.
Proof. revert d. induction a as [|c a IH]; intros d; [reflexivity|]. cbn. apply IH. Qed.

Lemma dashRun_line (l : list byte) (d : Z) : dashRun d (l ++ [LF]) = 0.
Proof. rewrite dashRun_app. reflexivity. Qed.

Lemma Scan_bounds (z : Tokenizer) (done cur rem : list byte)
      (f : FrontmatterState) (d : Z) (st : list Z) (ob : bool) :
  Scan z done cur rem f d st ob -> 0 <= rawEnd z <= len z.
Proof.
  intros H. unfold len.
  rewrite (sc_buf _ _ _ _ _ _ _ _ H), (sc_end _ _ _ _ _ _ _ _ H).
  rewrite !length_app. lia.
Qed.

(** One call of [Next] inside the frontmatter, with [rem], which ends in
    a line feed, and the closing fence still to read: the token is a text
    token, and either it ends inside [rem], or it has taken in the three
    dashes of the closing fence and the dash count stays at three. *)
Lemma Next_open (F : nat) (z : Tokenizer) (done cur rem l : list byte) (ob : bool) :
  Scan z done cur (rem ++ closingFence) FrontmatterOpen 0 [] ob ->
  tt z = TextToken \/ tt z = FrontmatterFenceToken ->
  rem = l ++ [LF] ->
  forallb plainByte rem = true -> noBlockComment rem = true ->
  calmDashes 0 rem = true ->
  (length rem + 6 <= F)%nat ->
  exists z', Next unescape F z = Ok TextToken z' /\ tt z' = TextToken /\
    ((exists done' cur' pre rem' ob',
         Scan z' done' cur' (rem' ++ closingFence) FrontmatterOpen 0 [] ob' /\
         rem = pre ++ rem' /\ pre <> []) \/
     (exists done' cur',
         Scan z' done' cur' [LF] FrontmatterOpen 3 [] false)).
Proof.
  intros H Htt Hl Hplain Hblock Hcalm HF.
  destruct (Next_enter unescape F z (sc_tag _ _ _ _ _ _ _ _ H)) as (z1 & E & HN).
  { intros _. split; [exact Htt | apply (Scan_bounds _ _ _ _ _ _ _ _ H)]. }
  pose proof (Scan_entered _ _ _ _ _ _ _ _ _ H E) as H1. cbn [fm_eqb] in H1.
  assert (Hlab : entryLabel z1 = L_frontmatter_loop).
  { unfold entryLabel. rewrite (sc_fm _ _ _ _ _ _ _ _ H1). reflexivity. }
  rewrite HN, Hlab. clear HN Hlab E H Htt z.
  destruct rem as [|c r]; [destruct l; discriminate|].
  cbn [length] in HF.
  assert (HF' : exists x, F = (length (c :: r) + (2 + (3 + x)))%nat)
    by (exists (F - length r - 6)%nat; cbn [length]; lia).
  destruct HF' as [x ->]. clear HF.
  destruct (isBrace c) eqn:Ebrace.
  - (* the token is a brace *)
    cbn [app] in H1.
    set (G := (length r + (3 + x))%nat).
    replace (length (c :: r) + (2 + (3 + x)))%nat with (S (S (S G)))
      by (subst G; cbn [length]; lia).
    destruct (frontmatter_brace (S (S (S G))) z1 (done ++ cur) [] c (r ++ closingFence)
                FrontmatterOpen 0 [] false c []
                H1 ltac:(discriminate) ltac:(lia) Ebrace eq_refl)
      as (z2 & Hb2 & H2).
    { intros _. apply isBrace_cases in Ebrace as [-> | ->]; reflexivity. }
    destruct (loop_brace_first (S (S G)) z2 (done ++ cur) c (r ++ closingFence)
                FrontmatterOpen 0 [] false H2 Ebrace)
      as (z3 & Hb3 & H3).
    assert (Hrun : run (S (S (S G))) L_frontmatter_loop z1 = run (S G) L_expression_loop z3).
    { rewrite (run_goto _ L_frontmatter_loop L_loop z1 z2 Hb2).
      apply (run_goto _ L_loop L_expression_loop z2 z3 Hb3). }
    assert (Hret : exists z', expression_body (S G) z3 = Ok Return z' /\ tt z' = TextToken /\
                              Scan z' (done ++ cur) [c] (r ++ closingFence)
                                   FrontmatterOpen 0 [] false).
    { apply isBrace_cases in Ebrace as [-> | ->].
      - apply (expression_nested (S G) z3 _ _ _ _ _ H3).
      - apply (expression_stray (S G) z3 _ _ _ _ _ H3). }
    destruct Hret as (z' & Hb & Htt & Hs).
    exists z'. split; [|split; [exact Htt|]].
    + apply run_tt; [|exact Htt]. rewrite Hrun.
      apply (run_return _ L_expression_loop). exact Hb.
    + left. exists (done ++ cur), [c], [c], r, false.
      split; [exact Hs|]. split; [reflexivity | discriminate].
  - (* the token begins with another byte *)
    destruct (frontmatter_scan_open (done ++ cur) [] false closingFence (3 + x)
                (c :: r) [] z1 0 H1 ltac:(right; eauto) Hplain Hblock Hcalm ltac:(lia)) as
        [(z' & Hr & Hs) | (z' & pre & rest & Hsplit & Hne & Hr & Htt & Hs)].
    + intros s t E. cbn in E. injection E as <- _. exact Ebrace.
    + (* up to the closing fence *)
      rewrite Hl, dashRun_line, <- Hl in Hs. cbn [app] in Hs.
      unfold closingFence in Hs. cbn [B list_byte_of_string app] in Hs.
      change (2 + (3 + x))%nat with (S (S (S (2 + x)))) in Hr |- *.
      destruct (frontmatter_dash (S (S (S (2 + x)))) z' _ _ _ _ _ _ _ Hs
                  ltac:(discriminate) ltac:(lia)) as (z2 & Hb2 & H2).
      destruct (frontmatter_dash (S (S (2 + x))) z2 _ _ _ _ _ _ _ H2
                  ltac:(discriminate) ltac:(lia)) as (z3 & Hb3 & H3).
      destruct (frontmatter_text_before_fence (S (2 + x)) z3 _ _ _ _ _ H3)
        as (z4 & Hb4 & Htt & H4).
      { rewrite !length_app. cbn [length]. lia. }
      exists z4. split; [|split; [exact Htt|]].
      * apply run_tt; [|exact Htt]. rewrite Hr.
        rewrite (run_continue _ L_frontmatter_loop z' z2 Hb2).
        rewrite (run_continue _ L_frontmatter_loop z2 z3 Hb3).
        apply (run_return _ L_frontmatter_loop). exact Hb4.
      * right. eauto.
    + (* up to a brace, or to the end of a string or comment *)
      exists z'. split; [apply run_tt; [exact Hr | exact Htt]|]. split; [exact Htt|].
      left. cbn [app] in Hne.
      exists (done ++ cur), pre, pre, rest, false.
      split; [exact Hs|]. split; [exact Hsplit | exact Hne].
Qed.

(** At a token boundary directly before the closing fence, the three
    dashes are returned as the closing FrontmatterFenceToken. *)
Lemma Next_fence_itself (F : nat) (z : Tokenizer) (done cur : list byte) (ob : bool) :
  Scan z done cur closingFence FrontmatterOpen 0 [] ob ->
  tt z = TextToken \/ tt z = FrontmatterFenceToken ->
  exists z', Next unescape (3 + F) z = Ok FrontmatterFenceToken z' /\
             Scan z' (done ++ cur) (B "---") [LF] FrontmatterClosed 0 [] true.
Proof.
  intros H Htt.
  destruct (Next_enter unescape (3 + F) z (sc_tag _ _ _ _ _ _ _ _ H)) as (z1 & E & HN).
  { intros _. split; [exact Htt | apply (Scan_bounds _ _ _ _ _ _ _ _ H)]. }
  pose proof (Scan_entered _ _ _ _ _ _ _ _ _ H E) as H1. cbn [fm_eqb] in H1.
  assert (Hlab : entryLabel z1 = L_frontmatter_loop).
  { unfold entryLabel. rewrite (sc_fm _ _ _ _ _ _ _ _ H1). reflexivity. }
  rewrite HN, Hlab.
  unfold closingFence in H1. cbn [B list_byte_of_string app] in H1.
  change (3 + F)%nat with (S (S (S F))).
  destruct (frontmatter_dash (S (S (S F))) z1 _ _ _ _ _ _ _ H1
              ltac:(discriminate) ltac:(lia)) as (z2 & Hb2 & H2).
  destruct (frontmatter_dash (S (S F)) z2 _ _ _ _ _ _ _ H2
              ltac:(discriminate) ltac:(lia)) as (z3 & Hb3 & H3).
  destruct (frontmatter_fence_itself (S F) z3 _ _ _ _ _ H3 ltac:(cbn; lia))
    as (z4 & Hb4 & Htt4 & H4).
  exists z4. split; [|exact H4].
  apply run_tt; [|exact Htt4].
  rewrite (run_continue _ L_frontmatter_loop z1 z2 Hb2).
  rewrite (run_continue _ L_frontmatter_loop z2 z3 Hb3).
  apply (run_return _ L_frontmatter_loop). exact Hb4.
Qed.

(** The line feed behind such a fence is a text token, and the input
    ends. *)
Lemma Next_closed_text (F : nat) (z : Tokenizer) (done cur : list byte) (d : Z)
      (ob : bool) :
  Scan z done cur [LF] FrontmatterClosed d [] ob ->
  exists z', Next unescape (4 + F) z = Ok TextToken z' /\
             Finished z' FrontmatterClosed.
Proof.
  intros H.
  destruct (Next_enter unescape (4 + F) z (sc_tag _ _ _ _ _ _ _ _ H)) as (z1 & E & HN).
  { rewrite (sc_fm _ _ _ _ _ _ _ _ H). discriminate. }
  pose proof (Scan_entered _ _ _ _ _ _ _ _ _ H E) as H1. cbn [fm_eqb] in H1.
  assert (Hlab : entryLabel z1 = L_loop).
  { unfold entryLabel, isAtExpressionBoundary.
    rewrite (sc_fm _ _ _ _ _ _ _ _ H1), (sc_stack _ _ _ _ _ _ _ _ H1). reflexivity. }
  rewrite HN, Hlab.
  change (4 + F)%nat with (S (3 + F)).
  destruct (loop_plain (S (3 + F)) z1 _ _ _ _ _ _ _ H1 eq_refl eq_refl eq_refl)
    as (z2 & Hb2 & H2).
  destruct (run_at_end F L_loop z2) as (z' & Hrun & Ht & Hsame).
  - rewrite (Scan_len _ _ _ _ _ _ _ H2). lia.
  - discriminate.
  - apply (sc_tag _ _ _ _ _ _ _ _ H2).
  - assert (Htext : tt z' = TextToken).
    { rewrite Ht, (sc_start _ _ _ _ _ _ _ _ H2), (sc_end _ _ _ _ _ _ _ _ H2).
      cbn [app length].
      match goal with
      | |- context [Z.ltb ?a ?b] => destruct (Z.ltb_spec a b); [reflexivity | lia]
      end. }
    exists z'. split.
    + apply run_tt; [|exact Htext].
      rewrite (run_continue _ L_loop z1 z2 Hb2). exact Hrun.
    + rewrite <- (sc_fm _ _ _ _ _ _ _ _ H2).
      apply Finished_same; [apply (Scan_len _ _ _ _ _ _ _ H2) | exact Hsame].
Qed.

(** Behind the text token that took in the closing dashes, the next byte
    is returned as the closing FrontmatterFenceToken, and the input ends. *)
Lemma Next_close (F : nat) (z : Tokenizer) (done cur : list byte) (st : list Z)
      (ob : bool) :
  Scan z done cur [LF] FrontmatterOpen 3 st ob ->
  tt z = TextToken \/ tt z = FrontmatterFenceToken ->
  exists z', Next unescape (S F) z = Ok FrontmatterFenceToken z' /\
             Finished z' FrontmatterClosed.
Proof.
  intros H Htt.
  destruct (Next_enter unescape (S F) z (sc_tag _ _ _ _ _ _ _ _ H)) as (z1 & E & HN).
  { intros _. split; [exact Htt | apply (Scan_bounds _ _ _ _ _ _ _ _ H)]. }
  pose proof (Scan_entered _ _ _ _ _ _ _ _ _ H E) as H1. cbn [fm_eqb] in H1.
  assert (Hlab : entryLabel z1 = L_frontmatter_loop).
  { unfold entryLabel. rewrite (sc_fm _ _ _ _ _ _ _ _ H1). reflexivity. }
  rewrite HN, Hlab.
  destruct (frontmatter_close_fence (S F) z1 _ _ _ _ _ H1 eq_refl) as (z2 & Hb & Ht & H2).
  exists z2. split.
  - apply run_tt; [|exact Ht]. apply (run_return _ L_frontmatter_loop). exact Hb.
  - apply (Scan_finished _ _ _ _ _ _ _ H2).
Qed.

(** Three dashes at the very start open the frontmatter. *)
Lemma Next_first_fence (F : nat) (z : Tokenizer) (rest : list byte) :
  Scan z [] [] (B "---" ++ rest) FrontmatterInitial 0 [] true ->
  exists z', Next unescape (3 + F) z = Ok FrontmatterFenceToken z' /\
             tt z' = FrontmatterFenceToken /\
             Scan z' [] (B "---") rest FrontmatterOpen 0 [] false.
Proof.
  intros H.
  destruct (Next_enter unescape (3 + F) z (sc_tag _ _ _ _ _ _ _ _ H)) as (z1 & E & HN).
  { rewrite (sc_fm _ _ _ _ _ _ _ _ H). discriminate. }
  pose proof (Scan_entered _ _ _ _ _ _ _ _ _ H E) as H1. cbn [fm_eqb app] in H1.
  assert (Hlab : entryLabel z1 = L_frontmatter_loop).
  { unfold entryLabel. rewrite (sc_fm _ _ _ _ _ _ _ _ H1). reflexivity. }
  rewrite HN, Hlab. cbn [B list_byte_of_string app] in H1.
  change (3 + F)%nat with (S (S (S F))).
  destruct (frontmatter_dash (S (S (S F))) z1 _ _ _ _ _ _ _ H1
              ltac:(discriminate) ltac:(lia)) as (z2 & Hb2 & H2).
  destruct (frontmatter_dash (S (S F)) z2 _ _ _ _ _ _ _ H2
              ltac:(discriminate) ltac:(lia)) as (z3 & Hb3 & H3).
  destruct (frontmatter_open_fence (S F) z3 _ _ _ _ _ H3) as (z4 & Hb4 & Htt & H4).
  exists z4. split; [|split; [exact Htt | exact H4]].
  apply run_tt; [|exact Htt].
  rewrite (run_continue _ L_frontmatter_loop z1 z2 Hb2).
  rewrite (run_continue _ L_frontmatter_loop z2 z3 Hb3).
  apply (run_return _ L_frontmatter_loop). exact Hb4.
Qed.

(** The tokens of the frontmatter from a token boundary on: text tokens,
    the closing fence and, when the fence is a token of its own, a text
    token for the line feed behind it. *)
Lemma tokens_open (F : nat) :
  forall (k : nat) (rem : list byte), (length rem <= k)%nat ->
  forall (z : Tokenizer) (done cur : list byte) (ob : bool) (n : nat),
    Scan z done cur (rem ++ closingFence) FrontmatterOpen 0 [] ob ->
    tt z = TextToken \/ tt z = FrontmatterFenceToken ->
    wholeLines rem ->
    forallb plainByte rem = true -> noBlockComment rem = true ->
    calmDashes 0 rem = true ->
    (length rem + 7 <= F)%nat -> (length rem + 3 <= n)%nat ->
    stoppedAtErrorIn (fun z' => fm z' = FrontmatterClosed)
                     (snd (tokens unescape F n z)) /\
    exists j i, kinds (tokens unescape F n z)
                = repeat TextToken j ++ FrontmatterFenceToken :: repeat TextToken i /\
                (i <= 1)%nat /\ (rem <> [] -> (1 <= j)%nat).
Proof.
  induction k as [|k IH];
    intros rem Hk z done cur ob n H Htt Hlines Hplain Hblock Hcalm HF Hn.
  { destruct rem; [|cbn in Hk; lia]. clear Hk. cbn [app length] in *.
    assert (HF' : exists G, F = (3 + S (3 + G))%nat) by (exists (F - 7)%nat; lia).
    destruct HF' as [G ->].
    destruct (Next_fence_itself (S (3 + G)) z done cur ob H Htt) as (z1 & HN1 & H1).
    destruct (Next_closed_text (3 + G) z1 _ _ _ _ H1) as (z2 & HN2 & Hfin).
    change (4 + (3 + G))%nat with (3 + S (3 + G))%nat in HN2.
    destruct (Next_finished unescape (S (3 + G)) z2 FrontmatterClosed Hfin
                ltac:(discriminate)) as (z3 & HN3 & Hfm3 & _).
    destruct n as [|[|[|n]]]; try lia.
    rewrite (tokens_cons _ _ _ _ _ _ HN1 ltac:(discriminate)).
    rewrite (tokens_cons _ _ _ _ _ _ HN2 ltac:(discriminate)).
    rewrite (tokens_error _ _ _ _ _ HN3). cbn [fst snd map kind tokOf].
    split; [exact Hfm3|]. exists 0%nat, 1%nat. split; [reflexivity|].
    split; [lia | congruence]. }
  destruct rem as [|c r] eqn:Erem.
  { apply (IH [] ltac:(cbn; lia) z done cur ob n); assumption. }
  rewrite <- Erem in *.
  destruct Hlines as [Hlines | [l Hl]]; [congruence|].
  destruct (Next_open F z done cur rem l ob H Htt Hl Hplain Hblock Hcalm ltac:(lia))
    as (z' & HN & Htt' & Hcase).
  destruct n as [|n]; [lia|].
  rewrite (tokens_cons _ _ _ _ _ _ HN ltac:(discriminate)).
  unfold kinds. cbn [fst snd map kind tokOf].
  destruct Hcase as [(done' & cur' & pre & rem' & ob' & H' & Hsplit & Hpre)
                    | (done' & cur' & H')].
  - assert (Hlen : (length rem' < length rem)%nat).
    { rewrite Hsplit, length_app. destruct pre; [congruence | cbn [length]; lia]. }
    destruct (IH rem' ltac:(lia) z' done' cur' ob' n H' ltac:(auto))
      as (Hstop & j & i & Hj & Hi & _).
    + apply (wholeLines_suffix pre). rewrite <- Hsplit. right. eauto.
    + rewrite Hsplit, forallb_app in Hplain. apply andb_prop in Hplain as [_ Hp]. exact Hp.
    + rewrite Hsplit in Hblock. apply (noBlockComment_suffix _ _ Hblock).
    + rewrite Hsplit in Hcalm. apply (calmDashes_suffix _ _ 0 ltac:(lia) Hcalm).
    + lia.
    + lia.
    + split; [exact Hstop|]. exists (S j), i. unfold kinds in Hj. rewrite Hj.
      split; [reflexivity|]. split; [exact Hi | lia].
  - assert (HF' : exists G, F = S (S (S G))) by (exists (F - 3)%nat; lia).
    destruct HF' as [G ->].
    destruct (Next_close (S (S G)) z' done' cur' [] false H' ltac:(auto))
      as (z2 & HN2 & Hfin).
    destruct (Next_finished unescape G z2 FrontmatterClosed Hfin ltac:(discriminate))
      as (z3 & HN3 & Hfm3 & _).
    destruct n as [|[|n]]; [lia | lia |].
    rewrite (tokens_cons _ _ _ _ _ _ HN2 ltac:(discriminate)).
    rewrite (tokens_error _ _ _ _ _ HN3). cbn [fst snd map kind tokOf].
    split; [exact Hfm3|]. exists 1%nat, 0%nat. split; [reflexivity|]. split; lia.
Qed.

End Frontmatter.

Lemma countKind_kinds (k : TokenType) (l : list Tok) :
  countKind k l = length (List.filter (fun t => TokenType_eqb t k) (map kind l)).
Proof.
  unfold countKind. induction l as [|a l IH]; [reflexivity|].
  cbn [List.filter map]. destruct (TokenType_eqb (kind a) k); cbn [length];
    rewrite IH; reflexivity.
Qed.

Lemma text_run_no_fence (j : nat) (l : list TokenType) :
  List.filter (fun t => TokenType_eqb t FrontmatterFenceToken) (repeat TextToken j ++ l)
  = List.filter (fun t => TokenType_eqb t FrontmatterFenceToken) l.
Proof. induction j as [|j IH]; [reflexivity | exact IH]. Qed.

(** A backquote in the content opens a template literal, which is read up
    to the next backquote or to the end of the input, the closing fence
    included. *)
Lemma template_literal_swallows_fence :
  wholeLines contentTemplate /\ noThreeDashes 0 contentTemplate = true /\
  let r := tokens noUnescape 100 10 (NewTokenizer (frontmatterOnly contentTemplate) []) in
  stoppedAtError (snd r) /\ countKind FrontmatterFenceToken (fst r) = 1%nat.
Proof.
  split; [right; exists (B "a ` b"); reflexivity|].
  vm_compute. repeat split.
Qed.

(** The closing dashes are read as the end of the text token before them,
    and the byte behind them is returned as the fence: without such a byte
    the stream ends behind the text token. *)
Lemma closing_fence_at_end_of_input :
  let r := tokens noUnescape 100 10 (NewTokenizer inputNoFinalNewline []) in
  stoppedAtError (snd r) /\
  kinds r = [FrontmatterFenceToken; TextToken].
Proof. vm_compute. split; [exact I | reflexivity]. Qed.

(** C3 (on the inputs for which it holds): let the input be the line
    [---], then lines of content, then the line [---], the line feed of
    which ends the input, where the content holds no backslash, no
    backquote, no slash directly followed by a star, no three dashes in a
    row and no dash directly before a slash or a quote.  Then the first
    call of [Next] returns a FrontmatterFenceToken and opens the
    frontmatter, the calls that follow return one or more text tokens and
    then the second FrontmatterFenceToken, at most one text token (the
    final line feed) follows, and the next call reports the end of the
    input with the frontmatter closed: two FrontmatterFenceTokens in all.
    Quoted strings, line comments, slashes, [<] and braces in the content
    make no difference to that. *)
Theorem frontmatter_two_fences
    (unescape : list byte -> list byte) (slack content : list byte) (fuel n : nat) :
  wholeLines content ->
  forallb plainByte content = true ->
  noBlockComment content = true ->
  noThreeDashes 0 content = true ->
  noDashBeforeDelim content = true ->
  let z0 := NewTokenizer (frontmatterOnly content) slack in
  let r := tokens unescape (length content + 8 + fuel) (length content + 5 + n) z0 in
  (exists z1, Next unescape (length content + 8 + fuel) z0 = Ok FrontmatterFenceToken z1 /\
              fm z0 = FrontmatterInitial /\ fm z1 = FrontmatterOpen) /\
  stoppedAtErrorIn (fun z => fm z = FrontmatterClosed) (snd r) /\
  (exists j i, kinds r = FrontmatterFenceToken :: repeat TextToken (S j)
                           ++ FrontmatterFenceToken :: repeat TextToken i /\
               (i <= 1)%nat) /\
  countKind FrontmatterFenceToken (fst r) = 2%nat.
Proof.
  intros Hlines Hplain Hblock Hdash Hdelim z0 r.
  assert (H0 : Scan z0 [] [] (B "---" ++ (LF :: content) ++ closingFence)
                    FrontmatterInitial 0 [] true).
  { constructor; reflexivity. }
  destruct (Next_first_fence unescape (length content + 5 + fuel) _ _ H0)
    as (z1 & HN1 & Htt1 & H1).
  replace (3 + (length content + 5 + fuel))%nat with (length content + 8 + fuel)%nat
    in HN1 by lia.
  split.
  { exists z1. split; [exact HN1|]. split; [reflexivity|].
    apply (sc_fm _ _ _ _ _ _ _ _ H1). }
  assert (Hl : wholeLines (LF :: content)).
  { right. destruct Hlines as [-> | [l ->]]; [exists []; reflexivity|].
    exists (LF :: l). reflexivity. }
  destruct (tokens_open unescape (length content + 8 + fuel) (length (LF :: content))
              (LF :: content) (le_n _) z1 [] (B "---") false (length content + 4 + n)
              H1 ltac:(auto) Hl) as (Hstop & j & i & Hj & Hi & Hpos).
  - cbn [forallb]. rewrite Hplain. reflexivity.
  - cbn [noBlockComment]. rewrite Hblock. reflexivity.
  - apply (calmDashes_intro content 0 Hdash Hdelim). congruence.
  - cbn [length]. lia.
  - cbn [length]. lia.
  - destruct j as [|j]; [specialize (Hpos ltac:(discriminate)); lia|].
    assert (Hr : r = (tokOf FrontmatterFenceToken z1
                        :: fst (tokens unescape (length content + 8 + fuel)
                                       (length content + 4 + n) z1),
                      snd (tokens unescape (length content + 8 + fuel)
                                  (length content + 4 + n) z1))).
    { subst r. replace (length content + 5 + n)%nat with (S (length content + 4 + n)) by lia.
      apply (tokens_cons _ _ _ _ _ _ HN1). discriminate. }
    rewrite Hr. cbn [fst snd].
    assert (Hk : kinds (tokOf FrontmatterFenceToken z1
                          :: fst (tokens unescape (length content + 8 + fuel)
                                         (length content + 4 + n) z1),
                        snd (tokens unescape (length content + 8 + fuel)
                                    (length content + 4 + n) z1))
                 = FrontmatterFenceToken :: repeat TextToken (S j)
                     ++ FrontmatterFenceToken :: repeat TextToken i).
    { unfold kinds in *. cbn [fst map kind tokOf]. rewrite Hj. reflexivity. }
    split; [exact Hstop|]. split; [exists j, i; split; [exact Hk | exact Hi]|].
    rewrite countKind_kinds. unfold kinds in Hk. cbn [fst] in Hk. rewrite Hk.
    cbn [List.filter TokenType_eqb length].
    rewrite (text_run_no_fence (S j)). cbn [List.filter TokenType_eqb length].
    rewrite <- (app_nil_r (repeat TextToken i)), text_run_no_fence. reflexivity.
Qed.

Lemma frontmatter_two_fences_witness :
  let z0 := NewTokenizer (frontmatterOnly contentTypical) [] in
  let r := tokens noUnescape (length contentTypical + 8 + 0)
                  (length contentTypical + 5 + 0) z0 in
  (exists z1, Next noUnescape (length contentTypical + 8 + 0) z0
              = Ok FrontmatterFenceToken z1 /\
              fm z0 = FrontmatterInitial /\ fm z1 = FrontmatterOpen) /\
  stoppedAtErrorIn (fun z => fm z = FrontmatterClosed) (snd r) /\
  (exists j i, kinds r = FrontmatterFenceToken :: repeat TextToken (S j)
                           ++ FrontmatterFenceToken :: repeat TextToken i /\
               (i <= 1)%nat) /\
  countKind FrontmatterFenceToken (fst r) = 2%nat.
Proof.
  apply (frontmatter_two_fences noUnescape [] contentTypical 0%nat 0%nat).
  - right. exists typicalLines. reflexivity.
  - reflexivity.
  - reflexivity.
  - reflexivity.
  - reflexivity.
Defined.

Lemma fm_leb_refl (a : FrontmatterState) : fm_leb a a = true.
Proof. destruct a; reflexivity. Qed.

Lemma fm_leb_trans (a b c : FrontmatterState) :
  fm_leb a b = true -> fm_leb b c = true -> fm_leb a c = true.
Proof. destruct a, b, c; auto. Qed.

Lemma fm_leb_Closed (a : FrontmatterState) : fm_leb a FrontmatterClosed = true.
Proof. destruct a; reflexivity. Qed.

Lemma Kept_refl (z : Tokenizer) : Kept z z.
Proof. constructor; auto using fm_leb_refl. Qed.

Lemma Kept_trans (a b c : Tokenizer) : Kept a b -> Kept b c -> Kept a c.
Proof.
  intros [] []. constructor;
    [congruence | auto | eauto using fm_leb_trans | congruence | congruence].
Qed.

Lemma keepsAt_ret {A} (a : A) (z : Tokenizer) : keepsAt (ret a) z.
Proof. intros ? ? H. injection H as _ <-. apply Kept_refl. Qed.

Lemma keepsAt_gets {A} (f : Tokenizer -> A) (z : Tokenizer) : keepsAt (gets f) z.
Proof. intros ? ? H. injection H as _ <-. apply Kept_refl. Qed.

Lemma keepsAt_panic {A} (p : PanicValue) (z : Tokenizer) : keepsAt (@panic A p) z.
Proof. intros ? ? H. discriminate. Qed.

Lemma keepsAt_fuel {A} (z : Tokenizer) : keepsAt (@out_of_fuel A) z.
Proof. intros ? ? H. discriminate. Qed.

Lemma keepsAt_modify (f : Tokenizer -> Tokenizer) (z : Tokenizer) :
  Kept z (f z) -> keepsAt (modify f) z.
Proof. intros K ? ? H. injection H as _ <-. exact K. Qed.

Lemma keepsAt_bind {A C} (x : M A) (k : A -> M C) (z : Tokenizer) :
  keepsAt x z -> (forall a z1, x z = Ok a z1 -> keepsAt (k a) z1) ->
  keepsAt (bind x k) z.
Proof.
  intros Hx Hk c z' H. apply bind_Ok in H as (a & z1 & H1 & H2).
  eapply Kept_trans; [apply (Hx _ _ H1) | apply (Hk _ _ H1 _ _ H2)].
Qed.

Lemma keepsAt_bind_keeps {A C} (x : M A) (k : A -> M C) (z : Tokenizer) :
  keeps x -> (forall a z1, keepsAt (k a) z1) -> keepsAt (bind x k) z.
Proof. intros Hx Hk. apply keepsAt_bind; [apply Hx | intros; apply Hk]. Qed.

Lemma keepsAt_bind_gets {A C} (f : Tokenizer -> A) (k : A -> M C) (z : Tokenizer) :
  keepsAt (k (f z)) z -> keepsAt (bind (gets f) k) z.
Proof. intros H c z' E. rewrite bind_gets in E. exact (H _ _ E). Qed.

Lemma keepsAt_bind_modify {C} (f : Tokenizer -> Tokenizer) (k : unit -> M C)
      (z : Tokenizer) :
  Kept z (f z) -> keepsAt (k ()) (f z) -> keepsAt (bind (modify f) k) z.
Proof.
  intros K H c z' E. rewrite bind_modify in E.
  eapply Kept_trans; [exact K | exact (H _ _ E)].
Qed.

Lemma keepsAt_bind_ret {A C} (a : A) (k : A -> M C) (z : Tokenizer) :
  keepsAt (k a) z -> keepsAt (bind (ret a) k) z.
Proof. intros H c z' E. rewrite bind_ret in E. exact (H _ _ E). Qed.

Lemma keepsAt_assoc {A C D} (x : M A) (k : A -> M C) (k' : C -> M D) (z : Tokenizer) :
  keepsAt (bind x (fun a => bind (k a) k')) z -> keepsAt (bind (bind x k) k') z.
Proof. intros H c z' E. rewrite bind_bind in E. exact (H _ _ E). Qed.

Lemma keepsAt_ext {A} (x y : M A) (z : Tokenizer) :
  x z = y z -> keepsAt y z -> keepsAt x z.
Proof. intros E H a z' Hx. rewrite E in Hx. exact (H _ _ Hx). Qed.

Lemma keepsAt_bind_panic {A C} (p : PanicValue) (k : A -> M C) (z : Tokenizer) :
  keepsAt (bind (panic p) k) z.
Proof. intros c z' E. discriminate. Qed.

Lemma keepsAt_bind_fuel {A C} (k : A -> M C) (z : Tokenizer) :
  keepsAt (bind out_of_fuel k) z.
Proof. intros c z' E. discriminate. Qed.

Lemma keeps_at {A} (x : M A) (z : Tokenizer) : keeps x -> keepsAt x z.
Proof. intros H. apply H. Qed.

Create HintDb frame.

(** A state built by setters that touch neither the start of the raw
    span, nor the error, nor the frontmatter state. *)
Ltac kept_fields :=
  constructor; proj_simpl;
  [ reflexivity
  | first [ (intros ? ?; assumption) | intros [] _; reflexivity ]
  | first [ apply fm_leb_refl | apply fm_leb_Closed
          | match goal with
            | H : fm _ = _ |- _ => proj_simpl_in H; rewrite H; reflexivity
            end ]
  | reflexivity
  | reflexivity ].

Ltac kept_solve :=
  cbv beta;
  repeat match goal with
         | |- Kept _ (if ?b then _ else _) => destruct b eqn:?
         | |- Kept _ (match ?x with _ => _ end) => destruct x eqn:?
         end;
  kept_fields.

Ltac frame_leaf :=
  first [ apply keepsAt_ret | apply keepsAt_gets | apply keepsAt_panic
        | apply keepsAt_fuel
        | (apply keepsAt_modify; kept_solve)
        | (apply keeps_at; solve [auto with frame])
        | match goal with IH : _ |- _ => solve [apply IH] end ].

Ltac frame_step :=
  cbv beta zeta; unfold id;
  lazymatch goal with
  | |- keepsAt (match (if ?b then _ else _) with _ => _ end) _ => destruct b eqn:?
  | |- keepsAt (match (match ?x with _ => _ end) with _ => _ end) _ => destruct x eqn:?
  | |- keepsAt (bind (gets _) _) _ => apply keepsAt_bind_gets
  | |- keepsAt (bind (ret _) _) _ => apply keepsAt_bind_ret
  | |- keepsAt (bind (modify _) _) _ => apply keepsAt_bind_modify; [kept_solve|]
  | |- keepsAt (bind (panic _) _) _ => apply keepsAt_bind_panic
  | |- keepsAt (bind out_of_fuel _) _ => apply keepsAt_bind_fuel
  | |- keepsAt (bind (bind _ _) _) _ => apply keepsAt_assoc
  | |- keepsAt (bind (if ?b then _ else _) _) _ => destruct b eqn:?
  | |- keepsAt (bind (match ?x with _ => _ end) _) _ => destruct x eqn:?
  | |- keepsAt (bind ?x _) _ =>
      apply keepsAt_bind_keeps;
      [ first [ solve [auto with frame]
              | match goal with IH : _ |- _ => solve [intro; apply IH] end ]
      | intros ? ? ]
  | |- keepsAt (if ?b then _ else _) _ => destruct b eqn:?
  | |- keepsAt (match ?x with _ => _ end) _ => destruct x eqn:?
  | |- _ => frame_leaf
  end.

Ltac frame := repeat frame_step.

Lemma keeps_rawEnd_add (k : Z) : keeps (rawEnd_add k).
Proof. intros z. unfold rawEnd_add. frame. Qed.
#[export] Hint Resolve keeps_rawEnd_add : frame.

Lemma keeps_same {A} (x : M A) :
  (forall z a z', x z = Ok a z' -> z' = z) -> keeps x.
Proof. intros H z a z' E. rewrite (H _ _ _ E). apply Kept_refl. Qed.

Lemma keeps_bufIndex (i : Z) : keeps (bufIndex i).
Proof.
  apply keeps_same. intros z a z'. unfold bufIndex.
  destruct (at_ (buf z) i); [|discriminate]. congruence.
Qed.
#[export] Hint Resolve keeps_bufIndex : frame.

Lemma keeps_bufSlice (a b : Z) : keeps (bufSlice a b).
Proof.
  apply keeps_same. intros z r z'. unfold bufSlice.
  destruct (_ && _); [|discriminate]. congruence.
Qed.
#[export] Hint Resolve keeps_bufSlice : frame.

Lemma keeps_bufFrom (a : Z) : keeps (bufFrom a).
Proof.
  apply keeps_same. intros z r z'. unfold bufFrom.
  destruct (_ && _); [|discriminate]. congruence.
Qed.
#[export] Hint Resolve keeps_bufFrom : frame.

Lemma keeps_bufSlice1 (a : Z) : keeps (bufSlice1 a).
Proof. intros z. unfold bufSlice1. frame. Qed.
#[export] Hint Resolve keeps_bufSlice1 : frame.

Lemma keeps_readByte : keeps readByte.
Proof.
  intros z a z'. unfold readByte.
  destruct (rawEnd z >=? len z).
  - intros H. injection H as _ <-. constructor; proj_simpl;
      [reflexivity | intros [] _; reflexivity | apply fm_leb_refl
      | reflexivity | reflexivity].
  - destruct (at_ (buf z) (rawEnd z)); [|discriminate].
    intros H. injection H as _ <-. kept_solve.
Qed.
#[export] Hint Resolve keeps_readByte : frame.

Lemma keeps_Buffered : keeps Buffered.
Proof. intros z. unfold Buffered. apply keeps_bufFrom. Qed.
#[export] Hint Resolve keeps_Buffered : frame.

Lemma keeps_Raw : keeps Raw.
Proof. intros z. unfold Raw. apply keeps_bufSlice. Qed.
#[export] Hint Resolve keeps_Raw : frame.

Lemma keeps_skipWhiteSpace_loop (fuel : nat) : keeps (skipWhiteSpace_loop fuel).
Proof. induction fuel as [|f IH]; intros z; cbn [skipWhiteSpace_loop]; frame. Qed.
#[export] Hint Resolve keeps_skipWhiteSpace_loop : frame.

Lemma keeps_skipWhiteSpace (fuel : nat) : keeps (skipWhiteSpace fuel).
Proof. intros z. unfold skipWhiteSpace. frame. Qed.
#[export] Hint Resolve keeps_skipWhiteSpace : frame.

Lemma keeps_readRawEndTag_name (tag : list byte) : keeps (readRawEndTag_name tag).
Proof. induction tag as [|t tag IH]; intros z; cbn [readRawEndTag_name]; frame. Qed.
#[export] Hint Resolve keeps_readRawEndTag_name : frame.

Lemma keeps_readRawEndTag : keeps readRawEndTag.
Proof. intros z. unfold readRawEndTag. frame. Qed.
#[export] Hint Resolve keeps_readRawEndTag : frame.

Lemma keeps_scriptDoubleEscapeName (lower upper : list byte) :
  keeps (scriptDoubleEscapeName lower upper).
Proof.
  revert upper. induction lower as [|l lower IH]; intros upper z;
    destruct upper; cbn [scriptDoubleEscapeName]; frame.
Qed.
#[export] Hint Resolve keeps_scriptDoubleEscapeName : frame.

Lemma keeps_scriptStep (s : ScriptState) : keeps (scriptStep s).
Proof. intros z. destruct s; cbn [scriptStep]; unfold readOrReturn; frame. Qed.
#[export] Hint Resolve keeps_scriptStep : frame.

Lemma keeps_readScript_run (fuel : nat) (s : ScriptState) : keeps (readScript_run fuel s).
Proof.
  revert s. induction fuel as [|f IH]; intros s z; cbn [readScript_run]; frame.
Qed.
#[export] Hint Resolve keeps_readScript_run : frame.

Lemma keeps_readScript (fuel : nat) : keeps (readScript fuel).
Proof. intros z. unfold readScript. frame. Qed.
#[export] Hint Resolve keeps_readScript : frame.

Lemma keeps_readHTMLComment_loop (fuel : nat) (dashes : Z) :
  keeps (readHTMLComment_loop fuel dashes).
Proof.
  revert dashes. induction fuel as [|f IH]; intros dashes z;
    cbn [readHTMLComment_loop]; frame.
Qed.
#[export] Hint Resolve keeps_readHTMLComment_loop : frame.

Lemma keeps_readHTMLComment (fuel : nat) : keeps (readHTMLComment fuel).
Proof. intros z. unfold readHTMLComment. frame. Qed.
#[export] Hint Resolve keeps_readHTMLComment : frame.

Lemma keeps_readUntilCloseAngle_loop (fuel : nat) : keeps (readUntilCloseAngle_loop fuel).
Proof. induction fuel as [|f IH]; intros z; cbn [readUntilCloseAngle_loop]; frame. Qed.
#[export] Hint Resolve keeps_readUntilCloseAngle_loop : frame.

Lemma keeps_readUntilCloseAngle (fuel : nat) : keeps (readUntilCloseAngle fuel).
Proof. intros z. unfold readUntilCloseAngle. frame. Qed.
#[export] Hint Resolve keeps_readUntilCloseAngle : frame.

Lemma keeps_readUntilChar (fuel : nat) (chars : list byte) : keeps (readUntilChar fuel chars).
Proof. induction fuel as [|f IH]; intros z; cbn [readUntilChar]; frame. Qed.
#[export] Hint Resolve keeps_readUntilChar : frame.

Lemma keeps_readString (fuel : nat) (c : byte) : keeps (readString fuel c).
Proof. intros z. unfold readString. frame. Qed.
#[export] Hint Resolve keeps_readString : frame.

Lemma keeps_readBlockComment (fuel : nat) : keeps (readBlockComment fuel).
Proof. induction fuel as [|f IH]; intros z; cbn [readBlockComment]; frame. Qed.
#[export] Hint Resolve keeps_readBlockComment : frame.

Lemma keeps_readCommentOrRegExp (fuel : nat) (boundaryChars : list byte) :
  keeps (readCommentOrRegExp fuel boundaryChars).
Proof. intros z. unfold readCommentOrRegExp. frame. Qed.
#[export] Hint Resolve keeps_readCommentOrRegExp : frame.

Lemma keeps_readTwo : keeps readTwo.
Proof. intros z. unfold readTwo. frame. Qed.
#[export] Hint Resolve keeps_readTwo : frame.

Lemma keeps_readDoctype_name (s : list byte) : keeps (readDoctype_name s).
Proof. induction s as [|k s IH]; intros z; cbn [readDoctype_name]; frame. Qed.
#[export] Hint Resolve keeps_readDoctype_name : frame.

Lemma keeps_readDoctype (fuel : nat) : keeps (readDoctype fuel).
Proof. intros z. unfold readDoctype. frame. Qed.
#[export] Hint Resolve keeps_readDoctype : frame.

Lemma keeps_readCDATA_name (s : list byte) : keeps (readCDATA_name s).
Proof. induction s as [|k s IH]; intros z; cbn [readCDATA_name]; frame. Qed.
#[export] Hint Resolve keeps_readCDATA_name : frame.

Lemma keeps_readCDATA_loop (fuel : nat) (brackets : Z) : keeps (readCDATA_loop fuel brackets).
Proof.
  revert brackets. induction fuel as [|f IH]; intros brackets z;
    cbn [readCDATA_loop]; frame.
Qed.
#[export] Hint Resolve keeps_readCDATA_loop : frame.

Lemma keeps_readCDATA (fuel : nat) : keeps (readCDATA fuel).
Proof. intros z. unfold readCDATA. frame. Qed.
#[export] Hint Resolve keeps_readCDATA : frame.

Lemma keeps_readMarkupDeclaration (fuel : nat) : keeps (readMarkupDeclaration fuel).
Proof. intros z. unfold readMarkupDeclaration. frame. Qed.
#[export] Hint Resolve keeps_readMarkupDeclaration : frame.

Lemma keeps_startTagIs_from (s : list byte) (i : Z) : keeps (startTagIs_from i s).
Proof.
  revert i. induction s as [|k s IH]; intros i z; cbn [startTagIs_from]; frame.
Qed.
#[export] Hint Resolve keeps_startTagIs_from : frame.

Lemma keeps_startTagIs (s : list byte) : keeps (startTagIs s).
Proof. intros z. unfold startTagIs. frame. Qed.
#[export] Hint Resolve keeps_startTagIs : frame.

Lemma keeps_startTagIn (ss : list (list byte)) : keeps (startTagIn ss).
Proof. induction ss as [|s ss IH]; intros z; cbn [startTagIn]; frame. Qed.
#[export] Hint Resolve keeps_startTagIn : frame.

Lemma keeps_hasTag_from (attrs : list (Span * Span)) (s : list byte) :
  keeps (hasTag_from attrs s).
Proof. induction attrs as [|x attrs IH]; intros z; cbn [hasTag_from]; frame. Qed.
#[export] Hint Resolve keeps_hasTag_from : frame.

Lemma keeps_hasTag (s : list byte) : keeps (hasTag s).
Proof. intros z. unfold hasTag. frame. Qed.
#[export] Hint Resolve keeps_hasTag : frame.

Lemma keeps_readTagName_loop (fuel : nat) : keeps (readTagName_loop fuel).
Proof. induction fuel as [|f IH]; intros z; cbn [readTagName_loop]; frame. Qed.
#[export] Hint Resolve keeps_readTagName_loop : frame.

Lemma keeps_readTagName (fuel : nat) : keeps (readTagName fuel).
Proof. intros z. unfold readTagName. frame. Qed.
#[export] Hint Resolve keeps_readTagName : frame.

Lemma keeps_readTagAttrExpression_loop (fuel : nat) :
  keeps (readTagAttrExpression_loop fuel).
Proof. induction fuel as [|f IH]; intros z; cbn [readTagAttrExpression_loop]; frame. Qed.
#[export] Hint Resolve keeps_readTagAttrExpression_loop : frame.

Lemma keeps_readTagAttrExpression (fuel : nat) : keeps (readTagAttrExpression fuel).
Proof. intros z. unfold readTagAttrExpression. frame. Qed.
#[export] Hint Resolve keeps_readTagAttrExpression : frame.

Lemma keeps_detectSpread : keeps detectSpread.
Proof. intros z. unfold detectSpread. frame. Qed.
#[export] Hint Resolve keeps_detectSpread : frame.

Lemma keeps_readTagAttrKey_loop (fuel : nat) : keeps (readTagAttrKey_loop fuel).
Proof. induction fuel as [|f IH]; intros z; cbn [readTagAttrKey_loop]; frame. Qed.
#[export] Hint Resolve keeps_readTagAttrKey_loop : frame.

Lemma keeps_readTagAttrKey (fuel : nat) : keeps (readTagAttrKey fuel).
Proof. intros z. unfold readTagAttrKey. frame. Qed.
#[export] Hint Resolve keeps_readTagAttrKey : frame.

Lemma keeps_readQuoted_loop (fuel : nat) (quote : byte) : keeps (readQuoted_loop fuel quote).
Proof. induction fuel as [|f IH]; intros z; cbn [readQuoted_loop]; frame. Qed.
#[export] Hint Resolve keeps_readQuoted_loop : frame.

Lemma keeps_readUnquoted_loop (fuel : nat) : keeps (readUnquoted_loop fuel).
Proof. induction fuel as [|f IH]; intros z; cbn [readUnquoted_loop]; frame. Qed.
#[export] Hint Resolve keeps_readUnquoted_loop : frame.

Lemma keeps_readTagAttrVal (fuel : nat) : keeps (readTagAttrVal fuel).
Proof. intros z. unfold readTagAttrVal. frame. Qed.
#[export] Hint Resolve keeps_readTagAttrVal : frame.

Lemma keeps_readTag_loop (fuel : nat) (saveAttr : bool) : keeps (readTag_loop fuel saveAttr).
Proof. induction fuel as [|f IH]; intros z; cbn [readTag_loop]; frame. Qed.
#[export] Hint Resolve keeps_readTag_loop : frame.

Lemma keeps_readTag (fuel : nat) (saveAttr : bool) : keeps (readTag fuel saveAttr).
Proof. intros z. unfold readTag. frame. Qed.
#[export] Hint Resolve keeps_readTag : frame.

Lemma keeps_readStartTag (fuel : nat) : keeps (readStartTag fuel).
Proof. intros z. unfold readStartTag. frame. Qed.
#[export] Hint Resolve keeps_readStartTag : frame.

Lemma keeps_readUnclosedTag_loop (n : nat) : keeps (readUnclosedTag_loop n).
Proof. induction n as [|n IH]; intros z; cbn [readUnclosedTag_loop]; frame. Qed.
#[export] Hint Resolve keeps_readUnclosedTag_loop : frame.

Lemma keeps_readUnclosedTag : keeps readUnclosedTag.
Proof. intros z. unfold readUnclosedTag. frame. Qed.
#[export] Hint Resolve keeps_readUnclosedTag : frame.

(** With an empty data span, [Text] leaves the buffer as it is. *)
Lemma Text_empty (z : Tokenizer) (z' : Tokenizer) :
  dataStart z = dataEnd z -> Text z = Ok () z' ->
  Kept z z' /\ dataStart z' = dataEnd z'.
Proof.
  intros He. unfold Text. rewrite bind_gets.
  assert (Hcase : forall z',
    (z0 <- gets id ;;
     s <- bufSlice (dataStart z0) (dataEnd z0) ;;
     modify (fun z => set_dataEnd (rawEnd z) (set_dataStart (rawEnd z) z)) ;;;
     writeBack (dataStart z0) (fst (convertNewlines s))) z = Ok () z' ->
    Kept z z' /\ dataStart z' = dataEnd z').
  { clear z'. intros z'. rewrite bind_gets. unfold id. intros H.
    apply bind_Ok in H as (s & z1 & Hs & H).
    assert (Hnil : s = []).
    { unfold bufSlice in Hs. destruct (_ && _); [|discriminate].
      injection Hs as <- _. rewrite He. apply sub_empty. }
    apply bufSlice_Ok in Hs. subst z1 s. rewrite bind_modify in H.
    cbn [convertNewlines fst] in H. rewrite writeBack_nil in H. injection H as <-.
    split; [kept_fields | reflexivity]. }
  destruct (tt z); try (intros H; injection H as <-; split; [apply Kept_refl | exact He]).
  all: apply Hcase.
Qed.

Lemma keeps_TagName : keeps TagName.
Proof. intros z. unfold TagName. frame. Qed.
#[export] Hint Resolve keeps_TagName : frame.

Section FrameToken.

Variable unescape : list byte -> list byte.

(** With an empty data span, [Token] leaves the buffer as it is, and the
    data span stays empty. *)
Lemma Token_Type_empty (fuel : nat) (z : Tokenizer) (t : TokenType) (z' : Tokenizer) :
  dataStart z = dataEnd z -> Token_Type unescape fuel z = Ok t z' ->
  Kept z z' /\ dataStart z' = dataEnd z'.
Proof.
  intros He. unfold Token_Type. rewrite bind_gets.
  destruct (tt z) eqn:Et; intros H.
  all: first
    [ (injection H as _ <-; split; [apply Kept_refl | exact He])
    | (apply bind_Ok in H as ([] & z1 & H1 & H); injection H as _ <-;
       exact (Text_empty z z1 He H1))
    | (unfold TagName in H; rewrite bind_bind, bind_gets in H; unfold id in H;
       rewrite He, Z.ltb_irrefl, bind_ret in H;
       destruct fuel; cbn [Token_attrs] in H; [discriminate|];
       rewrite bind_ret in H; injection H as _ <-;
       split; [apply Kept_refl | exact He]) ].
Qed.

Lemma keeps_readRawOrRCDATA_loop (fuel : nat) : keeps (readRawOrRCDATA_loop fuel).
Proof. induction fuel as [|f IH]; intros z; cbn [readRawOrRCDATA_loop]; frame. Qed.
Hint Resolve keeps_readRawOrRCDATA_loop : frame.

Lemma readRawOrRCDATA_empty (fuel : nat) (z : Tokenizer) :
  dataStart z = dataEnd z -> keepsAt (readRawOrRCDATA unescape fuel) z.
Proof.
  intros He. unfold readRawOrRCDATA. apply keepsAt_bind.
  - intros t z1 H. exact (proj1 (Token_Type_empty fuel z t z1 He H)).
  - intros t z1 _. frame.
Qed.

Lemma keeps_returnToken (t : TokenType) : keeps (returnToken t).
Proof. intros z. unfold returnToken. frame. Qed.
Hint Resolve keeps_returnToken : frame.

Lemma keeps_flushText (x : Z) : keeps (flushText x).
Proof. intros z. unfold flushText. frame. Qed.
Hint Resolve keeps_flushText : frame.

Lemma keeps_tagIsMarkdown : keeps tagIsMarkdown.
Proof. intros z. unfold tagIsMarkdown. frame. Qed.
Hint Resolve keeps_tagIsMarkdown : frame.

Lemma keeps_closeInitialFrontmatter : keeps closeInitialFrontmatter.
Proof. intros z. unfold closeInitialFrontmatter. frame. Qed.
Hint Resolve keeps_closeInitialFrontmatter : frame.

Lemma keeps_loop_startTag (fuel : nat) : keeps (loop_startTag fuel).
Proof. intros z. unfold loop_startTag. frame. Qed.
Hint Resolve keeps_loop_startTag : frame.

Lemma keeps_loop_endTag (fuel : nat) : keeps (loop_endTag fuel).
Proof. intros z. unfold loop_endTag. frame. Qed.
Hint Resolve keeps_loop_endTag : frame.

Lemma keeps_loop_comment (fuel : nat) (c : byte) : keeps (loop_comment fuel c).
Proof. intros z. unfold loop_comment. frame. Qed.
Hint Resolve keeps_loop_comment : frame.

Lemma keeps_loop_body (fuel : nat) : keeps (loop_body fuel).
Proof. intros z. unfold loop_body. frame. Qed.
Hint Resolve keeps_loop_body : frame.

Lemma keeps_frontmatter_body (fuel : nat) : keeps (frontmatter_body fuel).
Proof. intros z. unfold frontmatter_body. frame. Qed.
Hint Resolve keeps_frontmatter_body : frame.

Lemma keeps_raw_with_expression_body (fuel : nat) : keeps (raw_with_expression_body fuel).
Proof. intros z. unfold raw_with_expression_body. frame. Qed.
Hint Resolve keeps_raw_with_expression_body : frame.

Lemma keeps_expression_body (fuel : nat) : keeps (expression_body fuel).
Proof. intros z. unfold expression_body. frame. Qed.
Hint Resolve keeps_expression_body : frame.

Lemma keeps_body (fuel : nat) (l : Label) : keeps (body fuel l).
Proof. intros z. destruct l; cbn [body]; frame. Qed.
Hint Resolve keeps_body : frame.

Lemma keeps_afterLoop (l : Label) : keeps (afterLoop l).
Proof. intros z. destruct l; cbn [afterLoop]; frame. Qed.
Hint Resolve keeps_afterLoop : frame.

Lemma keeps_run (fuel : nat) (l : Label) : keeps (run fuel l).
Proof. revert l. induction fuel as [|f IH]; intros l z; cbn [run]; frame. Qed.
Hint Resolve keeps_run : frame.

Lemma keeps_readToEOF (fuel : nat) : keeps (readToEOF fuel).
Proof. induction fuel as [|f IH]; intros z; cbn [readToEOF]; frame. Qed.
Hint Resolve keeps_readToEOF : frame.

Lemma keeps_Next_dispatch (fuel : nat) : keeps (Next_dispatch fuel).
Proof. intros z. unfold Next_dispatch. frame. Qed.
Hint Resolve keeps_Next_dispatch : frame.

Lemma keeps_Next_rawText (fuel : nat) : keeps (Next_rawText fuel).
Proof. intros z. unfold Next_rawText. frame. Qed.
Hint Resolve keeps_Next_rawText : frame.

(** [Next] behind its first assignment, [z.raw.Start = z.raw.End]. *)
Lemma Next_after_start (fuel : nat) (z : Tokenizer) (t : TokenType) (z' : Tokenizer) :
  Next unescape fuel z = Ok t z' -> Kept (set_rawStart (rawEnd z) z) z'.
Proof.
  unfold Next. rewrite !bind_modify, bind_gets. proj_simpl.
  set (z1 := set_prevTokenType _ _).
  assert (K1 : Kept (set_rawStart (rawEnd z) z) z1) by (subst z1; kept_fields).
  assert (He : dataStart z1 = dataEnd z1) by reflexivity.
  intros H. apply bind_Ok in H as ([] & z2 & Hpro & H).
  assert (K2 : Kept z1 z2 /\ dataStart z2 = dataEnd z2).
  { replace (fm z1) with (fm z) in Hpro by reflexivity.
    destruct (fm_eqb (fm z) FrontmatterOpen).
    - apply bind_Ok in Hpro as (t0 & z3 & Ht & Hpro).
      destruct (Token_Type_empty fuel z1 t0 z3 He Ht) as [K3 He3].
      destruct t0; first [ injection Hpro as <- | (unfold modify in Hpro; injection Hpro as <-) ];
        (split; [|exact He3 || (proj_simpl; exact He3)]);
        first [ exact K3 | (eapply Kept_trans; [exact K3 | kept_fields]) ].
    - injection Hpro as <-. split; [apply Kept_refl | exact He]. }
  destruct K2 as [K2 He2].
  eapply Kept_trans; [exact K1|]. eapply Kept_trans; [exact K2|].
  revert t z' H.
  change (keepsAt
    (tag <- gets rawTag ;;
     (match tag with
      | [] => Next_dispatch fuel
      | _ =>
          if bytes_eqb tag (B "plaintext") then
            readToEOF fuel ;;;
            modify (fun z => set_dataEnd (rawEnd z) z) ;;;
            modify (set_textIsRaw true) ;;;
            Next_rawText fuel
          else if bytes_eqb tag (B "title") || bytes_eqb tag (B "textarea") then
            run fuel L_raw_with_expression_loop
          else
            readRawOrRCDATA unescape fuel ;;;
            Next_rawText fuel
      end) ;;;
     gets tt) z2).
  apply keepsAt_bind_gets.
  destruct (rawTag z2) as [|c tag]; [frame|].
  destruct (bytes_eqb (c :: tag) (B "plaintext")); [frame|].
  destruct (_ || _); [frame|].
  apply keepsAt_assoc. apply keepsAt_bind.
  - apply readRawOrRCDATA_empty. exact He2.
  - intros. frame.
Qed.

End FrameToken.

Lemma ensures_ret {A} (a : A) (z : Tokenizer) (Q : A -> Tokenizer -> Prop) :
  Q a z -> ensures (ret a) z Q.
Proof. intros H ? ? E. injection E as <- <-. exact H. Qed.

Lemma ensures_panic {A} (p : PanicValue) (z : Tokenizer) (Q : A -> Tokenizer -> Prop) :
  ensures (panic p) z Q.
Proof. intros ? ? E. discriminate. Qed.

Lemma ensures_fuel {A} (z : Tokenizer) (Q : A -> Tokenizer -> Prop) :
  ensures out_of_fuel z Q.
Proof. intros ? ? E. discriminate. Qed.

Lemma ensures_bind {A C} (x : M A) (k : A -> M C) (z : Tokenizer)
      (Q : C -> Tokenizer -> Prop) :
  (forall a z1, x z = Ok a z1 -> ensures (k a) z1 Q) -> ensures (bind x k) z Q.
Proof.
  intros Hk c z' H. apply bind_Ok in H as (a & z1 & H1 & H2). exact (Hk _ _ H1 _ _ H2).
Qed.

Lemma ensures_bind_gets {A C} (f : Tokenizer -> A) (k : A -> M C) (z : Tokenizer)
      (Q : C -> Tokenizer -> Prop) :
  ensures (k (f z)) z Q -> ensures (bind (gets f) k) z Q.
Proof. intros H c z' E. rewrite bind_gets in E. exact (H _ _ E). Qed.

Lemma ensures_bind_modify {C} (f : Tokenizer -> Tokenizer) (k : unit -> M C)
      (z : Tokenizer) (Q : C -> Tokenizer -> Prop) :
  ensures (k ()) (f z) Q -> ensures (bind (modify f) k) z Q.
Proof. intros H c z' E. rewrite bind_modify in E. exact (H _ _ E). Qed.

Lemma ensures_bind_ret {A C} (a : A) (k : A -> M C) (z : Tokenizer)
      (Q : C -> Tokenizer -> Prop) :
  ensures (k a) z Q -> ensures (bind (ret a) k) z Q.
Proof. intros H c z' E. rewrite bind_ret in E. exact (H _ _ E). Qed.

Lemma ensures_bind_panic {A C} (p : PanicValue) (k : A -> M C) (z : Tokenizer)
      (Q : C -> Tokenizer -> Prop) :
  ensures (bind (panic p) k) z Q.
Proof. intros c z' E. discriminate. Qed.

Lemma ensures_assoc {A C D} (x : M A) (k : A -> M C) (k' : C -> M D) (z : Tokenizer)
      (Q : D -> Tokenizer -> Prop) :
  ensures (bind x (fun a => bind (k a) k')) z Q -> ensures (bind (bind x k) k') z Q.
Proof. intros H c z' E. rewrite bind_bind in E. exact (H _ _ E). Qed.

Lemma ensures_weaken {A} (x : M A) (z : Tokenizer) (Q Q' : A -> Tokenizer -> Prop) :
  (forall a z', Q a z' -> Q' a z') -> ensures x z Q -> ensures x z Q'.
Proof. intros HQ H a z' E. apply HQ. exact (H _ _ E). Qed.

Lemma passEnds_returns (c : Ctl) (z : Tokenizer) : passEnds c z -> passReturns c z.
Proof. destruct c; cbn; auto. Qed.

Lemma ensures_bind_same {A C} (x : M A) (k : A -> M C) (z : Tokenizer)
      (Q : C -> Tokenizer -> Prop) :
  (forall z a z', x z = Ok a z' -> z' = z) ->
  (forall a, ensures (k a) z Q) -> ensures (bind x k) z Q.
Proof.
  intros Hs Hk. apply ensures_bind. intros a z1 E. rewrite (Hs _ _ _ E). apply Hk.
Qed.

Lemma tagIsMarkdown_same (z : Tokenizer) (b : bool) (z' : Tokenizer) :
  tagIsMarkdown z = Ok b z' -> z' = z.
Proof.
  unfold tagIsMarkdown. rewrite bind_gets. intros H.
  apply bind_Ok in H as (name & z1 & H1 & H2). apply bufSlice_Ok in H1.
  injection H2 as _ <-. exact H1.
Qed.

Lemma ends_returnToken (t : TokenType) (z : Tokenizer) :
  (t = ErrorToken -> isErr z = true) ->
  ensures (returnToken t) z
          (fun c z' => match c with
                       | Return => tt z' = ErrorToken -> isErr z' = true
                       | Break => isErr z' = true
                       | _ => True
                       end).
Proof.
  intros H c z' E. unfold returnToken in E. rewrite bind_modify in E.
  injection E as <- <-. proj_simpl. exact H.
Qed.

Lemma ends_flushText (x : Z) (z : Tokenizer) :
  ensures (flushText x) z
          (fun c z' => match c with
                       | Return => tt z' = ErrorToken -> isErr z' = true
                       | Break => isErr z' = true
                       | _ => True
                       end).
Proof.
  intros c z' E. unfold flushText, returnToken in E. rewrite !bind_modify in E.
  injection E as <- <-. proj_simpl. discriminate.
Qed.

(** An error known to be stored, in a state built by setters. *)
Ltac pass_err :=
  proj_simpl;
  match goal with
  | H : isErr _ = true |- _ => proj_simpl_in H; exact H
  end.

(** The end of a pass, in a state built by setters. *)
Ltac pass_solve :=
  cbv beta; unfold passEnds, passReturns, errorExplained; proj_simpl;
  first [ exact I
        | assumption
        | (intros; discriminate)
        | (intros _; assumption)
        | match goal with
          | H : isErr _ = true |- _ => proj_simpl_in H; first [exact H | intros _; exact H]
          end ].

Ltac ensure_step :=
  cbv beta zeta; unfold id;
  lazymatch goal with
  | |- ensures (match (if ?b then _ else _) with _ => _ end) _ _ => destruct b eqn:?
  | |- ensures (match (match ?x with _ => _ end) with _ => _ end) _ _ => destruct x eqn:?
  | |- ensures (bind (gets _) _) _ _ => apply ensures_bind_gets
  | |- ensures (bind (ret _) _) _ _ => apply ensures_bind_ret
  | |- ensures (bind (modify _) _) _ _ => apply ensures_bind_modify
  | |- ensures (bind (panic _) _) _ _ => apply ensures_bind_panic
  | |- ensures (bind (bind _ _) _) _ _ => apply ensures_assoc
  | |- ensures (bind (if ?b then _ else _) _) _ _ => destruct b eqn:?
  | |- ensures (bind (match ?x with _ => _ end) _) _ _ => destruct x eqn:?
  | |- ensures (bind tagIsMarkdown _) _ _ =>
      apply ensures_bind_same; [exact tagIsMarkdown_same | intros ?]
  | |- ensures (bind _ _) _ _ => apply ensures_bind; intros ? ? ?
  | |- ensures (flushText _) _ passEnds => apply ends_flushText
  | |- ensures (flushText _) _ passReturns =>
      apply (ensures_weaken _ _ _ _ passEnds_returns); apply ends_flushText
  | |- ensures (returnToken _) _ passEnds =>
      apply ends_returnToken;
      first [ (intros; discriminate) | (intros _; pass_err) ]
  | |- ensures (returnToken _) _ passReturns =>
      apply (ensures_weaken _ _ _ _ passEnds_returns); apply ends_returnToken;
      first [ (intros; discriminate) | (intros _; pass_err) ]
  | |- ensures (if ?b then _ else _) _ _ => destruct b eqn:?
  | |- ensures (match ?x with _ => _ end) _ _ => destruct x eqn:?
  | |- ensures (ret _) _ _ => apply ensures_ret; pass_solve
  | |- ensures (panic _) _ _ => apply ensures_panic
  | |- ensures out_of_fuel _ _ => apply ensures_fuel
  end.

Ltac ensure := repeat ensure_step.

Section Explained.

Variable unescape : list byte -> list byte.

Lemma readMarkupDeclaration_type (fuel : nat) (z : Tokenizer) :
  ensures (readMarkupDeclaration fuel) z (fun t _ => t <> ErrorToken).
Proof.
  unfold readMarkupDeclaration.
  repeat first [ ensure_step | (apply ensures_ret; discriminate) ].
Qed.

Lemma readStartTag_type (fuel : nat) (z : Tokenizer) :
  ensures (readStartTag fuel) z (fun t _ => t <> ErrorToken).
Proof.
  unfold readStartTag.
  repeat first [ ensure_step | (apply ensures_ret; discriminate) ].
Qed.

Lemma ends_loop_startTag (fuel : nat) (z : Tokenizer) :
  ensures (loop_startTag fuel) z passEnds.
Proof.
  unfold loop_startTag. apply ensures_bind. intros _ z1 _.
  apply ensures_bind. intros t z2 Ht. apply readStartTag_type in Ht.
  ensure. destruct a; [|destruct (md_eqb _ _)];
    apply ensures_ret; unfold passEnds, errorExplained; proj_simpl; exact (fun E => False_ind _ (Ht E)).
Qed.

Lemma ends_loop_endTag (fuel : nat) (z : Tokenizer) :
  ensures (loop_endTag fuel) z passEnds.
Proof. unfold loop_endTag. ensure. Qed.

Lemma ends_loop_comment (fuel : nat) (c : byte) (z : Tokenizer) :
  ensures (loop_comment fuel c) z passEnds.
Proof.
  unfold loop_comment. destruct (beq c "!").
  - apply ensures_bind. intros t z1 Ht. apply readMarkupDeclaration_type in Ht.
    apply ends_returnToken. intros E. congruence.
  - ensure.
Qed.

Lemma ends_loop_body (fuel : nat) (z : Tokenizer) : ensures (loop_body fuel) z passEnds.
Proof.
  unfold loop_body.
  repeat first [ apply ends_loop_startTag | apply ends_loop_endTag
               | apply ends_loop_comment | ensure_step ].
Qed.

Lemma ends_frontmatter_body (fuel : nat) (z : Tokenizer) :
  ensures (frontmatter_body fuel) z passReturns.
Proof. unfold frontmatter_body. ensure. Qed.

Lemma ends_raw_with_expression_body (fuel : nat) (z : Tokenizer) :
  ensures (raw_with_expression_body fuel) z passReturns.
Proof. unfold raw_with_expression_body. ensure. Qed.

Lemma ends_expression_body (fuel : nat) (z : Tokenizer) :
  ensures (expression_body fuel) z passEnds.
Proof. unfold expression_body. ensure. Qed.

Lemma ends_body (fuel : nat) (l : Label) (z : Tokenizer) :
  ensures (body fuel l) z
          (match l with
           | L_loop | L_expression_loop => passEnds
           | _ => passReturns
           end).
Proof.
  destruct l; cbn [body];
    [ apply ends_loop_body | apply ends_frontmatter_body
    | apply ends_raw_with_expression_body | apply ends_expression_body ].
Qed.

Lemma run_explained (fuel : nat) :
  forall (l : Label) (z z' : Tokenizer), run fuel l z = Ok () z' -> errorExplained z'.
Proof.
  induction fuel as [|f IH]; intros l z z' H; [discriminate|].
  cbn [run] in H. apply bind_Ok in H as (c & z1 & Hb & H).
  pose proof (ends_body _ _ _ _ _ Hb) as Hc.
  destruct c.
  - exact (IH _ _ _ H).
  - apply bind_Ok in H as (n & z2 & Ha & H).
    destruct l; cbn [afterLoop] in Ha.
    + cbn [passEnds] in Hc. unfold id in Ha. rewrite bind_gets in Ha.
      destruct (rawStart z1 <? rawEnd z1); rewrite ?bind_modify in Ha;
        injection Ha as <- <-; injection H as <-;
        unfold errorExplained; proj_simpl; [discriminate | intros _; exact Hc].
    + rewrite bind_modify in Ha. injection Ha as <- <-. exact (IH _ _ _ H).
    + rewrite !bind_modify in Ha. injection Ha as <- <-. exact (IH _ _ _ H).
    + cbn [passEnds] in Hc. unfold id in Ha. rewrite bind_gets in Ha.
      destruct (rawStart z1 <? rawEnd z1); rewrite ?bind_modify in Ha;
        injection Ha as <- <-; injection H as <-;
        unfold errorExplained; proj_simpl; [discriminate | intros _; exact Hc].
  - exact (IH _ _ _ H).
  - injection H as <-. destruct l; exact Hc.
Qed.

Lemma Next_dispatch_explained (fuel : nat) (z z' : Tokenizer) :
  Next_dispatch fuel z = Ok () z' -> errorExplained z'.
Proof.
  unfold Next_dispatch. rewrite !bind_modify, bind_gets. unfold id.
  destruct (negb _); [|destruct (isAtExpressionBoundary _)]; apply run_explained.
Qed.

Lemma Next_rawText_explained (fuel : nat) (z z' : Tokenizer) :
  Next_rawText fuel z = Ok () z' -> errorExplained z'.
Proof.
  unfold Next_rawText. rewrite bind_gets. unfold id.
  destruct (dataEnd z >? dataStart z).
  - rewrite bind_modify. intros H. injection H as <-.
    unfold errorExplained. proj_simpl. discriminate.
  - apply Next_dispatch_explained.
Qed.

Lemma Next_explained (fuel : nat) (z : Tokenizer) (t : TokenType) (z' : Tokenizer) :
  Next unescape fuel z = Ok t z' -> t = tt z' /\ errorExplained z'.
Proof.
  unfold Next. rewrite !bind_modify, bind_gets. intros H.
  apply bind_Ok in H as ([] & z1 & _ & H). rewrite bind_gets in H.
  apply bind_Ok in H as ([] & z2 & Hmid & H). injection H as <- <-.
  split; [reflexivity|].
  destruct (rawTag z1) as [|c tag].
  - exact (Next_dispatch_explained _ _ _ Hmid).
  - destruct (bytes_eqb (c :: tag) (B "plaintext")).
    + apply bind_Ok in Hmid as ([] & z3 & _ & Hmid). rewrite !bind_modify in Hmid.
      exact (Next_rawText_explained _ _ _ Hmid).
    + destruct (_ || _).
      * exact (run_explained _ _ _ _ Hmid).
      * apply bind_Ok in Hmid as ([] & z3 & _ & Hmid).
        exact (Next_rawText_explained _ _ _ Hmid).
Qed.

End Explained.

Section EveryNext.

Variable unescape : list byte -> list byte.

(** X1: The raw span of every token begins where the raw span of the token
    before it ended, whatever the input: the spans of a token stream
    follow each other without gap or overlap. *)
Theorem raw_spans_adjoin (fuel n : nat) (z : Tokenizer) :
  adjoining (rawEnd z) (allSpans (tokens unescape fuel n z)).
Proof.
  revert z. induction n as [|n IH]; intros z; [exact I|].
  cbn [tokens].
  destruct (Next unescape fuel z) as [t z' | p |] eqn:HN; try exact I.
  pose proof (kept_start _ _ (Next_after_start unescape fuel z t z' HN)) as Hs.
  proj_simpl_in Hs.
  specialize (IH z'). unfold allSpans in *.
  destruct (tokens unescape fuel n z') as [l s] eqn:Ht. cbn [fst snd] in IH.
  destruct t; cbn [fst snd map app span tokOf adjoining];
    first [ split; [exact Hs | exact IH] | split; [exact Hs | exact I] ].
Qed.

(** X3: [Next] never clears the error: once the end of the input was met,
    [z.err] stays [io.EOF]. *)
Theorem Next_keeps_error (fuel : nat) (z : Tokenizer) (t : TokenType) (z' : Tokenizer)
        (e : error) :
  Next unescape fuel z = Ok t z' -> err z = Some e -> err z' = Some e.
Proof.
  intros HN He.
  apply (kept_err _ _ (Next_after_start unescape fuel z t z' HN)). exact He.
Qed.

(** X6: The frontmatter state only moves forward, from initial to open to
    closed: closed frontmatter stays closed and frontmatter that was
    opened is never initial again. *)
Theorem Next_frontmatter_forward (fuel : nat) (z : Tokenizer) (t : TokenType)
        (z' : Tokenizer) :
  Next unescape fuel z = Ok t z' ->
  (fm z = FrontmatterClosed -> fm z' = FrontmatterClosed) /\
  (fm z' = FrontmatterInitial -> fm z = FrontmatterInitial).
Proof.
  intros HN.
  pose proof (kept_fm _ _ (Next_after_start unescape fuel z t z' HN)) as Hf.
  proj_simpl_in Hf.
  destruct (fm z), (fm z'); try discriminate; split; congruence.
Qed.

(** X2: [Next] never writes to the buffer: the bytes of the input, and the
    bytes of the slices returned by [Raw] for earlier tokens, stay as
    they are.  (The [Token] call inside [Next] always finds an empty data
    span.) *)
Theorem Next_keeps_buffer (fuel : nat) (z : Tokenizer) (t : TokenType) (z' : Tokenizer) :
  Next unescape fuel z = Ok t z' -> buf z' = buf z /\ slack z' = slack z.
Proof.
  intros HN. pose proof (Next_after_start unescape fuel z t z' HN) as K.
  split; [apply (kept_buf _ _ K) | apply (kept_slack _ _ K)].
Qed.

(** X4: [Err] tells the token types apart: it is [io.EOF] after an
    ErrorToken and nil after every other token. *)
Theorem Err_after_Next (fuel : nat) (z : Tokenizer) (t : TokenType) (z' : Tokenizer) :
  Next unescape fuel z = Ok t z' ->
  Err z' = match t with
           | ErrorToken => Some EOF
           | _ => None
           end.
Proof.
  intros HN. destruct (Next_explained unescape fuel z t z' HN) as [-> He].
  unfold Err. unfold errorExplained, isErr in He.
  destruct (tt z'); try reflexivity.
  specialize (He eq_refl). destruct (err z') as [[]|]; [reflexivity | discriminate].
Qed.

(** X5: Once the read position has reached the end of the buffer, outside
    raw text and not directly behind a tag in open frontmatter, [Next]
    returns ErrorToken, and so does every later call. *)
Theorem end_of_input_is_final (fuel n : nat) (z : Tokenizer) :
  rawEnd z = len z -> rawTag z = [] ->
  (fm z = FrontmatterOpen -> noTag (tt z)) ->
  exists z', NextN unescape (3 + fuel) n z = Ok (repeat ErrorToken n) z'.
Proof.
  intros Hend Htag Htt.
  assert (Hfin : Finished z (fm z)) by (constructor; auto).
  clear Hend Htag. revert z Hfin Htt.
  induction n as [|n IH]; intros z Hfin Htt; [exists z; reflexivity|].
  destruct (Next_finished_any unescape fuel z (fm z) Hfin Htt)
    as (z1 & HN & Ht1 & Hfin1 & _).
  rewrite <- (fin_fm _ _ Hfin1) in Hfin1.
  destruct (IH z1 Hfin1) as (z' & HNN).
  { intros _. rewrite Ht1. unfold noTag. repeat split; discriminate. }
  exists z'. cbn [NextN repeat]. rewrite HN, HNN. reflexivity.
Qed.

End EveryNext.

Lemma Next_keeps_error_witness :
  Next noUnescape 20 (stateAfter 2 (B "ab")) = Ok ErrorToken (stateAfter 3 (B "ab")) /\
  err (stateAfter 2 (B "ab")) = Some EOF /\
  err (stateAfter 3 (B "ab")) = Some EOF.
Proof.
  split; [vm_compute; reflexivity|]. split; [vm_compute; reflexivity|].
  apply (Next_keeps_error noUnescape 20 (stateAfter 2 (B "ab")) ErrorToken);
    vm_compute; reflexivity.
Defined.

Lemma Next_keeps_buffer_witness :
  Next noUnescape 20 (stateAfter 1 inputFenced)
  = Ok TextToken (stateAfter 2 inputFenced) /\
  buf (stateAfter 2 inputFenced) = buf (stateAfter 1 inputFenced) /\
  slack (stateAfter 2 inputFenced) = slack (stateAfter 1 inputFenced).
Proof.
  split; [vm_compute; reflexivity|].
  apply (Next_keeps_buffer noUnescape 20 (stateAfter 1 inputFenced) TextToken).
  vm_compute. reflexivity.
Defined.

Lemma Next_frontmatter_forward_witness :
  Next noUnescape 20 (stateAfter 3 inputFenced)
  = Ok TextToken (stateAfter 4 inputFenced) /\
  fm (stateAfter 3 inputFenced) = FrontmatterClosed /\
  (fm (stateAfter 3 inputFenced) = FrontmatterClosed ->
   fm (stateAfter 4 inputFenced) = FrontmatterClosed) /\
  (fm (stateAfter 4 inputFenced) = FrontmatterInitial ->
   fm (stateAfter 3 inputFenced) = FrontmatterInitial).
Proof.
  split; [vm_compute; reflexivity|]. split; [reflexivity|].
  apply (Next_frontmatter_forward noUnescape 20 (stateAfter 3 inputFenced)
           TextToken).
  vm_compute. reflexivity.
Defined.

Lemma Err_after_Next_witness :
  Next noUnescape 20 (stateAfter 1 (B "ab")) = Ok ErrorToken (stateAfter 2 (B "ab")) /\
  Err (stateAfter 2 (B "ab")) = Some EOF.
Proof.
  split; [vm_compute; reflexivity|].
  apply (Err_after_Next noUnescape 20 (stateAfter 1 (B "ab")) ErrorToken).
  vm_compute. reflexivity.
Defined.

Lemma end_of_input_is_final_witness :
  rawEnd (stateAfter 1 (B "ab")) = len (stateAfter 1 (B "ab")) /\
  exists z', NextN noUnescape (3 + 0) 4 (stateAfter 1 (B "ab"))
             = Ok (repeat ErrorToken 4) z'.
Proof.
  split; [reflexivity|].
  apply (end_of_input_is_final noUnescape 0 4 (stateAfter 1 (B "ab")));
    [reflexivity | reflexivity | discriminate].
Defined.

Section Partition.

Variable unescape : list byte -> list byte.

(** [Raw] cuts the raw span out of the buffer. *)
Lemma raw_of_buf (z : Tokenizer) (a b c : list byte) (t : TokenType) :
  buf z = a ++ b ++ c -> rawStart z = Z.of_nat (length a) ->
  rawEnd z = Z.of_nat (length a) + Z.of_nat (length b) ->
  rawBytes (tokOf t z) = Some b.
Proof.
  intros Hb Hs He. unfold tokOf, Raw, bufSlice. cbn [rawBytes].
  rewrite Hs, He. unfold leCap, len, backing. rewrite Hb.
  destruct (Z.leb_spec 0 (Z.of_nat (length a))); [|lia].
  destruct (Z.leb_spec (Z.of_nat (length a))
                       (Z.of_nat (length a) + Z.of_nat (length b))); [|lia].
  destruct (Z.leb_spec (Z.of_nat (length a) + Z.of_nat (length b))
                       (Z.of_nat (length (a ++ b ++ c)))) as [_|Hlt].
  2:{ rewrite !length_app in Hlt. lia. }
  cbn [andb orb]. unfold sub.
  replace (Z.to_nat (Z.of_nat (length a) + Z.of_nat (length b)
                     - Z.of_nat (length a))) with (length b) by lia.
  rewrite Nat2Z.id, <- !app_assoc, drop_app_length, take_app_length. reflexivity.
Qed.

(** The raw bytes of the current token are the bytes read for it. *)
Lemma Scan_raw (z : Tokenizer) (done cur rem : list byte) (f : FrontmatterState)
      (d : Z) (st : list Z) (ob : bool) (t : TokenType) :
  Scan z done cur rem f d st ob -> rawBytes (tokOf t z) = Some cur.
Proof.
  intros H. apply (raw_of_buf z done cur rem).
  - apply (sc_buf _ _ _ _ _ _ _ _ H).
  - apply (sc_start _ _ _ _ _ _ _ _ H).
  - apply (sc_end _ _ _ _ _ _ _ _ H).
Qed.

(** From one token to the next: the new token begins where the last one
    ended, and its bytes are the next bytes of the input. *)
Lemma Scan_next (F : nat) (z z' : Tokenizer) (t : TokenType)
      (done cur rem done' cur' rem' : list byte)
      (f f' : FrontmatterState) (d d' : Z) (st st' : list Z) (ob ob' : bool) :
  Scan z done cur rem f d st ob -> Next unescape F z = Ok t z' ->
  Scan z' done' cur' rem' f' d' st' ob' ->
  done' = done ++ cur /\ rem = cur' ++ rem'.
Proof.
  intros H HN H'.
  pose proof (Next_after_start unescape F z t z' HN) as K.
  pose proof (kept_start _ _ K) as Hs. pose proof (kept_buf _ _ K) as Hb.
  proj_simpl_in Hs. proj_simpl_in Hb.
  rewrite (sc_start _ _ _ _ _ _ _ _ H'), (sc_end _ _ _ _ _ _ _ _ H) in Hs.
  rewrite (sc_buf _ _ _ _ _ _ _ _ H'), (sc_buf _ _ _ _ _ _ _ _ H) in Hb.
  rewrite (app_assoc done cur rem) in Hb.
  apply app_inj_1 in Hb as [Hd Hr]; [|rewrite length_app; lia].
  split; [exact Hd | symmetry; exact Hr].
Qed.

(** The token that reaches the end of the input holds all that was left
    of it. *)
Lemma Scan_last (F : nat) (z z' : Tokenizer) (t : TokenType)
      (done cur rem : list byte)
      (f : FrontmatterState) (d : Z) (st : list Z) (ob : bool) :
  Scan z done cur rem f d st ob -> Next unescape F z = Ok t z' ->
  rawEnd z' = len z' ->
  rawBytes (tokOf t z') = Some rem.
Proof.
  intros H HN Hend.
  pose proof (Next_after_start unescape F z t z' HN) as K.
  pose proof (kept_start _ _ K) as Hs. pose proof (kept_buf _ _ K) as Hb.
  proj_simpl_in Hs. proj_simpl_in Hb.
  rewrite (sc_end _ _ _ _ _ _ _ _ H) in Hs.
  rewrite (sc_buf _ _ _ _ _ _ _ _ H), app_assoc in Hb.
  apply (raw_of_buf z' (done ++ cur) rem []).
  - rewrite app_nil_r. exact Hb.
  - rewrite length_app. lia.
  - rewrite Hend. unfold len. rewrite Hb, !length_app. lia.
Qed.

(** On an input without slashes, quotes, [<] and runs of three dashes
    the raw bytes of the tokens, put together, are the input. *)
Lemma tokens_initial_raw (F : nat) :
  forall (k : nat) (rem : list byte), (length rem <= k)%nat ->
  forall (z : Tokenizer) (st : list Z) (ob : bool) (n : nat),
    Boundary z rem FrontmatterInitial st ob ->
    forallb (okByte FrontmatterInitial) rem = true ->
    noThreeDashes 0 rem = true ->
    (length rem + 3 <= F)%nat -> (length rem < n)%nat ->
    stoppedAtError (snd (tokens unescape F n z)) /\
    concatRaw (fst (tokens unescape F n z)) = Some rem.
Proof.
  induction k as [|k IH]; intros rem Hk z st ob n HB Hok Hdash HF Hn.
  - destruct rem; [|cbn in Hk; lia].
    destruct n as [|n]; [cbn in Hn; lia|].
    destruct (Next_initial unescape F z [] st ob HB Hok Hdash HF) as (z' & HN & Hs).
    rewrite (tokens_error _ _ _ _ _ HN). split; [exact I | reflexivity].
  - destruct rem as [|c r].
    { apply (IH [] ltac:(cbn; lia) z st ob n); auto. }
    destruct n as [|n]; [lia|].
    destruct (Next_initial unescape F z (c :: r) st ob HB Hok Hdash HF) as (z' & HN & HB').
    rewrite (tokens_cons _ _ _ _ _ _ HN (exprStep_not_error c st ob)).
    cbn [fst snd concatRaw].
    cbn [length] in Hk, HF, Hn. pose proof (restAfter_length c r st) as Hlen.
    assert (Hok' : forallb (okByte FrontmatterInitial) (restAfter c r st) = true).
    { cbn [forallb] in Hok. apply andb_prop in Hok as [_ Hok]. unfold restAfter.
      repeat match goal with
             | |- context [if ?b then _ else _] => destruct b
             | |- context [match ?x with _ => _ end] => destruct x
             end; auto using forallb_skipPlain. }
    assert (Hdash' : noThreeDashes 0 (restAfter c r st) = true).
    { cbn [noThreeDashes] in Hdash. unfold restAfter.
      destruct (beq c "{") eqn:Eo.
      { apply beq_eq in Eo. subst c. exact Hdash. }
      destruct (beq c "}") eqn:Ec.
      { apply beq_eq in Ec. subst c. change (beq "}" "-") with false in Hdash.
        destruct (topOf st) as [[|p|p]|];
          first [exact Hdash | apply (noThreeDashes_skipPlain _ _ Hdash)]. }
      destruct (beq c "-").
      - apply andb_prop in Hdash as [_ Hdash]. apply (noThreeDashes_skipPlain _ _ Hdash).
      - apply (noThreeDashes_skipPlain _ _ Hdash). }
    destruct (IH (restAfter c r st) ltac:(lia) z' _ _ n HB' Hok' Hdash' ltac:(lia) ltac:(lia))
      as (Hstop & Hcat).
    split; [exact Hstop|]. rewrite Hcat.
    destruct HB as [(done & cur & H) | (Hnil & _)]; [|discriminate].
    destruct HB' as [(done' & cur' & H') | (Hnil & Hfin & _)].
    + rewrite (Scan_raw _ _ _ _ _ _ _ _ _ H').
      destruct (Scan_next F z z' _ _ _ _ _ _ _ _ _ _ _ _ _ _ _ H HN H') as [_ ->].
      reflexivity.
    + rewrite (Scan_last F z z' _ _ _ _ _ _ _ _ H HN (fin_end _ _ Hfin)).
      rewrite Hnil, app_nil_r. reflexivity.
Qed.

(** The same for the tokens of the frontmatter from a token boundary on,
    up to the end of the closing fence. *)
Lemma tokens_open_raw (F : nat) :
  forall (k : nat) (rem : list byte), (length rem <= k)%nat ->
  forall (z : Tokenizer) (done cur : list byte) (ob : bool) (n : nat),
    Scan z done cur (rem ++ closingFence) FrontmatterOpen 0 [] ob ->
    tt z = TextToken \/ tt z = FrontmatterFenceToken ->
    wholeLines rem ->
    forallb plainByte rem = true -> noBlockComment rem = true ->
    calmDashes 0 rem = true ->
    (length rem + 7 <= F)%nat -> (length rem + 3 <= n)%nat ->
    stoppedAtError (snd (tokens unescape F n z)) /\
    concatRaw (fst (tokens unescape F n z)) = Some (rem ++ closingFence).
Proof.
  induction k as [|k IH];
    intros rem Hk z done cur ob n H Htt Hlines Hplain Hblock Hcalm HF Hn.
  { destruct rem; [|cbn in Hk; lia]. clear Hk. cbn [app length] in *.
    assert (HF' : exists G, F = (3 + S (3 + G))%nat) by (exists (F - 7)%nat; lia).
    destruct HF' as [G ->].
    destruct (Next_fence_itself unescape (S (3 + G)) z done cur ob H Htt) as (z1 & HN1 & H1).
    destruct (Next_closed_text unescape (3 + G) z1 _ _ _ _ H1) as (z2 & HN2 & Hfin).
    change (4 + (3 + G))%nat with (3 + S (3 + G))%nat in HN2.
    destruct (Next_finished unescape (S (3 + G)) z2 FrontmatterClosed Hfin
                ltac:(discriminate)) as (z3 & HN3 & _ & _).
    destruct n as [|[|[|n]]]; try lia.
    rewrite (tokens_cons _ _ _ _ _ _ HN1 ltac:(discriminate)).
    rewrite (tokens_cons _ _ _ _ _ _ HN2 ltac:(discriminate)).
    rewrite (tokens_error _ _ _ _ _ HN3). cbn [fst snd concatRaw].
    split; [exact I|].
    rewrite (Scan_raw _ _ _ _ _ _ _ _ _ H1).
    rewrite (Scan_last _ _ _ _ _ _ _ _ _ _ _ H1 HN2 (fin_end _ _ Hfin)).
    reflexivity. }
  destruct rem as [|c r] eqn:Erem.
  { apply (IH [] ltac:(cbn; lia) z done cur ob n); assumption. }
  rewrite <- Erem in *.
  destruct Hlines as [Hlines | [l Hl]]; [congruence|].
  destruct (Next_open unescape F z done cur rem l ob H Htt Hl Hplain Hblock Hcalm ltac:(lia))
    as (z' & HN & Htt' & Hcase).
  destruct n as [|n]; [lia|].
  rewrite (tokens_cons _ _ _ _ _ _ HN ltac:(discriminate)).
  cbn [fst snd concatRaw].
  destruct Hcase as [(done' & cur' & pre & rem' & ob' & H' & Hsplit & Hpre)
                    | (done' & cur' & H')].
  - assert (Hlen : (length rem' < length rem)%nat).
    { rewrite Hsplit, length_app. destruct pre; [congruence | cbn [length]; lia]. }
    destruct (IH rem' ltac:(lia) z' done' cur' ob' n H' ltac:(auto)) as [Hstop Hcat].
    7: { split; [exact Hstop|]. rewrite Hcat.
         rewrite (Scan_raw _ _ _ _ _ _ _ _ _ H').
         destruct (Scan_next F z z' _ _ _ _ _ _ _ _ _ _ _ _ _ _ _ H HN H') as [_ ->].
         reflexivity. }
    + apply (wholeLines_suffix pre). rewrite <- Hsplit. right. eauto.
    + rewrite Hsplit, forallb_app in Hplain. apply andb_prop in Hplain as [_ Hp]. exact Hp.
    + rewrite Hsplit in Hblock. apply (noBlockComment_suffix _ _ Hblock).
    + rewrite Hsplit in Hcalm. apply (calmDashes_suffix _ _ 0 ltac:(lia) Hcalm).
    + lia.
    + lia.
  - assert (HF' : exists G, F = S (S (S G))) by (exists (F - 3)%nat; lia).
    destruct HF' as [G ->].
    destruct (Next_close unescape (S (S G)) z' done' cur' [] false H' ltac:(auto))
      as (z2 & HN2 & Hfin).
    destruct (Next_finished unescape G z2 FrontmatterClosed Hfin ltac:(discriminate))
      as (z3 & HN3 & _ & _).
    destruct n as [|[|n]]; [lia | lia |].
    rewrite (tokens_cons _ _ _ _ _ _ HN2 ltac:(discriminate)).
    rewrite (tokens_error _ _ _ _ _ HN3). cbn [fst snd concatRaw].
    split; [exact I|].
    rewrite (Scan_raw _ _ _ _ _ _ _ _ _ H').
    rewrite (Scan_last _ _ _ _ _ _ _ _ _ _ _ H' HN2 (fin_end _ _ Hfin)).
    destruct (Scan_next (S (S (S G))) z z' _ _ _ _ _ _ _ _ _ _ _ _ _ _ _ H HN H') as [_ ->].
    rewrite app_nil_r. reflexivity.
Qed.

(** X7: The tokens of a text without slashes, quotes, [<] and runs of three
    dashes partition it: the stream ends with an ErrorToken, and the raw
    bytes of the tokens before it, put together in order, are exactly
    the input.  Braces, balanced or not, make no difference. *)
Theorem text_with_braces_is_partitioned (slack input : list byte) (fuel n : nat) :
  forallb (okByte FrontmatterInitial) input = true ->
  noThreeDashes 0 input = true ->
  let r := tokens unescape (length input + 3 + fuel) (length input + 1 + n)
                  (NewTokenizer input slack) in
  stoppedAtError (snd r) /\ concatRaw (fst r) = Some input.
Proof.
  intros Hok Hdash r. subst r.
  apply (tokens_initial_raw _ (length input) input (le_n _) _ [] true);
    [apply NewTokenizer_boundary | exact Hok | exact Hdash | lia | lia].
Qed.

(** X8: The tokens of a document that is nothing but frontmatter partition
    it as well.  Let the content be whole lines without backquote,
    backslash, block comment and run of three dashes, and without a dash
    directly before a slash or a quote.  Then the stream ends with an
    ErrorToken, and the raw bytes of the tokens before it, put together
    in order, are exactly the input, strings and comments included. *)
Theorem frontmatter_is_partitioned (slack content : list byte) (fuel n : nat) :
  wholeLines content ->
  forallb plainByte content = true ->
  noBlockComment content = true ->
  noThreeDashes 0 content = true ->
  noDashBeforeDelim content = true ->
  let r := tokens unescape (length content + 8 + fuel) (length content + 5 + n)
                  (NewTokenizer (frontmatterOnly content) slack) in
  stoppedAtError (snd r) /\ concatRaw (fst r) = Some (frontmatterOnly content).
Proof.
  intros Hlines Hplain Hblock Hdash Hdelim r. subst r.
  set (z0 := NewTokenizer (frontmatterOnly content) slack).
  assert (H0 : Scan z0 [] [] (B "---" ++ (LF :: content) ++ closingFence)
                    FrontmatterInitial 0 [] true).
  { constructor; reflexivity. }
  destruct (Next_first_fence unescape (length content + 5 + fuel) _ _ H0)
    as (z1 & HN1 & Htt1 & H1).
  replace (3 + (length content + 5 + fuel))%nat with (length content + 8 + fuel)%nat
    in HN1 by lia.
  replace (length content + 5 + n)%nat with (S (length content + 4 + n)) by lia.
  rewrite (tokens_cons _ _ _ _ _ _ HN1 ltac:(discriminate)). cbn [fst snd concatRaw].
  rewrite (Scan_raw _ _ _ _ _ _ _ _ _ H1).
  destruct (tokens_open_raw (length content + 8 + fuel) (length (LF :: content))
             (LF :: content) (le_n _) z1 [] (B "---") false (length content + 4 + n) H1)
    as [Hstop Hcat].
  8: { split; [exact Hstop|]. rewrite Hcat. reflexivity. }
  - auto.
  - right. destruct Hlines as [-> | [l ->]]; [exists []; reflexivity|].
    exists (LF :: l). reflexivity.
  - cbn [forallb]. rewrite Hplain. reflexivity.
  - cbn [noBlockComment]. rewrite Hblock. reflexivity.
  - apply (calmDashes_intro content 0 Hdash Hdelim). congruence.
  - cbn [length]. lia.
  - cbn [length]. lia.
Qed.

End Partition.

Lemma text_with_braces_is_partitioned_witness :
  let r := tokens noUnescape (length inputBraces + 3 + 0) (length inputBraces + 1 + 0)
                  (NewTokenizer inputBraces []) in
  stoppedAtError (snd r) /\ concatRaw (fst r) = Some inputBraces.
Proof.
  apply (text_with_braces_is_partitioned noUnescape [] inputBraces 0 0); reflexivity.
Defined.

Lemma frontmatter_is_partitioned_witness :
  let r := tokens noUnescape (length contentTypical + 8 + 0) (length contentTypical + 5 + 0)
                  (NewTokenizer (frontmatterOnly contentTypical) []) in
  stoppedAtError (snd r) /\ concatRaw (fst r) = Some (frontmatterOnly contentTypical).
Proof.
  apply (frontmatter_is_partitioned noUnescape [] contentTypical 0 0).
  - right. exists typicalLines. reflexivity.
  - reflexivity.
  - reflexivity.
  - reflexivity.
  - reflexivity.
Defined.

Lemma set_rawEnd_same (z : Tokenizer) : set_rawEnd (rawEnd z) z = z.
Proof. destruct z as [? ? ? ? ? [? ?]]. reflexivity. Qed.

Lemma set_rawEnd_twice (a b : Z) (z : Tokenizer) :
  set_rawEnd a (set_rawEnd b z) = set_rawEnd a z.
Proof. reflexivity. Qed.

(** [for z.err == nil { z.readByte() }] reads up to the end of the input
    and then sets the error. *)
Lemma readToEOF_all (extra : nat) :
  forall (k : nat) (z : Tokenizer),
    err z = None -> 0 <= rawEnd z -> rawEnd z + Z.of_nat k = len z ->
    readToEOF (k + 2 + extra) z = Ok () (set_err (Some EOF) (set_rawEnd (len z) z)).
Proof.
  induction k as [|k IH]; intros z He H0 Hk.
  - cbn [Nat.add readToEOF]. rewrite bind_gets. unfold isErr at 1. rewrite He.
    rewrite (bind_run _ _ _ _ _ (readByte_eof z ltac:(lia))).
    rewrite bind_gets. unfold isErr. proj_simpl.
    replace (len z) with (rawEnd z) by lia. rewrite set_rawEnd_same. reflexivity.
  - change (S k + 2 + extra)%nat with (S (k + 2 + extra)). cbn [readToEOF].
    rewrite bind_gets. unfold isErr at 1. rewrite He.
    destruct (at_ (buf z) (rawEnd z)) as [c|] eqn:Ec.
    2:{ unfold at_ in Ec. unfold len in Hk.
        destruct (Z.leb_spec 0 (rawEnd z)); [|lia].
        destruct (Z.ltb_spec (rawEnd z) (Z.of_nat (length (buf z)))); [|lia].
        cbn [andb] in Ec. apply lookup_ge_None_1 in Ec. lia. }
    rewrite (bind_run _ _ _ _ _ (readByte_some z c Ec)).
    rewrite IH.
    + reflexivity.
    + exact He.
    + proj_simpl. lia.
    + proj_simpl. unfold len in *. proj_simpl. lia.
Qed.

Section Plaintext.

Variable unescape : list byte -> list byte.

(** Entered at the end of the input, [frontmatter_loop] falls through
    the loops behind it to the end of [Next], whatever the raw tag is. *)
Lemma run_at_end_frontmatter (fuel : nat) (z : Tokenizer) :
  len z <= rawEnd z -> fm z <> FrontmatterClosed ->
  exists z', run (3 + fuel) L_frontmatter_loop z = Ok () z' /\
             tt z' = (if rawStart z <? rawEnd z then TextToken else ErrorToken) /\
             rawTag z' = [] /\ buf z' = buf z /\
             rawStart z' = rawStart z /\ rawEnd z' = rawEnd z.
Proof.
  intros Hend Hfm. change (3 + fuel)%nat with (S (S (S fuel))).
  pose (z1 := set_dataEnd (rawEnd z) (set_err (Some EOF) z)).
  assert (Ha : afterLoop L_frontmatter_loop (set_err (Some EOF) z)
               = Ok (Some L_raw_with_expression_loop) z1) by reflexivity.
  pose (z2 := set_rawTag []
                (set_textIsRaw
                   (negb (bytes_eqb (rawTag z1) (B "textarea")) &&
                    negb (bytes_eqb (rawTag z1) (B "title")))
                   (set_dataEnd (rawEnd z1) (set_err (Some EOF) z1)))).
  assert (Hb : afterLoop L_raw_with_expression_loop (set_err (Some EOF) z1)
               = Ok (Some L_expression_loop) z2) by reflexivity.
  destruct (run_at_end_expression fuel z2) as (z' & Hrun & Htt & Hs);
    [exact Hend | reflexivity |].
  exists z'. split; [|split; [exact Htt|]].
  - rewrite (run_break _ _ _ _ _ _
               (body_at_end _ L_frontmatter_loop z Hend (fun _ => Hfm)) Ha).
    rewrite (run_break _ _ _ _ _ _
               (body_at_end _ L_raw_with_expression_loop z1 Hend ltac:(discriminate)) Hb).
    exact Hrun.
  - destruct Hs. repeat split; assumption.
Qed.

Lemma plaintext_arm {A} (a p q : A) :
  match B "plaintext" with
  | [] => a
  | _ :: _ => if bytes_eqb (B "plaintext") (B "plaintext") then p else q
  end = p.
Proof. reflexivity. Qed.

(** The first call of [Next] with bytes left: all of them are the text. *)
Lemma Next_plaintext_first (extra k : nat) (z : Tokenizer) :
  rawTag z = B "plaintext" -> fm z <> FrontmatterOpen -> err z = None ->
  0 <= rawEnd z -> rawEnd z + Z.of_nat (S k) = len z ->
  exists z',
    Next unescape (S k + 2 + extra) z = Ok TextToken z' /\
    rawTag z' = B "plaintext" /\ fm z' = fm z /\ err z' = Some EOF /\
    buf z' = buf z /\ rawStart z' = rawEnd z /\ rawEnd z' = len z.
Proof.
  intros Htag Hfm He H0 Hk. unfold Next. exec.
  replace (fm_eqb (fm z) FrontmatterOpen) with false
    by (destruct (fm z); first [reflexivity | congruence]).
  exec. rewrite Htag, plaintext_arm. rewrite bind_bind.
  match goal with
  | |- context [bind (readToEOF _) _ ?zz] =>
      assert (Hr : readToEOF (S k + 2 + extra) zz
                   = Ok () (set_err (Some EOF) (set_rawEnd (len zz) zz)))
  end.
  { apply readToEOF_all; proj_simpl; unfold len in *; proj_simpl; auto. }
  rewrite (bind_run _ _ _ _ _ Hr). clear Hr.
  exec. unfold Next_rawText. exec. unfold id. proj_simpl.
  repeat match goal with
         | |- context [len ?zz] => progress (change (len zz) with (len z))
         end.
  replace (len z >? rawEnd z) with true by (symmetry; apply Z.gtb_lt; lia).
  exec. eexists. split; [reflexivity|]. proj_simpl.
  repeat split; auto.
Qed.

(** A call of [Next] at the end of the input. *)
Lemma Next_plaintext_end (fuel : nat) (z : Tokenizer) :
  rawTag z = B "plaintext" -> fm z = FrontmatterInitial -> rawEnd z = len z ->
  exists z', Next unescape (3 + fuel) z = Ok ErrorToken z'.
Proof.
  intros Htag Hfm Hend. unfold Next. exec. rewrite Hfm. cbn [fm_eqb]. exec.
  rewrite Htag, plaintext_arm. rewrite bind_bind.
  match goal with
  | |- context [bind (readToEOF _) _ ?zz] =>
      assert (Hr : exists zz', readToEOF (3 + fuel) zz = Ok () zz' /\
                               len zz' = len z /\ fm zz' = FrontmatterInitial /\
                               rawStart zz' = len z /\ rawEnd zz' = len z /\
                               dataStart zz' = len z)
  end.
  { destruct (err z) as [e|] eqn:He.
    - eexists. split.
      + change (3 + fuel)%nat with (S (S (S fuel))). cbn [readToEOF].
        rewrite bind_gets. unfold isErr. proj_simpl. rewrite He. reflexivity.
      + proj_simpl. unfold len in *. proj_simpl. auto.
    - eexists. split.
      + change (3 + fuel)%nat with (0 + 2 + (1 + fuel))%nat. apply readToEOF_all.
        * proj_simpl. exact He.
        * proj_simpl. unfold len in Hend. lia.
        * proj_simpl. unfold len in *. proj_simpl. lia.
      + proj_simpl. unfold len in *. proj_simpl. auto. }
  destruct Hr as (zz' & Hr & Hlen & Hfm' & Hs' & He' & Hd').
  rewrite (bind_run _ _ _ _ _ Hr). clear Hr.
  exec. unfold Next_rawText. exec. unfold id. proj_simpl.
  rewrite Hd', He'.
  replace (len z >? len z) with false
    by (rewrite Z.gtb_ltb; symmetry; apply Z.ltb_irrefl).
  unfold Next_dispatch. exec. unfold id. proj_simpl. rewrite Hfm'. cbn [fm_eqb negb].
  match goal with
  | |- context [bind (run _ L_frontmatter_loop) _ ?zz] =>
      destruct (run_at_end_frontmatter fuel zz) as (z' & Hrun & Htt & _)
  end.
  - proj_simpl. unfold len in *. proj_simpl. lia.
  - proj_simpl. rewrite Hfm'. discriminate.
  - rewrite (bind_run _ _ _ _ _ Hrun). exists z'. unfold gets. rewrite Htt. proj_simpl.
    rewrite Hs', He', Z.ltb_irrefl. reflexivity.
Qed.

(** X9: A fragment of a [plaintext] element is one text token that spans the
    whole input, whatever the input holds, and then the end of the
    input; an empty input has no token. *)
Theorem plaintext_fragment_is_one_token (input slack contextTag : list byte)
        (fuel n : nat) :
  map toLower contextTag = B "plaintext" ->
  let r := tokens unescape (length input + 3 + fuel) (2 + n)
                  (NewTokenizerFragment input slack contextTag) in
  fst r = match input with [] => [] | _ => [wholeInput input] end /\
  stoppedAtError (snd r).
Proof.
  intros Hctx r. subst r.
  set (z0 := NewTokenizerFragment input slack contextTag).
  assert (Htag : rawTag z0 = B "plaintext").
  { unfold z0, NewTokenizerFragment. cbn [rawTag]. rewrite Hctx. reflexivity. }
  assert (Hfm : fm z0 = FrontmatterInitial) by reflexivity.
  assert (Herr : err z0 = None) by reflexivity.
  assert (Hs : rawStart z0 = 0) by reflexivity.
  assert (He : rawEnd z0 = 0) by reflexivity.
  assert (Hbuf : buf z0 = input) by reflexivity.
  clearbody z0.
  assert (Hlen : len z0 = Z.of_nat (length input)) by (unfold len; rewrite Hbuf; reflexivity).
  change (2 + n)%nat with (S (S n)).
  destruct (length input) as [|k] eqn:Ek.
  - destruct input; [|discriminate]. cbn [Nat.add].
    destruct (Next_plaintext_end fuel z0 Htag Hfm) as (z1 & HN1); [lia|].
    rewrite (tokens_error _ _ _ _ _ HN1). split; [reflexivity | exact I].
  - destruct (Next_plaintext_first (1 + fuel) k z0 Htag) as
      (z1 & HN1 & Htag1 & Hfm1 & Herr1 & Hbuf1 & Hs1 & He1);
      [congruence | exact Herr | lia | lia |].
    replace (S k + 2 + (1 + fuel))%nat with (S k + 3 + fuel)%nat in HN1 by lia.
    rewrite (tokens_cons _ _ _ _ _ _ HN1 ltac:(discriminate)).
    destruct (Next_plaintext_end (S k + fuel) z1 Htag1) as (z2 & HN2);
      [congruence | unfold len in *; rewrite Hbuf1; lia |].
    replace (3 + (S k + fuel))%nat with (S k + 3 + fuel)%nat in HN2 by lia.
    rewrite (tokens_error _ _ _ _ _ HN2). cbn [fst snd]. split; [|exact I].
    assert (Hin : input <> []) by (intros ->; discriminate).
    replace (match input with [] => [] | _ :: _ => [wholeInput input] end)
      with [wholeInput input] by (destruct input; [contradiction | reflexivity]).
    f_equal. unfold wholeInput.
    assert (Hrb : rawBytes (tokOf TextToken z1) = Some input).
    { apply (raw_of_buf z1 [] input []).
      - rewrite Hbuf1, Hbuf, app_nil_r. reflexivity.
      - rewrite Hs1, He. reflexivity.
      - rewrite He1, Hlen. cbn [length]. lia. }
    unfold tokOf in *. cbn [rawBytes] in Hrb. rewrite Hrb. f_equal.
    destruct (raw z1) as [a b] eqn:Er. unfold rawStart, rawEnd in Hs1, He1.
    rewrite Er in Hs1, He1. cbn in Hs1, He1. rewrite Hs1, He1. unfold rawEnd in He.
    rewrite He, Hlen, Ek. reflexivity.
Qed.

End Plaintext.

Lemma plaintext_fragment_is_one_token_witness :
  let r := tokens noUnescape (length inputMarkup + 3 + 0) (2 + 0)
                  (NewTokenizerFragment inputMarkup [] (B "PlainText")) in
  fst r = [wholeInput inputMarkup] /\ stoppedAtError (snd r).
Proof.
  apply (plaintext_fragment_is_one_token noUnescape inputMarkup [] (B "PlainText") 0 0).
  reflexivity.
Defined.

Lemma beq_CR_LF (c : byte) : beq c CR = true -> beq c LF = false.
Proof. destruct c; cbn; intros H; first [discriminate H | reflexivity]. Qed.

Lemma countCRLF_cons (c d : byte) (r : list byte) :
  countCRLF (c :: d :: r)
  = ((if beq c CR && beq d LF then 1 else 0) + countCRLF (d :: r))%nat.
Proof. reflexivity. Qed.

Lemma cnCompact_facts (n : nat) :
  forall s, (length s <= n)%nat ->
            (length (cnCompact s) + countCRLF s)%nat = length s /\
            noCR (cnCompact s) = true.
Proof.
  induction n as [|n IH]; intros s Hn.
  - destruct s; [split; reflexivity | cbn in Hn; lia].
  - destruct s as [|c r]; [split; reflexivity|].
    cbn [length] in Hn. cbn [cnCompact].
    destruct (beq c CR) eqn:Ec.
    + destruct r as [|d r']; [split; reflexivity|].
      cbn [length] in Hn. rewrite countCRLF_cons, Ec. cbn [andb].
      destruct (beq d LF) eqn:Ed.
      * destruct (IH r' ltac:(lia)) as [H1 H2]. cbn [length noCR forallb].
        split; [|exact H2].
        assert (Hd : beq d CR = false).
        { destruct (beq d CR) eqn:E; [|reflexivity].
          rewrite (beq_CR_LF _ E) in Ed. discriminate. }
        destruct r' as [|e r'']; [reflexivity|].
        rewrite countCRLF_cons, Hd. cbn [andb length] in *. lia.
      * destruct (IH (d :: r') ltac:(cbn [length]; lia)) as [H1 H2].
        cbn [length noCR forallb] in *. split; [lia | exact H2].
    + destruct (IH r ltac:(lia)) as [H1 H2]. cbn [length noCR forallb].
      rewrite Ec. split; [|exact H2].
      destruct r as [|d r']; [reflexivity|].
      rewrite countCRLF_cons, Ec. cbn [andb length] in *. lia.
Qed.

Lemma convertNewlines_facts (s : list byte) :
  length (fst (convertNewlines s)) = length s /\
  (snd (convertNewlines s) + countCRLF s)%nat = length s /\
  noCR (firstn (snd (convertNewlines s)) (fst (convertNewlines s))) = true.
Proof.
  induction s as [|c r IH]; [repeat split; reflexivity|].
  cbn [convertNewlines].
  destruct (beq c CR) eqn:Ec; cbn [negb].
  - destruct r as [|d r']; [repeat split; cbn; first [lia | reflexivity]|].
    rewrite countCRLF_cons, Ec. cbn [andb].
    destruct (beq d LF) eqn:Ed.
    + destruct (cnCompact_facts (length (d :: r')) (d :: r') (le_n _)) as [H1 H2].
      cbn [fst snd]. rewrite length_app, length_skipn.
      cbn [length] in *. split; [lia|]. split; [lia|].
      rewrite firstn_app, firstn_all, Nat.sub_diag. cbn [firstn]. rewrite app_nil_r.
      exact H2.
    + destruct (convertNewlines (d :: r')) as [r1 n1]. cbn [fst snd] in *.
      destruct IH as (H1 & H2 & H3). cbn [length firstn noCR forallb] in *.
      split; [lia|]. split; [lia | exact H3].
  - destruct (convertNewlines r) as [r1 n1]. cbn [fst snd] in *.
    destruct IH as (H1 & H2 & H3). cbn [length firstn noCR forallb].
    rewrite Ec. split; [lia|]. split; [|exact H3].
    destruct r as [|d r']; [cbn in *; lia|].
    rewrite countCRLF_cons, Ec. cbn [andb length] in *. lia.
Qed.

Lemma convertNewlines_noCR (s : list byte) :
  noCR s = true -> convertNewlines s = (s, length s).
Proof.
  induction s as [|c r IH]; [reflexivity|].
  cbn [noCR forallb]. intros H. apply andb_prop in H as [Hc Hr].
  cbn [convertNewlines]. rewrite Hc. rewrite (IH Hr). reflexivity.
Qed.

(** X10: [convertNewlines] works in place: the array keeps its length, and
    the slice returned is shorter than the one passed in by one byte for
    each carriage return that a line feed follows.  The slice returned
    holds no carriage return, and a slice without carriage returns is
    returned as it is. *)
Theorem convertNewlines_leaves_no_CR (s : list byte) :
  let r := convertNewlines s in
  length (fst r) = length s /\ (snd r + countCRLF s)%nat = length s /\
  noCR (firstn (snd r) (fst r)) = true /\
  (noCR s = true -> r = (s, length s)).
Proof.
  intros r. subst r. destruct (convertNewlines_facts s) as (H1 & H2 & H3).
  repeat split; try assumption. apply convertNewlines_noCR.
Qed.

(** The next byte of the buffer is read. *)
Lemma readByte_at (z : Tokenizer) (pre : list byte) (c : byte) (post : list byte) :
  buf z = pre ++ c :: post -> rawEnd z = Z.of_nat (length pre) ->
  readByte z = Ok c (set_rawEnd (rawEnd z + 1) z).
Proof.
  intros Hb He. apply readByte_some. rewrite Hb, He. apply at_middle.
Qed.

Lemma index_found_later (pre post : list byte) (c : byte) :
  index (pre ++ c :: post) [c] <> -1.
Proof.
  assert (H : 0 <= index (pre ++ c :: post) [c]).
  { induction pre as [|a pre IH].
    - cbn [app index hasPrefix]. rewrite (proj2 (beq_eq c c) eq_refl).
      destruct post; cbn [hasPrefix andb]; lia.
    - cbn [app index]. destruct (hasPrefix _ _); [lia|].
      destruct (Z.ltb_spec (index (pre ++ c :: post) [c]) 0); lia. }
  lia.
Qed.

Lemma comment_step (f : nat) (dc : Z) (z : Tokenizer) (pre : list byte) (c : byte)
      (post : list byte) :
  buf z = pre ++ c :: post -> rawEnd z = Z.of_nat (length pre) -> err z = None ->
  readHTMLComment_loop (S f) dc z
  = (if beq c "-" then readHTMLComment_loop f (dc + 1)
     else if beq c ">" then
       if dc >=? 2 then modify (fun z => set_dataEnd (rawEnd z - 3) z)
       else readHTMLComment_loop f 0
     else if beq c "!" then
       if dc >=? 2 then
         c' <- readByte ;;
         e' <- gets isErr ;;
         if e' then modify (fun z => set_dataEnd (rawEnd z) z)
         else if beq c' ">" then modify (fun z => set_dataEnd (rawEnd z - 4) z)
         else readHTMLComment_loop f 0
       else readHTMLComment_loop f 0
     else readHTMLComment_loop f 0) (set_rawEnd (rawEnd z + 1) z).
Proof.
  intros Hb He Herr. cbn [readHTMLComment_loop].
  rewrite (bind_run _ _ _ _ _ (readByte_at z pre c post Hb He)).
  rewrite bind_gets. unfold isErr at 1. proj_simpl. rewrite Herr. reflexivity.
Qed.

(** The loop of [readHTMLComment] on bytes without [>] and [!]: it
    reads them and the closing [-->]. *)
Lemma readHTMLComment_closes (extra : nat) (post : list byte) :
  forall (inner pre : list byte) (z : Tokenizer) (dc : Z),
    forallb okInComment inner = true ->
    buf z = pre ++ inner ++ B "-->" ++ post -> rawEnd z = Z.of_nat (length pre) ->
    err z = None -> 0 <= dc ->
    readHTMLComment_loop (length inner + 3 + extra) dc z
    = Ok () (set_dataEnd (rawEnd z + Z.of_nat (length inner))
               (set_rawEnd (rawEnd z + Z.of_nat (length inner) + 3) z)).
Proof.
  induction inner as [|c inner IH]; intros pre z dc Hok Hb He Herr Hdc.
  - cbn [length Nat.add app] in *.
    rewrite (comment_step _ dc z pre "-" (B "->" ++ post) Hb He Herr).
    change (beq "-" "-") with true. cbv iota.
    set (z1 := set_rawEnd (rawEnd z + 1) z).
    rewrite (comment_step _ (dc + 1) z1 (pre ++ B "-") "-" (B ">" ++ post)).
    2:{ subst z1. proj_simpl. rewrite Hb, <- app_assoc. reflexivity. }
    2:{ subst z1. proj_simpl. rewrite He, length_app. cbn. lia. }
    2:{ exact Herr. }
    change (beq "-" "-") with true. cbv iota.
    set (z2 := set_rawEnd (rawEnd z1 + 1) z1).
    rewrite (comment_step _ (dc + 1 + 1) z2 (pre ++ B "--") ">" post).
    2:{ subst z2 z1. proj_simpl. rewrite Hb, <- app_assoc. reflexivity. }
    2:{ subst z2 z1. proj_simpl. rewrite He, length_app. cbn. lia. }
    2:{ exact Herr. }
    change (beq ">" "-") with false. change (beq ">" ">") with true. cbv iota.
    destruct (Z.geb_spec (dc + 1 + 1) 2); [|lia].
    unfold modify. subst z2 z1. proj_simpl. f_equal.
    replace (rawEnd z + 1 + 1 + 1 - 3) with (rawEnd z + Z.of_nat 0) by lia.
    replace (rawEnd z + 1 + 1 + 1) with (rawEnd z + Z.of_nat 0 + 3) by lia.
    reflexivity.
  - cbn [forallb] in Hok. apply andb_prop in Hok as [Hc Hok].
    unfold okInComment in Hc. apply andb_prop in Hc as [Hc1 Hc2].
    apply negb_true_iff in Hc1, Hc2.
    cbn [length Nat.add app] in *.
    rewrite (comment_step _ dc z pre c (inner ++ B "-->" ++ post) Hb He Herr).
    rewrite Hc1, Hc2.
    set (z1 := set_rawEnd (rawEnd z + 1) z).
    assert (Hb1 : buf z1 = (pre ++ [c]) ++ inner ++ B "-->" ++ post).
    { subst z1. proj_simpl. rewrite Hb, <- app_assoc. reflexivity. }
    assert (He1 : rawEnd z1 = Z.of_nat (length (pre ++ [c]))).
    { subst z1. proj_simpl. rewrite He, length_app. cbn. lia. }
    assert (Hgoal : forall dc', 0 <= dc' ->
              readHTMLComment_loop (length inner + 3 + extra) dc' z1
              = Ok () (set_dataEnd (rawEnd z + Z.of_nat (S (length inner)))
                         (set_rawEnd (rawEnd z + Z.of_nat (S (length inner)) + 3) z))).
    { intros dc' Hdc'. rewrite (IH (pre ++ [c]) z1 dc' Hok Hb1 He1 Herr Hdc').
      subst z1. proj_simpl. f_equal.
      replace (rawEnd z + 1 + Z.of_nat (length inner))
        with (rawEnd z + Z.of_nat (S (length inner))) by lia.
      reflexivity. }
    destruct (beq c "-"); apply Hgoal; lia.
Qed.

(** [z.buf[a:]] behind the bytes [pre]. *)
Lemma bufFrom_at (z : Tokenizer) (pre post : list byte) :
  buf z = pre ++ post -> bufFrom (Z.of_nat (length pre)) z = Ok post z.
Proof.
  intros Hb. unfold bufFrom, len. rewrite Hb.
  destruct (Z.leb_spec 0 (Z.of_nat (length pre))); [|lia].
  destruct (Z.leb_spec (Z.of_nat (length pre)) (Z.of_nat (length (pre ++ post))));
    [|rewrite length_app in *; lia].
  cbn [andb]. unfold sub. rewrite Nat2Z.id, drop_app_length.
  rewrite firstn_all2; [reflexivity|]. rewrite length_app. lia.
Qed.

Section Comments.

Variable unescape : list byte -> list byte.

(** Before the frontmatter, a [<] at the start of a token is left to the
    main loop. *)
Lemma frontmatter_lt_first (fuel : nat) (z : Tokenizer) (done rem : list byte)
      (st : list Z) (ob : bool) :
  Scan z done [] ("<"%byte :: rem) FrontmatterInitial 0 st ob ->
  exists z', frontmatter_body fuel z = Ok (Goto L_loop) z' /\
             Scan z' done [] ("<"%byte :: rem) FrontmatterInitial 0 st ob /\
             dataStart z' = dataStart z.
Proof.
  intros H.
  unfold frontmatter_body. rewrite bind_gets, (sc_fm _ _ _ _ _ _ _ _ H). cbn [fm_eqb].
  exec_read H H1.
  change (beq "<" "-") with false. exec. unfold id. exec.
  rewrite (sc_dash _ _ _ _ _ _ _ _ H). cbn [Z.eqb].
  change (beq "<" "/") with false. exec.
  assert (Hfirst : bufSlice1 (rawStart z) (set_rawEnd (rawEnd z + 1) z)
                   = Ok "<"%byte (set_rawEnd (rawEnd z + 1) z)).
  { apply (Scan_first (rem := rem) (cur := [] ++ ["<"%byte]) "<"%byte rem) in H1.
    - exact H1.
    - reflexivity. }
  rewrite (bind_run _ _ _ _ _ Hfirst).
  change (beq "<" "<") with true. cbn [orb]. exec.
  rewrite (sc_fm _ _ _ _ _ _ _ _ H). cbn [fm_eqb andb].
  unfold rawEnd_add. exec.
  eexists. split; [reflexivity|]. split; [scan_solve H | proj_simpl; reflexivity].
Qed.

(** In the main loop [<!--], bytes without [>] and [!], and [-->] are a
    comment token. *)
Lemma loop_comment_token (extra : nat) (z : Tokenizer) (done inner rest : list byte)
      (st : list Z) (ob : bool) :
  Scan z done [] (B "<!--" ++ inner ++ B "-->" ++ rest) FrontmatterInitial 0 st ob ->
  dataStart z = Z.of_nat (length done) ->
  forallb okInComment inner = true ->
  exists z',
    loop_body (length inner + 3 + extra) z = Ok Return z' /\ tt z' = CommentToken /\
    Scan z' done (B "<!--" ++ inner ++ B "-->") rest FrontmatterInitial 0 st true /\
    dataStart z' = Z.of_nat (length done) + 4 /\
    dataEnd z' = Z.of_nat (length done) + 4 + Z.of_nat (length inner).
Proof.
  intros H Hds Hok.
  change (B "<!--" ++ inner ++ B "-->" ++ rest)
    with ("<"%byte :: "!"%byte :: "-"%byte :: "-"%byte :: inner ++ B "-->" ++ rest) in H.
  unfold loop_body. exec_read H H1. exec.
  change (isQuote "<") with false. rewrite andb_false_r.
  change (isBrace "<") with false. cbv iota. exec.
  rewrite (sc_fm _ _ _ _ _ _ _ _ H). 
  change (beq "<" "-") with false. change (beq "<" "<") with true.
  cbn [andb negb fm_eqb]. 
  destruct (Scan_read _ _ _ _ _ _ _ _ _ H1) as [Hr H2].
  rewrite (bind_run _ _ _ _ _ Hr). clear Hr.
  rewrite bind_gets. unfold isErr at 1. proj_simpl.
  rewrite (sc_err _ _ _ _ _ _ _ _ H). cbv iota.
  change (beq "!" ">") with false. cbv iota. exec.
  change (isLetter "!") with false. change (beq "!" "/") with false.
  change (beq "!" "!") with true. cbn [orb]. cbv iota. exec. unfold id. proj_simpl.
  rewrite (sc_start _ _ _ _ _ _ _ _ H), (sc_end _ _ _ _ _ _ _ _ H). cbn [length].
  match goal with
  | |- context [Z.ltb ?a ?b] => destruct (Z.ltb_spec a b); [lia|]
  end.
  match goal with
  | |- context [bind readUnclosedTag _ ?zz] => set (z2 := zz)
  end.
  assert (Hb2 : buf z2 = done ++ B "<!--" ++ inner ++ B "-->" ++ rest).
  { subst z2. proj_simpl. rewrite (sc_buf _ _ _ _ _ _ _ _ H). reflexivity. }
  assert (Hu : readUnclosedTag z2 = Ok () z2).
  { unfold readUnclosedTag. rewrite bind_gets.
    replace (dataStart z2) with (Z.of_nat (length done))
      by (subst z2; proj_simpl; symmetry; exact Hds).
    rewrite (bind_run _ _ _ _ _ (bufFrom_at z2 done _ Hb2)).
    rewrite bind_gets.
    replace (fm z2) with FrontmatterInitial
      by (subst z2; proj_simpl; symmetry; apply (sc_fm _ _ _ _ _ _ _ _ H)).
    cbn [fm_eqb].
    replace (B "<!--" ++ inner ++ B "-->" ++ rest)
      with ((B "<!--" ++ inner ++ B "--") ++ ">"%byte :: rest)
      by (rewrite <- !app_assoc; reflexivity).
    destruct (Z.eqb_spec (index ((B "<!--" ++ inner ++ B "--") ++ ">"%byte :: rest)
                                [">"%byte]) (-1)) as [E|_]; [|reflexivity].
    exfalso. exact (index_found_later _ _ _ E). }
  rewrite (bind_run _ _ _ _ _ Hu). clear Hu.
  rewrite bind_gets. unfold isErr at 1.
  replace (err z2) with (@None error)
    by (subst z2; proj_simpl; symmetry; apply (sc_err _ _ _ _ _ _ _ _ H)).
  unfold loop_comment. change (beq "!" "!") with true. cbv iota.
  unfold readMarkupDeclaration, readTwo. exec.
  assert (He2 : rawEnd z2 = Z.of_nat (length done) + 2).
  { subst z2. proj_simpl. lia. }
  assert (Herr2 : err z2 = None).
  { subst z2. proj_simpl. apply (sc_err _ _ _ _ _ _ _ _ H). }
  assert (Hfm2 : fm z2 = FrontmatterInitial).
  { subst z2. proj_simpl. apply (sc_fm _ _ _ _ _ _ _ _ H). }
  assert (Hdash2 : dashCount z2 = 0).
  { subst z2. proj_simpl. apply (sc_dash _ _ _ _ _ _ _ _ H). }
  assert (Hst2 : expressionStack z2 = st).
  { subst z2. proj_simpl. apply (sc_stack _ _ _ _ _ _ _ _ H). }
  assert (Hob2 : openBraceIsExpressionStart z2 = true) by reflexivity.
  assert (Htag2 : rawTag z2 = []).
  { subst z2. proj_simpl. apply (sc_tag _ _ _ _ _ _ _ _ H). }
  assert (Hs2 : rawStart z2 = Z.of_nat (length done)).
  { subst z2. proj_simpl. apply (sc_start _ _ _ _ _ _ _ _ H). }
  clearbody z2. clear H H1 H2 H0 Hds.
  set (z3 := set_dataStart (rawEnd z2) z2).
  rewrite (bind_run _ _ _ _ _
             (readByte_at z3 (done ++ B "<!") "-" ("-"%byte :: inner ++ B "-->" ++ rest)
                ltac:(subst z3; proj_simpl; rewrite Hb2, <- app_assoc; reflexivity)
                ltac:(subst z3; proj_simpl; rewrite He2, length_app; cbn; lia))).
  rewrite bind_bind, bind_gets. unfold isErr at 1. subst z3. proj_simpl. rewrite Herr2.
  cbv iota. rewrite !bind_bind.
  set (z4 := set_rawEnd (rawEnd z2 + 1) (set_dataStart (rawEnd z2) z2)).
  rewrite (bind_run _ _ _ _ _
             (readByte_at z4 (done ++ B "<!-") "-" (inner ++ B "-->" ++ rest)
                ltac:(subst z4; proj_simpl; rewrite Hb2, <- app_assoc; reflexivity)
                ltac:(subst z4; proj_simpl; rewrite He2, length_app; cbn; lia))).
  rewrite bind_bind, bind_gets. unfold isErr at 1. subst z4. proj_simpl. rewrite Herr2.
  cbv iota. exec. change (beq "-" "-") with true. cbn [andb].
  unfold readHTMLComment. exec.
  match goal with
  | |- context [bind (readHTMLComment_loop _ _) _ ?zz] => set (z6 := zz)
  end.
  rewrite (bind_run _ _ _ _ _
             (readHTMLComment_closes extra rest inner (done ++ B "<!--") z6 2 Hok
                ltac:(subst z6; proj_simpl; rewrite Hb2, <- app_assoc; reflexivity)
                ltac:(subst z6; proj_simpl; rewrite He2, length_app; cbn; lia)
                ltac:(subst z6; proj_simpl; exact Herr2) ltac:(lia))).
  subst z6. exec. unfold returnToken. exec.
  match goal with
  | |- context [Z.ltb ?a ?b] => destruct (Z.ltb_spec a b); [lia|]
  end.
  eexists. split; [reflexivity|]. split; [reflexivity|]. split; [|split].
  - constructor; proj_simpl; auto.
    + rewrite Hb2, <- !app_assoc. reflexivity.
    + rewrite He2, !length_app. cbn [length B list_byte_of_string]. cbn. lia.
  - proj_simpl. lia.
  - proj_simpl. lia.
Qed.

(** A comment before any frontmatter is one CommentToken; the
    frontmatter may still follow. *)
Lemma Next_comment (fuel : nat) (z : Tokenizer) (done inner rest : list byte)
      (st : list Z) (ob : bool) :
  Scan z done [] (B "<!--" ++ inner ++ B "-->" ++ rest) FrontmatterInitial 0 st ob ->
  forallb okInComment inner = true ->
  exists z',
    Next unescape (length inner + 5 + fuel) z = Ok CommentToken z' /\
    Scan z' done (B "<!--" ++ inner ++ B "-->") rest FrontmatterInitial 0 st true /\
    dataStart z' = Z.of_nat (length done) + 4 /\
    dataEnd z' = Z.of_nat (length done) + 4 + Z.of_nat (length inner).
Proof.
  intros H Hok.
  unfold Next. exec. rewrite (sc_fm _ _ _ _ _ _ _ _ H). cbn [fm_eqb]. exec.
  rewrite (sc_tag _ _ _ _ _ _ _ _ H). unfold Next_dispatch. exec. unfold id. proj_simpl.
  rewrite (sc_fm _ _ _ _ _ _ _ _ H). cbn [fm_eqb negb].
  match goal with
  | |- context [bind (run _ L_frontmatter_loop) _ ?zz] => set (z0 := zz)
  end.
  assert (H0 : Scan z0 done [] (B "<!--" ++ inner ++ B "-->" ++ rest)
                    FrontmatterInitial 0 st ob).
  { subst z0. scan_solve H. }
  assert (Hd0 : dataStart z0 = Z.of_nat (length done)).
  { subst z0. proj_simpl. rewrite (sc_end _ _ _ _ _ _ _ _ H). cbn [length]. lia. }
  clearbody z0.
  replace (length inner + 5 + fuel)%nat with (S (S (length inner + 3 + fuel))) by lia.
  destruct (frontmatter_lt_first (S (S (length inner + 3 + fuel))) z0 done
              (B "!--" ++ inner ++ B "-->" ++ rest) st ob H0) as (z1 & Hb1 & H1 & Hd1).
  destruct (loop_comment_token (1 + fuel) z1 done inner rest st ob H1) as
    (z' & Hb2 & Htt & H2 & Hds & Hde); [congruence | exact Hok |].
  exists z'. split; [|split; [exact H2 | split; assumption]].
  assert (Hrun : run (S (S (length inner + 3 + fuel))) L_frontmatter_loop z0 = Ok () z').
  { change (body (S (S (length inner + 3 + fuel))) L_frontmatter_loop z0
            = Ok (Goto L_loop) z1) in Hb1.
    rewrite (run_goto _ _ _ _ _ Hb1). apply run_return.
    replace (S (length inner + 3 + fuel)) with (length inner + 3 + (1 + fuel))%nat by lia.
    exact Hb2. }
  rewrite (bind_run _ _ _ _ _ Hrun). unfold gets. rewrite Htt. reflexivity.
Qed.

(** Three dashes before any frontmatter open it, whatever was read
    before them. *)
Lemma Next_fence_later (F : nat) (z : Tokenizer) (done cur rest : list byte)
      (st : list Z) (ob : bool) :
  Scan z done cur (B "---" ++ rest) FrontmatterInitial 0 st ob ->
  exists z', Next unescape (3 + F) z = Ok FrontmatterFenceToken z' /\
             Scan z' (done ++ cur) (B "---") rest FrontmatterOpen 0 st false.
Proof.
  intros H.
  destruct (Next_enter unescape (3 + F) z (sc_tag _ _ _ _ _ _ _ _ H)) as (z1 & E & HN).
  { rewrite (sc_fm _ _ _ _ _ _ _ _ H). discriminate. }
  pose proof (Scan_entered _ _ _ _ _ _ _ _ _ H E) as H1. cbn [fm_eqb] in H1.
  assert (Hlab : entryLabel z1 = L_frontmatter_loop).
  { unfold entryLabel. rewrite (sc_fm _ _ _ _ _ _ _ _ H1). reflexivity. }
  rewrite HN, Hlab. cbn [B list_byte_of_string app] in H1.
  change (3 + F)%nat with (S (S (S F))).
  destruct (frontmatter_dash (S (S (S F))) z1 _ _ _ _ _ _ _ H1
              ltac:(discriminate) ltac:(lia)) as (z2 & Hb2 & H2).
  destruct (frontmatter_dash (S (S F)) z2 _ _ _ _ _ _ _ H2
              ltac:(discriminate) ltac:(lia)) as (z3 & Hb3 & H3).
  destruct (frontmatter_open_fence (S F) z3 _ _ _ _ _ H3) as (z4 & Hb4 & Htt & H4).
  exists z4. split; [|exact H4].
  apply run_tt; [|exact Htt].
  rewrite (run_continue _ L_frontmatter_loop z1 z2 Hb2).
  rewrite (run_continue _ L_frontmatter_loop z2 z3 Hb3).
  apply (run_return _ L_frontmatter_loop). exact Hb4.
Qed.

(** X25: An input that begins with a comment whose bytes between [<!--]
    and [-->] hold no [>] and no [!] has that comment as its first token:
    Next returns CommentToken, the raw bytes are the comment with its
    delimiters and the data span is what lies between them, dashes
    included.  The frontmatter state stays initial. *)
Theorem html_comment_is_first_token (slack inner rest : list byte) (fuel : nat) :
  forallb okInComment inner = true ->
  exists z1,
    Next unescape (length inner + 5 + fuel)
         (NewTokenizer (B "<!--" ++ inner ++ B "-->" ++ rest) slack)
    = Ok CommentToken z1 /\
    rawBytes (tokOf CommentToken z1) = Some (B "<!--" ++ inner ++ B "-->") /\
    data z1 = mkSpan 4 (4 + Z.of_nat (length inner)) /\
    fm z1 = FrontmatterInitial.
Proof.
  intros Hok.
  set (z0 := NewTokenizer (B "<!--" ++ inner ++ B "-->" ++ rest) slack).
  assert (H0 : Scan z0 [] [] (B "<!--" ++ inner ++ B "-->" ++ rest)
                    FrontmatterInitial 0 [] true) by (constructor; reflexivity).
  destruct (Next_comment fuel z0 [] inner rest [] true H0 Hok)
    as (z1 & HN & H1 & Hds & Hde).
  exists z1. split; [exact HN|]. split; [|split].
  - apply (Scan_raw _ _ _ _ _ _ _ _ _ H1).
  - destruct (data z1) as [a b] eqn:E. unfold dataStart, dataEnd in Hds, Hde.
    rewrite E in Hds, Hde. cbn in Hds, Hde. rewrite Hds, Hde. reflexivity.
  - apply (sc_fm _ _ _ _ _ _ _ _ H1).
Qed.

(** X26: A comment does not close the frontmatter the way a tag does: when
    the line of three dashes follows a leading comment, the second call
    of Next returns it as FrontmatterFenceToken and the frontmatter is
    open. *)
Theorem comment_leaves_frontmatter_open (slack inner rest : list byte) (fuel : nat) :
  forallb okInComment inner = true ->
  exists z1 z2,
    Next unescape (length inner + 5 + fuel)
         (NewTokenizer (B "<!--" ++ inner ++ B "-->" ++ B "---" ++ rest) slack)
    = Ok CommentToken z1 /\
    Next unescape (length inner + 5 + fuel) z1 = Ok FrontmatterFenceToken z2 /\
    rawBytes (tokOf FrontmatterFenceToken z2) = Some (B "---") /\
    fm z2 = FrontmatterOpen.
Proof.
  intros Hok.
  set (z0 := NewTokenizer (B "<!--" ++ inner ++ B "-->" ++ B "---" ++ rest) slack).
  assert (H0 : Scan z0 [] [] (B "<!--" ++ inner ++ B "-->" ++ B "---" ++ rest)
                    FrontmatterInitial 0 [] true) by (constructor; reflexivity).
  destruct (Next_comment fuel z0 [] inner (B "---" ++ rest) [] true H0 Hok)
    as (z1 & HN & H1 & _).
  destruct (Next_fence_later (length inner + 2 + fuel) z1 _ _ _ _ _ H1) as (z2 & HN2 & H2).
  replace (3 + (length inner + 2 + fuel))%nat with (length inner + 5 + fuel)%nat
    in HN2 by lia.
  exists z1, z2. split; [exact HN|]. split; [exact HN2|]. split.
  - apply (Scan_raw _ _ _ _ _ _ _ _ _ H2).
  - apply (sc_fm _ _ _ _ _ _ _ _ H2).
Qed.

End Comments.

Lemma html_comment_is_first_token_witness :
  exists z1,
    Next noUnescape (length bodyDashes + 5 + 0)
         (NewTokenizer (B "<!--" ++ bodyDashes ++ B "-->" ++ B "<p>") [])
    = Ok CommentToken z1 /\
    rawBytes (tokOf CommentToken z1) = Some (B "<!--" ++ bodyDashes ++ B "-->") /\
    data z1 = mkSpan 4 (4 + Z.of_nat (length bodyDashes)) /\
    fm z1 = FrontmatterInitial.
Proof.
  apply (html_comment_is_first_token noUnescape [] bodyDashes (B "<p>") 0). reflexivity.
Defined.

Lemma comment_leaves_frontmatter_open_witness :
  exists z1 z2,
    Next noUnescape (length bodyDashes + 5 + 0)
         (NewTokenizer (B "<!--" ++ bodyDashes ++ B "-->" ++ B "---" ++ [LF]) [])
    = Ok CommentToken z1 /\
    Next noUnescape (length bodyDashes + 5 + 0) z1 = Ok FrontmatterFenceToken z2 /\
    rawBytes (tokOf FrontmatterFenceToken z2) = Some (B "---") /\
    fm z2 = FrontmatterOpen.
Proof.
  apply (comment_leaves_frontmatter_open noUnescape [] bodyDashes [LF] 0). reflexivity.
Defined.

Lemma writeBack_backing (a : Z) (bs : list byte) (z : Tokenizer) :
  0 <= a -> a + Z.of_nat (length bs) <= Z.of_nat (length (backing z)) ->
  exists z', writeBack a bs z = Ok () z' /\
             backing z' = firstn (Z.to_nat a) (backing z) ++ bs ++
                          skipn (Z.to_nat a + length bs) (backing z) /\
             length (buf z') = length (buf z) /\
             raw z' = raw z /\ data z' = data z /\ tt z' = tt z.
Proof.
  intros Ha Hb. unfold writeBack, modify. eexists. split; [reflexivity|].
  set (arr' := firstn (Z.to_nat a) (backing z) ++ bs ++
               skipn (Z.to_nat a + length bs) (backing z)).
  assert (Hlen : length arr' = length (backing z)).
  { subst arr'. rewrite !length_app, length_firstn, length_skipn. lia. }
  split; [|split; [|repeat split]].
  - unfold backing at 1. proj_simpl. apply firstn_skipn.
  - proj_simpl. rewrite length_firstn, Hlen. unfold backing. rewrite length_app. lia.
Qed.

(** A part of an array overwritten by as many elements. *)
Lemma splice_parts {A} (arr bs : list A) (a b : nat) :
  (a <= b)%nat -> (b <= length arr)%nat -> length bs = (b - a)%nat ->
  firstn a (firstn a arr ++ bs ++ skipn b arr) = firstn a arr /\
  skipn b (firstn a arr ++ bs ++ skipn b arr) = skipn b arr /\
  firstn (b - a) (skipn a (firstn a arr ++ bs ++ skipn b arr)) = bs.
Proof.
  intros Hab Hb Hl.
  assert (Ha : length (firstn a arr) = a) by (rewrite length_firstn; lia).
  split; [|split].
  - rewrite firstn_app, Ha, Nat.sub_diag. cbn [firstn]. rewrite app_nil_r.
    rewrite firstn_firstn, Nat.min_id. reflexivity.
  - rewrite skipn_app, Ha. rewrite (skipn_all2 (firstn a arr)) by lia. cbn [app].
    rewrite skipn_app, Hl. rewrite (skipn_all2 bs) by lia. cbn [app].
    replace (b - a - (b - a))%nat with 0%nat by lia. reflexivity.
  - rewrite skipn_app, Ha, Nat.sub_diag. rewrite (skipn_all2 (firstn a arr)) by lia.
    cbn [app]. rewrite drop_0, firstn_app, Hl, Nat.sub_diag. cbn [firstn].
    rewrite app_nil_r. rewrite <- Hl. apply firstn_all.
Qed.

(** X27: [Text] on a text, comment or doctype token converts the line ends
    of the token's data in place and changes no byte of the array outside
    the data span; the buffer keeps its length.  Afterwards the data span
    is empty, at the read position.  On any other token [Text] changes
    nothing. *)
Theorem Text_rewrites_only_its_data (z z' : Tokenizer) :
  Text z = Ok () z' ->
  if hasText (tt z) then
    length (buf z') = length (buf z) /\
    firstn (Z.to_nat (dataStart z)) (backing z')
    = firstn (Z.to_nat (dataStart z)) (backing z) /\
    skipn (Z.to_nat (dataEnd z)) (backing z') = skipn (Z.to_nat (dataEnd z)) (backing z) /\
    sub (backing z') (dataStart z) (dataEnd z)
    = fst (convertNewlines (sub (backing z) (dataStart z) (dataEnd z))) /\
    dataStart z' = rawEnd z /\ dataEnd z' = rawEnd z
  else z' = z.
Proof.
  intros H. unfold Text in H. rewrite bind_gets in H.
  assert (Hcase : hasText (tt z) = false \/ hasText (tt z) = true)
    by (destruct (hasText (tt z)); auto).
  destruct Hcase as [Hno | Hyes].
  { rewrite Hno. destruct (tt z); try discriminate Hno; injection H as <-; reflexivity. }
  rewrite Hyes.
  assert (H' : (z0 <- gets id ;;
                s <- bufSlice (dataStart z0) (dataEnd z0) ;;
                modify (fun z => set_dataEnd (rawEnd z) (set_dataStart (rawEnd z) z)) ;;;
                writeBack (dataStart z0) (fst (convertNewlines s))) z = Ok () z').
  { destruct (tt z); try discriminate Hyes; exact H. }
  clear H. rewrite bind_gets in H'. unfold id in H'.
  unfold bind at 1 in H'. unfold bufSlice in H'.
  destruct ((0 <=? dataStart z) && (dataStart z <=? dataEnd z) && leCap (dataEnd z) z)
    eqn:Hb; [|discriminate H'].
  apply andb_prop in Hb as [Hb Hcap]. apply andb_prop in Hb as [H0 Hab].
  apply Z.leb_le in H0, Hab. rewrite leCap_spec in Hcap. apply Z.leb_le in Hcap.
  unfold cap in Hcap. fold (backing z) in Hcap.
  rewrite bind_modify in H'.
  set (s := sub (backing z) (dataStart z) (dataEnd z)) in *.
  pose proof (sub_length (backing z) _ _ (conj H0 Hab) Hcap) as Hs. fold s in Hs.
  destruct (convertNewlines_facts s) as (Hl & _ & _).
  set (zz := set_dataEnd (rawEnd z) (set_dataStart (rawEnd z) z)) in *.
  destruct (writeBack_backing (dataStart z) (fst (convertNewlines s)) zz H0)
    as (z2 & Hw & Hback & Hlen & Hraw & Hdata & _).
  { change (backing zz) with (backing z). rewrite Hl. lia. }
  rewrite Hw in H'. injection H' as <-.
  change (backing zz) with (backing z) in Hback.
  change (buf zz) with (buf z) in Hlen.
  replace (Z.to_nat (dataStart z) + length (fst (convertNewlines s)))%nat
    with (Z.to_nat (dataEnd z)) in Hback by lia.
  destruct (splice_parts (backing z) (fst (convertNewlines s))
              (Z.to_nat (dataStart z)) (Z.to_nat (dataEnd z)))
    as (P1 & P2 & P3); [lia | lia | lia |].
  split; [exact Hlen|]. rewrite Hback.
  split; [exact P1|]. split; [exact P2|]. split; [|split].
  - unfold sub. rewrite Z2Nat.inj_sub by lia. exact P3.
  - unfold dataStart. rewrite Hdata. reflexivity.
  - unfold dataEnd. rewrite Hdata. reflexivity.
Qed.

Lemma Text_rewrites_only_its_data_witness :
  exists z',
    Text textState = Ok () z' /\
    length (buf z') = length (buf textState) /\
    firstn 1 (backing z') = firstn 1 (backing textState) /\
    skipn 6 (backing z') = skipn 6 (backing textState) /\
    sub (backing z') 1 6 = [ "a"%byte; LF; "b"%byte; LF; CR ] /\
    dataStart z' = 6 /\ dataEnd z' = 6.
Proof.
  eexists. split; [vm_compute; reflexivity|].
  apply (Text_rewrites_only_its_data textState). vm_compute. reflexivity.
Defined.

Lemma Quiet_refl (z : Tokenizer) : Quiet z z.
Proof. constructor; reflexivity. Qed.

Lemma Quiet_trans (a b c : Tokenizer) : Quiet a b -> Quiet b c -> Quiet a c.
Proof. intros [] []. constructor; congruence. Qed.

Lemma quietAt_ret {A} (a : A) (z : Tokenizer) : quietAt (ret a) z.
Proof. intros ? ? H. injection H as _ <-. apply Quiet_refl. Qed.

Lemma quietAt_gets {A} (f : Tokenizer -> A) (z : Tokenizer) : quietAt (gets f) z.
Proof. intros ? ? H. injection H as _ <-. apply Quiet_refl. Qed.

Lemma quietAt_panic {A} (p : PanicValue) (z : Tokenizer) : quietAt (@panic A p) z.
Proof. intros ? ? H. discriminate. Qed.

Lemma quietAt_fuel {A} (z : Tokenizer) : quietAt (@out_of_fuel A) z.
Proof. intros ? ? H. discriminate. Qed.

Lemma quietAt_modify (f : Tokenizer -> Tokenizer) (z : Tokenizer) :
  Quiet z (f z) -> quietAt (modify f) z.
Proof. intros K ? ? H. injection H as _ <-. exact K. Qed.

Lemma quietAt_bind {A C} (x : M A) (k : A -> M C) (z : Tokenizer) :
  quietAt x z -> (forall a z1, x z = Ok a z1 -> quietAt (k a) z1) ->
  quietAt (bind x k) z.
Proof.
  intros Hx Hk c z' H. apply bind_Ok in H as (a & z1 & H1 & H2).
  eapply Quiet_trans; [apply (Hx _ _ H1) | apply (Hk _ _ H1 _ _ H2)].
Qed.

Lemma quietAt_bind_quiet {A C} (x : M A) (k : A -> M C) (z : Tokenizer) :
  quiet x -> (forall a z1, quietAt (k a) z1) -> quietAt (bind x k) z.
Proof. intros Hx Hk. apply quietAt_bind; [apply Hx | intros; apply Hk]. Qed.

Lemma quietAt_bind_gets {A C} (f : Tokenizer -> A) (k : A -> M C) (z : Tokenizer) :
  quietAt (k (f z)) z -> quietAt (bind (gets f) k) z.
Proof. intros H c z' E. rewrite bind_gets in E. exact (H _ _ E). Qed.

Lemma quietAt_bind_modify {C} (f : Tokenizer -> Tokenizer) (k : unit -> M C)
      (z : Tokenizer) :
  Quiet z (f z) -> quietAt (k ()) (f z) -> quietAt (bind (modify f) k) z.
Proof.
  intros K H c z' E. rewrite bind_modify in E.
  eapply Quiet_trans; [exact K | exact (H _ _ E)].
Qed.

Lemma quietAt_bind_ret {A C} (a : A) (k : A -> M C) (z : Tokenizer) :
  quietAt (k a) z -> quietAt (bind (ret a) k) z.
Proof. intros H c z' E. rewrite bind_ret in E. exact (H _ _ E). Qed.

Lemma quietAt_assoc {A C D} (x : M A) (k : A -> M C) (k' : C -> M D) (z : Tokenizer) :
  quietAt (bind x (fun a => bind (k a) k')) z -> quietAt (bind (bind x k) k') z.
Proof. intros H c z' E. rewrite bind_bind in E. exact (H _ _ E). Qed.

Lemma quietAt_bind_panic {A C} (p : PanicValue) (k : A -> M C) (z : Tokenizer) :
  quietAt (bind (panic p) k) z.
Proof. intros c z' E. discriminate. Qed.

Lemma quietAt_bind_fuel {A C} (k : A -> M C) (z : Tokenizer) :
  quietAt (bind out_of_fuel k) z.
Proof. intros c z' E. discriminate. Qed.

Lemma quiet_at {A} (x : M A) (z : Tokenizer) : quiet x -> quietAt x z.
Proof. intros H. apply H. Qed.

Create HintDb hush.

(** A state built by setters that touch none of the five fields. *)
Ltac quiet_fields := constructor; proj_simpl; reflexivity.

Ltac quiet_solve :=
  cbv beta;
  repeat match goal with
         | |- Quiet _ (if ?b then _ else _) => destruct b eqn:?
         | |- Quiet _ (match ?x with _ => _ end) => destruct x eqn:?
         end;
  quiet_fields.

Ltac hush_leaf :=
  first [ apply quietAt_ret | apply quietAt_gets | apply quietAt_panic
        | apply quietAt_fuel
        | (apply quietAt_modify; quiet_solve)
        | (apply quiet_at; solve [auto with hush])
        | match goal with IH : _ |- _ => solve [apply IH] end ].

Ltac hush_step :=
  cbv beta zeta; unfold id;
  lazymatch goal with
  | |- quietAt (match (if ?b then _ else _) with _ => _ end) _ => destruct b eqn:?
  | |- quietAt (match (match ?x with _ => _ end) with _ => _ end) _ => destruct x eqn:?
  | |- quietAt (bind (gets _) _) _ => apply quietAt_bind_gets
  | |- quietAt (bind (ret _) _) _ => apply quietAt_bind_ret
  | |- quietAt (bind (modify _) _) _ => apply quietAt_bind_modify; [quiet_solve|]
  | |- quietAt (bind (panic _) _) _ => apply quietAt_bind_panic
  | |- quietAt (bind out_of_fuel _) _ => apply quietAt_bind_fuel
  | |- quietAt (bind (bind _ _) _) _ => apply quietAt_assoc
  | |- quietAt (bind (if ?b then _ else _) _) _ => destruct b eqn:?
  | |- quietAt (bind (match ?x with _ => _ end) _) _ => destruct x eqn:?
  | |- quietAt (bind ?x _) _ =>
      apply quietAt_bind_quiet;
      [ first [ solve [auto with hush]
              | match goal with IH : _ |- _ => solve [intro; apply IH] end ]
      | intros ? ? ]
  | |- quietAt (if ?b then _ else _) _ => destruct b eqn:?
  | |- quietAt (match ?x with _ => _ end) _ => destruct x eqn:?
  | |- _ => hush_leaf
  end.

Ltac hush := repeat hush_step.

Lemma quiet_rawEnd_add (k : Z) : quiet (rawEnd_add k).
Proof. intros z. unfold rawEnd_add. hush. Qed.
#[export] Hint Resolve quiet_rawEnd_add : hush.

Lemma quiet_same {A} (x : M A) :
  (forall z a z', x z = Ok a z' -> z' = z) -> quiet x.
Proof. intros H z a z' E. rewrite (H _ _ _ E). apply Quiet_refl. Qed.

Lemma quiet_bufIndex (i : Z) : quiet (bufIndex i).
Proof.
  apply quiet_same. intros z a z'. unfold bufIndex.
  destruct (at_ (buf z) i); [|discriminate]. congruence.
Qed.
#[export] Hint Resolve quiet_bufIndex : hush.

Lemma quiet_bufSlice (a b : Z) : quiet (bufSlice a b).
Proof.
  apply quiet_same. intros z r z'. unfold bufSlice.
  destruct (_ && _); [|discriminate]. congruence.
Qed.
#[export] Hint Resolve quiet_bufSlice : hush.

Lemma quiet_bufFrom (a : Z) : quiet (bufFrom a).
Proof.
  apply quiet_same. intros z r z'. unfold bufFrom.
  destruct (_ && _); [|discriminate]. congruence.
Qed.
#[export] Hint Resolve quiet_bufFrom : hush.

Lemma quiet_bufSlice1 (a : Z) : quiet (bufSlice1 a).
Proof. intros z. unfold bufSlice1. hush. Qed.
#[export] Hint Resolve quiet_bufSlice1 : hush.

Lemma quiet_readByte : quiet readByte.
Proof.
  intros z a z'. unfold readByte.
  destruct (rawEnd z >=? len z).
  - intros H. injection H as _ <-. quiet_fields.
  - destruct (at_ (buf z) (rawEnd z)); [|discriminate].
    intros H. injection H as _ <-. quiet_fields.
Qed.
#[export] Hint Resolve quiet_readByte : hush.

Lemma quiet_Buffered : quiet Buffered.
Proof. intros z. unfold Buffered. apply quiet_bufFrom. Qed.
#[export] Hint Resolve quiet_Buffered : hush.

Lemma quiet_Raw : quiet Raw.
Proof. intros z. unfold Raw. apply quiet_bufSlice. Qed.
#[export] Hint Resolve quiet_Raw : hush.

Lemma quiet_skipWhiteSpace_loop (fuel : nat) : quiet (skipWhiteSpace_loop fuel).
Proof. induction fuel as [|f IH]; intros z; cbn [skipWhiteSpace_loop]; hush. Qed.
#[export] Hint Resolve quiet_skipWhiteSpace_loop : hush.

Lemma quiet_skipWhiteSpace (fuel : nat) : quiet (skipWhiteSpace fuel).
Proof. intros z. unfold skipWhiteSpace. hush. Qed.
#[export] Hint Resolve quiet_skipWhiteSpace : hush.

Lemma quiet_readRawEndTag_name (tag : list byte) : quiet (readRawEndTag_name tag).
Proof. induction tag as [|t tag IH]; intros z; cbn [readRawEndTag_name]; hush. Qed.
#[export] Hint Resolve quiet_readRawEndTag_name : hush.

Lemma quiet_readRawEndTag : quiet readRawEndTag.
Proof. intros z. unfold readRawEndTag. hush. Qed.
#[export] Hint Resolve quiet_readRawEndTag : hush.

Lemma quiet_scriptDoubleEscapeName (lower upper : list byte) :
  quiet (scriptDoubleEscapeName lower upper).
Proof.
  revert upper. induction lower as [|l lower IH]; intros upper z;
    destruct upper; cbn [scriptDoubleEscapeName]; hush.
Qed.
#[export] Hint Resolve quiet_scriptDoubleEscapeName : hush.

Lemma quiet_scriptStep (s : ScriptState) : quiet (scriptStep s).
Proof. intros z. destruct s; cbn [scriptStep]; unfold readOrReturn; hush. Qed.
#[export] Hint Resolve quiet_scriptStep : hush.

Lemma quiet_readScript_run (fuel : nat) (s : ScriptState) : quiet (readScript_run fuel s).
Proof.
  revert s. induction fuel as [|f IH]; intros s z; cbn [readScript_run]; hush.
Qed.
#[export] Hint Resolve quiet_readScript_run : hush.

Lemma quiet_readScript (fuel : nat) : quiet (readScript fuel).
Proof. intros z. unfold readScript. hush. Qed.
#[export] Hint Resolve quiet_readScript : hush.

Lemma quiet_readHTMLComment_loop (fuel : nat) (dashes : Z) :
  quiet (readHTMLComment_loop fuel dashes).
Proof.
  revert dashes. induction fuel as [|f IH]; intros dashes z;
    cbn [readHTMLComment_loop]; hush.
Qed.
#[export] Hint Resolve quiet_readHTMLComment_loop : hush.

Lemma quiet_readHTMLComment (fuel : nat) : quiet (readHTMLComment fuel).
Proof. intros z. unfold readHTMLComment. hush. Qed.
#[export] Hint Resolve quiet_readHTMLComment : hush.

Lemma quiet_readUntilCloseAngle_loop (fuel : nat) : quiet (readUntilCloseAngle_loop fuel).
Proof. induction fuel as [|f IH]; intros z; cbn [readUntilCloseAngle_loop]; hush. Qed.
#[export] Hint Resolve quiet_readUntilCloseAngle_loop : hush.

Lemma quiet_readUntilCloseAngle (fuel : nat) : quiet (readUntilCloseAngle fuel).
Proof. intros z. unfold readUntilCloseAngle. hush. Qed.
#[export] Hint Resolve quiet_readUntilCloseAngle : hush.

Lemma quiet_readUntilChar (fuel : nat) (chars : list byte) : quiet (readUntilChar fuel chars).
Proof. induction fuel as [|f IH]; intros z; cbn [readUntilChar]; hush. Qed.
#[export] Hint Resolve quiet_readUntilChar : hush.

Lemma quiet_readString (fuel : nat) (c : byte) : quiet (readString fuel c).
Proof. intros z. unfold readString. hush. Qed.
#[export] Hint Resolve quiet_readString : hush.

Lemma quiet_readBlockComment (fuel : nat) : quiet (readBlockComment fuel).
Proof. induction fuel as [|f IH]; intros z; cbn [readBlockComment]; hush. Qed.
#[export] Hint Resolve quiet_readBlockComment : hush.

Lemma quiet_readCommentOrRegExp (fuel : nat) (boundaryChars : list byte) :
  quiet (readCommentOrRegExp fuel boundaryChars).
Proof. intros z. unfold readCommentOrRegExp. hush. Qed.
#[export] Hint Resolve quiet_readCommentOrRegExp : hush.

Lemma quiet_readTwo : quiet readTwo.
Proof. intros z. unfold readTwo. hush. Qed.
#[export] Hint Resolve quiet_readTwo : hush.

Lemma quiet_readDoctype_name (s : list byte) : quiet (readDoctype_name s).
Proof. induction s as [|k s IH]; intros z; cbn [readDoctype_name]; hush. Qed.
#[export] Hint Resolve quiet_readDoctype_name : hush.

Lemma quiet_readDoctype (fuel : nat) : quiet (readDoctype fuel).
Proof. intros z. unfold readDoctype. hush. Qed.
#[export] Hint Resolve quiet_readDoctype : hush.

Lemma quiet_readCDATA_name (s : list byte) : quiet (readCDATA_name s).
Proof. induction s as [|k s IH]; intros z; cbn [readCDATA_name]; hush. Qed.
#[export] Hint Resolve quiet_readCDATA_name : hush.

Lemma quiet_readCDATA_loop (fuel : nat) (brackets : Z) : quiet (readCDATA_loop fuel brackets).
Proof.
  revert brackets. induction fuel as [|f IH]; intros brackets z;
    cbn [readCDATA_loop]; hush.
Qed.
#[export] Hint Resolve quiet_readCDATA_loop : hush.

Lemma quiet_readCDATA (fuel : nat) : quiet (readCDATA fuel).
Proof. intros z. unfold readCDATA. hush. Qed.
#[export] Hint Resolve quiet_readCDATA : hush.

Lemma quiet_readMarkupDeclaration (fuel : nat) : quiet (readMarkupDeclaration fuel).
Proof. intros z. unfold readMarkupDeclaration. hush. Qed.
#[export] Hint Resolve quiet_readMarkupDeclaration : hush.

Lemma quiet_startTagIs_from (s : list byte) (i : Z) : quiet (startTagIs_from i s).
Proof.
  revert i. induction s as [|k s IH]; intros i z; cbn [startTagIs_from]; hush.
Qed.
#[export] Hint Resolve quiet_startTagIs_from : hush.

Lemma quiet_startTagIs (s : list byte) : quiet (startTagIs s).
Proof. intros z. unfold startTagIs. hush. Qed.
#[export] Hint Resolve quiet_startTagIs : hush.

Lemma quiet_startTagIn (ss : list (list byte)) : quiet (startTagIn ss).
Proof. induction ss as [|s ss IH]; intros z; cbn [startTagIn]; hush. Qed.
#[export] Hint Resolve quiet_startTagIn : hush.

Lemma quiet_hasTag_from (attrs : list (Span * Span)) (s : list byte) :
  quiet (hasTag_from attrs s).
Proof. induction attrs as [|x attrs IH]; intros z; cbn [hasTag_from]; hush. Qed.
#[export] Hint Resolve quiet_hasTag_from : hush.

Lemma quiet_hasTag (s : list byte) : quiet (hasTag s).
Proof. intros z. unfold hasTag. hush. Qed.
#[export] Hint Resolve quiet_hasTag : hush.

Lemma quiet_readTagName_loop (fuel : nat) : quiet (readTagName_loop fuel).
Proof. induction fuel as [|f IH]; intros z; cbn [readTagName_loop]; hush. Qed.
#[export] Hint Resolve quiet_readTagName_loop : hush.

Lemma quiet_readTagName (fuel : nat) : quiet (readTagName fuel).
Proof. intros z. unfold readTagName. hush. Qed.
#[export] Hint Resolve quiet_readTagName : hush.

Lemma quiet_readTagAttrExpression_loop (fuel : nat) :
  quiet (readTagAttrExpression_loop fuel).
Proof. induction fuel as [|f IH]; intros z; cbn [readTagAttrExpression_loop]; hush. Qed.
#[export] Hint Resolve quiet_readTagAttrExpression_loop : hush.

Lemma quiet_readTagAttrExpression (fuel : nat) : quiet (readTagAttrExpression fuel).
Proof. intros z. unfold readTagAttrExpression. hush. Qed.
#[export] Hint Resolve quiet_readTagAttrExpression : hush.

Lemma quiet_detectSpread : quiet detectSpread.
Proof. intros z. unfold detectSpread. hush. Qed.
#[export] Hint Resolve quiet_detectSpread : hush.

Lemma quiet_readTagAttrKey_loop (fuel : nat) : quiet (readTagAttrKey_loop fuel).
Proof. induction fuel as [|f IH]; intros z; cbn [readTagAttrKey_loop]; hush. Qed.
#[export] Hint Resolve quiet_readTagAttrKey_loop : hush.

Lemma quiet_readTagAttrKey (fuel : nat) : quiet (readTagAttrKey fuel).
Proof. intros z. unfold readTagAttrKey. hush. Qed.
#[export] Hint Resolve quiet_readTagAttrKey : hush.

Lemma quiet_readQuoted_loop (fuel : nat) (quote : byte) : quiet (readQuoted_loop fuel quote).
Proof. induction fuel as [|f IH]; intros z; cbn [readQuoted_loop]; hush. Qed.
#[export] Hint Resolve quiet_readQuoted_loop : hush.

Lemma quiet_readUnquoted_loop (fuel : nat) : quiet (readUnquoted_loop fuel).
Proof. induction fuel as [|f IH]; intros z; cbn [readUnquoted_loop]; hush. Qed.
#[export] Hint Resolve quiet_readUnquoted_loop : hush.

Lemma quiet_readTagAttrVal (fuel : nat) : quiet (readTagAttrVal fuel).
Proof. intros z. unfold readTagAttrVal. hush. Qed.
#[export] Hint Resolve quiet_readTagAttrVal : hush.

Lemma quiet_readTag_loop (fuel : nat) (saveAttr : bool) : quiet (readTag_loop fuel saveAttr).
Proof. induction fuel as [|f IH]; intros z; cbn [readTag_loop]; hush. Qed.
#[export] Hint Resolve quiet_readTag_loop : hush.

Lemma quiet_readTag (fuel : nat) (saveAttr : bool) : quiet (readTag fuel saveAttr).
Proof. intros z. unfold readTag. hush. Qed.
#[export] Hint Resolve quiet_readTag : hush.

Lemma quiet_readStartTag (fuel : nat) : quiet (readStartTag fuel).
Proof. intros z. unfold readStartTag. hush. Qed.
#[export] Hint Resolve quiet_readStartTag : hush.

Lemma quiet_readUnclosedTag_loop (n : nat) : quiet (readUnclosedTag_loop n).
Proof. induction n as [|n IH]; intros z; cbn [readUnclosedTag_loop]; hush. Qed.
#[export] Hint Resolve quiet_readUnclosedTag_loop : hush.

Lemma quiet_readUnclosedTag : quiet readUnclosedTag.
Proof. intros z. unfold readUnclosedTag. hush. Qed.
#[export] Hint Resolve quiet_readUnclosedTag : hush.

Lemma quiet_writeBack (a : Z) (bs : list byte) : quiet (writeBack a bs).
Proof. intros z. unfold writeBack. hush. Qed.
#[export] Hint Resolve quiet_writeBack : hush.

Lemma quiet_Text : quiet Text.
Proof. intros z. unfold Text. hush. Qed.
#[export] Hint Resolve quiet_Text : hush.

Lemma quiet_TagName : quiet TagName.
Proof. intros z. unfold TagName. hush. Qed.
#[export] Hint Resolve quiet_TagName : hush.

Lemma quiet_tagIsMarkdown : quiet tagIsMarkdown.
Proof. intros z. unfold tagIsMarkdown. hush. Qed.
#[export] Hint Resolve quiet_tagIsMarkdown : hush.

Lemma quiet_readToEOF (fuel : nat) : quiet (readToEOF fuel).
Proof. induction fuel as [|f IH]; intros z; cbn [readToEOF]; hush. Qed.
#[export] Hint Resolve quiet_readToEOF : hush.

Section QuietToken.

Variable unescape : list byte -> list byte.

Lemma quiet_TagAttr : quiet (TagAttr unescape).
Proof.
  intros z. unfold TagAttr. hush.
Qed.

Lemma quiet_Token_attrs (fuel : nat) (more : bool) : quiet (Token_attrs unescape fuel more).
Proof.
  revert more. induction fuel as [|f IH]; intros more z; cbn [Token_attrs];
    [apply quietAt_fuel|].
  destruct more; [|apply quietAt_ret].
  apply quietAt_bind; [apply quiet_TagAttr | intros; apply IH].
Qed.

Lemma quiet_Token_Type (fuel : nat) : quiet (Token_Type unescape fuel).
Proof.
  intros z. unfold Token_Type. apply quietAt_bind_gets.
  destruct (tt z); try apply quietAt_ret.
  all: first
    [ (apply quietAt_bind; [apply quiet_Text | intros; apply quietAt_ret])
    | (apply quietAt_bind; [apply quiet_TagName|]; intros;
       apply quietAt_bind; [apply quiet_Token_attrs | intros; apply quietAt_ret]) ].
Qed.

Lemma quiet_readRawOrRCDATA_loop (fuel : nat) : quiet (readRawOrRCDATA_loop fuel).
Proof. induction fuel as [|f IH]; intros z; cbn [readRawOrRCDATA_loop]; hush. Qed.

Lemma quiet_readRawOrRCDATA (fuel : nat) : quiet (readRawOrRCDATA unescape fuel).
Proof.
  intros z. unfold readRawOrRCDATA.
  apply quietAt_bind; [apply quiet_Token_Type|]. intros t z1 _.
  destruct (TokenType_eqb t SelfClosingTagToken); [hush|].
  apply quietAt_bind_gets. destruct (bytes_eqb _ _); [hush|].
  apply quietAt_bind; [apply quiet_readRawOrRCDATA_loop|]. intros. hush.
Qed.

End QuietToken.

Lemma ensures_bind_quiet {A C} (x : M A) (k : A -> M C) (z : Tokenizer)
      (Q : C -> Tokenizer -> Prop) :
  quiet x -> (forall a z1, Quiet z z1 -> ensures (k a) z1 Q) -> ensures (bind x k) z Q.
Proof.
  intros Hq Hk. apply ensures_bind. intros a z1 E. apply Hk. exact (Hq _ _ _ E).
Qed.

Lemma noFence_pass (f0 : FrontmatterState) (c : Ctl) (z : Tokenizer) :
  noFence c z -> fencePass f0 L_loop c z.
Proof. destruct c; cbn; tauto. Qed.

(** The equations between frontmatter states that are at hand. *)
Ltac fm_facts :=
  repeat match goal with
         | K : Quiet _ _ |- _ =>
             let F := fresh "F" in
             pose proof (quiet_fm _ _ K) as F; clear K; proj_simpl_in F
         end;
  repeat match goal with
         | H : fm _ = _ |- _ => progress proj_simpl_in H
         end.

Ltac fence_leaf :=
  unfold fencePass, noFence; proj_simpl;
  first [ exact I
        | discriminate
        | (intros; discriminate)
        | (fm_facts; congruence)
        | (intros _; fm_facts; left; split; congruence)
        | (intros _; fm_facts; right; split; congruence) ].

Ltac fence_step :=
  cbv beta zeta; unfold id;
  lazymatch goal with
  | |- ensures (match (if ?b then _ else _) with _ => _ end) _ _ => destruct b eqn:?
  | |- ensures (match (match ?x with _ => _ end) with _ => _ end) _ _ => destruct x eqn:?
  | |- ensures (bind (gets _) _) _ _ => apply ensures_bind_gets
  | |- ensures (bind (ret _) _) _ _ => apply ensures_bind_ret
  | |- ensures (bind (modify _) _) _ _ => apply ensures_bind_modify
  | |- ensures (bind (panic _) _) _ _ => apply ensures_bind_panic
  | |- ensures (bind (bind _ _) _) _ _ => apply ensures_assoc
  | |- ensures (bind (if ?b then _ else _) _) _ _ => destruct b eqn:?
  | |- ensures (bind (match ?x with _ => _ end) _) _ _ => destruct x eqn:?
  | |- ensures (bind _ _) _ _ =>
      apply ensures_bind_quiet; [solve [auto with hush] | intros ? ? ?]
  | |- ensures (flushText _) _ _ => unfold flushText, returnToken
  | |- ensures (returnToken _) _ _ => unfold returnToken
  | |- ensures (if ?b then _ else _) _ _ => destruct b eqn:?
  | |- ensures (match ?x with _ => _ end) _ _ => destruct x eqn:?
  | |- ensures (ret _) _ _ => apply ensures_ret; fence_leaf
  | |- ensures (panic _) _ _ => apply ensures_panic
  | |- ensures out_of_fuel _ _ => apply ensures_fuel
  end.

Ltac fence := repeat fence_step.

Section Fences.

Variable unescape : list byte -> list byte.

Lemma readMarkupDeclaration_no_fence (fuel : nat) (z : Tokenizer) :
  ensures (readMarkupDeclaration fuel) z (fun t _ => t <> FrontmatterFenceToken).
Proof.
  unfold readMarkupDeclaration.
  repeat first [ ensure_step | (apply ensures_ret; discriminate) ].
Qed.

Lemma readStartTag_no_fence (fuel : nat) (z : Tokenizer) :
  ensures (readStartTag fuel) z (fun t _ => t <> FrontmatterFenceToken).
Proof.
  unfold readStartTag.
  repeat first [ ensure_step | (apply ensures_ret; discriminate) ].
Qed.

Lemma fence_loop_startTag (fuel : nat) (z : Tokenizer) :
  ensures (loop_startTag fuel) z noFence.
Proof.
  unfold loop_startTag. apply ensures_bind. intros _ z1 _.
  apply ensures_bind. intros t z2 Ht. apply readStartTag_no_fence in Ht.
  ensure. destruct a; [|destruct (md_eqb _ _)];
    apply ensures_ret; unfold noFence; proj_simpl; exact Ht.
Qed.

Lemma fence_loop_endTag (fuel : nat) (z : Tokenizer) :
  ensures (loop_endTag fuel) z noFence.
Proof.
  unfold loop_endTag, closeInitialFrontmatter.
  repeat first [ fence_step ].
Qed.

Lemma fence_loop_comment (fuel : nat) (c : byte) (z : Tokenizer) :
  ensures (loop_comment fuel c) z noFence.
Proof.
  unfold loop_comment. destruct (beq c "!").
  - apply ensures_bind. intros t z1 Ht. apply readMarkupDeclaration_no_fence in Ht.
    unfold returnToken. apply ensures_bind_modify. apply ensures_ret.
    unfold noFence. proj_simpl. exact Ht.
  - fence.
Qed.

Lemma fence_loop_body (fuel : nat) (z : Tokenizer) :
  ensures (loop_body fuel) z (fencePass (fm z) L_loop).
Proof.
  unfold loop_body.
  repeat first
    [ (apply (ensures_weaken _ _ _ _ (noFence_pass _));
       first [ apply fence_loop_startTag | apply fence_loop_endTag
             | apply fence_loop_comment ])
    | fence_step ].
Qed.

Lemma fence_frontmatter_body (fuel : nat) (z : Tokenizer) :
  ensures (frontmatter_body fuel) z (fencePass (fm z) L_frontmatter_loop).
Proof. unfold frontmatter_body. fence. Qed.

Lemma fence_raw_with_expression_body (fuel : nat) (z : Tokenizer) :
  ensures (raw_with_expression_body fuel) z (fencePass (fm z) L_raw_with_expression_loop).
Proof. unfold raw_with_expression_body. fence. Qed.

Lemma fence_expression_body (fuel : nat) (z : Tokenizer) :
  ensures (expression_body fuel) z (fencePass (fm z) L_expression_loop).
Proof. unfold expression_body. fence. Qed.

Lemma fence_body (fuel : nat) (l : Label) (z : Tokenizer) :
  ensures (body fuel l) z (fencePass (fm z) l).
Proof.
  destruct l; cbn [body];
    [ apply fence_loop_body | apply fence_frontmatter_body
    | apply fence_raw_with_expression_body | apply fence_expression_body ].
Qed.

Lemma run_fence (fuel : nat) :
  forall (l : Label) (z z' : Tokenizer),
    run fuel l z = Ok () z' -> tt z' = FrontmatterFenceToken ->
    fenceStep (fm z) (fm z').
Proof.
  induction fuel as [|f IH]; intros l z z' H Ht; [discriminate|].
  cbn [run] in H. apply bind_Ok in H as (c & z1 & Hb & H).
  pose proof (fence_body _ _ _ _ _ Hb) as Hc.
  destruct c.
  - cbn [fencePass] in Hc. rewrite <- Hc. exact (IH _ _ _ H Ht).
  - apply bind_Ok in H as (n & z2 & Ha & H).
    destruct l; cbn [afterLoop fencePass] in Ha, Hc.
    + unfold id in Ha. rewrite bind_gets in Ha.
      destruct (rawStart z1 <? rawEnd z1); rewrite ?bind_modify in Ha;
        injection Ha as <- <-; injection H as <-; discriminate Ht.
    + rewrite bind_modify in Ha. injection Ha as <- <-.
      rewrite <- Hc. exact (IH _ _ _ H Ht).
    + rewrite !bind_modify in Ha. injection Ha as <- <-.
      rewrite <- Hc. exact (IH _ _ _ H Ht).
    + unfold id in Ha. rewrite bind_gets in Ha.
      destruct (rawStart z1 <? rawEnd z1); rewrite ?bind_modify in Ha;
        injection Ha as <- <-; injection H as <-; discriminate Ht.
  - cbn [fencePass] in Hc. rewrite <- Hc. exact (IH _ _ _ H Ht).
  - injection H as <-. exact (Hc Ht).
Qed.

Lemma Next_dispatch_fence (fuel : nat) (z z' : Tokenizer) :
  Next_dispatch fuel z = Ok () z' -> tt z' = FrontmatterFenceToken ->
  fenceStep (fm z) (fm z').
Proof.
  unfold Next_dispatch. rewrite !bind_modify, bind_gets. unfold id.
  destruct (negb _); [|destruct (isAtExpressionBoundary _)]; apply run_fence.
Qed.

Lemma Next_rawText_fence (fuel : nat) (z z' : Tokenizer) :
  Next_rawText fuel z = Ok () z' -> tt z' = FrontmatterFenceToken ->
  fenceStep (fm z) (fm z').
Proof.
  unfold Next_rawText. rewrite bind_gets. unfold id.
  destruct (dataEnd z >? dataStart z).
  - rewrite bind_modify. intros H. injection H as <-. discriminate.
  - apply Next_dispatch_fence.
Qed.

(** A call of [Next] that returns a fence has moved the frontmatter state
    by one step. *)
Lemma Next_fence (fuel : nat) (z : Tokenizer) (t : TokenType) (z' : Tokenizer) :
  Next unescape fuel z = Ok t z' -> t = FrontmatterFenceToken ->
  fenceStep (fm z) (fm z').
Proof.
  unfold Next. rewrite !bind_modify, bind_gets. proj_simpl.
  set (z0 := set_prevTokenType _ _).
  assert (F0 : fm z0 = fm z) by reflexivity.
  intros H. apply bind_Ok in H as ([] & z1 & Hpro & H).
  assert (F1 : fm z1 = fm z).
  { rewrite <- F0. destruct (fm_eqb (fm z) FrontmatterOpen).
    - apply bind_Ok in Hpro as (t0 & z2 & Ht0 & Hpro).
      apply (quiet_Token_Type unescape) in Ht0. destruct Ht0 as [Ft _ _ _ _].
      rewrite <- Ft.
      destruct t0; first [ injection Hpro as <-; reflexivity
                         | (unfold modify in Hpro; injection Hpro as <-; reflexivity) ].
    - injection Hpro as <-. reflexivity. }
  rewrite bind_gets in H.
  apply bind_Ok in H as ([] & z2 & Hmid & H). injection H as <- <-.
  intros Ht. rewrite <- F1.
  destruct (rawTag z1) as [|c tag].
  - exact (Next_dispatch_fence _ _ _ Hmid Ht).
  - destruct (bytes_eqb (c :: tag) (B "plaintext")).
    + apply bind_Ok in Hmid as ([] & z3 & Heof & Hmid). rewrite !bind_modify in Hmid.
      apply quiet_readToEOF in Heof. destruct Heof as [Fe _ _ _ _].
      rewrite <- Fe. exact (Next_rawText_fence _ _ _ Hmid Ht).
    + destruct (_ || _).
      * exact (run_fence _ _ _ _ Hmid Ht).
      * apply bind_Ok in Hmid as ([] & z3 & Hraw & Hmid).
        apply (quiet_readRawOrRCDATA unescape) in Hraw. destruct Hraw as [Fr _ _ _ _].
        rewrite <- Fr. exact (Next_rawText_fence _ _ _ Hmid Ht).
Qed.

Lemma fenceStep_rank (a b : FrontmatterState) :
  fenceStep a b -> fmRank b = S (fmRank a).
Proof. intros [[-> ->]|[-> ->]]; reflexivity. Qed.

Lemma Next_rank (fuel : nat) (z : Tokenizer) (t : TokenType) (z' : Tokenizer) :
  Next unescape fuel z = Ok t z' -> (fmRank (fm z) <= fmRank (fm z'))%nat.
Proof.
  intros HN.
  pose proof (kept_fm _ _ (Next_after_start unescape fuel z t z' HN)) as Hf.
  proj_simpl_in Hf.
  destruct (fm z), (fm z'); try discriminate; cbn; lia.
Qed.

(** X28: [Next] returns a frontmatter fence only when that call moves the
    frontmatter state by one step, from initial to open or from open to
    closed; so no fence is returned once the frontmatter is closed. *)
Theorem fence_moves_frontmatter (fuel : nat) (z z' : Tokenizer) :
  Next unescape fuel z = Ok FrontmatterFenceToken z' ->
  (fm z = FrontmatterInitial /\ fm z' = FrontmatterOpen) \/
  (fm z = FrontmatterOpen /\ fm z' = FrontmatterClosed).
Proof. intros H. exact (Next_fence _ _ _ _ H eq_refl). Qed.

(** X29: Whatever the input and however often [Next] is called, the tokens
    before the first error hold at most two frontmatter fences: at most
    one when the frontmatter is already open, none when it is closed. *)
Theorem at_most_two_fences (fuel n : nat) :
  forall z : Tokenizer,
    (countKind FrontmatterFenceToken (fst (tokens unescape fuel n z))
     + fmRank (fm z) <= 2)%nat.
Proof.
  induction n as [|n IH]; intros z.
  - cbn. destruct (fm z); cbn; lia.
  - cbn [tokens].
    destruct (Next unescape fuel z) as [t z1| |] eqn:HN;
      try (cbn; destruct (fm z); cbn; lia).
    specialize (IH z1). destruct (tokens unescape fuel n z1) as [l s] eqn:Hl.
    cbn [fst] in IH.
    pose proof (Next_rank _ _ _ _ HN) as Hr.
    destruct t; cbn [fst];
      try (unfold countKind in *; cbn [List.filter kind tokOf TokenType_eqb length] in *; lia).
    pose proof (fenceStep_rank _ _ (Next_fence _ _ _ _ HN eq_refl)) as Hs.
    unfold countKind in *.
    cbn [List.filter kind tokOf TokenType_eqb length] in *. lia.
Qed.

End Fences.

Lemma fence_moves_frontmatter_witness :
  Next noUnescape 20 (stateAfter 2 inputFenced)
  = Ok FrontmatterFenceToken (stateAfter 3 inputFenced) /\
  ((fm (stateAfter 2 inputFenced) = FrontmatterInitial /\
    fm (stateAfter 3 inputFenced) = FrontmatterOpen) \/
   (fm (stateAfter 2 inputFenced) = FrontmatterOpen /\
    fm (stateAfter 3 inputFenced) = FrontmatterClosed)).
Proof.
  split; [vm_compute; reflexivity|].
  apply (fence_moves_frontmatter noUnescape 20 (stateAfter 2 inputFenced)).
  vm_compute. reflexivity.
Defined.

Lemma bind_Panicked {A C} (x : M A) (k : A -> M C) (z : Tokenizer) (p : PanicValue) :
  bind x k z = Panicked p ->
  x z = Panicked p \/ exists a z1, x z = Ok a z1 /\ k a z1 = Panicked p.
Proof.
  unfold bind. destruct (x z) as [a z1|q|].
  - intros H. right. eauto.
  - intros H. left. injection H as <-. reflexivity.
  - discriminate.
Qed.

Lemma boundsOnly_bind {A C} (x : M A) (k : A -> M C) :
  boundsOnly x -> (forall a, boundsOnly (k a)) -> boundsOnly (bind x k).
Proof.
  intros Hx Hk z p H. apply bind_Panicked in H as [H | (a & z1 & _ & H)].
  - exact (Hx _ _ H).
  - exact (Hk _ _ _ H).
Qed.

Lemma boundsOnly_pure {A} (x : M A) :
  (forall z, exists a z', x z = Ok a z') -> boundsOnly x.
Proof. intros H z p E. destruct (H z) as (a & z' & E'). congruence. Qed.

Lemma boundsOnly_readByte : boundsOnly readByte.
Proof.
  intros z p. unfold readByte. destruct (rawEnd z >=? len z); [discriminate|].
  destruct (at_ (buf z) (rawEnd z)); [discriminate|]. intros H. injection H as <-. reflexivity.
Qed.

Lemma boundsOnly_bufSlice1 (a : Z) : boundsOnly (bufSlice1 a).
Proof.
  intros z p. unfold bufSlice1, bind, bufSlice.
  destruct ((0 <=? a) && (a <=? a + 1) && leCap (a + 1) z).
  - destruct (sub (backing z) a (a + 1)); [|discriminate].
    intros H. injection H as <-. reflexivity.
  - intros H. injection H as <-. reflexivity.
Qed.

Lemma boundsOnly_readUntilChar (fuel : nat) (chars : list byte) :
  boundsOnly (readUntilChar fuel chars).
Proof.
  induction fuel as [|f IH]; [discriminate|]. cbn [readUntilChar].
  apply boundsOnly_bind; [exact boundsOnly_readByte|]. intros c.
  intros z p. rewrite bind_gets. destruct (isErr z); [discriminate|].
  destruct (beq c BSL).
  - unfold rawEnd_add. rewrite bind_modify, bind_gets. intros H.
    apply bind_Panicked in H as [H | (c' & z1 & _ & H)].
    + exact (boundsOnly_bufSlice1 _ _ _ H).
    + destruct (memb c' chars); [rewrite bind_modify in H|]; exact (IH _ _ H).
  - destruct (memb c chars); [discriminate | apply IH].
Qed.

Lemma boundsOnly_readString (fuel : nat) (c : byte) : boundsOnly (readString fuel c).
Proof.
  unfold readString.
  repeat match goal with
         | |- boundsOnly (if ?b then _ else _) => destruct b
         end; try apply boundsOnly_readUntilChar.
  discriminate.
Qed.

Lemma boundsOnly_readBlockComment (fuel : nat) : boundsOnly (readBlockComment fuel).
Proof.
  induction fuel as [|f IH]; [discriminate|]. cbn [readBlockComment].
  apply boundsOnly_bind; [apply boundsOnly_readUntilChar|]. intros _.
  apply boundsOnly_bind; [exact boundsOnly_readByte|]. intros c.
  destruct (beq c "/"); [discriminate | exact IH].
Qed.

Lemma boundsOnly_readCommentOrRegExp (fuel : nat) (bs : list byte) :
  boundsOnly (readCommentOrRegExp fuel bs).
Proof.
  unfold readCommentOrRegExp.
  apply boundsOnly_bind; [exact boundsOnly_readByte|]. intros c.
  destruct (beq c "/"); [apply boundsOnly_readUntilChar|].
  destruct (beq c "*"); [apply boundsOnly_readBlockComment|].
  apply boundsOnly_bind; [discriminate|]. intros _. apply boundsOnly_readUntilChar.
Qed.

(** The scan of an attribute expression panics with a message only where
    it has read a slash and then another one. *)
Lemma attr_expression_fault_origin (fuel : nat) :
  forall (z : Tokenizer) (msg : list byte),
    readTagAttrExpression_loop fuel z = Panicked (Fatal msg) ->
    msg = msgBlockComment /\ twoSlashes (buf z).
Proof.
  induction fuel as [|f IH]; intros z msg H; [discriminate|].
  cbn [readTagAttrExpression_loop] in H.
  apply bind_Panicked in H as [H | (c & z1 & Hc & H)];
    [apply boundsOnly_readByte in H; discriminate|].
  pose proof (kept_buf _ _ (keeps_readByte _ _ _ Hc)) as Hb1.
  rewrite bind_gets in H. destruct (isErr z1) eqn:He1; [discriminate|].
  assert (Hrec : forall z', buf z' = buf z ->
                   readTagAttrExpression_loop f z' = Panicked (Fatal msg) ->
                   msg = msgBlockComment /\ twoSlashes (buf z)).
  { intros z' Hb H'. rewrite <- Hb. exact (IH _ _ H'). }
  destruct (beq c "/" || isQuote c) eqn:Ecq.
  - rewrite bind_gets in H.
    apply bind_Panicked in H as [H | ([] & z2 & H2 & H)].
    + destruct (beq c "/") eqn:Ec.
      * apply beq_eq in Ec. subst c.
        apply bind_Panicked in H as [H | (next & z2 & Hn & H)];
          [apply boundsOnly_readByte in H; discriminate|].
        destruct (beq next "/") eqn:En.
        -- apply beq_eq in En. subst next. injection H as <-. split; [reflexivity|].
           apply readByte_Ok in Hc as [(He & _) | (-> & Hat)]; [congruence|].
           assert (Hat2 : at_ (buf z) (rawEnd z + 1) = Some "/"%byte).
           { revert Hn. unfold readByte.
             destruct (rawEnd (set_rawEnd (rawEnd z + 1) z)
                       >=? len (set_rawEnd (rawEnd z + 1) z));
               [intros E; injection E as E _; discriminate E|].
             change (buf (set_rawEnd (rawEnd z + 1) z)) with (buf z).
             change (rawEnd (set_rawEnd (rawEnd z + 1) z)) with (rawEnd z + 1).
             destruct (at_ (buf z) (rawEnd z + 1)); [|discriminate].
             intros E. injection E as -> _. reflexivity. }
           exists (rawEnd z). split; [exact Hat | exact Hat2].
        -- apply bind_Panicked in H as [H | ([] & z3 & _ & H)];
             [apply boundsOnly_readCommentOrRegExp in H; discriminate|].
           rewrite bind_gets in H.
           apply bind_Panicked in H as [H | (lastChar & z4 & _ & H)];
             [apply boundsOnly_bufSlice1 in H; discriminate|].
           destruct (beq lastChar "}"); discriminate.
      * apply boundsOnly_readString in H. discriminate.
    + rewrite !bind_modify in H. refine (Hrec _ _ H).
      cbn. rewrite <- Hb1.
      destruct (beq c "/").
      * apply bind_Ok in H2 as (next & z3 & Hn & H2).
        pose proof (kept_buf _ _ (keeps_readByte _ _ _ Hn)) as Hb3.
        destruct (beq next "/"); [discriminate|].
        apply bind_Ok in H2 as ([] & z4 & H4 & H2).
        pose proof (kept_buf _ _ (keeps_readCommentOrRegExp _ _ _ _ _ H4)) as Hb4.
        rewrite bind_gets in H2.
        apply bind_Ok in H2 as (lc & z5 & H5 & H2).
        pose proof (kept_buf _ _ (keeps_bufSlice1 _ _ _ _ H5)) as Hb5.
        destruct (beq lc "}"); injection H2 as <-; cbn; congruence.
      * exact (kept_buf _ _ (keeps_readString _ _ _ _ _ H2)).
  - destruct (beq c "{").
    + rewrite bind_modify in H. refine (Hrec _ _ H). cbn. exact Hb1.
    + destruct (beq c "}").
      * rewrite bind_modify, bind_gets in H.
        match type of H with
        | context [if ?b then _ else _] => destruct b; [discriminate|]
        end.
        refine (Hrec _ _ H). cbn. exact Hb1.
      * apply (Hrec _ Hb1 H).
Qed.



Section Spans.

Variable unescape : list byte -> list byte.

Lemma outerBraces_skipPlain (s : list byte) :
  forall (pos : Z) (depth : nat),
    outerBraces pos depth s
    = outerBraces (pos + Z.of_nat (length s) - Z.of_nat (length (skipPlain s))) depth
                  (skipPlain s).
Proof.
  induction s as [|c r IH]; intros pos depth.
  - reflexivity.
  - cbn [skipPlain]. destruct (isBrace c) eqn:E.
    + f_equal. lia.
    + unfold isBrace in E. apply orb_false_iff in E as [E1 E2].
      cbn [outerBraces]. rewrite E1, E2. rewrite IH. f_equal. cbn [length]. lia.
Qed.

Lemma exprSpans_cons (t : TokenType) (z : Tokenizer) (l : list Tok) :
  exprSpans (tokOf t z :: l)
  = match t with
    | StartExpressionToken | EndExpressionToken => (t, raw z) :: exprSpans l
    | _ => exprSpans l
    end.
Proof. unfold exprSpans. cbn [List.filter]. unfold isExprToken at 1. destruct t; reflexivity. Qed.

(** At a token boundary the read position is what is left of the input
    away from its end. *)
Lemma Boundary_end (z : Tokenizer) (rem : list byte) (f : FrontmatterState)
      (st : list Z) (ob : bool) :
  Boundary z rem f st ob -> rawEnd z = len z - Z.of_nat (length rem).
Proof.
  intros [(done & cur & H) | (-> & Hfin & _)].
  - unfold len. rewrite (sc_buf _ _ _ _ _ _ _ _ H), (sc_end _ _ _ _ _ _ _ _ H).
    rewrite !length_app. lia.
  - rewrite (fin_end _ _ Hfin). cbn. lia.
Qed.

(** The raw span of the token between two boundaries. *)
Lemma Next_boundary_span (F : nat) (z z' : Tokenizer) (t : TokenType)
      (rem rem' : list byte) (f f' : FrontmatterState) (st st' : list Z) (ob ob' : bool) :
  Boundary z rem f st ob -> Next unescape F z = Ok t z' -> Boundary z' rem' f' st' ob' ->
  raw z' = mkSpan (len z - Z.of_nat (length rem)) (len z - Z.of_nat (length rem')) /\
  len z' = len z.
Proof.
  intros HB HN HB'.
  pose proof (Next_after_start unescape F z t z' HN) as K.
  pose proof (kept_start _ _ K) as Hs. pose proof (kept_buf _ _ K) as Hb.
  proj_simpl_in Hs. proj_simpl_in Hb.
  assert (Hlen : len z' = len z) by (unfold len; rewrite Hb; reflexivity).
  split; [|exact Hlen].
  apply Boundary_end in HB. apply Boundary_end in HB'.
  rewrite HB in Hs. rewrite Hlen in HB'.
  unfold rawStart in Hs. unfold rawEnd in HB'.
  destruct (raw z') as [a b]. cbn in Hs, HB'. subst a b. reflexivity.
Qed.

(** The expression tokens of an input without slashes, quotes, [<] and
    runs of three dashes are the braces that [outerBraces] picks. *)
Lemma tokens_expression_spans (F : nat) :
  forall (k : nat) (rem : list byte), (length rem <= k)%nat ->
  forall (z : Tokenizer) (depth : nat) (st : list Z) (ob : bool) (n : nat),
    Boundary z rem FrontmatterInitial st ob ->
    stackAt depth st ob ->
    forallb (okByte FrontmatterInitial) rem = true ->
    noThreeDashes 0 rem = true ->
    balanced depth rem = true ->
    (length rem + 3 <= F)%nat -> (length rem < n)%nat ->
    exprSpans (fst (tokens unescape F n z))
    = outerBraces (len z - Z.of_nat (length rem)) depth rem.
Proof.
  induction k as [|k IH]; intros rem Hk z depth st ob n HB Hst Hok Hdash Hbal HF Hn.
  - destruct rem; [|cbn in Hk; lia].
    destruct n as [|n]; [cbn in Hn; lia|].
    destruct (Next_initial unescape F z [] st ob HB Hok Hdash HF) as (z' & HN & Hs).
    rewrite (tokens_error _ _ _ _ _ HN). reflexivity.
  - destruct rem as [|c r].
    { apply (IH [] ltac:(cbn; lia) z depth st ob n); auto. }
    destruct n as [|n]; [lia|].
    destruct (Next_initial unescape F z (c :: r) st ob HB Hok Hdash HF) as (z' & HN & HB').
    rewrite (tokens_cons _ _ _ _ _ _ HN (exprStep_not_error c st ob)).
    cbn [fst snd]. rewrite exprSpans_cons.
    destruct (Next_boundary_span F z z' _ _ _ _ _ _ _ _ _ HB HN HB') as [Hraw Hlen].
    cbn [length] in Hk, HF, Hn. pose proof (restAfter_length c r st) as Hle.
    cbn [forallb] in Hok. apply andb_prop in Hok as [Hc Hok].
    assert (Hrec : forall depth' ,
               stackAt depth' (fst (snd (exprStep c st ob))) (snd (snd (exprStep c st ob))) ->
               forallb (okByte FrontmatterInitial) (restAfter c r st) = true ->
               noThreeDashes 0 (restAfter c r st) = true ->
               balanced depth' (restAfter c r st) = true ->
               exprSpans (fst (tokens unescape F n z'))
               = outerBraces (len z - Z.of_nat (length (restAfter c r st))) depth'
                             (restAfter c r st)).
    { intros depth' Hst' Hok' Hdash' Hbal'. rewrite <- Hlen.
      apply (IH (restAfter c r st) ltac:(lia) z' depth' _ _ n HB' Hst' Hok' Hdash' Hbal');
        lia. }
    assert (Hpos : len z - Z.of_nat (length (c :: r)) + 1 = len z - Z.of_nat (length r))
      by (cbn [length]; lia).
    cbn [noThreeDashes balanced] in Hdash, Hbal. cbn [outerBraces].
    destruct (beq c "{") eqn:Eo.
    + (* an opening brace *)
      apply beq_eq in Eo. subst c. change (beq "{" "-") with false in Hdash.
      revert Hraw HB' Hrec. unfold exprStep, restAfter. change (beq "{" "{") with true.
      cbv iota. intros Hraw HB' Hrec.
      destruct depth as [|d]; destruct Hst as [-> ->]; cbn [fst snd] in *.
      * rewrite Hraw, Hpos. f_equal. apply (Hrec 1%nat); auto. split; reflexivity.
      * rewrite Hpos. apply (Hrec (S (S d))); auto.
        split; [|reflexivity]. unfold bumpTop. cbn. f_equal. lia.
    + destruct (beq c "}") eqn:Ec.
      * (* a closing brace *)
        apply beq_eq in Ec. subst c. change (beq "}" "-") with false in Hdash.
        revert Hraw HB' Hrec. unfold exprStep, restAfter. change (beq "}" "{") with false.
        change (beq "}" "}") with true. cbv iota. intros Hraw HB' Hrec.
        destruct depth as [|[|d]]; [discriminate| |]; destruct Hst as [-> ->].
        -- change (topOf [Z.of_nat 0]) with (Some 0) in *. cbn [fst snd removelast] in *.
           rewrite Hraw, Hpos. f_equal. apply (Hrec 0%nat); auto. split; reflexivity.
        -- change (topOf [Z.of_nat (S d)]) with (Some (Z.of_nat (S d))) in *.
           assert (Hp : exists p, Z.of_nat (S d) = Z.pos p) by (eexists; reflexivity).
           destruct Hp as [p Hp]. rewrite Hp in *. cbn [fst snd] in *.
           rewrite Hpos, (outerBraces_skipPlain r).
           replace (len z - Z.of_nat (length r) + Z.of_nat (length r)
                    - Z.of_nat (length (skipPlain r)))
             with (len z - Z.of_nat (length (skipPlain r))) by lia.
           apply (Hrec (S d)).
           ++ split; [|reflexivity]. unfold bumpTop. cbn [rev app]. f_equal. lia.
           ++ apply forallb_skipPlain. exact Hok.
           ++ apply (noThreeDashes_skipPlain _ _ Hdash).
           ++ rewrite balanced_skipPlain. exact Hbal.
      * (* any other byte *)
        revert Hraw HB' Hrec. unfold exprStep, restAfter. rewrite Eo, Ec. cbn [fst snd].
        intros Hraw HB' Hrec.
        rewrite Hpos, (outerBraces_skipPlain r).
        replace (len z - Z.of_nat (length r) + Z.of_nat (length r)
                 - Z.of_nat (length (skipPlain r)))
          with (len z - Z.of_nat (length (skipPlain r))) by lia.
        apply (Hrec depth).
        -- exact Hst.
        -- apply forallb_skipPlain. exact Hok.
        -- destruct (beq c "-").
           ++ apply andb_prop in Hdash as [_ Hdash].
              apply (noThreeDashes_skipPlain _ _ Hdash).
           ++ apply (noThreeDashes_skipPlain _ _ Hdash).
        -- rewrite balanced_skipPlain. exact Hbal.
Qed.

End Spans.

Lemma ensures_bind_hush {A C} (x : M A) (k : A -> M C) (z : Tokenizer)
      (Q : C -> Tokenizer -> Prop) :
  quiet x -> (forall a z1, Quiet z z1 -> ensures (k a) z1 Q) -> ensures (bind x k) z Q.
Proof.
  intros Hq Hk. apply ensures_bind. intros a z1 E. apply Hk. exact (Hq _ _ _ E).
Qed.

(** The equations between stacks that are at hand. *)
Ltac stack_facts :=
  repeat match goal with
         | K : Quiet _ _ |- _ =>
             let F := fresh "F" in
             pose proof (quiet_stack _ _ K) as F; clear K
         end;
  repeat match goal with
         | H : context [if ?b then _ else _] |- _ => destruct b
         | |- context [if ?b then _ else _] => destruct b
         end;
  repeat match goal with
         | H : expressionStack _ = _ |- _ => progress proj_simpl_in H
         end;
  proj_simpl.

Ltac stack_leaf :=
  unfold stackPass; split;
  [ stack_facts; congruence
  | first [ (intros E; discriminate E)
          | (intros _; stack_facts; split; discriminate) ] ].

Ltac stack_step :=
  cbv beta zeta; unfold id;
  lazymatch goal with
  | |- ensures (match (if ?b then _ else _) with _ => _ end) _ _ => destruct b eqn:?
  | |- ensures (match (match ?x with _ => _ end) with _ => _ end) _ _ => destruct x eqn:?
  | |- ensures (bind (gets _) _) _ _ => apply ensures_bind_gets
  | |- ensures (bind (ret _) _) _ _ => apply ensures_bind_ret
  | |- ensures (bind (modify _) _) _ _ => apply ensures_bind_modify
  | |- ensures (bind (panic _) _) _ _ => apply ensures_bind_panic
  | |- ensures (bind (bind _ _) _) _ _ => apply ensures_assoc
  | |- ensures (bind (if ?b then _ else _) _) _ _ => destruct b eqn:?
  | |- ensures (bind (match ?x with _ => _ end) _) _ _ => destruct x eqn:?
  | |- ensures (bind _ _) _ _ =>
      apply ensures_bind_hush; [solve [auto with hush] | intros ? ? ?]
  | |- ensures (flushText _) _ _ => unfold flushText, returnToken
  | |- ensures (returnToken _) _ _ => unfold returnToken
  | |- ensures (if ?b then _ else _) _ _ => destruct b eqn:?
  | |- ensures (match ?x with _ => _ end) _ _ => destruct x eqn:?
  | |- ensures (ret _) _ _ => apply ensures_ret; stack_leaf
  | |- ensures (panic _) _ _ => apply ensures_panic
  | |- ensures out_of_fuel _ _ => apply ensures_fuel
  end.

Ltac stack_pass := repeat stack_step.

Section Counters.

Variable unescape : list byte -> list byte.

Lemma readMarkupDeclaration_kind (fuel : nat) (z : Tokenizer) :
  ensures (readMarkupDeclaration fuel) z
          (fun t _ => t <> StartExpressionToken /\ t <> EndExpressionToken).
Proof.
  unfold readMarkupDeclaration.
  repeat first [ ensure_step | (apply ensures_ret; split; discriminate) ].
Qed.

Lemma stack_loop_startTag (fuel : nat) (z : Tokenizer) :
  ensures (loop_startTag fuel) z (stackPass (expressionStack z)).
Proof.
  unfold loop_startTag, closeInitialFrontmatter. apply ensures_bind_modify.
  apply ensures_bind. intros t z2 Ht.
  assert (Hk : t <> StartExpressionToken /\ t <> EndExpressionToken).
  { destruct (readStartTag_classifies _ _ _ _ Ht) as [[-> | ->] _]; split; discriminate. }
  assert (K : Quiet (if fm_eqb (fm z) FrontmatterInitial
                     then set_fm FrontmatterClosed z else z) z2).
  { apply (quiet_readStartTag fuel _ _ _ Ht). }
  apply ensures_bind_modify.
  apply ensures_bind_hush; [solve [auto with hush] | intros md z3 K3].
  apply ensures_bind_modify. apply ensures_ret. unfold stackPass. split.
  - stack_facts; congruence.
  - intros _.
    pose proof (quiet_tt _ _ K3) as T3. proj_simpl_in T3.
    destruct md; [|destruct (md_eqb (m z3) MarkdownOpen)]; proj_simpl; rewrite T3; exact Hk.
Qed.

Lemma stack_loop_endTag (fuel : nat) (z : Tokenizer) :
  ensures (loop_endTag fuel) z (stackPass (expressionStack z)).
Proof. unfold loop_endTag, closeInitialFrontmatter. stack_pass. Qed.

Lemma stack_loop_comment (fuel : nat) (c : byte) (z : Tokenizer) :
  ensures (loop_comment fuel c) z (stackPass (expressionStack z)).
Proof.
  unfold loop_comment. destruct (beq c "!").
  - apply ensures_bind. intros t z1 Ht.
    pose proof (quiet_readMarkupDeclaration fuel _ _ _ Ht) as K.
    apply readMarkupDeclaration_kind in Ht.
    unfold returnToken. apply ensures_bind_modify. apply ensures_ret.
    unfold stackPass. split; [stack_facts; congruence|]. intros _. proj_simpl. exact Ht.
  - stack_pass.
Qed.

Lemma stack_loop_body (fuel : nat) (z : Tokenizer) :
  ensures (loop_body fuel) z (stackPass (expressionStack z)).
Proof.
  unfold loop_body. stack_pass.
  all: match goal with
       | |- ensures _ ?z2 (stackPass ?st) =>
           let E := fresh "E" in
           assert (E : st = expressionStack z2) by (stack_facts; congruence);
           rewrite E
       end.
  - apply stack_loop_startTag.
  - apply stack_loop_endTag.
  - apply stack_loop_comment.
Qed.

Lemma stack_frontmatter_body (fuel : nat) (z : Tokenizer) :
  ensures (frontmatter_body fuel) z (stackPass (expressionStack z)).
Proof. unfold frontmatter_body. stack_pass. Qed.

Lemma stack_raw_with_expression_body (fuel : nat) (z : Tokenizer) :
  ensures (raw_with_expression_body fuel) z (stackPass (expressionStack z)).
Proof. unfold raw_with_expression_body. stack_pass. Qed.

(** One pass through any loop body: the stack grows by one counter with a
    StartExpressionToken, loses one with an EndExpressionToken, and keeps
    its length otherwise. *)
Lemma body_stack_length (fuel : nat) (l : Label) (z z1 : Tokenizer) (c : Ctl) :
  body fuel l z = Ok c z1 ->
  match c with
  | Return =>
      (length (expressionStack z1) + endCount (tt z1)
       = length (expressionStack z) + startCount (tt z1))%nat
  | _ => length (expressionStack z1) = length (expressionStack z)
  end.
Proof.
  intros H.
  assert (Hpass : stackPass (expressionStack z) c z1 ->
                  match c with
                  | Return =>
                      (length (expressionStack z1) + endCount (tt z1)
                       = length (expressionStack z) + startCount (tt z1))%nat
                  | _ => length (expressionStack z1) = length (expressionStack z)
                  end).
  { intros [Hs Ht]. rewrite Hs. destruct c; try reflexivity.
    destruct (Ht eq_refl) as [H1 H2]. destruct (tt z1); try reflexivity; congruence. }
  destruct l; cbn [body] in H.
  - apply Hpass. exact (stack_loop_body _ _ _ _ H).
  - apply Hpass. exact (stack_frontmatter_body _ _ _ _ H).
  - apply Hpass. exact (stack_raw_with_expression_body _ _ _ _ H).
  - destruct (expression_body_stack _ _ _ _ H) as
        [Hs Ht | -> Ht Hs | st k -> Ht Hs Hs' | st k -> Hk Hs Hs' | st -> Ht Hs Hs'].
    + rewrite Hs. destruct c; try reflexivity. rewrite (Ht eq_refl). reflexivity.
    + rewrite Ht, Hs, length_app. cbn. lia.
    + rewrite Ht, Hs, Hs', !length_app. reflexivity.
    + rewrite Hs, Hs', !length_app. reflexivity.
    + rewrite Ht, Hs, Hs', length_app. cbn. lia.
Qed.

Lemma run_stack_length (fuel : nat) :
  forall (l : Label) (z z' : Tokenizer),
    run fuel l z = Ok () z' ->
    (length (expressionStack z') + endCount (tt z')
     = length (expressionStack z) + startCount (tt z'))%nat.
Proof.
  induction fuel as [|f IH]; intros l z z' H; [discriminate|].
  cbn [run] in H. apply bind_Ok in H as (c & z1 & Hb & H).
  pose proof (body_stack_length _ _ _ _ _ Hb) as Hc.
  destruct c.
  - rewrite <- Hc. exact (IH _ _ _ H).
  - apply bind_Ok in H as (n & z2 & Ha & H).
    destruct l; cbn [afterLoop] in Ha.
    + unfold id in Ha. rewrite bind_gets in Ha.
      destruct (rawStart z1 <? rawEnd z1); rewrite ?bind_modify in Ha;
        injection Ha as <- <-; injection H as <-; proj_simpl; cbn; lia.
    + rewrite bind_modify in Ha. injection Ha as <- <-.
      rewrite <- Hc. exact (IH _ _ _ H).
    + rewrite !bind_modify in Ha. injection Ha as <- <-.
      rewrite <- Hc. exact (IH _ _ _ H).
    + unfold id in Ha. rewrite bind_gets in Ha.
      destruct (rawStart z1 <? rawEnd z1); rewrite ?bind_modify in Ha;
        injection Ha as <- <-; injection H as <-; proj_simpl; cbn; lia.
  - rewrite <- Hc. exact (IH _ _ _ H).
  - injection H as <-. exact Hc.
Qed.

Lemma Next_dispatch_stack (fuel : nat) (z z' : Tokenizer) :
  Next_dispatch fuel z = Ok () z' ->
  (length (expressionStack z') + endCount (tt z')
   = length (expressionStack z) + startCount (tt z'))%nat.
Proof.
  unfold Next_dispatch. rewrite !bind_modify, bind_gets. unfold id.
  destruct (negb _); [|destruct (isAtExpressionBoundary _)];
    intros H; exact (run_stack_length _ _ _ _ H).
Qed.

Lemma Next_rawText_stack (fuel : nat) (z z' : Tokenizer) :
  Next_rawText fuel z = Ok () z' ->
  (length (expressionStack z') + endCount (tt z')
   = length (expressionStack z) + startCount (tt z'))%nat.
Proof.
  unfold Next_rawText. rewrite bind_gets. unfold id.
  destruct (dataEnd z >? dataStart z).
  - rewrite bind_modify. intros H. injection H as <-. reflexivity.
  - apply Next_dispatch_stack.
Qed.

(** One call of [Next]: the stack of counters grows by one with a
    StartExpressionToken, loses one with an EndExpressionToken and keeps
    its length with every other token. *)
Lemma Next_stack_length (fuel : nat) (z : Tokenizer) (t : TokenType) (z' : Tokenizer) :
  Next unescape fuel z = Ok t z' ->
  (length (expressionStack z') + endCount t
   = length (expressionStack z) + startCount t)%nat.
Proof.
  unfold Next. rewrite !bind_modify, bind_gets. proj_simpl.
  set (z0 := set_prevTokenType _ _).
  assert (F0 : expressionStack z0 = expressionStack z) by reflexivity.
  intros H. apply bind_Ok in H as ([] & z1 & Hpro & H).
  assert (F1 : expressionStack z1 = expressionStack z).
  { rewrite <- F0. destruct (fm_eqb (fm z) FrontmatterOpen).
    - apply bind_Ok in Hpro as (t0 & z2 & Ht0 & Hpro).
      apply (quiet_Token_Type unescape) in Ht0. destruct Ht0 as [_ _ _ _ Fs].
      rewrite <- Fs.
      destruct t0; first [ injection Hpro as <-; reflexivity
                         | (unfold modify in Hpro; injection Hpro as <-; reflexivity) ].
    - injection Hpro as <-. reflexivity. }
  rewrite bind_gets in H.
  apply bind_Ok in H as ([] & z2 & Hmid & H). injection H as <- <-.
  rewrite <- F1.
  destruct (rawTag z1) as [|c tag].
  - exact (Next_dispatch_stack _ _ _ Hmid).
  - destruct (bytes_eqb (c :: tag) (B "plaintext")).
    + apply bind_Ok in Hmid as ([] & z3 & Heof & Hmid). rewrite !bind_modify in Hmid.
      apply quiet_readToEOF in Heof. destruct Heof as [_ _ _ _ Fe].
      rewrite <- Fe. exact (Next_rawText_stack _ _ _ Hmid).
    + destruct (_ || _).
      * exact (run_stack_length _ _ _ _ Hmid).
      * apply bind_Ok in Hmid as ([] & z3 & Hraw & Hmid).
        apply (quiet_readRawOrRCDATA unescape) in Hraw. destruct Hraw as [_ _ _ _ Fr].
        rewrite <- Fr. exact (Next_rawText_stack _ _ _ Hmid).
Qed.

Lemma countKind_cons (k t : TokenType) (z : Tokenizer) (l : list Tok) :
  countKind k (tokOf t z :: l)
  = ((if TokenType_eqb t k then 1 else 0) + countKind k l)%nat.
Proof.
  unfold countKind. cbn [List.filter kind tokOf]. destruct (TokenType_eqb t k); reflexivity.
Qed.

(** A token stream of any length on any input: the StartExpression tokens
    outnumber the EndExpression tokens by what the stack has grown. *)
Lemma tokens_stack_length (fuel n : nat) :
  forall (z z' : Tokenizer),
    stopState (snd (tokens unescape fuel n z)) = Some z' ->
    (countKind StartExpressionToken (fst (tokens unescape fuel n z))
     + length (expressionStack z)
     = countKind EndExpressionToken (fst (tokens unescape fuel n z))
       + length (expressionStack z'))%nat.
Proof.
  induction n as [|n IH]; intros z z'.
  - cbn. intros H. injection H as <-. reflexivity.
  - cbn [tokens]. destruct (Next unescape fuel z) as [t z1| |] eqn:HN; try discriminate.
    pose proof (Next_stack_length _ _ _ _ HN) as Hlen.
    specialize (IH z1 z').
    destruct (tokens unescape fuel n z1) as [l s] eqn:Hl. cbn [fst snd] in IH.
    destruct t; cbn [fst snd stopState];
      try (intros Hs; specialize (IH Hs); rewrite !countKind_cons;
           cbn [TokenType_eqb startCount endCount] in *; lia).
    intros Hs. injection Hs as <-. cbn [startCount endCount] in Hlen. cbn. lia.
Qed.

End Counters.

Lemma snoc_nil {A} (s : list A) (k : A) : s ++ [k] <> [].
Proof. destruct s; discriminate. Qed.

Ltac brace_done :=
  intros; subst;
  repeat match goal with
         | E : _ ++ [_] = _ ++ [_] |- _ => apply app_inj_tail in E; destruct E; subst
         | E : _ ++ [_] = [] |- _ => exfalso; exact (snoc_nil _ _ E)
         | E : [] = _ ++ [_] |- _ => exfalso; exact (snoc_nil _ _ (eq_sym E))
         end;
  try discriminate; try congruence; try reflexivity; try lia.

Lemma brace_step (fuel : nat) (z : Tokenizer) (c : byte) :
  isErr z = false -> at_ (buf z) (rawEnd z) = Some c -> rawStart z = rawEnd z ->
  isBrace c = true ->
  exists ctl z',
    expression_body fuel z = Ok ctl z' /\
    braceOutcome c (openBraceIsExpressionStart z) (expressionStack z)
                 ctl (tt z') (expressionStack z').
Proof.
  intros He Hat Hs Hc. unfold expression_body.
  rewrite (bind_run _ _ _ _ _ (readByte_some z c Hat)). rewrite bind_gets.
  change (isErr (set_rawEnd (rawEnd z + 1) z)) with (isErr z). rewrite He.
  assert (Hlt : (rawStart (set_rawEnd (rawEnd z + 1) z)
                 <? rawEnd (set_rawEnd (rawEnd z + 1) z) - 1) = false).
  { proj_simpl. apply Z.ltb_ge. lia. }
  apply isBrace_cases in Hc as [-> | ->].
  - change (beq "{" "/") with false. change (isQuote "{") with false.
    change (beq "{" "<") with false. change (negb (isBrace "{")) with false.
    cbv iota. rewrite bind_gets. unfold id. cbv beta zeta. rewrite Hlt.
    change (beq "{" "{") with true. cbv iota.
    change (openBraceIsExpressionStart (set_rawEnd (rawEnd z + 1) z))
      with (openBraceIsExpressionStart z).
    destruct (openBraceIsExpressionStart z) eqn:Eob; unfold returnToken;
      rewrite !bind_modify; do 2 eexists; (split; [reflexivity|]); proj_simpl;
      unfold braceOutcome;
      (destruct (snoc_cases (expressionStack z)) as [Est | (st & k & Est)];
       rewrite Est; rewrite ?bumpTop_snoc; repeat split; brace_done).
  - change (beq "}" "/") with false. change (isQuote "}") with false.
    change (beq "}" "<") with false. change (negb (isBrace "}")) with false.
    cbv iota. rewrite bind_gets. unfold id. cbv beta zeta. rewrite Hlt.
    change (beq "}" "{") with false. cbv iota.
    change (expressionStack (set_rawEnd (rawEnd z + 1) z)) with (expressionStack z).
    destruct (snoc_cases (expressionStack z)) as [Est | (st & k & Est)].
    + rewrite Est. unfold returnToken. rewrite !bind_modify.
      do 2 eexists. split; [reflexivity|]. proj_simpl. rewrite Est.
      unfold braceOutcome. repeat split; brace_done.
    + rewrite Est, snoc_match. rewrite bind_modify, bind_gets. proj_simpl.
      rewrite Est, bumpTop_snoc, topOf_snoc.
      destruct (Z.eq_dec k 0) as [-> | Hk].
      * change (0 + -1) with (-1). cbv iota. unfold returnToken. rewrite !bind_modify.
        do 2 eexists. split; [reflexivity|]. proj_simpl. rewrite removelast_last.
        unfold braceOutcome. repeat split; brace_done.
      * rewrite top_not_sentinel by lia.
        do 2 eexists. split; [reflexivity|]. proj_simpl.
        unfold braceOutcome. repeat split; brace_done.
Qed.

(** A quote, a [<] and a run of three dashes each keep a closing brace
    from ending the expression, as the slash does: the quote opens a
    string that runs to the end of the input, the [<] before the brace is
    the fault of the fragment shorthand, and behind three dashes the
    closing brace is returned as the closing fence of the frontmatter. *)
Lemma quote_angle_and_fence_unbalance_expression_tokens :
  (balanced 0 inputQuote = true /\
   let r := tokens noUnescape 100 10 (NewTokenizer inputQuote []) in
   countKind StartExpressionToken (fst r) = 1%nat /\
   countKind EndExpressionToken (fst r) = 0%nat) /\
  (balanced 0 inputAngle = true /\
   let r := tokens noUnescape 100 10 (NewTokenizer inputAngle []) in
   countKind StartExpressionToken (fst r) = 1%nat /\
   countKind EndExpressionToken (fst r) = 0%nat /\
   exists p, snd r = AtPanic p) /\
  (balanced 0 inputFenceInside = true /\
   let r := tokens noUnescape 100 10 (NewTokenizer inputFenceInside []) in
   countKind StartExpressionToken (fst r) = 1%nat /\
   countKind EndExpressionToken (fst r) = 0%nat /\
   map view (fst r)
   = [ (StartExpressionToken, Some (B "{"));
       (FrontmatterFenceToken, Some (B "---"));
       (TextToken, Some (B "a---"));
       (FrontmatterFenceToken, Some (B "}")) ]).
Proof.
  split; [|split].
  - vm_compute. repeat split.
  - split; [reflexivity|]. cbv zeta. split; [vm_compute; reflexivity|].
    split; [vm_compute; reflexivity|]. eexists. vm_compute. reflexivity.
  - vm_compute. repeat split.
Qed.



Lemma bytes_eqb_length (a b : list byte) : bytes_eqb a b = true -> length a = length b.
Proof.
  revert b. induction a as [|x a IH]; intros [|y b]; cbn; try discriminate; auto.
  intros H. apply andb_prop in H as [_ H]. f_equal. exact (IH _ H).
Qed.

Lemma startTagIs_from_run (s : list byte) :
  forall (nm : list byte) (i : Z) (z : Tokenizer),
    length nm = length s ->
    (forall j : nat, (j < length s)%nat ->
       at_ (buf z) (dataStart z + i + Z.of_nat j) = nm !! j) ->
    startTagIs_from i s z = Ok (bytes_eqb nm s) z.
Proof.
  induction s as [|k s IH]; intros nm i z Hlen Hall.
  - destruct nm; [reflexivity | discriminate].
  - destruct nm as [|c nm]; [discriminate|]. cbn [startTagIs_from bytes_eqb].
    rewrite bind_gets.
    assert (H0 : at_ (buf z) (dataStart z + i) = Some c).
    { specialize (Hall 0%nat ltac:(cbn; lia)). cbn in Hall.
      rewrite Z.add_0_r in Hall. exact Hall. }
    unfold bind at 1. unfold bufIndex. rewrite H0.
    destruct (beq c k); cbn [negb andb]; [|reflexivity].
    apply IH; [cbn in Hlen; lia|].
    intros j Hj.
    transitivity (at_ (buf z) (dataStart z + i + Z.of_nat (S j))); [f_equal; lia|].
    exact (Hall (S j) ltac:(cbn [length]; lia)).
Qed.

Lemma startTagIs_run (s : list byte) (z : Tokenizer) (nm : list byte) :
  tagName z = Some nm -> nm <> [] -> startTagIs s z = Ok (bytes_eqb nm s) z.
Proof.
  intros Ht Hne. apply (tagName_pointwise nm z Hne) in Ht as [Hlen Hall].
  unfold startTagIs. rewrite bind_gets.
  destruct (Z.eqb_spec (dataEnd z - dataStart z) (Z.of_nat (length s))) as [E|E];
    cbn [negb].
  - apply startTagIs_from_run; [lia|].
    intros j Hj. rewrite Z.add_0_r. apply Hall. lia.
  - destruct (bytes_eqb nm s) eqn:Eb; [|reflexivity].
    apply bytes_eqb_length in Eb. lia.
Qed.

Lemma startTagIn_run (ss : list (list byte)) (z : Tokenizer) (nm : list byte) :
  tagName z = Some nm -> nm <> [] ->
  startTagIn ss z = Ok (existsb (bytes_eqb nm) ss) z.
Proof.
  intros Ht Hne. induction ss as [|s ss IH]; [reflexivity|].
  cbn [startTagIn existsb]. rewrite (bind_run _ _ _ _ _ (startTagIs_run s z nm Ht Hne)).
  destruct (bytes_eqb nm s); [reflexivity | exact IH].
Qed.

(** [z.buf[z.data.Start:z.data.End]] is the tag name. *)
Lemma bufSlice_tagName (z : Tokenizer) (nm : list byte) :
  tagName z = Some nm -> bufSlice (dataStart z) (dataEnd z) z = Ok nm z.
Proof.
  unfold tagName, bufSlice, leCap.
  destruct (Z.leb_spec 0 (dataStart z)) as [H0|]; [|discriminate].
  destruct (Z.leb_spec (dataStart z) (dataEnd z)) as [H1|]; [|discriminate].
  destruct (Z.leb_spec (dataEnd z) (len z)) as [Hl|]; [|discriminate].
  cbn [andb orb]. intros Hn. injection Hn as <-. f_equal.
  unfold sub, backing. unfold len in Hl.
  rewrite drop_app_le by lia.
  rewrite take_app_le; [reflexivity|]. rewrite length_drop. lia.
Qed.

(** What follows [readTag] in [readStartTag], for a tag without
    attributes that was read to its [>]. *)
Lemma readStartTag_run (F : nat) (z z1 : Tokenizer) (nm : list byte) (c2 : byte) :
  readTag F true z = Ok () z1 ->
  tagName z1 = Some nm -> nm <> [] -> isErr z1 = false -> attr z1 = [] ->
  at_ (buf z1) (rawEnd z1 - 2) = Some c2 ->
  readStartTag F z
  = Ok (startTagType nm c2) (if rawTextStart nm then set_rawTag nm z1 else z1).
Proof.
  intros Htag Ht Hne He Hattr Hc2. unfold readStartTag.
  rewrite (bind_run _ _ _ _ _ Htag). rewrite bind_gets.
  destruct nm as [|c nm']; [congruence|].
  assert (H0 : at_ (buf z1) (dataStart z1) = Some c).
  { pose proof Ht as Hp. apply (tagName_pointwise (c :: nm') z1 Hne) in Hp as [_ Hall].
    specialize (Hall 0%nat ltac:(cbn; lia)). cbn in Hall.
    rewrite Z.add_0_r in Hall. exact Hall. }
  unfold bind at 1. unfold bufIndex. rewrite H0.
  assert (Hraw0 : (if beq c "i" then startTagIn [B "iframe"]
                   else if beq c "n" then startTagIn [B "noembed"; B "noframes"]
                   else if beq c "p" then startTagIn [B "plaintext"]
                   else if beq c "s" then startTagIn [B "script"; B "style"]
                   else if beq c "t" then startTagIn [B "textarea"; B "title"]
                   else if beq c "x" then startTagIn [B "xmp"]
                   else ret false) z1
                  = Ok (rawTextStart (c :: nm')) z1).
  { unfold rawTextStart.
    repeat match goal with
           | |- (if ?b then _ else _) _ = _ => destruct b
           end; try apply (startTagIn_run _ z1 _ Ht Hne). reflexivity. }
  rewrite (bind_run _ _ _ _ _ Hraw0).
  assert (Hraw1 : (if negb (rawTextStart (c :: nm')) then hasTag (B "data-astro-raw")
                   else ret (rawTextStart (c :: nm'))) z1
                  = Ok (rawTextStart (c :: nm')) z1).
  { destruct (rawTextStart (c :: nm')); cbn [negb]; [reflexivity|].
    unfold hasTag. rewrite bind_gets, Hattr. reflexivity. }
  rewrite (bind_run _ _ _ _ _ Hraw1).
  assert (Hset : (if rawTextStart (c :: nm')
                  then name <- (z_ <- gets id ;; bufSlice (dataStart z_) (dataEnd z_)) ;;
                       modify (set_rawTag name)
                  else ret ()) z1
                 = Ok () (if rawTextStart (c :: nm') then set_rawTag (c :: nm') z1 else z1)).
  { destruct (rawTextStart (c :: nm')); [|reflexivity].
    rewrite bind_bind, bind_gets. unfold id.
    rewrite (bind_run _ _ _ _ _ (bufSlice_tagName z1 _ Ht)). reflexivity. }
  rewrite (bind_run _ _ _ _ _ Hset).
  set (z2 := if rawTextStart (c :: nm') then set_rawTag (c :: nm') z1 else z1).
  assert (Ht2 : tagName z2 = Some (c :: nm')) by (subst z2; destruct (rawTextStart _); exact Ht).
  assert (He2 : isErr z2 = false) by (subst z2; destruct (rawTextStart _); exact He).
  assert (Hc22 : at_ (buf z2) (rawEnd z2 - 2) = Some c2)
    by (subst z2; destruct (rawTextStart _); exact Hc2).
  rewrite (bind_run _ _ _ _ _ (startTagIn_run voidElements z2 _ Ht2 Hne)).
  unfold startTagType. destruct (existsb _ voidElements); [reflexivity|].
  rewrite bind_gets, He2, bind_gets. unfold bind, bufIndex. rewrite Hc22.
  destruct (beq c2 "/"); reflexivity.
Qed.

(** Two states built by setters are the same when their fields are. *)
Ltac state_eq :=
  unfold modify, rawEnd_add; proj_simpl;
  first
    [ reflexivity
    | (cbv beta delta [set_tt set_prevTokenType set_fm set_m set_err set_raw set_buf
                       set_slack set_data set_pendingAttr set_pendingAttrType set_attr
                       set_attrTypes set_attrExpressionStack set_nAttrReturned
                       set_dashCount set_expressionStack set_openBraceIsExpressionStart
                       set_rawTag set_textIsRaw set_convertNUL set_allowCDATA
                       set_Start set_End set_rawStart set_rawEnd set_dataStart
                       set_dataEnd rawStart rawEnd dataStart dataEnd];
       cbn [tt prevTokenType fm m err raw buf slack data pendingAttr pendingAttrType
            attr attrTypes attrExpressionStack nAttrReturned dashCount expressionStack
            openBraceIsExpressionStart rawTag textIsRaw convertNUL allowCDATA Start End];
       repeat (f_equal; try reflexivity; try lia)) ].

Lemma nameByte_facts (c : byte) :
  nameByte c = true -> isTagSpace c = false /\ beq c "/" = false /\ beq c ">" = false.
Proof.
  unfold nameByte. intros H. apply andb_prop in H as [H H3]. apply andb_prop in H as [H1 H2].
  apply negb_true_iff in H1, H2, H3. auto.
Qed.

(** [readTagName] reads the name up to the [/] or [>] behind it. *)
Lemma readTagName_scan (extra : nat) (c : byte) (post : list byte) :
  isTagSpace c = false -> beq c "/" || beq c ">" = true ->
  forall (nm pre : list byte) (z : Tokenizer),
    forallb nameByte nm = true ->
    buf z = pre ++ nm ++ c :: post -> rawEnd z = Z.of_nat (length pre) -> err z = None ->
    readTagName_loop (length nm + 1 + extra) z
    = Ok () (set_dataEnd (rawEnd z + Z.of_nat (length nm))
               (set_rawEnd (rawEnd z + Z.of_nat (length nm)) z)).
Proof.
  intros Hsp Hc. induction nm as [|a nm IH]; intros pre z Hok Hb He Herr.
  - cbn [length Nat.add app] in *. cbn [readTagName_loop].
    rewrite (bind_run _ _ _ _ _ (readByte_at z pre c post Hb He)).
    rewrite bind_gets. unfold isErr at 1. proj_simpl. rewrite Herr. cbv iota.
    rewrite Hsp, Hc. unfold rawEnd_add. rewrite bind_modify. state_eq.
  - cbn [forallb] in Hok. apply andb_prop in Hok as [Ha Hok].
    destruct (nameByte_facts _ Ha) as (Ha1 & Ha2 & Ha3).
    cbn [length Nat.add app] in *. cbn [readTagName_loop].
    rewrite (bind_run _ _ _ _ _ (readByte_at z pre a (nm ++ c :: post) Hb He)).
    rewrite bind_gets. unfold isErr at 1. proj_simpl. rewrite Herr. cbv iota.
    rewrite Ha1, Ha2, Ha3. cbn [orb].
    rewrite (IH (pre ++ [a]) (set_rawEnd (rawEnd z + 1) z) Hok).
    + state_eq.
    + proj_simpl. rewrite Hb, <- app_assoc. reflexivity.
    + proj_simpl. rewrite He, length_app. cbn. lia.
    + exact Herr.
Qed.

(** Read the byte [c] that stands in the buffer behind [pre]; [Hb], [He]
    and [Herr] describe the buffer, the read position and the error of
    the state [z] that the current state was built from. *)
Ltac ex :=
  repeat first [ progress exec
               | progress unfold set_keyStart, set_keyEnd, set_valStart, set_valEnd
               | progress cbn [fst snd] ].

Ltac noerr Herr := unfold isErr at 1; ex; rewrite Herr; cbv iota.

Ltac rd Hb He Herr pre c post :=
  ex;
  match goal with
  | |- context [bind readByte _ ?zz] =>
      rewrite (bind_run _ _ _ _ _
                 (readByte_at zz pre c post
                    ltac:(ex; rewrite Hb; rewrite <- ?app_assoc; reflexivity)
                    ltac:(ex; rewrite He; rewrite ?length_app; cbn [length]; lia)))
  end;
  rewrite ?bind_bind, bind_gets; noerr Herr.

Lemma readTag_gt (extra : nat) (saveAttr : bool) (z : Tokenizer)
      (pre nm post : list byte) :
  forallb nameByte nm = true ->
  buf z = pre ++ nm ++ ">"%byte :: post -> rawEnd z = Z.of_nat (length pre) ->
  err z = None ->
  exists z1,
    readTag (length nm + 2 + extra) saveAttr z = Ok () z1 /\
    TagRead z z1 (Z.of_nat (length pre) + Z.of_nat (length nm) + 1)
            (Z.of_nat (length pre) - 1) (Z.of_nat (length pre) + Z.of_nat (length nm)).
Proof.
  intros Hok Hb He Herr. unfold readTag. exec. unfold readTagName. exec.
  replace (length nm + 2 + extra)%nat with (length nm + 1 + (1 + extra))%nat by lia.
  match goal with
  | |- context [bind (readTagName_loop _) _ ?zz] =>
      rewrite (bind_run _ _ _ _ _
                 (readTagName_scan (1 + extra) ">" post eq_refl eq_refl nm pre zz Hok
                    ltac:(proj_simpl; exact Hb) ltac:(proj_simpl; exact He)
                    ltac:(proj_simpl; exact Herr)))
  end.
  unfold skipWhiteSpace. exec. unfold isErr at 1. proj_simpl. rewrite Herr. cbv iota.
  replace (length nm + 1 + (1 + extra))%nat with (S (length nm + 1 + extra)) by lia.
  cbn [skipWhiteSpace_loop].
  rd Hb He Herr (pre ++ nm) ">"%byte post.
  change (isSpaceRune ">") with false. cbn [negb]. unfold rawEnd_add. exec.
  unfold isErr at 1. proj_simpl. rewrite Herr. cbv iota.
  cbn [readTag_loop].
  rd Hb He Herr (pre ++ nm) ">"%byte post.
  change (beq ">" ">") with true. cbn [orb].
  eexists. split; [reflexivity|].
  constructor; proj_simpl; auto; lia.
Qed.

Lemma readTag_slash (extra : nat) (z : Tokenizer) (pre nm post : list byte) :
  forallb nameByte nm = true ->
  buf z = pre ++ nm ++ "/"%byte :: ">"%byte :: post -> rawEnd z = Z.of_nat (length pre) ->
  err z = None ->
  exists z1,
    readTag (length nm + 3 + extra) true z = Ok () z1 /\
    TagRead z z1 (Z.of_nat (length pre) + Z.of_nat (length nm) + 2)
            (Z.of_nat (length pre) - 1) (Z.of_nat (length pre) + Z.of_nat (length nm)).
Proof.
  intros Hok Hb He Herr. unfold readTag. exec. unfold readTagName. exec.
  replace (length nm + 3 + extra)%nat with (length nm + 1 + (2 + extra))%nat by lia.
  match goal with
  | |- context [bind (readTagName_loop _) _ ?zz] =>
      rewrite (bind_run _ _ _ _ _
                 (readTagName_scan (2 + extra) "/" (">"%byte :: post) eq_refl eq_refl
                    nm pre zz Hok
                    ltac:(proj_simpl; exact Hb) ltac:(proj_simpl; exact He)
                    ltac:(proj_simpl; exact Herr)))
  end.
  unfold skipWhiteSpace at 1. ex. noerr Herr.
  replace (length nm + 1 + (2 + extra))%nat with (S (S (length nm + 1 + extra))) by lia.
  cbn [skipWhiteSpace_loop].
  rd Hb He Herr (pre ++ nm) "/"%byte (">"%byte :: post).
  change (isSpaceRune "/") with false. cbn [negb]. unfold rawEnd_add. ex. noerr Herr.
  cbn [readTag_loop].
  rd Hb He Herr (pre ++ nm) "/"%byte (">"%byte :: post).
  change (beq "/" ">") with false. cbn [orb]. unfold rawEnd_add. ex.
  unfold readTagAttrKey. ex. cbn [readTagAttrKey_loop].
  rd Hb He Herr (pre ++ nm) "/"%byte (">"%byte :: post).
  change (beq "/" "{") with false. change (isTagSpace "/" || beq "/" "/") with true.
  cbv iota. ex. cbn [isSpreadOrShorthand]. ex.
  unfold readTagAttrVal. ex. unfold skipWhiteSpace at 1. ex. noerr Herr.
  cbn [skipWhiteSpace_loop].
  rd Hb He Herr (pre ++ nm ++ ["/"%byte]) ">"%byte post.
  change (isSpaceRune ">") with false. cbn [negb]. unfold rawEnd_add. ex. noerr Herr.
  rd Hb He Herr (pre ++ nm ++ ["/"%byte]) ">"%byte post.
  change (beq ">" "=") with false. cbn [negb]. ex.
  match goal with
  | |- context [Z.eqb ?a ?b] =>
      replace (Z.eqb a b) with true by (symmetry; apply Z.eqb_eq; lia)
  end.
  cbn [andb negb]. cbv iota.
  unfold skipWhiteSpace. ex. noerr Herr. cbn [skipWhiteSpace_loop].
  rd Hb He Herr (pre ++ nm ++ ["/"%byte]) ">"%byte post.
  change (isSpaceRune ">") with false. cbn [negb]. unfold rawEnd_add. ex. noerr Herr.
  cbn [readTag_loop].
  rd Hb He Herr (pre ++ nm ++ ["/"%byte]) ">"%byte post.
  change (beq ">" ">") with true. cbn [orb].
  eexists. split; [reflexivity|].
  constructor; ex; auto; lia.
Qed.

Lemma tagName_at (z : Tokenizer) (a nm c : list byte) :
  buf z = a ++ nm ++ c -> dataStart z = Z.of_nat (length a) ->
  dataEnd z = Z.of_nat (length a) + Z.of_nat (length nm) ->
  tagName z = Some nm.
Proof.
  intros Hb Hs He. unfold tagName, len. rewrite Hs, He, Hb.
  destruct (Z.leb_spec 0 (Z.of_nat (length a))); [|lia].
  destruct (Z.leb_spec (Z.of_nat (length a))
                       (Z.of_nat (length a) + Z.of_nat (length nm))); [|lia].
  destruct (Z.leb_spec (Z.of_nat (length a) + Z.of_nat (length nm))
                       (Z.of_nat (length (a ++ nm ++ c)))) as [_|Hlt].
  2:{ rewrite !length_app in Hlt. lia. }
  cbn [andb]. f_equal. unfold sub.
  replace (Z.to_nat (Z.of_nat (length a) + Z.of_nat (length nm) - Z.of_nat (length a)))
    with (length nm) by lia.
  rewrite Nat2Z.id, drop_app_length. apply take_app_length.
Qed.

Lemma letter_facts (c : byte) :
  isLetter c = true ->
  beq c ">" = false /\ beq c "/" = false /\ isTagSpace c = false.
Proof. destruct c; cbn; intros H; try discriminate H; repeat split. Qed.

(** The start-tag arm of the main loop, once [readTag] has read a tag
    without attributes. *)
Lemma loop_startTag_run (F : nat) (z z1 : Tokenizer) (nm : list byte) (c2 : byte) :
  fm z = FrontmatterInitial ->
  readTag F true (set_fm FrontmatterClosed z) = Ok () z1 ->
  tagName z1 = Some nm -> nm <> [] -> isErr z1 = false -> attr z1 = [] ->
  at_ (buf z1) (rawEnd z1 - 2) = Some c2 ->
  exists z', loop_startTag F z = Ok Return z' /\ tt z' = startTagType nm c2 /\
             rawEnd z' = rawEnd z1 /\
             (rawTextStart nm = true -> rawTag z' = nm) /\
             err z' = err z1 /\ fm z' = fm z1.
Proof.
  intros Hfm Htag Ht Hne He Hattr Hc2.
  unfold loop_startTag, closeInitialFrontmatter. rewrite bind_modify, Hfm. cbn [fm_eqb].
  rewrite (bind_run _ _ _ _ _ (readStartTag_run F _ z1 nm c2 Htag Ht Hne He Hattr Hc2)).
  rewrite bind_modify. unfold tagIsMarkdown. rewrite bind_bind, bind_gets. unfold id.
  set (z2 := set_tt _ _).
  assert (Ht2 : tagName z2 = Some nm).
  { subst z2. destruct (rawTextStart nm); exact Ht. }
  rewrite bind_bind.
  rewrite (bind_run _ _ _ _ _ (bufSlice_tagName z2 nm Ht2)).
  rewrite bind_ret, bind_modify.
  eexists. split; [reflexivity|].
  subst z2. destruct (bytes_eqb nm (B "Markdown")); [|destruct (md_eqb _ _)];
    destruct (rawTextStart nm); repeat split; first [reflexivity | discriminate].
Qed.

Lemma last_at (a nm : list byte) (c0 : byte) (b : list byte) :
  at_ (a ++ c0 :: nm ++ b) (Z.of_nat (length a) + Z.of_nat (length nm))
  = Some (List.last nm c0).
Proof.
  destruct (snoc_cases nm) as [-> | (nm0 & l & ->)].
  - cbn [length app List.last]. rewrite Z.add_0_r. apply at_middle.
  - rewrite last_last.
    replace (a ++ c0 :: (nm0 ++ [l]) ++ b) with ((a ++ c0 :: nm0) ++ l :: b)
      by (rewrite <- !app_assoc; reflexivity).
    replace (Z.of_nat (length a) + Z.of_nat (length (nm0 ++ [l])))
      with (Z.of_nat (length (a ++ c0 :: nm0)))
      by (rewrite !length_app; cbn [length]; lia).
    apply at_middle.
Qed.

Section StartTags.

Variable unescape : list byte -> list byte.

(** In the main loop [<], a name and [>] or [/>] are one start tag. *)
Lemma loop_start_tag (extra : nat) (slash : bool) (z : Tokenizer)
      (done : list byte) (c0 : byte) (nm rest : list byte) (st : list Z) (ob : bool) :
  Scan z done [] ("<"%byte :: c0 :: nm ++ tagCloser slash ++ rest)
       FrontmatterInitial 0 st ob ->
  dataStart z = Z.of_nat (length done) ->
  isLetter c0 = true -> forallb nameByte nm = true ->
  exists z',
    loop_body (length nm + 3 + extra) z = Ok Return z' /\
    tt z' = startTagType (c0 :: nm) (if slash then "/"%byte else List.last nm c0) /\
    rawEnd z' = Z.of_nat (length done) + 2 + Z.of_nat (length nm)
                + Z.of_nat (length (tagCloser slash)) /\
    (rawTextStart (c0 :: nm) = true -> rawTag z' = c0 :: nm) /\
    err z' = None /\ fm z' = FrontmatterClosed.
Proof.
  intros H Hds Hl Hok.
  destruct (letter_facts _ Hl) as (Hgt & Hsl & Hsp).
  unfold loop_body. exec_read H H1. exec.
  change (isQuote "<") with false. rewrite andb_false_r.
  change (isBrace "<") with false. cbv iota. exec.
  rewrite (sc_fm _ _ _ _ _ _ _ _ H).
  change (beq "<" "-") with false. change (beq "<" "<") with true.
  cbn [andb negb fm_eqb].
  destruct (Scan_read _ _ _ _ _ _ _ _ _ H1) as [Hr H2].
  rewrite (bind_run _ _ _ _ _ Hr). clear Hr.
  rewrite bind_gets. unfold isErr at 1. proj_simpl.
  rewrite (sc_err _ _ _ _ _ _ _ _ H). cbv iota.
  rewrite Hgt. cbv iota. exec. rewrite Hl. cbv iota. exec. unfold id. proj_simpl.
  rewrite (sc_start _ _ _ _ _ _ _ _ H), (sc_end _ _ _ _ _ _ _ _ H). cbn [length].
  match goal with
  | |- context [Z.ltb ?a ?b] => destruct (Z.ltb_spec a b); [lia|]
  end.
  match goal with
  | |- context [bind readUnclosedTag _ ?zz] => set (z2 := zz)
  end.
  assert (Hb2 : buf z2 = done ++ "<"%byte :: c0 :: nm ++ tagCloser slash ++ rest).
  { subst z2. proj_simpl. rewrite (sc_buf _ _ _ _ _ _ _ _ H). reflexivity. }
  assert (Hfm2 : fm z2 = FrontmatterInitial).
  { subst z2. proj_simpl. apply (sc_fm _ _ _ _ _ _ _ _ H). }
  assert (Hu : readUnclosedTag z2 = Ok () z2).
  { unfold readUnclosedTag. rewrite bind_gets.
    replace (dataStart z2) with (Z.of_nat (length done))
      by (subst z2; proj_simpl; symmetry; exact Hds).
    rewrite (bind_run _ _ _ _ _ (bufFrom_at z2 done _ Hb2)).
    rewrite bind_gets, Hfm2. cbn [fm_eqb].
    assert (Hin : exists a b, "<"%byte :: c0 :: nm ++ tagCloser slash ++ rest
                              = a ++ ">"%byte :: b).
    { destruct slash;
        [ change (tagCloser true) with ["/"%byte; ">"%byte]
        | change (tagCloser false) with [">"%byte] ]; cbn [app].
      - exists ("<"%byte :: c0 :: nm ++ ["/"%byte]), rest.
        cbn [app]. rewrite <- app_assoc. reflexivity.
      - exists ("<"%byte :: c0 :: nm), rest. reflexivity. }
    destruct Hin as (a & b & ->).
    destruct (Z.eqb_spec (index (a ++ ">"%byte :: b) [">"%byte]) (-1)) as [E|_];
      [|reflexivity].
    exfalso. exact (index_found_later _ _ _ E). }
  rewrite (bind_run _ _ _ _ _ Hu). clear Hu.
  assert (He2 : rawEnd z2 = Z.of_nat (length (done ++ ["<"%byte; c0]))).
  { subst z2. proj_simpl. rewrite length_app. cbn [length]. lia. }
  assert (Herr2 : err z2 = None).
  { subst z2. proj_simpl. apply (sc_err _ _ _ _ _ _ _ _ H). }
  rewrite bind_gets. unfold isErr at 1. rewrite Herr2. cbv iota.
  clearbody z2. clear H H1 H2 Hds.
  assert (Htag : exists z1,
             readTag (length nm + 3 + extra) true (set_fm FrontmatterClosed z2) = Ok () z1 /\
             TagRead (set_fm FrontmatterClosed z2) z1
                     (Z.of_nat (length (done ++ ["<"%byte; c0])) + Z.of_nat (length nm)
                      + Z.of_nat (length (tagCloser slash)))
                     (Z.of_nat (length (done ++ ["<"%byte; c0])) - 1)
                     (Z.of_nat (length (done ++ ["<"%byte; c0])) + Z.of_nat (length nm))).
  { destruct slash;
      [ change (tagCloser true) with ["/"%byte; ">"%byte] in *
      | change (tagCloser false) with [">"%byte] in * ]; cbn [app length] in *.
    - apply (readTag_slash extra _ (done ++ ["<"%byte; c0]) nm rest Hok).
      + proj_simpl. rewrite Hb2, <- app_assoc. reflexivity.
      + exact He2.
      + exact Herr2.
    - replace (length nm + 3 + extra)%nat with (length nm + 2 + (1 + extra))%nat by lia.
      apply (readTag_gt (1 + extra) true _ (done ++ ["<"%byte; c0]) nm rest Hok).
      + proj_simpl. rewrite Hb2, <- app_assoc. reflexivity.
      + exact He2.
      + exact Herr2. }
  destruct Htag as (z1 & Htag & [Te Tds Tde Terr Tattr Tbuf]).
  pose proof (quiet_fm _ _ (quiet_readTag _ _ _ _ _ Htag)) as Tfm. proj_simpl_in Tfm.
  proj_simpl_in Tbuf. rewrite Hb2 in Tbuf. rewrite length_app in *. cbn [length] in *.
  destruct (loop_startTag_run (length nm + 3 + extra) z2 z1 (c0 :: nm)
              (if slash then "/"%byte else List.last nm c0) Hfm2 Htag)
    as (z' & Hrun & Htt & Hend & Hraw & Herr' & Hfm').
  - apply (tagName_at z1 (done ++ ["<"%byte]) (c0 :: nm) (tagCloser slash ++ rest)).
    + rewrite Tbuf, <- app_assoc. reflexivity.
    + rewrite Tds, length_app. cbn [length]. lia.
    + rewrite Tde, length_app. cbn [length]. lia.
  - discriminate.
  - unfold isErr. rewrite Terr. reflexivity.
  - exact Tattr.
  - rewrite Tbuf, Te. destruct slash;
      [ change (tagCloser true) with ["/"%byte; ">"%byte]
      | change (tagCloser false) with [">"%byte] ]; cbn [app length].
    + replace (done ++ "<"%byte :: c0 :: nm ++ "/"%byte :: ">"%byte :: rest)
        with ((done ++ "<"%byte :: c0 :: nm) ++ "/"%byte :: ">"%byte :: rest)
        by (rewrite <- app_assoc; reflexivity).
      replace (Z.of_nat (length done + 2) + Z.of_nat (length nm) + Z.of_nat 2 - 2)
        with (Z.of_nat (length (done ++ "<"%byte :: c0 :: nm)))
        by (rewrite length_app; cbn [length]; lia).
      apply at_middle.
    + replace (done ++ "<"%byte :: c0 :: nm ++ ">"%byte :: rest)
        with ((done ++ ["<"%byte]) ++ c0 :: nm ++ ">"%byte :: rest)
        by (rewrite <- app_assoc; reflexivity).
      replace (Z.of_nat (length done + 2) + Z.of_nat (length nm) + Z.of_nat 1 - 2)
        with (Z.of_nat (length (done ++ ["<"%byte])) + Z.of_nat (length nm))
        by (rewrite length_app; cbn [length]; lia).
      apply last_at.
  - exists z'. split; [exact Hrun|]. split; [exact Htt|].
    split; [etransitivity; [exact Hend|]; rewrite Te; lia|].
    split; [exact Hraw|]. split; congruence.
Qed.

(** A start tag without attributes before any frontmatter is one token. *)
Lemma Next_start_tag (fuel : nat) (slash : bool) (z : Tokenizer)
      (done : list byte) (c0 : byte) (nm rest : list byte) (st : list Z) (ob : bool) :
  Scan z done [] ("<"%byte :: c0 :: nm ++ tagCloser slash ++ rest)
       FrontmatterInitial 0 st ob ->
  isLetter c0 = true -> forallb nameByte nm = true ->
  exists z',
    Next unescape (length nm + 5 + fuel) z
    = Ok (startTagType (c0 :: nm) (if slash then "/"%byte else List.last nm c0)) z' /\
    rawEnd z' = Z.of_nat (length done) + 2 + Z.of_nat (length nm)
                + Z.of_nat (length (tagCloser slash)) /\
    tt z' = startTagType (c0 :: nm) (if slash then "/"%byte else List.last nm c0) /\
    (rawTextStart (c0 :: nm) = true -> rawTag z' = c0 :: nm) /\
    err z' = None /\ fm z' = FrontmatterClosed.
Proof.
  intros H Hl Hok.
  unfold Next. exec. rewrite (sc_fm _ _ _ _ _ _ _ _ H). cbn [fm_eqb]. exec.
  rewrite (sc_tag _ _ _ _ _ _ _ _ H). unfold Next_dispatch. exec. unfold id. proj_simpl.
  rewrite (sc_fm _ _ _ _ _ _ _ _ H). cbn [fm_eqb negb].
  match goal with
  | |- context [bind (run _ L_frontmatter_loop) _ ?zz] => set (z0 := zz)
  end.
  assert (H0 : Scan z0 done [] ("<"%byte :: c0 :: nm ++ tagCloser slash ++ rest)
                    FrontmatterInitial 0 st ob).
  { subst z0. scan_solve H. }
  assert (Hd0 : dataStart z0 = Z.of_nat (length done)).
  { subst z0. proj_simpl. rewrite (sc_end _ _ _ _ _ _ _ _ H). cbn [length]. lia. }
  clearbody z0.
  replace (length nm + 5 + fuel)%nat with (S (S (length nm + 3 + fuel))) by lia.
  destruct (frontmatter_lt_first (S (S (length nm + 3 + fuel))) z0 done
              (c0 :: nm ++ tagCloser slash ++ rest) st ob H0) as (z1 & Hb1 & H1 & Hd1).
  destruct (loop_start_tag (1 + fuel) slash z1 done c0 nm rest st ob H1) as
    (z' & Hb2 & Htt & Hend & Hraw & Herr' & Hfm'); [congruence | exact Hl | exact Hok |].
  exists z'. split; [|repeat split; assumption].
  assert (Hrun : run (S (S (length nm + 3 + fuel))) L_frontmatter_loop z0 = Ok () z').
  { change (body (S (S (length nm + 3 + fuel))) L_frontmatter_loop z0
            = Ok (Goto L_loop) z1) in Hb1.
    rewrite (run_goto _ _ _ _ _ Hb1). apply run_return.
    replace (S (length nm + 3 + fuel)) with (length nm + 3 + (1 + fuel))%nat by lia.
    exact Hb2. }
  rewrite (bind_run _ _ _ _ _ Hrun). unfold gets. rewrite Htt. reflexivity.
Qed.

End StartTags.

Lemma bytes_eqb_eq (a b : list byte) : bytes_eqb a b = true <-> a = b.
Proof.
  revert b. induction a as [|x a IH]; intros [|y b]; cbn; split; try discriminate; auto.
  - intros H. apply andb_prop in H as [H1 H2]. apply beq_eq in H1. apply IH in H2.
    congruence.
  - intros H. injection H as -> ->. apply andb_true_intro. split.
    + apply beq_eq. reflexivity.
    + apply IH. reflexivity.
Qed.

Lemma existsb_bytes_In (nm : list byte) (l : list (list byte)) :
  existsb (bytes_eqb nm) l = true <-> In nm l.
Proof.
  rewrite existsb_exists. split.
  - intros (x & Hin & E). apply bytes_eqb_eq in E. subst. exact Hin.
  - intros Hin. exists nm. split; [exact Hin | apply bytes_eqb_eq; reflexivity].
Qed.

Lemma last_nameByte (nm : list byte) (c0 : byte) :
  isLetter c0 = true -> forallb nameByte nm = true -> beq (List.last nm c0) "/" = false.
Proof.
  intros Hl Hok. destruct (snoc_cases nm) as [-> | (nm0 & l & ->)].
  - apply (letter_facts _ Hl).
  - rewrite last_last. rewrite forallb_app in Hok. apply andb_prop in Hok as [_ Hok].
    cbn [forallb] in Hok. apply andb_prop in Hok as [Hok _].
    apply (nameByte_facts _ Hok).
Qed.




(** Evaluate the comparisons of two given bytes. *)
Ltac beq_compute :=
  repeat match goal with
         | |- context [beq ?a ?b] =>
             let v := eval vm_compute in (beq a b) in
             match v with
             | true => change (beq a b) with true
             | false => change (beq a b) with false
             end
         end.

(** The automaton of [readScript] reads bytes other than [<] one by one;
    quotes are such bytes. *)
Lemma script_body_scan (n : nat) (post : list byte) :
  forall (txt pre : list byte) (z : Tokenizer),
    noAngle txt = true ->
    buf z = pre ++ txt ++ post -> rawEnd z = Z.of_nat (length pre) -> err z = None ->
    readScript_run (length txt + n) scriptData z
    = readScript_run n scriptData (set_rawEnd (rawEnd z + Z.of_nat (length txt)) z).
Proof.
  induction txt as [|c txt IH]; intros pre z Hok Hb He Herr.
  - cbn [length Nat.add]. f_equal. destruct z as [? ? ? ? ? [a b] ? ? ? ? ? ? ? ? ? ? ? ? ? ? ? ?].
    unfold set_rawEnd, set_raw, set_End, rawEnd. cbn. do 2 f_equal. lia.
  - cbn [noAngle forallb] in Hok. apply andb_prop in Hok as [Hc Hok].
    apply negb_true_iff in Hc.
    cbn [length Nat.add app] in *. cbn [readScript_run scriptStep]. unfold readOrReturn.
    rd Hb He Herr pre c (txt ++ post).
    rewrite Hc. exec.
    rewrite (IH (pre ++ [c]) (set_rawEnd (rawEnd z + 1) z) Hok).
    + f_equal. state_eq.
    + proj_simpl. rewrite Hb, <- app_assoc. reflexivity.
    + proj_simpl. rewrite He, length_app. cbn. lia.
    + exact Herr.
Qed.

(** Read the byte [c] that follows the given bytes [lit] behind [pre]. *)
Ltac rds Hb He Herr pre lit c post :=
  ex;
  match goal with
  | |- context [bind readByte _ ?zz] =>
      rewrite (bind_run _ _ _ _ _
                 (readByte_at zz (pre ++ lit) c post
                    ltac:(ex; rewrite Hb; rewrite <- ?app_assoc; reflexivity)
                    ltac:(ex; rewrite He; rewrite length_app;
                          let k := eval vm_compute in (length lit) in
                          change (length lit) with k; lia)))
  end;
  rewrite ?set_rawEnd_twice, ?bind_bind, bind_gets; noerr Herr.

(** At [</script>] the automaton leaves through [readRawEndTag], which
    steps back before the [<]. *)
Lemma script_end_tag (n : nat) (pre rest : list byte) (z : Tokenizer) :
  buf z = pre ++ scriptEndTag ++ rest -> rawEnd z = Z.of_nat (length pre) ->
  err z = None -> rawTag z = B "script" ->
  readScript_run (3 + n) scriptData z = Ok () (set_rawEnd (Z.of_nat (length pre)) z).
Proof.
  intros Hb He Herr Htag. unfold scriptEndTag in Hb. cbn [B] in Hb.
  cbn [Nat.add readScript_run scriptStep]. unfold readOrReturn.
  rd Hb He Herr pre "<"%byte (B "/script>" ++ rest).
  beq_compute. exec. cbn [scriptStep]. unfold readOrReturn.
  rds Hb He Herr pre (B "<") "/"%byte (B "script>" ++ rest).
  beq_compute. exec. cbn [scriptStep]. exec. noerr Herr.
  unfold readRawEndTag. exec. rewrite Htag.
  change (B "script") with ["s"%byte; "c"%byte; "r"%byte; "i"%byte; "p"%byte; "t"%byte].
  cbn [readRawEndTag_name].
  rds Hb He Herr pre (B "</") "s"%byte (B "cript>" ++ rest).
  beq_compute. cbn [negb andb].
  rds Hb He Herr pre (B "</s") "c"%byte (B "ript>" ++ rest).
  beq_compute. cbn [negb andb].
  rds Hb He Herr pre (B "</sc") "r"%byte (B "ipt>" ++ rest).
  beq_compute. cbn [negb andb].
  rds Hb He Herr pre (B "</scr") "i"%byte (B "pt>" ++ rest).
  beq_compute. cbn [negb andb].
  rds Hb He Herr pre (B "</scri") "p"%byte (B "t>" ++ rest).
  beq_compute. cbn [negb andb].
  rds Hb He Herr pre (B "</scrip") "t"%byte (B ">" ++ rest).
  beq_compute. cbn [negb andb]. exec.
  rds Hb He Herr pre (B "</script") ">"%byte rest.
  change (isRawTagEnd ">") with true. cbv iota. unfold rawEnd_add. exec.
  rewrite set_rawEnd_twice. do 2 f_equal. cbn [length]. lia.
Qed.

Lemma script_arm {A} (a p q r : A) :
  match B "script" with
  | [] => a
  | _ :: _ =>
      if bytes_eqb (B "script") (B "plaintext") then p
      else if bytes_eqb (B "script") (B "title") || bytes_eqb (B "script") (B "textarea")
           then q else r
  end = r.
Proof. reflexivity. Qed.

Section Script.

Variable unescape : list byte -> list byte.

(** [Next] behind a [<script>] start tag, with script text that holds no
    [<] before the first [</script>]: the text is the token. *)
Lemma Next_script_text (fuel : nat) (z : Tokenizer) (pre txt rest : list byte) :
  rawTag z = B "script" -> tt z = StartTagToken -> err z = None ->
  fm z <> FrontmatterOpen ->
  buf z = pre ++ txt ++ scriptEndTag ++ rest -> rawEnd z = Z.of_nat (length pre) ->
  (0 < length txt)%nat -> noAngle txt = true ->
  exists z',
    Next unescape (length txt + 3 + fuel) z = Ok TextToken z' /\
    rawBytes (tokOf TextToken z') = Some txt /\
    rawTag z' = [] /\ textIsRaw z' = true /\ err z' = None /\ buf z' = buf z /\
    rawEnd z' = Z.of_nat (length pre) + Z.of_nat (length txt).
Proof.
  intros Htag Htt Herr Hfm Hb He Hlen Hok. unfold Next. exec.
  replace (fm_eqb (fm z) FrontmatterOpen) with false
    by (destruct (fm z); first [reflexivity | congruence]).
  exec. rewrite Htag, script_arm. rewrite bind_bind.
  unfold readRawOrRCDATA. rewrite ?bind_bind. unfold Token_Type. exec. rewrite Htt.
  unfold TagName. exec. unfold id. proj_simpl. rewrite Z.ltb_irrefl. exec.
  assert (Ha : Token_attrs unescape (length txt + 3 + fuel) false = ret ()).
  { replace (length txt + 3 + fuel)%nat with (S (length txt + 2 + fuel)) by lia.
    reflexivity. }
  rewrite Ha. clear Ha. exec.
  change (TokenType_eqb StartTagToken SelfClosingTagToken) with false. cbv iota.
  exec. rewrite Htag. change (bytes_eqb (B "script") (B "script")) with true. cbv iota.
  unfold readScript. rewrite ?bind_bind.
  replace (length txt + 3 + fuel)%nat with (length txt + (3 + fuel))%nat by lia.
  match goal with
  | |- context [bind (readScript_run _ _) _ ?zz] =>
      assert (Hr : readScript_run (length txt + (3 + fuel)) scriptData zz
                   = Ok () (set_rawEnd (Z.of_nat (length (pre ++ txt))) zz))
  end.
  { rewrite (script_body_scan (3 + fuel) (scriptEndTag ++ rest) txt pre); auto.
    rewrite (script_end_tag fuel (pre ++ txt) rest).
    - rewrite set_rawEnd_twice. reflexivity.
    - proj_simpl. rewrite Hb, <- app_assoc. reflexivity.
    - proj_simpl. rewrite He, length_app. lia.
    - exact Herr.
    - exact Htag. }
  rewrite (bind_run _ _ _ _ _ Hr). clear Hr.
  exec. unfold Next_rawText. exec. unfold id. proj_simpl.
  replace (Z.of_nat (length (pre ++ txt)) >? rawEnd z) with true
    by (symmetry; apply Z.gtb_lt; rewrite length_app; lia).
  exec. eexists. split; [reflexivity|].
  split.
  { apply (raw_of_buf _ pre txt (scriptEndTag ++ rest)); proj_simpl.
    - exact Hb.
    - exact He.
    - rewrite length_app. lia. }
  proj_simpl. rewrite length_app. repeat split; auto. lia.
Qed.

(** A script element at the start of the input: the start tag, then the
    script text up to the first [</script>]. *)
Lemma script_element_tokens (slack txt rest : list byte) (fuel n : nat) :
  (0 < length txt)%nat -> noAngle txt = true ->
  map view (firstn 2 (fst (tokens unescape (length txt + 10 + fuel) (2 + n)
                             (NewTokenizer (B "<script>" ++ txt ++ scriptEndTag ++ rest)
                                           slack))))
  = [(StartTagToken, Some (B "<script>")); (TextToken, Some txt)].
Proof.
  intros Hlen Hok.
  set (input := B "<script>" ++ txt ++ scriptEndTag ++ rest).
  assert (H0 : Scan (NewTokenizer input slack) [] []
                    ("<"%byte :: "s"%byte :: B "cript" ++ tagCloser false
                       ++ txt ++ scriptEndTag ++ rest)
                    FrontmatterInitial 0 [] true).
  { constructor; reflexivity. }
  destruct (Next_start_tag unescape (length txt + fuel) false _ _ _ _ _ _ _ H0
              eq_refl eq_refl) as (z1 & HN1 & Hend1 & Htt1 & Hraw1 & Herr1 & Hfm1).
  replace (length (B "cript") + 5 + (length txt + fuel))%nat
    with (length txt + 10 + fuel)%nat in HN1
    by (change (length (B "cript")) with 5%nat; lia).
  change (startTagType _ _) with StartTagToken in HN1, Htt1.
  specialize (Hraw1 eq_refl).
  pose proof (Next_after_start unescape _ _ _ _ HN1) as K.
  pose proof (kept_start _ _ K) as Hs1. pose proof (kept_buf _ _ K) as Hb1.
  proj_simpl_in Hs1. proj_simpl_in Hb1.
  change (buf (NewTokenizer input slack)) with (B "<script>" ++ txt ++ scriptEndTag ++ rest)
    in Hb1.
  change (rawEnd (NewTokenizer input slack)) with 0 in Hs1.
  assert (He1 : rawEnd z1 = Z.of_nat (length (B "<script>"))).
  { rewrite Hend1. reflexivity. }
  destruct (Next_script_text (7 + fuel) z1 (B "<script>") txt rest)
    as (z2 & HN2 & Hraw2 & _); auto.
  { rewrite Hfm1. discriminate. }
  replace (length txt + 3 + (7 + fuel))%nat with (length txt + 10 + fuel)%nat in HN2 by lia.
  change (2 + n)%nat with (S (S n)).
  rewrite (tokens_cons _ _ _ _ _ _ HN1) by discriminate. cbn [fst].
  rewrite (tokens_cons _ _ _ _ _ _ HN2) by discriminate. cbn [fst firstn map].
  unfold view. rewrite Hraw2.
  rewrite (raw_of_buf z1 [] (B "<script>") (txt ++ scriptEndTag ++ rest)); auto.
Qed.

End Script.

(** Behind [<!--<script] the automaton is in its double-escaped states,
    where [</script>] does not end the script text. *)
Lemma script_double_escape_keeps_end_tag :
  map view (fst (tokens noUnescape 100 10 (NewTokenizer inputDoubleEscape [])))
  = [ (StartTagToken, Some (B "<script>"));
      (TextToken, Some (B "<!--<script></script>-->"));
      (EndTagToken, Some (B "</script>")) ].
Proof. vm_compute. reflexivity. Qed.

(** C2 (as the code has it): raw script scanning knows no string
    literals.  For an input that begins with [<script>], then script text
    that is not empty and holds no [<], then [</script>], the first two
    tokens are the StartTag [<script>] and one Text token whose raw bytes
    are exactly that script text, so the text ends at the first
    [</script>], inside a string literal or not.  The same holds for the
    call of [Next] in any state directly behind a [<script>] start tag.
    For the input [<script>var x = "</script>";</script>] the stream is
    StartTag [<script>], Text [var x = "], EndTag [</script>], Text [";],
    EndTag [</script>], and then the end of the input. *)
Theorem script_first_end_tag_closes :
  (forall (unescape : list byte -> list byte) (slack txt rest : list byte) (fuel n : nat),
     (0 < length txt)%nat -> noAngle txt = true ->
     map view (firstn 2 (fst (tokens unescape (length txt + 10 + fuel) (2 + n)
                                (NewTokenizer (B "<script>" ++ txt ++ scriptEndTag ++ rest)
                                              slack))))
     = [(StartTagToken, Some (B "<script>")); (TextToken, Some txt)]) /\
  (forall (unescape : list byte -> list byte) (fuel : nat) (z : Tokenizer)
          (pre txt rest : list byte),
     rawTag z = B "script" -> tt z = StartTagToken -> err z = None ->
     fm z <> FrontmatterOpen ->
     buf z = pre ++ txt ++ scriptEndTag ++ rest -> rawEnd z = Z.of_nat (length pre) ->
     (0 < length txt)%nat -> noAngle txt = true ->
     exists z',
       Next unescape (length txt + 3 + fuel) z = Ok TextToken z' /\
       rawBytes (tokOf TextToken z') = Some txt /\
       rawTag z' = [] /\ textIsRaw z' = true /\ err z' = None /\ buf z' = buf z /\
       rawEnd z' = Z.of_nat (length pre) + Z.of_nat (length txt)) /\
  (forall (unescape : list byte -> list byte) (slack : list byte) (fuel n : nat),
     let r := tokens unescape (13 + fuel) (6 + n) (NewTokenizer inputScript slack) in
     map view (fst r) = firstEndTagStream /\ stoppedAtError (snd r)).
Proof.
  split; [|split].
  - intros. apply script_element_tokens; assumption.
  - intros unescape fuel z pre txt rest Htag Htt Herr Hfm Hb He Hlen Hok.
    exact (Next_script_text unescape fuel z pre txt rest Htag Htt Herr Hfm Hb He Hlen Hok).
  - intros. vm_compute. split; [reflexivity | exact I].
Qed.

Lemma script_first_end_tag_closes_witness :
  map view (firstn 2 (fst (tokens noUnescape (length (B "var x = " ++ [DQ]) + 10 + 0) (2 + 0)
                             (NewTokenizer (B "<script>" ++ (B "var x = " ++ [DQ])
                                              ++ scriptEndTag ++ [DQ] ++ B ";</script>")
                                           []))))
  = [(StartTagToken, Some (B "<script>")); (TextToken, Some (B "var x = " ++ [DQ]))].
Proof.
  apply (proj1 script_first_end_tag_closes noUnescape [] (B "var x = " ++ [DQ])
               ([DQ] ++ B ";</script>") 0%nat 0%nat).
  - vm_compute. lia.
  - reflexivity.
Defined.

(** * Reasoning about the node tree *)

Module TreeInv.
Import Tree.
Import TreeSpec.

Lemma chain_ext (h h' : gmap nat Node) (p : nat) (l : list nat) (prev next : Ptr) :
  (forall x, x ∈ l -> links h' x = links h x) ->
  chain h p prev l next -> chain h' p prev l next.
Proof.
  revert prev. induction l as [|c l IH]; intros prev Hext; cbn; [auto|].
  intros [Hc Hl]. split.
  - rewrite Hext by set_solver. exact Hc.
  - apply IH; [|exact Hl]. intros x Hx. apply Hext. set_solver.
Qed.

Lemma chain_app (h : gmap nat Node) (p : nat) (l1 l2 : list nat) (prev next : Ptr) :
  chain h p prev (l1 ++ l2) next <->
  chain h p prev l1 (headOr l2 next) /\ chain h p (lastOr l1 prev) l2 next.
Proof.
  revert prev. induction l1 as [|c l1 IH]; intros prev; cbn [app chain].
  - unfold lastOr. cbn. tauto.
  - rewrite IH.
    assert (E1 : headOr (l1 ++ l2) next = headOr l1 (headOr l2 next)).
    { destruct l1; reflexivity. }
    assert (E2 : lastOr (c :: l1) prev = lastOr l1 (Some c)).
    { unfold lastOr. destruct l1 as [|d l1]; [reflexivity|].
      rewrite last_cons_cons. destruct (last (d :: l1)) eqn:E; [reflexivity|].
      apply last_None in E. discriminate. }
    rewrite E1, E2. tauto.
Qed.

Lemma chain_parent (h : gmap nat Node) (p : nat) (l : list nat) (prev next : Ptr) (x : nat) :
  chain h p prev l next -> x ∈ l ->
  exists pr nx, links h x = Some (Some p, pr, nx).
Proof.
  revert prev. induction l as [|c l IH]; intros prev Hc Hx; [set_solver|].
  destruct Hc as [Hc Hl]. apply elem_of_cons in Hx as [->|Hx]; eauto.
Qed.

(** No node is a child of two different nodes. *)
Lemma one_parent (h : gmap nat Node) (kids : nat -> list nat) (c p q : nat) :
  TreeInvariant h kids -> c ∈ kids p -> c ∈ kids q -> p = q.
Proof.
  intros Hinv Hp Hq.
  destruct (h !! p) as [nd|] eqn:Ep;
    [|rewrite (inv_dom _ _ Hinv p Ep) in Hp; set_solver].
  assert (He : ends h p = Some (FirstChild nd, LastChild nd)).
  { unfold ends. rewrite Ep. reflexivity. }
  destruct (inv_ends _ _ Hinv _ _ _ He) as (_ & _ & Hch).
  destruct (chain_parent _ _ _ _ _ _ Hch Hp) as (pr & nx & Hl).
  apply (inv_parent _ _ Hinv _ _ _ _ q) in Hl. apply Hl in Hq. congruence.
Qed.

(** ** Field updates as [alter] *)

Lemma store_alter (x : nat) (f : Node -> Node) (h : gmap nat Node) :
  is_Some (h !! x) -> store x f h = Some (alter f x h).
Proof.
  intros [nd E]. unfold store. rewrite E. f_equal.
  apply map_eq. intros k. rewrite lookup_alter, lookup_insert.
  destruct (decide (x = k)) as [->|]; [rewrite E|]; reflexivity.
Qed.

Lemma alter_is_Some (x k : nat) (f : Node -> Node) (h : gmap nat Node) :
  is_Some (alter f x h !! k) <-> is_Some (h !! k).
Proof.
  rewrite lookup_alter. destruct (decide (x = k)) as [->|]; [|tauto].
  rewrite fmap_is_Some. tauto.
Qed.

Lemma links_alter (f : Node -> Node) (g : Ptr * Ptr * Ptr -> Ptr * Ptr * Ptr)
      (k x : nat) (h : gmap nat Node) :
  (forall nd, (Parent (f nd), PrevSibling (f nd), NextSibling (f nd))
              = g (Parent nd, PrevSibling nd, NextSibling nd)) ->
  links (alter f k h) x = if decide (k = x) then g <$> links h x else links h x.
Proof.
  intros Hf. unfold links. rewrite lookup_alter.
  destruct (decide (k = x)) as [->|]; [|reflexivity].
  destruct (h !! x); cbn; [f_equal; apply Hf | reflexivity].
Qed.

Lemma ends_alter (f : Node -> Node) (g : Ptr * Ptr -> Ptr * Ptr)
      (k x : nat) (h : gmap nat Node) :
  (forall nd, (FirstChild (f nd), LastChild (f nd)) = g (FirstChild nd, LastChild nd)) ->
  ends (alter f k h) x = if decide (k = x) then g <$> ends h x else ends h x.
Proof.
  intros Hf. unfold ends. rewrite lookup_alter.
  destruct (decide (k = x)) as [->|]; [|reflexivity].
  destruct (h !! x); cbn; [f_equal; apply Hf | reflexivity].
Qed.

Lemma links_alter_id (f : Node -> Node) (k x : nat) (h : gmap nat Node) :
  (forall nd, (Parent (f nd), PrevSibling (f nd), NextSibling (f nd))
              = (Parent nd, PrevSibling nd, NextSibling nd)) ->
  links (alter f k h) x = links h x.
Proof.
  intros Hf. rewrite (links_alter f id) by exact Hf.
  destruct (decide (k = x)); [|reflexivity]. destruct (links h x); reflexivity.
Qed.

Lemma ends_alter_id (f : Node -> Node) (k x : nat) (h : gmap nat Node) :
  (forall nd, (FirstChild (f nd), LastChild (f nd)) = (FirstChild nd, LastChild nd)) ->
  ends (alter f k h) x = ends h x.
Proof.
  intros Hf. rewrite (ends_alter f id) by exact Hf.
  destruct (decide (k = x)); [|reflexivity]. destruct (ends h x); reflexivity.
Qed.

Lemma links_set_Parent v k x h :
  links (alter (set_Parent v) k h) x
  = if decide (k = x) then withParent v <$> links h x else links h x.
Proof. apply links_alter. reflexivity. Qed.
Lemma links_set_PrevSibling v k x h :
  links (alter (set_PrevSibling v) k h) x
  = if decide (k = x) then withPrev v <$> links h x else links h x.
Proof. apply links_alter. reflexivity. Qed.
Lemma links_set_NextSibling v k x h :
  links (alter (set_NextSibling v) k h) x
  = if decide (k = x) then withNext v <$> links h x else links h x.
Proof. apply links_alter. reflexivity. Qed.
Lemma links_set_FirstChild v k x h :
  links (alter (set_FirstChild v) k h) x = links h x.
Proof. apply links_alter_id. reflexivity. Qed.
Lemma links_set_LastChild v k x h :
  links (alter (set_LastChild v) k h) x = links h x.
Proof. apply links_alter_id. reflexivity. Qed.

Lemma ends_set_Parent v k x h : ends (alter (set_Parent v) k h) x = ends h x.
Proof. apply ends_alter_id. reflexivity. Qed.
Lemma ends_set_PrevSibling v k x h : ends (alter (set_PrevSibling v) k h) x = ends h x.
Proof. apply ends_alter_id. reflexivity. Qed.
Lemma ends_set_NextSibling v k x h : ends (alter (set_NextSibling v) k h) x = ends h x.
Proof. apply ends_alter_id. reflexivity. Qed.
Lemma ends_set_FirstChild v k x h :
  ends (alter (set_FirstChild v) k h) x
  = if decide (k = x) then (fun e => (v, e.2)) <$> ends h x else ends h x.
Proof. apply (ends_alter _ (fun e => (v, e.2))). reflexivity. Qed.
Lemma ends_set_LastChild v k x h :
  ends (alter (set_LastChild v) k h) x
  = if decide (k = x) then (fun e => (e.1, v)) <$> ends h x else ends h x.
Proof. apply (ends_alter _ (fun e => (e.1, v))). reflexivity. Qed.

Lemma links_is_Some (h : gmap nat Node) (x : nat) :
  is_Some (links h x) <-> is_Some (h !! x).
Proof. unfold links. apply fmap_is_Some. Qed.

Lemma ends_is_Some (h : gmap nat Node) (x : nat) :
  is_Some (ends h x) <-> is_Some (h !! x).
Proof. unfold ends. apply fmap_is_Some. Qed.

(** The child list of [n] in a well-formed heap and what follows for the
    fields of [n]. *)
Lemma inv_ends_node (h : gmap nat Node) (kids : nat -> list nat) (p : nat) (nd : Node) :
  TreeInvariant h kids -> h !! p = Some nd ->
  FirstChild nd = head (kids p) /\ LastChild nd = last (kids p) /\
  chain h p None (kids p) None.
Proof.
  intros Hinv Hp. apply (inv_ends _ _ Hinv). unfold ends. rewrite Hp. reflexivity.
Qed.

Lemma kid_links (h : gmap nat Node) (kids : nat -> list nat) (p x : nat) :
  TreeInvariant h kids -> x ∈ kids p ->
  exists pr nx, links h x = Some (Some p, pr, nx).
Proof.
  intros Hinv Hx.
  destruct (h !! p) as [nd|] eqn:Ep;
    [|rewrite (inv_dom _ _ Hinv p Ep) in Hx; set_solver].
  destruct (inv_ends_node _ _ _ _ Hinv Ep) as (_ & _ & Hch).
  exact (chain_parent _ _ _ _ _ _ Hch Hx).
Qed.

Lemma kid_is_Some (h : gmap nat Node) (kids : nat -> list nat) (p x : nat) :
  TreeInvariant h kids -> x ∈ kids p -> is_Some (h !! x).
Proof.
  intros Hinv Hx. destruct (kid_links _ _ _ _ Hinv Hx) as (pr & nx & Hl).
  apply links_is_Some. rewrite Hl. eauto.
Qed.

Lemma last_elem (l : list nat) (x : nat) : last l = Some x -> x ∈ l.
Proof.
  intros H. apply last_Some in H as [l' ->]. set_solver.
Qed.

Lemma head_elem (l : list nat) (x : nat) : head l = Some x -> x ∈ l.
Proof. destruct l; cbn; intros H; [discriminate|]. injection H as ->. set_solver. Qed.

Lemma detached_attached (nd : Node) :
  Parent nd = None -> PrevSibling nd = None -> NextSibling nd = None ->
  attached nd = false.
Proof. unfold attached. intros -> -> ->. reflexivity. Qed.

Lemma AppendChild_result (h : gmap nat Node) (kids : nat -> list nat) (n c : nat) :
  TreeInvariant h kids ->
  is_Some (h !! n) -> links h c = Some (None, None, None) ->
  exists h',
    AppendChild n c h = Some h' /\
    (forall x, links h' x = appendLinks n c (last (kids n)) x <$> links h x) /\
    (forall x, ends h' x = appendEnds n c (last (kids n)) x <$> ends h x) /\
    (forall x, is_Some (h' !! x) <-> is_Some (h !! x)).
Proof.
  intros Hinv [nd En] Hc.
  unfold links in Hc. destruct (h !! c) as [cn|] eqn:Ec; [|discriminate].
  cbn in Hc. injection Hc as Hpa Hpr Hnx.
  destruct (inv_ends_node _ _ _ _ Hinv En) as (Hf & Hl & Hch).
  unfold AppendChild. rewrite Ec. cbn [mbind option_bind].
  rewrite (detached_attached _ Hpa Hpr Hnx). rewrite En. cbn [mbind option_bind].
  rewrite Hl.
  destruct (last (kids n)) as [l|] eqn:El; cbn [storeOr].
  - assert (Hlsome : is_Some (h !! l)).
    { eapply kid_is_Some; [exact Hinv | apply last_elem; exact El]. }
    rewrite (store_alter _ _ _ Hlsome). cbn [mbind option_bind].
    rewrite store_alter by (apply alter_is_Some; eauto). cbn [mbind option_bind].
    rewrite store_alter by (do 2 apply alter_is_Some; eauto). cbn [mbind option_bind].
    rewrite store_alter by (do 3 apply alter_is_Some; eauto).
    eexists. split; [reflexivity|]. split; [|split].
    + intros x. rewrite links_set_PrevSibling, links_set_Parent, links_set_LastChild,
        links_set_NextSibling.
      unfold appendLinks, withPrev, withParent, withNext.
      destruct (links h x) as [[[pa pr] nx]|]; repeat case_decide; subst;
        cbn; try reflexivity; congruence.
    + intros x. rewrite ends_set_PrevSibling, ends_set_Parent, ends_set_LastChild,
        ends_set_NextSibling.
      unfold appendEnds.
      destruct (ends h x) as [[f e]|]; repeat case_decide; subst;
        cbn; try reflexivity; try congruence; destruct_and?; congruence.
    + intros x. rewrite !alter_is_Some. tauto.
  - rewrite store_alter by eauto. cbn [mbind option_bind].
    rewrite store_alter by (apply alter_is_Some; eauto). cbn [mbind option_bind].
    rewrite store_alter by (do 2 apply alter_is_Some; eauto). cbn [mbind option_bind].
    rewrite store_alter by (do 3 apply alter_is_Some; eauto).
    eexists. split; [reflexivity|]. split; [|split].
    + intros x. rewrite links_set_PrevSibling, links_set_Parent, links_set_LastChild,
        links_set_FirstChild.
      unfold appendLinks, withPrev, withParent, withNext.
      destruct (links h x) as [[[pa pr] nx]|]; repeat case_decide; subst;
        cbn; try reflexivity; congruence.
    + intros x. rewrite ends_set_PrevSibling, ends_set_Parent, ends_set_LastChild,
        ends_set_FirstChild.
      unfold appendEnds.
      destruct (ends h x) as [[f e]|]; repeat case_decide; subst;
        cbn; try reflexivity; try congruence; try tauto.
    + intros x. rewrite !alter_is_Some. tauto.
Qed.

(** ** Re-linking the ends of a chain *)

Lemma chain_set_next (h h' : gmap nat Node) (p : nat) (l : list nat) (pv nx nx' : Ptr) :
  NoDup l ->
  (forall x, x ∈ l ->
     links h' x = (if decide (Some x = last l) then withNext nx' else id) <$> links h x) ->
  chain h p pv l nx -> chain h' p pv l nx'.
Proof.
  revert pv. induction l as [|a l IH]; intros pv Hnd Hl; cbn [chain]; [auto|].
  intros [Ha Hch]. apply NoDup_cons in Hnd as [Hna Hnd].
  destruct l as [|b l].
  - split; [|exact I]. rewrite Hl by set_solver. rewrite Ha. cbn.
    rewrite decide_True by reflexivity. reflexivity.
  - split.
    + rewrite Hl by set_solver. rewrite Ha. rewrite last_cons_cons.
      rewrite decide_False; [reflexivity|].
      intros E. symmetry in E. apply last_elem in E. contradiction.
    + apply IH; [exact Hnd| |exact Hch].
      intros x Hx. rewrite Hl by set_solver. rewrite last_cons_cons. reflexivity.
Qed.

Lemma chain_set_prev (h h' : gmap nat Node) (p : nat) (l : list nat) (pv pv' nx : Ptr) :
  NoDup l ->
  (forall x, x ∈ l ->
     links h' x = (if decide (Some x = head l) then withPrev pv' else id) <$> links h x) ->
  chain h p pv l nx -> chain h' p pv' l nx.
Proof.
  intros Hnd Hl. destruct l as [|a l]; cbn [chain]; [auto|].
  intros [Ha Hch]. apply NoDup_cons in Hnd as [Hna Hnd]. split.
  - rewrite Hl by set_solver. rewrite Ha. cbn.
    rewrite decide_True by reflexivity. reflexivity.
  - eapply chain_ext; [|exact Hch]. intros x Hx. rewrite Hl by set_solver.
    cbn [head]. rewrite decide_False; [|intros E; injection E as ->; contradiction].
    destruct (links h x); reflexivity.
Qed.

Lemma lastOr_None (l : list nat) : lastOr l None = last l.
Proof. unfold lastOr. destruct (last l); reflexivity. Qed.

Lemma headOr_None (l : list nat) : headOr l None = head l.
Proof. destruct l; reflexivity. Qed.

Lemma head_app_cons (l1 l2 : list nat) (c : nat) :
  head (l1 ++ c :: l2) = match last l1 with None => Some c | Some _ => head (l1 ++ l2) end.
Proof.
  destruct l1 as [|a l1]; [reflexivity|]. cbn.
  destruct (last (a :: l1)) eqn:E; [reflexivity|]. apply last_None in E. discriminate.
Qed.

Lemma last_app_cons (l1 l2 : list nat) (c : nat) :
  last (l1 ++ c :: l2) = match head l2 with None => Some c | Some _ => last (l1 ++ l2) end.
Proof.
  destruct l2 as [|b l2]; cbn [head].
  - rewrite last_snoc. reflexivity.
  - rewrite !last_app. rewrite last_cons_cons. reflexivity.
Qed.

Lemma detached_not_kid (h : gmap nat Node) (kids : nat -> list nat) (c q : nat)
      (pr nx : Ptr) :
  TreeInvariant h kids -> links h c = Some (None, pr, nx) -> c ∉ kids q.
Proof.
  intros Hinv Hc Hin. apply (inv_parent _ _ Hinv _ _ _ _ q Hc) in Hin. discriminate.
Qed.

Lemma insert_preserves (h h' : gmap nat Node) (kids : nat -> list nat)
      (n c : nat) (l1 l2 : list nat) :
  TreeInvariant h kids ->
  kids n = l1 ++ l2 ->
  is_Some (h !! n) ->
  links h c = Some (None, None, None) ->
  (forall x, links h' x = insLinks n c (last l1) (head l2) x <$> links h x) ->
  (forall x, ends h' x = insEnds n c (last l1) (head l2) x <$> ends h x) ->
  (forall x, is_Some (h' !! x) <-> is_Some (h !! x)) ->
  TreeInvariant h' (fun p => if decide (p = n) then l1 ++ c :: l2 else kids p).
Proof.
  intros Hinv Hkids Hn Hc Hlinks Hends Hdom.
  assert (Hcnot : forall q, c ∉ kids q).
  { intros q. eapply detached_not_kid; eauto. }
  assert (Hnd : NoDup (l1 ++ l2)).
  { rewrite <- Hkids. apply (inv_nodup _ _ Hinv). }
  assert (Hnd' := Hnd). apply NoDup_app in Hnd' as (Hnd1 & Hdisj & Hnd2).
  assert (Hprev : forall y, last l1 = Some y -> y ∈ kids n /\ y ∈ l1).
  { intros y Hy. apply last_elem in Hy. rewrite Hkids. set_solver. }
  assert (Hnext : forall y, head l2 = Some y -> y ∈ kids n /\ y ∈ l2).
  { intros y Hy. apply head_elem in Hy. rewrite Hkids. set_solver. }
  assert (Hother : forall p x, p <> n -> x ∈ kids p -> links h' x = links h x).
  { intros p x Hp Hx. rewrite Hlinks.
    destruct (links h x) as [[[pa0 pr0] nx0]|]; [|reflexivity].
    cbn. unfold insLinks. cbn [fst snd].
    rewrite !(decide_False (P := x = c)) by (intros ->; exact (Hcnot p Hx)).
    rewrite (decide_False (P := Some x = head l2)).
    2:{ intros E. symmetry in E. apply Hnext in E as [E _].
        apply Hp. eapply one_parent; eauto. }
    rewrite (decide_False (P := Some x = last l1)).
    2:{ intros E. symmetry in E. apply Hprev in E as [E _].
        apply Hp. eapply one_parent; eauto. }
    reflexivity. }
  split.
  - (* ends and chain *)
    intros p f l He. rewrite Hends in He.
    destruct (ends h p) as [[f0 l0]|] eqn:E0; [|discriminate].
    cbn in He. injection He as <- <-.
    destruct (inv_ends _ _ Hinv p f0 l0 E0) as (Hf & Hl & Hch).
    destruct (decide (p = n)) as [->|Hp].
    + rewrite Hkids in Hf, Hl, Hch. split; [|split].
      * rewrite head_app_cons. destruct (last l1) eqn:El.
        -- rewrite decide_False by (intros [_ ?]; discriminate). exact Hf.
        -- rewrite decide_True by auto. reflexivity.
      * rewrite last_app_cons. destruct (head l2) eqn:El.
        -- rewrite decide_False by (intros [_ ?]; discriminate). exact Hl.
        -- rewrite decide_True by auto. reflexivity.
      * apply chain_app in Hch as [H1 H2]. apply chain_app. split.
        -- cbn [headOr]. eapply chain_set_next; [exact Hnd1| |exact H1].
           intros x Hx. rewrite Hlinks.
           destruct (links h x) as [[[pa0 pr0] nx0]|]; [|reflexivity].
           cbn. unfold insLinks, withNext. cbn [fst snd].
           rewrite !(decide_False (P := x = c))
             by (intros ->; apply (Hcnot n); rewrite Hkids; set_solver).
           rewrite (decide_False (P := Some x = head l2)).
           2:{ intros E. symmetry in E. apply Hnext in E as [_ E].
               exact (Hdisj x Hx E). }
           destruct (decide (Some x = last l1)); reflexivity.
        -- cbn [chain]. split.
           ++ rewrite Hlinks, Hc. unfold insLinks. cbn.
              rewrite !decide_True by reflexivity.
              rewrite lastOr_None, headOr_None. reflexivity.
           ++ eapply chain_set_prev; [exact Hnd2| |exact H2].
              intros x Hx. rewrite Hlinks.
              destruct (links h x) as [[[pa0 pr0] nx0]|]; [|reflexivity].
              cbn. unfold insLinks, withPrev. cbn [fst snd].
              rewrite !(decide_False (P := x = c))
                by (intros ->; apply (Hcnot n); rewrite Hkids; set_solver).
              assert (Hxp : Some x <> last l1).
              { intros E. symmetry in E. apply Hprev in E as [_ E].
                exact (Hdisj x E Hx). }
              rewrite (decide_False (P := Some x = last l1)) by exact Hxp.
              destruct (decide (Some x = head l2)); reflexivity.
    + unfold insEnds. rewrite !decide_False by (intros [? _]; contradiction).
      split; [exact Hf|]. split; [exact Hl|].
      eapply chain_ext; [|exact Hch]. intros x Hx. exact (Hother p x Hp Hx).
  - (* child lists of missing nodes *)
    intros p Hp. destruct (decide (p = n)) as [->|Hpn].
    + exfalso. apply Hdom in Hn. rewrite Hp in Hn. destruct Hn; discriminate.
    + apply (inv_dom _ _ Hinv). apply eq_None_not_Some. rewrite <- Hdom.
      rewrite Hp. intros [? ?]; discriminate.
  - (* no duplicates *)
    intros p. destruct (decide (p = n)); [|apply (inv_nodup _ _ Hinv)].
    apply NoDup_app. split; [exact Hnd1|]. split.
    + intros x Hx Hx'. apply elem_of_cons in Hx' as [->|Hx'].
      * apply (Hcnot n). rewrite Hkids. set_solver.
      * exact (Hdisj x Hx Hx').
    + apply NoDup_cons. split; [|exact Hnd2].
      intros Hin. apply (Hcnot n). rewrite Hkids. set_solver.
  - (* parents *)
    intros x pa pr nx q Hx. rewrite Hlinks in Hx.
    destruct (links h x) as [[[pa0 pr0] nx0]|] eqn:E0; [|discriminate].
    cbn in Hx. injection Hx as <- _ _.
    assert (Hold := inv_parent _ _ Hinv x pa0 pr0 nx0 q E0).
    destruct (decide (x = c)) as [->|Hxc].
    + destruct (decide (q = n)) as [->|Hq].
      * split; [intros _; set_solver | reflexivity].
      * split; [congruence | intros Hin; exfalso; exact (Hcnot q Hin)].
    + rewrite Hold. destruct (decide (q = n)) as [->|Hq]; [|tauto].
      rewrite Hkids. set_solver.
  - (* detached nodes *)
    intros x pr nx Hx. rewrite Hlinks in Hx.
    destruct (links h x) as [[[pa0 pr0] nx0]|] eqn:E0; [|discriminate].
    cbn in Hx. injection Hx as Hpa Hpr Hnx.
    destruct (decide (x = c)) as [->|Hxc]; [discriminate|].
    cbn in Hpa. subst pa0.
    destruct (inv_detached _ _ Hinv x pr0 nx0 E0) as [-> ->].
    assert (Hxn : x ∉ kids n). { eapply detached_not_kid; eauto. }
    rewrite (decide_False (P := Some x = head l2)) in Hpr.
    2:{ intros E. symmetry in E. apply Hnext in E as [E _]. contradiction. }
    rewrite (decide_False (P := Some x = last l1)) in Hnx.
    2:{ intros E. symmetry in E. apply Hprev in E as [E _]. contradiction. }
    auto.
Qed.

Lemma AppendChild_preserves (h : gmap nat Node) (kids : nat -> list nat) (n c : nat) :
  TreeInvariant h kids ->
  is_Some (h !! n) -> links h c = Some (None, None, None) ->
  exists h',
    AppendChild n c h = Some h' /\
    TreeInvariant h' (fun p => if decide (p = n) then kids n ++ [c] else kids p).
Proof.
  intros Hinv Hn Hc.
  destruct (AppendChild_result _ _ _ _ Hinv Hn Hc) as (h' & Hh' & Hlinks & Hends & Hdom).
  exists h'. split; [exact Hh'|].
  assert (Hcn : c ∉ kids n) by (eapply detached_not_kid; eauto).
  apply (insert_preserves h h' kids n c (kids n) []); auto.
  - symmetry. apply app_nil_r.
  - intros x. rewrite Hlinks.
    destruct (links h x) as [[[pa pr] nx]|] eqn:E; [|reflexivity].
    cbn. unfold appendLinks, insLinks. cbn [fst snd head]. f_equal.
    destruct (decide (x = c)) as [->|Hxc].
    + rewrite Hc in E. injection E as <- <- <-.
      rewrite decide_False; [reflexivity|].
      intros El. symmetry in El. apply last_elem in El. contradiction.
    + rewrite (decide_False (P := Some x = None)) by discriminate. reflexivity.
  - intros x. rewrite Hends.
    destruct (ends h x) as [[f l]|]; [|reflexivity].
    cbn. unfold appendEnds, insEnds. cbn [fst snd head]. f_equal. f_equal.
    destruct (decide (x = n)) as [->|Hxn].
    + rewrite decide_True by auto. reflexivity.
    + rewrite decide_False by (intros [? _]; contradiction). reflexivity.
Qed.

(** *** [InsertBefore] *)

Lemma links_lookup (h : gmap nat Node) (x : nat) (pa pr nx : Ptr) :
  links h x = Some (pa, pr, nx) ->
  exists nd, h !! x = Some nd /\ Parent nd = pa /\ PrevSibling nd = pr /\
             NextSibling nd = nx.
Proof.
  unfold links. destruct (h !! x) as [nd|]; [|discriminate].
  cbn. intros H. injection H as <- <- <-. eauto.
Qed.

Lemma splice_result (h : gmap nat Node) (n c : nat) (prev next : Ptr) :
  is_Some (h !! n) -> is_Some (h !! c) ->
  (forall y, prev = Some y -> is_Some (h !! y)) ->
  (forall o, next = Some o -> is_Some (h !! o)) ->
  exists h',
    splice n c prev next h = Some h' /\
    (forall x, links h' x = insLinks n c prev next x <$> links h x) /\
    (forall x, ends h' x = insEnds n c prev next x <$> ends h x) /\
    (forall x, is_Some (h' !! x) <-> is_Some (h !! x)).
Proof.
  intros Hn Hc Hpv Hnxt. unfold splice.
  set (h1 := match prev with
             | Some y => alter (set_NextSibling (Some c)) y h
             | None => alter (set_FirstChild (Some c)) n h
             end).
  assert (H1 : storeOr prev (set_NextSibling (Some c))
                 (store n (set_FirstChild (Some c))) h = Some h1).
  { unfold h1. destruct prev as [y|]; cbn [storeOr];
      apply store_alter; eauto. }
  assert (D1 : forall x, is_Some (h1 !! x) <-> is_Some (h !! x)).
  { intros x. unfold h1. destruct prev; apply alter_is_Some. }
  rewrite H1. cbn [mbind option_bind].
  set (h2 := match next with
             | Some o => alter (set_PrevSibling (Some c)) o h1
             | None => alter (set_LastChild (Some c)) n h1
             end).
  assert (H2 : storeOr next (set_PrevSibling (Some c))
                 (store n (set_LastChild (Some c))) h1 = Some h2).
  { unfold h2. destruct next as [o|] eqn:Eh; cbn [storeOr];
      apply store_alter; apply D1; eauto. }
  assert (D2 : forall x, is_Some (h2 !! x) <-> is_Some (h !! x)).
  { intros x. unfold h2. destruct next; rewrite alter_is_Some; apply D1. }
  rewrite H2. cbn [mbind option_bind].
  rewrite store_alter by (apply D2; eauto). cbn [mbind option_bind].
  rewrite store_alter by (apply alter_is_Some, D2; eauto). cbn [mbind option_bind].
  rewrite store_alter by (do 2 apply alter_is_Some; apply D2; eauto).
  eexists. split; [reflexivity|]. split; [|split].
  - intros x. rewrite links_set_NextSibling, links_set_PrevSibling, links_set_Parent.
    assert (L2 : links h2 x
                 = (fun t => (t.1.1,
                              if decide (Some x = next) then Some c else t.1.2,
                              if decide (Some x = prev) then Some c else t.2))
                   <$> links h x).
    { unfold h2, h1.
      destruct next as [o|]; destruct prev as [y|];
        rewrite ?links_set_PrevSibling, ?links_set_LastChild,
          ?links_set_NextSibling, ?links_set_FirstChild;
        destruct (links h x) as [[[? ?] ?]|]; repeat case_decide; subst;
        cbn; try reflexivity; congruence. }
    rewrite L2. unfold insLinks, withNext, withPrev, withParent.
    destruct (links h x) as [[[? ?] ?]|]; repeat case_decide; subst;
      cbn; try reflexivity; congruence.
  - intros x. rewrite ends_set_NextSibling, ends_set_PrevSibling, ends_set_Parent.
    unfold h2, h1, insEnds.
    destruct next as [o|]; destruct prev as [y|];
      rewrite ?ends_set_PrevSibling, ?ends_set_LastChild,
        ?ends_set_NextSibling, ?ends_set_FirstChild;
      destruct (ends h x) as [[? ?]|]; repeat case_decide; subst;
      cbn; try reflexivity; try congruence; try tauto;
      destruct_and?; try congruence.
  - intros x. rewrite !alter_is_Some. apply D2.
Qed.

Lemma InsertBefore_result (h : gmap nat Node) (kids : nat -> list nat)
      (n c : nat) (oldChild : Ptr) (l1 l2 : list nat) :
  TreeInvariant h kids ->
  is_Some (h !! n) -> links h c = Some (None, None, None) ->
  kids n = l1 ++ l2 -> oldChild = head l2 ->
  (oldChild = None -> l2 = []) ->
  exists h',
    InsertBefore n c oldChild h = Some h' /\
    (forall x, links h' x = insLinks n c (last l1) (head l2) x <$> links h x) /\
    (forall x, ends h' x = insEnds n c (last l1) (head l2) x <$> ends h x) /\
    (forall x, is_Some (h' !! x) <-> is_Some (h !! x)).
Proof.
  intros Hinv [nd En] Hc Hkids -> Hnil.
  destruct (links_lookup _ _ _ _ _ Hc) as (cn & Ec & Hpa & Hpr & Hnx).
  destruct (inv_ends_node _ _ _ _ Hinv En) as (Hf & Hl & Hch).
  rewrite Hkids in Hch. apply chain_app in Hch as [Hch1 Hch2].
  assert (Hpv : forall y, last l1 = Some y -> is_Some (h !! y)).
  { intros y Hy. eapply (kid_is_Some _ _ n); [exact Hinv|]. rewrite Hkids.
    apply last_elem in Hy. set_solver. }
  assert (Hnxt : forall o, head l2 = Some o -> is_Some (h !! o)).
  { intros o Ho. eapply (kid_is_Some _ _ n); [exact Hinv|]. rewrite Hkids.
    apply head_elem in Ho. set_solver. }
  destruct (splice_result h n c (last l1) (head l2)) as (h' & Hs & Hres); eauto.
  exists h'. split; [|exact Hres].
  unfold InsertBefore. rewrite Ec. cbn [mbind option_bind].
  rewrite (detached_attached _ Hpa Hpr Hnx).
  destruct l2 as [|o l2]; cbn [head] in *.
  - rewrite En. cbn [mbind option_bind]. rewrite Hl, Hkids, app_nil_r. exact Hs.
  - destruct Hch2 as [Ho _].
    destruct (links_lookup _ _ _ _ _ Ho) as (ond & Eo & _ & Hopr & _).
    rewrite Eo. cbn [mbind option_bind]. rewrite Hopr, lastOr_None. exact Hs.
Qed.

Lemma InsertBefore_preserves (h : gmap nat Node) (kids : nat -> list nat)
      (n c : nat) (oldChild : Ptr) (l1 l2 : list nat) :
  TreeInvariant h kids ->
  is_Some (h !! n) -> links h c = Some (None, None, None) ->
  kids n = l1 ++ l2 -> oldChild = head l2 ->
  (oldChild = None -> l2 = []) ->
  exists h',
    InsertBefore n c oldChild h = Some h' /\
    TreeInvariant h' (fun p => if decide (p = n) then l1 ++ c :: l2 else kids p).
Proof.
  intros Hinv Hn Hc Hkids Ho Hnil.
  destruct (InsertBefore_result _ _ _ _ _ _ _ Hinv Hn Hc Hkids Ho Hnil)
    as (h' & Hh' & Hlinks & Hends & Hdom).
  exists h'. split; [exact Hh'|].
  eapply insert_preserves; eauto.
Qed.

Lemma ends_lookup (h : gmap nat Node) (x : nat) (f l : Ptr) :
  ends h x = Some (f, l) ->
  exists nd, h !! x = Some nd /\ FirstChild nd = f /\ LastChild nd = l.
Proof.
  unfold ends. destruct (h !! x) as [nd|]; [|discriminate].
  cbn. intros H. injection H as <- <-. eauto.
Qed.

Lemma ptr_eqb_true (a b : Ptr) : a = b -> ptr_eqb a b = true.
Proof. intros ->. unfold ptr_eqb. apply bool_decide_eq_true_2. reflexivity. Qed.

Lemma ptr_eqb_false (a b : Ptr) : a <> b -> ptr_eqb a b = false.
Proof. intros H. unfold ptr_eqb. apply bool_decide_eq_false_2. exact H. Qed.

Lemma RemoveChild_result (h : gmap nat Node) (n c : nat) (nd : Node) (prev next : Ptr) :
  h !! n = Some nd ->
  links h c = Some (Some n, prev, next) ->
  prev <> Some c -> next <> Some c ->
  (forall y, prev = Some y -> is_Some (h !! y)) ->
  (forall o, next = Some o -> is_Some (h !! o)) ->
  exists h',
    RemoveChild n c h = Some h' /\
    (forall x, links h' x = remLinks c prev next x <$> links h x) /\
    (forall x, ends h' x = remEnds n c prev next x <$> ends h x) /\
    (forall x, is_Some (h' !! x) <-> is_Some (h !! x)).
Proof.
  intros En Hc Hpc Hnc Hpv Hnxt.
  destruct (links_lookup _ _ _ _ _ Hc) as (cn & Ec & Hpa & Hpr & Hnx).
  unfold RemoveChild. rewrite Ec. cbn [mbind option_bind].
  rewrite (ptr_eqb_true _ _ Hpa). cbn [negb]. rewrite En. cbn [mbind option_bind].
  rewrite Hnx.
  (* n.FirstChild *)
  set (h1 := if decide (FirstChild nd = Some c)
             then alter (set_FirstChild next) n h else h).
  assert (H1 : (if ptr_eqb (FirstChild nd) (Some c)
                then store n (set_FirstChild next) h else Some h) = Some h1).
  { unfold h1. destruct (decide (FirstChild nd = Some c)) as [E|E].
    - rewrite (ptr_eqb_true _ _ E). apply store_alter. eauto.
    - rewrite (ptr_eqb_false _ _ E). reflexivity. }
  assert (L1 : forall x, links h1 x = links h x).
  { intros x. unfold h1. destruct (decide (FirstChild nd = Some c));
      [apply links_set_FirstChild | reflexivity]. }
  assert (E1 : forall x, ends h1 x
                 = (fun e => (if decide (x = n /\ e.1 = Some c) then next else e.1, e.2))
                   <$> ends h x).
  { intros x. unfold h1. destruct (decide (FirstChild nd = Some c)) as [E|E].
    - rewrite ends_set_FirstChild. destruct (decide (n = x)) as [<-|Hx].
      + unfold ends. rewrite En. cbn. rewrite decide_True by auto. reflexivity.
      + destruct (ends h x) as [[? ?]|]; [|reflexivity]. cbn.
        rewrite decide_False by (intros [? _]; congruence). reflexivity.
    - destruct (ends h x) as [[f l]|] eqn:Ex; [|reflexivity]. cbn.
      rewrite decide_False; [reflexivity|]. intros [-> Hf].
      unfold ends in Ex. rewrite En in Ex. cbn in Ex. congruence. }
  assert (D1 : forall x, is_Some (h1 !! x) <-> is_Some (h !! x)).
  { intros x. unfold h1. destruct (decide (FirstChild nd = Some c));
      [apply alter_is_Some | tauto]. }
  rewrite H1. cbn [mbind option_bind].
  assert (Hc1 := L1 c). rewrite Hc in Hc1.
  destruct (links_lookup _ _ _ _ _ Hc1) as (c1 & Ec1 & _ & Hpr1 & Hnx1).
  rewrite Ec1. cbn [mbind option_bind]. rewrite Hnx1, Hpr1.
  (* c.NextSibling.PrevSibling *)
  set (h2 := match next with
             | Some x => alter (set_PrevSibling prev) x h1
             | None => h1
             end).
  assert (H2 : match next with
               | Some x => store x (set_PrevSibling prev) h1
               | None => Some h1
               end = Some h2).
  { unfold h2. destruct next as [o|]; [|reflexivity].
    apply store_alter. apply D1. eauto. }
  assert (L2 : forall x, links h2 x
                 = (if decide (Some x = next) then withPrev prev else id) <$> links h x).
  { intros x. unfold h2. destruct next as [o|].
    - rewrite links_set_PrevSibling, L1.
      destruct (decide (o = x)) as [->|Hx].
      + rewrite decide_True by reflexivity. reflexivity.
      + rewrite decide_False by congruence. destruct (links h x); reflexivity.
    - rewrite L1. rewrite decide_False by discriminate.
      destruct (links h x); reflexivity. }
  assert (E2 : forall x, ends h2 x = ends h1 x).
  { intros x. unfold h2. destruct next; [apply ends_set_PrevSibling | reflexivity]. }
  assert (D2 : forall x, is_Some (h2 !! x) <-> is_Some (h !! x)).
  { intros x. unfold h2. destruct next; [rewrite alter_is_Some|]; apply D1. }
  rewrite H2. cbn [mbind option_bind].
  assert (Hn2 := E2 n). rewrite E1 in Hn2. unfold ends at 2 in Hn2.
  rewrite En in Hn2. cbn in Hn2.
  destruct (ends_lookup _ _ _ _ Hn2) as (n2 & En2 & _ & Hl2).
  rewrite En2. cbn [mbind option_bind].
  assert (Hc2 := L2 c). rewrite Hc in Hc2. cbn in Hc2.
  rewrite decide_False in Hc2 by congruence. cbn in Hc2.
  destruct (links_lookup _ _ _ _ _ Hc2) as (c2 & Ec2 & _ & Hpr2 & Hnx2).
  rewrite Ec2. cbn [mbind option_bind]. rewrite Hl2, Hpr2.
  (* n.LastChild *)
  set (h3 := if decide (LastChild nd = Some c)
             then alter (set_LastChild prev) n h2 else h2).
  assert (H3 : (if ptr_eqb (LastChild nd) (Some c)
                then store n (set_LastChild prev) h2 else Some h2) = Some h3).
  { unfold h3. destruct (decide (LastChild nd = Some c)) as [E|E].
    - rewrite (ptr_eqb_true _ _ E). apply store_alter. apply D2. eauto.
    - rewrite (ptr_eqb_false _ _ E). reflexivity. }
  assert (L3 : forall x, links h3 x = links h2 x).
  { intros x. unfold h3. destruct (decide (LastChild nd = Some c));
      [apply links_set_LastChild | reflexivity]. }
  assert (E3 : forall x, ends h3 x = remEnds n c prev next x <$> ends h x).
  { intros x. unfold h3, remEnds. destruct (decide (LastChild nd = Some c)) as [E|E].
    - rewrite ends_set_LastChild, E2, E1. destruct (decide (n = x)) as [<-|Hx].
      + unfold ends. rewrite En. cbn.
        rewrite (decide_True (P := n = n /\ LastChild nd = Some c)) by auto.
        reflexivity.
      + destruct (ends h x) as [[? ?]|]; [|reflexivity]. cbn.
        repeat case_decide; destruct_and?; try congruence; reflexivity.
    - rewrite E2, E1. destruct (ends h x) as [[f l]|] eqn:Ex; [|reflexivity]. cbn.
      rewrite (decide_False (P := x = n /\ l = Some c)); [reflexivity|].
      intros [-> Hf]. unfold ends in Ex. rewrite En in Ex. cbn in Ex. congruence. }
  assert (D3 : forall x, is_Some (h3 !! x) <-> is_Some (h !! x)).
  { intros x. unfold h3. destruct (decide (LastChild nd = Some c));
      [rewrite alter_is_Some|]; apply D2. }
  rewrite H3. cbn [mbind option_bind].
  assert (Hc3 := L3 c). rewrite Hc2 in Hc3.
  destruct (links_lookup _ _ _ _ _ Hc3) as (c3 & Ec3 & _ & Hpr3 & Hnx3).
  rewrite Ec3. cbn [mbind option_bind]. rewrite Hpr3, Hnx3.
  (* c.PrevSibling.NextSibling *)
  set (h4 := match prev with
             | Some y => alter (set_NextSibling next) y h3
             | None => h3
             end).
  assert (H4 : match prev with
               | Some y => store y (set_NextSibling next) h3
               | None => Some h3
               end = Some h4).
  { unfold h4. destruct prev as [y|]; [|reflexivity].
    apply store_alter. apply D3. eauto. }
  assert (L4 : forall x, links h4 x
                 = (fun t => (t.1.1,
                              if decide (Some x = next) then prev else t.1.2,
                              if decide (Some x = prev) then next else t.2))
                   <$> links h x).
  { intros x. unfold h4. destruct prev as [y|].
    - rewrite links_set_NextSibling, L3, L2.
      destruct (links h x) as [[[? ?] ?]|]; repeat case_decide; subst;
        cbn; try reflexivity; congruence.
    - rewrite L3, L2.
      destruct (links h x) as [[[? ?] ?]|]; repeat case_decide; subst;
        cbn; try reflexivity; congruence. }
  assert (E4 : forall x, ends h4 x = ends h3 x).
  { intros x. unfold h4. destruct prev; [apply ends_set_NextSibling | reflexivity]. }
  assert (D4 : forall x, is_Some (h4 !! x) <-> is_Some (h !! x)).
  { intros x. unfold h4. destruct prev; [rewrite alter_is_Some|]; apply D3. }
  rewrite H4. cbn [mbind option_bind].
  rewrite store_alter by (apply D4; eauto). cbn [mbind option_bind].
  rewrite store_alter by (apply alter_is_Some, D4; eauto). cbn [mbind option_bind].
  rewrite store_alter by (do 2 apply alter_is_Some; apply D4; eauto).
  eexists. split; [reflexivity|]. split; [|split].
  - intros x. rewrite links_set_NextSibling, links_set_PrevSibling, links_set_Parent, L4.
    unfold remLinks, withNext, withPrev, withParent.
    destruct (links h x) as [[[? ?] ?]|]; repeat case_decide; subst;
      cbn; try reflexivity; congruence.
  - intros x. rewrite ends_set_NextSibling, ends_set_PrevSibling, ends_set_Parent, E4.
    apply E3.
  - intros x. rewrite !alter_is_Some. apply D4.
Qed.

Lemma remove_preserves (h h' : gmap nat Node) (kids : nat -> list nat)
      (n c : nat) (l1 l2 : list nat) :
  TreeInvariant h kids ->
  kids n = l1 ++ c :: l2 ->
  (forall x, links h' x = remLinks c (last l1) (head l2) x <$> links h x) ->
  (forall x, ends h' x = remEnds n c (last l1) (head l2) x <$> ends h x) ->
  (forall x, is_Some (h' !! x) <-> is_Some (h !! x)) ->
  TreeInvariant h' (fun p => if decide (p = n) then l1 ++ l2 else kids p).
Proof.
  intros Hinv Hkids Hlinks Hends Hdom.
  assert (Hnd : NoDup (l1 ++ c :: l2)).
  { rewrite <- Hkids. apply (inv_nodup _ _ Hinv). }
  assert (Hnd' := Hnd). apply NoDup_app in Hnd' as (Hnd1 & Hdisj & Hnd2).
  apply NoDup_cons in Hnd2 as [Hc2 Hnd2].
  assert (Hc1 : c ∉ l1). { intros Hin. apply (Hdisj c Hin). set_solver. }
  assert (Hcn : c ∈ kids n). { rewrite Hkids. set_solver. }
  assert (Hprev : forall y, last l1 = Some y -> y ∈ kids n /\ y ∈ l1).
  { intros y Hy. apply last_elem in Hy. rewrite Hkids. set_solver. }
  assert (Hnext : forall y, head l2 = Some y -> y ∈ kids n /\ y ∈ l2).
  { intros y Hy. apply head_elem in Hy. rewrite Hkids. set_solver. }
  assert (Hother : forall p x, p <> n -> x ∈ kids p -> links h' x = links h x).
  { intros p x Hp Hx. rewrite Hlinks.
    destruct (links h x) as [[[pa0 pr0] nx0]|]; [|reflexivity].
    cbn. unfold remLinks. cbn [fst snd].
    rewrite !(decide_False (P := x = c))
      by (intros ->; apply Hp; eapply one_parent; eauto).
    rewrite (decide_False (P := Some x = head l2)).
    2:{ intros E. symmetry in E. apply Hnext in E as [E _].
        apply Hp. eapply one_parent; eauto. }
    rewrite (decide_False (P := Some x = last l1)).
    2:{ intros E. symmetry in E. apply Hprev in E as [E _].
        apply Hp. eapply one_parent; eauto. }
    reflexivity. }
  split.
  - intros p f l He. rewrite Hends in He.
    destruct (ends h p) as [[f0 l0]|] eqn:E0; [|discriminate].
    cbn in He. injection He as <- <-.
    destruct (inv_ends _ _ Hinv p f0 l0 E0) as (Hf & Hl & Hch).
    destruct (decide (p = n)) as [->|Hp].
    + rewrite Hkids in Hf, Hl, Hch. split; [|split].
      * rewrite head_app_cons in Hf. destruct l1 as [|a l1].
        -- cbn in Hf. subst f0. rewrite decide_True by auto. reflexivity.
        -- destruct (last (a :: l1)) eqn:El; [|apply last_None in El; discriminate].
           cbn in Hf. rewrite decide_False; [exact Hf|].
           intros [_ E]. rewrite Hf in E. injection E as ->. apply Hc1. set_solver.
      * rewrite last_app_cons in Hl. destruct (head l2) as [b|] eqn:Eh.
        -- rewrite decide_False; [exact Hl|]. intros [_ E]. rewrite Hl in E.
           apply last_elem in E. apply elem_of_app in E as [E|E]; contradiction.
        -- destruct l2; [|discriminate]. rewrite app_nil_r. subst l0.
           rewrite decide_True by auto. reflexivity.
      * apply chain_app in Hch as [H1 H2]. destruct H2 as [Hc H2].
        apply chain_app. split.
        -- eapply chain_set_next; [exact Hnd1| |exact H1].
           intros x Hx. rewrite Hlinks.
           destruct (links h x) as [[[pa0 pr0] nx0]|]; [|reflexivity].
           cbn. unfold remLinks, withNext. cbn [fst snd].
           rewrite !(decide_False (P := x = c)) by (intros ->; contradiction).
           rewrite (decide_False (P := Some x = head l2)).
           2:{ intros E. symmetry in E. apply Hnext in E as [_ E].
               apply (Hdisj x Hx). set_solver. }
           rewrite headOr_None.
           destruct (decide (Some x = last l1)); reflexivity.
        -- eapply chain_set_prev; [exact Hnd2| |exact H2].
           intros x Hx. rewrite Hlinks.
           destruct (links h x) as [[[pa0 pr0] nx0]|]; [|reflexivity].
           cbn. unfold remLinks, withPrev. cbn [fst snd].
           rewrite !(decide_False (P := x = c)) by (intros ->; contradiction).
           assert (Hxp : Some x <> last l1).
           { intros E. symmetry in E. apply Hprev in E as [_ E].
             apply (Hdisj x E). set_solver. }
           rewrite (decide_False (P := Some x = last l1)) by exact Hxp.
           rewrite lastOr_None.
           destruct (decide (Some x = head l2)); reflexivity.
    + unfold remEnds. rewrite !decide_False by (intros [? _]; contradiction).
      split; [exact Hf|]. split; [exact Hl|].
      eapply chain_ext; [|exact Hch]. intros x Hx. exact (Hother p x Hp Hx).
  - intros p Hp. destruct (decide (p = n)) as [->|Hpn].
    + exfalso. destruct (h !! n) as [ndn|] eqn:E.
      * assert (Hs : is_Some (h' !! n)) by (apply Hdom; rewrite E; eauto).
        rewrite Hp in Hs. destruct Hs; discriminate.
      * rewrite (inv_dom _ _ Hinv n E) in Hcn. set_solver.
    + apply (inv_dom _ _ Hinv). apply eq_None_not_Some. rewrite <- Hdom.
      rewrite Hp. intros [? ?]; discriminate.
  - intros p. destruct (decide (p = n)); [|apply (inv_nodup _ _ Hinv)].
    apply NoDup_app. split; [exact Hnd1|]. split; [|exact Hnd2].
    intros x Hx Hx'. apply (Hdisj x Hx). set_solver.
  - intros x pa pr nx q Hx. rewrite Hlinks in Hx.
    destruct (links h x) as [[[pa0 pr0] nx0]|] eqn:E0; [|discriminate].
    cbn in Hx. injection Hx as <- _ _.
    assert (Hold := inv_parent _ _ Hinv x pa0 pr0 nx0 q E0).
    destruct (decide (x = c)) as [->|Hxc].
    + split; [discriminate|]. intros Hin. exfalso.
      destruct (decide (q = n)) as [->|Hq].
      * apply elem_of_app in Hin as [Hin|Hin]; contradiction.
      * apply Hq. eapply one_parent; eauto.
    + rewrite Hold. destruct (decide (q = n)) as [->|Hq]; [|tauto].
      rewrite Hkids. set_solver.
  - intros x pr nx Hx. rewrite Hlinks in Hx.
    destruct (links h x) as [[[pa0 pr0] nx0]|] eqn:E0; [|discriminate].
    cbn in Hx. injection Hx as Hpa Hpr Hnx.
    destruct (decide (x = c)) as [->|Hxc]; [auto|].
    cbn in Hpa. subst pa0.
    destruct (inv_detached _ _ Hinv x pr0 nx0 E0) as [-> ->].
    assert (Hxn : x ∉ kids n). { eapply detached_not_kid; eauto. }
    rewrite (decide_False (P := Some x = head l2)) in Hpr.
    2:{ intros E. symmetry in E. apply Hnext in E as [E _]. contradiction. }
    rewrite (decide_False (P := Some x = last l1)) in Hnx.
    2:{ intros E. symmetry in E. apply Hprev in E as [E _]. contradiction. }
    auto.
Qed.

Lemma elem_split (l : list nat) (x : nat) : x ∈ l -> exists l1 l2, l = l1 ++ x :: l2.
Proof. intros H. apply list_elem_of_split in H. exact H. Qed.

Lemma step_preserves (op : Op) (h : gmap nat Node) :
  WellFormed h -> checkedPre op h -> refChildPre op h ->
  exists h', apply op h = Some h' /\ WellFormed h' /\ removedDetached op h'.
Proof.
  intros [kids Hinv] Hpre Href. destruct op as [n c|n c o|n c]; cbn in *.
  - destruct Hpre as [Hn Hc].
    destruct (AppendChild_preserves _ _ _ _ Hinv Hn Hc) as (h' & Hh' & Hinv').
    exists h'. split; [exact Hh'|]. split; [eexists; exact Hinv' | exact I].
  - destruct Hpre as (Hn & Hc & Ho). destruct o as [o|].
    + destruct Href as (pr & nx & Hol).
      assert (Hin : o ∈ kids n) by (apply (inv_parent _ _ Hinv _ _ _ _ n Hol); reflexivity).
      destruct (elem_split _ _ Hin) as (l1 & l2 & Hk).
      destruct (InsertBefore_preserves h kids n c (Some o) l1 (o :: l2))
        as (h' & Hh' & Hinv'); auto; [discriminate|].
      exists h'. split; [exact Hh'|]. split; [eexists; exact Hinv' | exact I].
    + destruct (InsertBefore_preserves h kids n c None (kids n) [])
        as (h' & Hh' & Hinv'); auto; [symmetry; apply app_nil_r|].
      exists h'. split; [exact Hh'|]. split; [eexists; exact Hinv' | exact I].
  - destruct Hpre as ([nd En] & pr & nx & Hc).
    assert (Hin : c ∈ kids n) by (apply (inv_parent _ _ Hinv _ _ _ _ n Hc); reflexivity).
    destruct (elem_split _ _ Hin) as (l1 & l2 & Hk).
    destruct (inv_ends_node _ _ _ _ Hinv En) as (_ & _ & Hch).
    rewrite Hk in Hch. apply chain_app in Hch as [_ [Hc' _]].
    rewrite Hc in Hc'. injection Hc' as -> ->.
    rewrite lastOr_None, headOr_None in Hc.
    assert (Hnd : NoDup (l1 ++ c :: l2)).
    { rewrite <- Hk. apply (inv_nodup _ _ Hinv). }
    apply NoDup_app in Hnd as (_ & Hdisj & Hnd2). apply NoDup_cons in Hnd2 as [Hc2 _].
    destruct (RemoveChild_result h n c nd (last l1) (head l2)) as (h' & Hh' & Hl & He & Hd);
      auto.
    + intros E. apply last_elem in E. apply (Hdisj c E). set_solver.
    + intros E. apply head_elem in E. contradiction.
    + intros y Hy. eapply (kid_is_Some _ _ n); [exact Hinv|]. rewrite Hk.
      apply last_elem in Hy. set_solver.
    + intros y Hy. eapply (kid_is_Some _ _ n); [exact Hinv|]. rewrite Hk.
      apply head_elem in Hy. set_solver.
    + exists h'. split; [exact Hh'|]. split.
      * eexists. eapply remove_preserves; eauto.
      * unfold isDetached. rewrite Hl, Hc. cbn. unfold remLinks. cbn.
        rewrite !decide_True by reflexivity. reflexivity.
Qed.

(** C5 (with the precondition the claim leaves out): from a heap that
    satisfies the tree invariant, every sequence of [AppendChild],
    [InsertBefore] and [RemoveChild] calls runs without a panic and leaves
    the invariant in place after each call, and a removed node is detached
    right after its removal, provided that before each call the conditions
    the code checks hold (the inserted node is detached; the removed node
    is a child of the receiver) and, for [InsertBefore], that [oldChild] is
    nil or a child of the receiver. *)
Theorem tree_mutations_keep_invariant (ops : list Op) (h : gmap nat Node) :
  WellFormed h ->
  holdsAlong checkedPre ops h ->
  holdsAlong refChildPre ops h ->
  exists hs,
    run ops h = Some hs /\
    Forall2 (fun op h' => WellFormed h' /\ removedDetached op h') ops hs.
Proof.
  revert h. induction ops as [|op ops IH]; intros h Hwf Hpre Href.
  - exists []. split; [reflexivity | constructor].
  - destruct Hpre as [Hp Hpre]. destruct Href as [Hr Href].
    destruct (step_preserves op h Hwf Hp Hr) as (h' & Hh' & Hwf' & Hdet).
    destruct (IH h' Hwf' (Hpre h' Hh') (Href h' Hh')) as (hs & Hrun & Hall).
    exists (h' :: hs). split.
    + cbn [run]. rewrite Hh'. cbn [mbind option_bind]. rewrite Hrun. reflexivity.
    + constructor; auto.
Qed.

Lemma fourNodes_lookup (x : nat) (nd : Node) :
  fourNodes !! x = Some nd -> nd = newNode.
Proof.
  unfold fourNodes. rewrite !lookup_insert_Some, lookup_empty. naive_solver.
Qed.

Lemma fourNodes_WellFormed : WellFormed fourNodes.
Proof.
  exists (fun _ => []). split.
  - intros p f l H. apply ends_lookup in H as (nd & Hnd & <- & <-).
    apply fourNodes_lookup in Hnd as ->. cbn. auto.
  - reflexivity.
  - intros _. constructor.
  - intros c pa pr nx q H. apply links_lookup in H as (nd & Hnd & <- & _).
    apply fourNodes_lookup in Hnd as ->. cbn. split; [discriminate | set_solver].
  - intros c pr nx H. apply links_lookup in H as (nd & Hnd & _ & <- & <-).
    apply fourNodes_lookup in Hnd as ->. auto.
Qed.

Lemma insert_before_foreign_child_breaks_invariant :
  WellFormed fourNodes /\
  holdsAlong checkedPre foreignReference fourNodes /\
  match run foreignReference fourNodes with
  | Some [h1; h2] => ~ WellFormed h2
  | _ => False
  end.
Proof.
  split; [exact fourNodes_WellFormed|]. split.
  - cbn [holdsAlong foreignReference]. split.
    + split; [vm_compute; eauto | vm_compute; reflexivity].
    + intros h' Hh'. vm_compute in Hh'. injection Hh' as <-. split.
      * split; [vm_compute; eauto|]. split; [vm_compute; reflexivity|].
        intros x Hx. injection Hx as <-. vm_compute. eauto.
      * auto.
  - destruct (run foreignReference fourNodes) as [[|h1 [|h [|? ?]]]|] eqn:Er;
      try (vm_compute in Er; discriminate Er).
    vm_compute in Er. injection Er as _ Eh.
    intros [kids Hinv].
    assert (He : ends h 1 = Some (Some 3%nat, None))
      by (rewrite <- Eh; vm_compute; reflexivity).
    destruct (inv_ends _ _ Hinv _ _ _ He) as (Hf & Hl & _).
    destruct (kids 1%nat) as [|a l]; [discriminate Hf|].
    symmetry in Hl. apply last_None in Hl. discriminate.
Qed.

Lemma tree_mutations_keep_invariant_witness :
  exists hs,
    run smallRun fourNodes = Some hs /\
    Forall2 (fun op h' => WellFormed h' /\ removedDetached op h') smallRun hs.
Proof.
  apply (tree_mutations_keep_invariant smallRun fourNodes fourNodes_WellFormed).
  - cbn [holdsAlong smallRun]. split.
    { split; [vm_compute; eauto | vm_compute; reflexivity]. }
    intros h1 H1. vm_compute in H1. injection H1 as <-. split.
    { split; [vm_compute; eauto|]. split; [vm_compute; reflexivity|].
      intros x Hx. injection Hx as <-. vm_compute. eauto. }
    intros h2 H2. vm_compute in H2. injection H2 as <-. split.
    { split; [vm_compute; eauto|]. eexists _, _. vm_compute. reflexivity. }
    intros h3 H3. vm_compute in H3. injection H3 as <-. split.
    { split; [vm_compute; eauto|]. split; [vm_compute; reflexivity|]. discriminate. }
    intros h4 H4. exact I.
  - cbn [holdsAlong smallRun refChildPre]. split; [exact I|].
    intros h1 H1. vm_compute in H1. injection H1 as <-. split.
    { eexists _, _. vm_compute. reflexivity. }
    intros h2 H2. split; [exact I|]. intros h3 H3. split; [exact I|]. intros h4 H4. exact I.
Defined.

Lemma copy_onto_fresh (src : list Attribute) :
  copy (replicate (length src) zeroAttribute) src = src.
Proof.
  unfold copy. rewrite length_replicate, Nat.min_id.
  rewrite firstn_all. rewrite skipn_all2 by (rewrite length_replicate; lia).
  apply app_nil_r.
Qed.

(** C10: [clone] allocates a new node that has no parent, no siblings and
    no children, and that carries the Type, DataAtom, Data, Loc,
    CustomElement and Component fields of the original and a copy of its
    attributes held in a new array, so that a write to the attributes of
    one of the two nodes does not reach the other; Namespace, Fragment and
    Expression are not copied.  The nodes and arrays that existed before
    are unchanged. *)
Theorem clone_copies_and_detaches
    (n : nat) (h : gmap nat Node) (a : gmap nat (list Attribute))
    (nd : Node) (elems : list Attribute) :
  h !! n = Some nd ->
  sliceElems (Attr nd) a = Some elems ->
  exists (m : nat) (h' : gmap nat Node) (a' : gmap nat (list Attribute)) (md : Node),
    clone n h a = Some (m, h', a') /\
    h !! m = None /\ h' !! m = Some md /\
    (forall k, k <> m -> h' !! k = h !! k) /\
    Parent md = None /\ PrevSibling md = None /\ NextSibling md = None /\
    FirstChild md = None /\ LastChild md = None /\
    Type_ md = Type_ nd /\ DataAtom md = DataAtom nd /\ Data md = Data nd /\
    Loc md = Loc nd /\ CustomElement md = CustomElement nd /\
    Component md = Component nd /\
    Namespace md = ""%string /\ Fragment md = false /\ Expression md = false /\
    sliceElems (Attr md) a' = Some elems /\
    (exists arr, Attr md = Some arr /\ a !! arr = None) /\
    (forall k, k <> fresh (dom a) -> a' !! k = a !! k).
Proof.
  intros Hn Hel.
  assert (Hfa : a !! fresh (dom a) = None).
  { apply not_elem_of_dom. apply is_fresh. }
  assert (Hfh : h !! fresh (dom h) = None).
  { apply not_elem_of_dom. apply is_fresh. }
  assert (Hel1 : sliceElems (Attr nd)
                   (<[fresh (dom a) := replicate (length elems) zeroAttribute]> a)
                 = Some elems).
  { destruct (Attr nd) as [k|]; cbn in *; [|exact Hel].
    rewrite lookup_insert_ne; [exact Hel|]. intros E. rewrite E in Hfa. congruence. }
  eexists _, _, _, _. split.
  { unfold clone. rewrite Hn. cbn [mbind option_bind]. rewrite Hel. cbn [mbind option_bind].
    rewrite lookup_insert_eq. cbn [mbind option_bind]. rewrite Hel1. cbn [mbind option_bind].
    reflexivity. }
  split; [exact Hfh|].
  split; [apply lookup_insert_eq|].
  split; [intros k Hk; apply lookup_insert_ne; congruence|].
  do 14 (split; [reflexivity|]).
  split.
  { cbn [Attr sliceElems]. rewrite lookup_insert_eq. f_equal. apply copy_onto_fresh. }
  split; [exists (fresh (dom a)); split; [reflexivity | exact Hfa]|].
  intros k Hk. rewrite lookup_insert_ne by congruence.
  apply lookup_insert_ne. congruence.
Qed.

Lemma clone_copies_and_detaches_witness :
  exists (m : nat) (h' : gmap nat Node) (a' : gmap nat (list Attribute)) (md : Node),
    clone 0 attrHeap attrArrays = Some (m, h', a') /\
    attrHeap !! m = None /\ h' !! m = Some md /\
    (forall k, k <> m -> h' !! k = attrHeap !! k) /\
    Parent md = None /\ PrevSibling md = None /\ NextSibling md = None /\
    FirstChild md = None /\ LastChild md = None /\
    Type_ md = Type_ attrNode /\ DataAtom md = DataAtom attrNode /\
    Data md = Data attrNode /\
    Loc md = Loc attrNode /\ CustomElement md = CustomElement attrNode /\
    Component md = Component attrNode /\
    Namespace md = ""%string /\ Fragment md = false /\ Expression md = false /\
    sliceElems (Attr md) a' = Some oneAttr /\
    (exists arr, Attr md = Some arr /\ attrArrays !! arr = None) /\
    (forall k, k <> fresh (dom attrArrays) -> a' !! k = attrArrays !! k).
Proof.
  apply (clone_copies_and_detaches 0 attrHeap attrArrays attrNode oneAttr).
  - vm_compute. reflexivity.
  - vm_compute. reflexivity.
Defined.

Lemma chain_siblings (h : gmap nat Node) (p : nat) (l : list nat) (prev : Ptr)
      (extra : nat) :
  chain h p prev l None -> siblingsFrom (length l + extra) h (head l) = Some l.
Proof.
  revert prev. induction l as [|c l IH]; intros prev Hc; [destruct extra; reflexivity|].
  cbn [chain] in Hc. destruct Hc as [Hl Hc]. cbn [head length Nat.add siblingsFrom].
  apply links_lookup in Hl as (nd & -> & _ & _ & Hnx). cbn.
  rewrite Hnx, headOr_None, (IH _ Hc). reflexivity.
Qed.

(** Under the tree invariant the loop over the children of [p] meets
    exactly the child list of [p]. *)
Lemma children_kids (h : gmap nat Node) (kids : nat -> list nat) (p : nat) (extra : nat) :
  TreeInvariant h kids -> is_Some (h !! p) ->
  children (length (kids p) + extra) h p = Some (kids p).
Proof.
  intros Hinv [nd Hnd]. unfold children. rewrite Hnd. cbn.
  destruct (inv_ends_node _ _ _ _ Hinv Hnd) as (-> & _ & Hch).
  apply (chain_siblings h p _ None). exact Hch.
Qed.

Lemma TreeInvariant_ext (h : gmap nat Node) (kids kids' : nat -> list nat) :
  (forall p, kids' p = kids p) -> TreeInvariant h kids -> TreeInvariant h kids'.
Proof.
  intros E [H1 H2 H3 H4 H5]. constructor; intros.
  - rewrite E. eauto.
  - rewrite E. eauto.
  - rewrite E. eauto.
  - rewrite E. eauto.
  - eauto.
Qed.

Lemma AppendChild_keeps (h : gmap nat Node) (kids : nat -> list nat) (n c : nat) :
  TreeInvariant h kids -> is_Some (h !! n) -> isDetached h c ->
  exists h',
    AppendChild n c h = Some h' /\
    TreeInvariant h' (kidsAppended kids n c) /\
    (forall x, is_Some (h' !! x) <-> is_Some (h !! x)).
Proof.
  intros Hinv Hn Hc.
  destruct (AppendChild_preserves h kids n c Hinv Hn Hc) as (h' & Hh' & Hinv').
  exists h'. split; [exact Hh'|]. split; [exact Hinv'|].
  destruct (AppendChild_result h kids n c Hinv Hn Hc) as (h2 & Hh2 & _ & _ & Hd).
  rewrite Hh' in Hh2. injection Hh2 as <-. exact Hd.
Qed.

(** X11: [AppendChild] makes a detached node the last child: the other
    children of [n] keep their order, and no other child list changes. *)
Theorem AppendChild_adds_last_child (h : gmap nat Node) (kids : nat -> list nat)
        (n c : nat) :
  TreeInvariant h kids -> is_Some (h !! n) -> isDetached h c ->
  exists h',
    AppendChild n c h = Some h' /\
    TreeInvariant h' (kidsAppended kids n c) /\
    children (S (length (kids n))) h' n = Some (kids n ++ [c]).
Proof.
  intros Hinv Hn Hc.
  destruct (AppendChild_preserves h kids n c Hinv Hn Hc) as (h' & Hh' & Hinv').
  exists h'. split; [exact Hh'|]. split; [exact Hinv'|].
  pose proof (children_kids h' _ n 0 Hinv') as Hk. cbn beta in Hk.
  rewrite decide_True in Hk by reflexivity.
  rewrite length_app, Nat.add_0_r in Hk. cbn [length] in Hk.
  replace (length (kids n) + 1)%nat with (S (length (kids n))) in Hk by lia.
  apply Hk.
  assert (Hdom : forall x, is_Some (h' !! x) <-> is_Some (h !! x)).
  { destruct (AppendChild_result h kids n c Hinv Hn Hc) as (h2 & Hh2 & _ & _ & Hd).
    rewrite Hh' in Hh2. injection Hh2 as <-. exact Hd. }
  apply Hdom. exact Hn.
Qed.

(** X12: [InsertBefore] puts a detached node directly before [oldChild] in
    the child list of [n]; the children before and behind keep their
    order. *)
Theorem InsertBefore_inserts_before (h : gmap nat Node) (kids : nat -> list nat)
        (n c o : nat) (l1 l2 : list nat) :
  TreeInvariant h kids -> is_Some (h !! n) -> isDetached h c ->
  kids n = l1 ++ o :: l2 ->
  exists h',
    InsertBefore n c (Some o) h = Some h' /\
    TreeInvariant h' (kidsSet kids n (l1 ++ c :: o :: l2)) /\
    children (S (length (kids n))) h' n = Some (l1 ++ c :: o :: l2).
Proof.
  intros Hinv Hn Hc Hk.
  destruct (InsertBefore_result h kids n c (Some o) l1 (o :: l2) Hinv Hn Hc Hk eq_refl
              ltac:(discriminate)) as (h' & Hh' & Hl & He & Hdom).
  destruct (InsertBefore_preserves h kids n c (Some o) l1 (o :: l2) Hinv Hn Hc Hk eq_refl
              ltac:(discriminate)) as (h2 & Hh2 & Hinv').
  rewrite Hh' in Hh2. injection Hh2 as <-.
  exists h'. split; [exact Hh'|]. split; [exact Hinv'|].
  pose proof (children_kids h' _ n 0 Hinv') as Hc'. cbn beta in Hc'.
  rewrite decide_True in Hc' by reflexivity.
  rewrite Hk. rewrite !length_app in *. cbn [length] in *.
  replace (length l1 + S (S (length l2)) + 0)%nat with (S (length l1 + S (length l2)))
    in Hc' by lia.
  apply Hc'. apply Hdom. exact Hn.
Qed.

Lemma RemoveChild_preserves (h : gmap nat Node) (kids : nat -> list nat)
      (n c : nat) (l1 l2 : list nat) :
  TreeInvariant h kids -> kids n = l1 ++ c :: l2 ->
  exists h',
    RemoveChild n c h = Some h' /\
    TreeInvariant h' (kidsSet kids n (l1 ++ l2)) /\
    isDetached h' c /\
    (forall x, is_Some (h' !! x) <-> is_Some (h !! x)).
Proof.
  intros Hinv Hk.
  assert (Hin : c ∈ kids n) by (rewrite Hk; set_solver).
  assert (Hn : is_Some (h !! n)).
  { destruct (h !! n) eqn:E; [eauto|].
    rewrite (inv_dom _ _ Hinv _ E) in Hin. inversion Hin. }
  destruct Hn as [nd En].
  destruct (inv_ends_node _ _ _ _ Hinv En) as (_ & _ & Hch).
  rewrite Hk in Hch. apply chain_app in Hch as [_ [Hc _]].
  rewrite lastOr_None, headOr_None in Hc.
  assert (Hnd : NoDup (l1 ++ c :: l2)).
  { rewrite <- Hk. apply (inv_nodup _ _ Hinv). }
  apply NoDup_app in Hnd as (_ & Hdisj & Hnd2). apply NoDup_cons in Hnd2 as [Hc2 _].
  destruct (RemoveChild_result h n c nd (last l1) (head l2)) as (h' & Hh' & Hl & He & Hd);
    auto.
  - intros E. apply last_elem in E. apply (Hdisj c E). set_solver.
  - intros E. apply head_elem in E. contradiction.
  - intros y Hy. eapply (kid_is_Some _ _ n); [exact Hinv|]. rewrite Hk.
    apply last_elem in Hy. set_solver.
  - intros y Hy. eapply (kid_is_Some _ _ n); [exact Hinv|]. rewrite Hk.
    apply head_elem in Hy. set_solver.
  - exists h'. split; [exact Hh'|]. split; [|split; [|exact Hd]].
    + eapply remove_preserves; eauto.
    + unfold isDetached. rewrite Hl, Hc. cbn. unfold remLinks. cbn.
      rewrite !decide_True by reflexivity. reflexivity.
Qed.

(** X13: [RemoveChild] takes exactly [c] out of the child list of [n]: the
    other children keep their order, and [c] is left without parent and
    siblings. *)
Theorem RemoveChild_removes_one (h : gmap nat Node) (kids : nat -> list nat)
        (n c : nat) (l1 l2 : list nat) :
  TreeInvariant h kids -> kids n = l1 ++ c :: l2 ->
  exists h',
    RemoveChild n c h = Some h' /\
    TreeInvariant h' (kidsSet kids n (l1 ++ l2)) /\
    isDetached h' c /\
    children (length (kids n)) h' n = Some (l1 ++ l2).
Proof.
  intros Hinv Hk.
  destruct (RemoveChild_preserves h kids n c l1 l2 Hinv Hk)
    as (h' & Hh' & Hinv' & Hdet & Hdom).
  exists h'. split; [exact Hh'|]. split; [exact Hinv'|]. split; [exact Hdet|].
  pose proof (children_kids h' _ n 1 Hinv') as Hc'. unfold kidsSet in Hc'.
  rewrite decide_True in Hc' by reflexivity.
  rewrite Hk. rewrite !length_app in *. cbn [length] in *.
  replace (length l1 + length l2 + 1)%nat with (length l1 + S (length l2))%nat in Hc' by lia.
  apply Hc'. apply Hdom.
  destruct (h !! n) eqn:E; [eauto|].
  pose proof (inv_dom _ _ Hinv _ E) as Hnil. rewrite Hk in Hnil.
  destruct l1; discriminate.
Qed.

(** X16: On a well-formed tree [AppendChild] and [RemoveChild] panic exactly
    when the condition they check fails: [AppendChild] succeeds if and
    only if the child is detached, [RemoveChild] if and only if the node
    is a child of the receiver. *)
Theorem mutators_panic_exactly (h : gmap nat Node) (n c : nat) :
  WellFormed h -> is_Some (h !! n) ->
  (is_Some (AppendChild n c h) <-> isDetached h c) /\
  (is_Some (RemoveChild n c h) <-> isChildOf h c n).
Proof.
  intros [kids Hinv] Hn. split; split.
  - intros [h' H]. unfold AppendChild in H.
    destruct (h !! c) as [cn|] eqn:Ec; [|discriminate]. cbn in H.
    destruct (attached cn) eqn:Ea; [discriminate|].
    unfold attached, ptr_eqb in Ea.
    apply orb_false_elim in Ea as [Ea E3]. apply orb_false_elim in Ea as [E1 E2].
    apply negb_false_iff, bool_decide_eq_true in E1, E2, E3.
    unfold isDetached, links. rewrite Ec. cbn. rewrite E1, E2, E3. reflexivity.
  - intros Hc. destruct (AppendChild_preserves h kids n c Hinv Hn Hc) as (h' & -> & _).
    eauto.
  - intros [h' H]. unfold RemoveChild in H.
    destruct (h !! c) as [cn|] eqn:Ec; [|discriminate]. cbn in H.
    destruct (ptr_eqb (Parent cn) (Some n)) eqn:Ep; [|discriminate].
    apply bool_decide_eq_true in Ep.
    exists (PrevSibling cn), (NextSibling cn). unfold links. rewrite Ec. cbn.
    rewrite Ep. reflexivity.
  - intros (pr & nx & Hl).
    assert (Hin : c ∈ kids n) by (apply (inv_parent _ _ Hinv _ _ _ _ n Hl); reflexivity).
    destruct (elem_split _ _ Hin) as (l1 & l2 & Hk).
    destruct (RemoveChild_preserves h kids n c l1 l2 Hinv Hk) as (h' & -> & _). eauto.
Qed.

(** X17: [reparentChildren] moves the children of [src] behind the children
    of [dst], in their order; afterwards [src] has no children.  The loop
    ends after one pass per child and one more. *)
Theorem reparentChildren_moves_all (dst src : nat) (extra : nat) (h : gmap nat Node)
        (kids : nat -> list nat) :
  TreeInvariant h kids -> dst <> src ->
  is_Some (h !! dst) -> is_Some (h !! src) ->
  exists h',
    reparentChildren (S (length (kids src)) + extra) dst src h = Done h' /\
    TreeInvariant h' (kidsMoved kids dst src) /\
    children (length (kids dst ++ kids src)) h' dst = Some (kids dst ++ kids src) /\
    children 0 h' src = Some [].
Proof.
  remember (kids src) as l eqn:Hl. symmetry in Hl.
  revert h kids Hl.
  induction l as [|c l IH]; intros h kids Hl Hinv Hne Hd [s Hs].
  - cbn [length Nat.add reparentChildren]. rewrite Hs.
    destruct (inv_ends_node _ _ _ _ Hinv Hs) as (Hf & _ & _).
    rewrite Hl in Hf. cbn in Hf. rewrite Hf.
    assert (Hinv' : TreeInvariant h (kidsMoved kids dst src)).
    { apply (TreeInvariant_ext h kids); [|exact Hinv].
      intros p. unfold kidsMoved.
      destruct (decide (p = src)) as [->|]; [auto|].
      destruct (decide (p = dst)) as [->|]; [|reflexivity].
      rewrite Hl, app_nil_r. reflexivity. }
    exists h. split; [reflexivity|]. split; [exact Hinv'|]. split.
    + pose proof (children_kids h _ dst 0 Hinv' Hd) as Hc. unfold kidsMoved in Hc.
      rewrite decide_False, decide_True in Hc by auto.
      rewrite Nat.add_0_r, Hl in Hc. exact Hc.
    + unfold children. rewrite Hs. cbn. rewrite Hf. reflexivity.
  - cbn [length]. change (S (S (length l)) + extra)%nat with (S (S (length l) + extra)).
    cbn [reparentChildren]. rewrite Hs.
    destruct (inv_ends_node _ _ _ _ Hinv Hs) as (Hf & _ & _).
    rewrite Hl in Hf. cbn in Hf. rewrite Hf.
    destruct (RemoveChild_preserves h kids src c [] l Hinv Hl)
      as (h1 & -> & Hinv1 & Hdet & Hdom1).
    destruct (AppendChild_keeps h1 _ dst c Hinv1) as (h2 & -> & Hinv2 & Hdom2).
    { apply Hdom1. exact Hd. }
    { exact Hdet. }
    set (kids2 := kidsAppended (kidsSet kids src ([] ++ l)) dst c) in *.
    assert (E2s : kids2 src = l).
    { unfold kids2, kidsAppended, kidsSet. rewrite decide_False by auto.
      rewrite decide_True by reflexivity. reflexivity. }
    assert (E2d : kids2 dst = kids dst ++ [c]).
    { unfold kids2, kidsAppended, kidsSet. rewrite decide_True by reflexivity.
      rewrite decide_False by auto. reflexivity. }
    destruct (IH h2 kids2 E2s Hinv2 Hne) as (h' & Hr & Hinv' & Hch & Hsrc).
    { apply Hdom2, Hdom1. exact Hd. }
    { apply Hdom2, Hdom1. eauto. }
    exists h'. split; [exact Hr|]. split; [|split; [|exact Hsrc]].
    + apply (TreeInvariant_ext h' (kidsMoved kids2 dst src)); [|exact Hinv'].
      intros p. unfold kidsMoved.
      destruct (decide (p = src)) as [->|Hps]; [reflexivity|].
      destruct (decide (p = dst)) as [->|Hpd].
      * rewrite E2d, E2s, Hl, <- app_assoc. reflexivity.
      * unfold kids2, kidsAppended, kidsSet. rewrite !decide_False by auto. reflexivity.
    + rewrite E2d, <- app_assoc in Hch. exact Hch.
Qed.

(** X18: [reparentChildren] with the same node as source and destination
    never ends when the node has a child: every pass removes the first
    child and appends it again. *)
Theorem reparentChildren_onto_itself_loops (fuel : nat) :
  forall (h : gmap nat Node) (kids : nat -> list nat) (n : nat),
    TreeInvariant h kids -> is_Some (h !! n) -> kids n <> [] ->
    reparentChildren fuel n n h = NoFuel.
Proof.
  induction fuel as [|fuel IH]; intros h kids n Hinv [s Hs] Hk; [reflexivity|].
  cbn [reparentChildren]. rewrite Hs.
  destruct (inv_ends_node _ _ _ _ Hinv Hs) as (Hf & _ & _).
  destruct (kids n) as [|c l] eqn:Hl; [contradiction|].
  cbn in Hf. rewrite Hf.
  destruct (RemoveChild_preserves h kids n c [] l Hinv Hl)
    as (h1 & -> & Hinv1 & Hdet & Hdom1).
  destruct (AppendChild_keeps h1 _ n c Hinv1) as (h2 & -> & Hinv2 & Hdom2).
  { apply Hdom1. eauto. }
  { exact Hdet. }
  apply (IH h2 _ n Hinv2).
  - apply Hdom2, Hdom1. eauto.
  - unfold kidsAppended. rewrite decide_True by reflexivity.
    intros E. apply app_eq_nil in E as [_ E]. discriminate.
Qed.

Lemma node_ext (a b : Node) :
  Parent a = Parent b -> PrevSibling a = PrevSibling b -> NextSibling a = NextSibling b ->
  FirstChild a = FirstChild b -> LastChild a = LastChild b -> strip a = strip b -> a = b.
Proof.
  destruct a, b. unfold strip. cbn. intros -> -> -> -> -> H. injection H. intros. subst.
  reflexivity.
Qed.

Lemma store_strip (x : nat) (f : Node -> Node) (h h' : gmap nat Node) :
  (forall nd, strip (f nd) = strip nd) -> store x f h = Some h' ->
  forall k, strip <$> h' !! k = strip <$> h !! k.
Proof.
  intros Hf H k. unfold store in H. destruct (h !! x) as [nd|] eqn:E; [|discriminate].
  injection H as <-. destruct (decide (x = k)) as [->|Hne].
  - rewrite lookup_insert_eq, E. cbn. rewrite Hf. reflexivity.
  - rewrite lookup_insert_ne by exact Hne. reflexivity.
Qed.

Lemma storeOr_strip (p : Ptr) (f : Node -> Node) (alt : gmap nat Node -> option (gmap nat Node))
      (h h' : gmap nat Node) :
  (forall nd, strip (f nd) = strip nd) ->
  (forall h1, alt h = Some h1 -> forall k, strip <$> h1 !! k = strip <$> h !! k) ->
  storeOr p f alt h = Some h' ->
  forall k, strip <$> h' !! k = strip <$> h !! k.
Proof.
  intros Hf Ha H. destruct p as [x|]; cbn in H; [exact (store_strip _ _ _ _ Hf H) | auto].
Qed.

Ltac strip_store H :=
  match type of H with
  | store ?x ?f ?h = Some ?h' =>
      let K := fresh in
      pose proof (store_strip x f h h' (fun nd => eq_refl (strip nd)) H) as K;
      clear H; rename K into H
  end.

Lemma AppendChild_strip (n c : nat) (h h' : gmap nat Node) :
  AppendChild n c h = Some h' -> forall k, strip <$> h' !! k = strip <$> h !! k.
Proof.
  unfold AppendChild. intros H.
  destruct (h !! c) as [cn|]; cbn [mbind option_bind] in H; [|discriminate].
  destruct (attached cn); [discriminate|].
  destruct (h !! n) as [nd|]; cbn [mbind option_bind] in H; [|discriminate].
  destruct (storeOr _ _ _ h) as [h1|] eqn:E1; cbn [mbind option_bind] in H; [|discriminate].
  destruct (store n _ h1) as [h2|] eqn:E2; cbn [mbind option_bind] in H; [|discriminate].
  destruct (store c _ h2) as [h3|] eqn:E3; cbn [mbind option_bind] in H; [|discriminate].
  strip_store H. strip_store E3. strip_store E2.
  assert (H1 : forall k, strip <$> h1 !! k = strip <$> h !! k).
  { destruct (LastChild nd); cbn [storeOr] in E1; strip_store E1; exact E1. }
  intros k. rewrite H, E3, E2, H1. reflexivity.
Qed.

Lemma RemoveChild_strip (n c : nat) (h h' : gmap nat Node) :
  RemoveChild n c h = Some h' -> forall k, strip <$> h' !! k = strip <$> h !! k.
Proof.
  unfold RemoveChild. intros H.
  destruct (h !! c) as [cn|]; cbn [mbind option_bind] in H; [|discriminate].
  destruct (negb _); [discriminate|].
  destruct (h !! n) as [nd|]; cbn [mbind option_bind] in H; [|discriminate].
  match type of H with (?x ≫= _) = _ => destruct x as [h1|] eqn:E1 end;
    cbn [mbind option_bind] in H; [|discriminate].
  destruct (h1 !! c) as [c1|]; cbn [mbind option_bind] in H; [|discriminate].
  match type of H with (?x ≫= _) = _ => destruct x as [h2|] eqn:E2 end;
    cbn [mbind option_bind] in H; [|discriminate].
  destruct (h2 !! n) as [n2|]; cbn [mbind option_bind] in H; [|discriminate].
  destruct (h2 !! c) as [c2|]; cbn [mbind option_bind] in H; [|discriminate].
  match type of H with (?x ≫= _) = _ => destruct x as [h3|] eqn:E3 end;
    cbn [mbind option_bind] in H; [|discriminate].
  destruct (h3 !! c) as [c3|]; cbn [mbind option_bind] in H; [|discriminate].
  match type of H with (?x ≫= _) = _ => destruct x as [h4|] eqn:E4 end;
    cbn [mbind option_bind] in H; [|discriminate].
  destruct (store c _ h4) as [h5|] eqn:E5; cbn [mbind option_bind] in H; [|discriminate].
  destruct (store c _ h5) as [h6|] eqn:E6; cbn [mbind option_bind] in H; [|discriminate].
  strip_store H. strip_store E6. strip_store E5.
  assert (H1 : forall k, strip <$> h1 !! k = strip <$> h !! k).
  { destruct (ptr_eqb (FirstChild nd) (Some c));
      [strip_store E1; exact E1 | injection E1 as <-; reflexivity]. }
  assert (H2 : forall k, strip <$> h2 !! k = strip <$> h1 !! k).
  { destruct (NextSibling c1); [strip_store E2; exact E2 | injection E2 as <-; reflexivity]. }
  assert (H3 : forall k, strip <$> h3 !! k = strip <$> h2 !! k).
  { destruct (ptr_eqb (LastChild n2) (Some c));
      [strip_store E3; exact E3 | injection E3 as <-; reflexivity]. }
  assert (H4 : forall k, strip <$> h4 !! k = strip <$> h3 !! k).
  { destruct (PrevSibling c3); [strip_store E4; exact E4 | injection E4 as <-; reflexivity]. }
  intros k. rewrite H, E6, E5, H4, H3, H2, H1. reflexivity.
Qed.

Lemma heap_ext (h h' : gmap nat Node) :
  (forall k, links h' k = links h k) -> (forall k, ends h' k = ends h k) ->
  (forall k, strip <$> h' !! k = strip <$> h !! k) -> h' = h.
Proof.
  intros Hl He Hs. apply map_eq. intros k.
  specialize (Hl k). specialize (He k). specialize (Hs k).
  unfold links, ends in *.
  destruct (h' !! k) as [a|], (h !! k) as [b|]; cbn [fmap option_fmap option_map] in *;
    try discriminate; [|reflexivity].
  assert (Hs' : strip a = strip b) by congruence.
  injection Hl as ? ? ?. injection He as ? ?.
  f_equal. apply node_ext; assumption.
Qed.

(** X14: [AppendChild] followed by [RemoveChild] of the same node gives back
    the tree as it was, pointer for pointer. *)
Theorem AppendChild_then_RemoveChild (h : gmap nat Node) (n c : nat) :
  WellFormed h -> is_Some (h !! n) -> isDetached h c ->
  exists h1, AppendChild n c h = Some h1 /\ RemoveChild n c h1 = Some h.
Proof.
  intros [kids Hinv] Hn Hc.
  destruct (AppendChild_result h kids n c Hinv Hn Hc) as (h1 & Hh1 & Hl1 & He1 & Hd1).
  exists h1. split; [exact Hh1|].
  destruct Hn as [nd En].
  destruct (inv_ends_node _ _ _ _ Hinv En) as (Hf & Hla & Hch).
  assert (Hnotkid : c ∉ kids n) by (eapply detached_not_kid; eauto).
  assert (Hlc : last (kids n) <> Some c).
  { intros E. apply last_elem in E. contradiction. }
  assert (Hc1 : links h1 c = Some (Some n, last (kids n), None)).
  { rewrite Hl1, Hc. cbn. unfold appendLinks. cbn.
    repeat case_decide; try reflexivity; congruence. }
  destruct (proj2 (Hd1 n) (ex_intro _ nd En)) as [nd1 En1].
  destruct (RemoveChild_result h1 n c nd1 (last (kids n)) None En1 Hc1 Hlc)
    as (h2 & Hh2 & Hl2 & He2 & Hd2).
  { discriminate. }
  { intros y Hy. apply Hd1. eapply (kid_is_Some _ _ n); [exact Hinv|].
    apply last_elem. exact Hy. }
  { discriminate. }
  rewrite Hh2. f_equal. apply heap_ext.
  - intros x. rewrite Hl2, Hl1. destruct (links h x) as [[[pa pr] nx]|] eqn:Ex; [|reflexivity].
    cbn. unfold remLinks, appendLinks. cbn. f_equal.
    destruct (decide (x = c)) as [->|Hxc].
    + rewrite Hc in Ex. injection Ex as <- <- <-. reflexivity.
    + rewrite decide_False by discriminate.
      destruct (decide (Some x = last (kids n))) as [Hx|Hx]; [|reflexivity].
      f_equal. symmetry in Hx.
      apply last_Some in Hx as [l' Hk]. rewrite Hk in Hch.
      apply chain_app in Hch as [_ Hlx]. cbn in Hlx. destruct Hlx as [Hlx _].
      rewrite Ex in Hlx. congruence.
  - intros x. rewrite He2, He1. destruct (ends h x) as [[f e]|] eqn:Ex; [|reflexivity].
    cbn. unfold remEnds, appendEnds. cbn. f_equal.
    destruct (decide (x = n)) as [->|Hxn].
    + unfold ends in Ex. rewrite En in Ex. cbn in Ex. injection Ex as <- <-.
      rewrite Hf, Hla.
      destruct (last (kids n)) as [y|] eqn:El.
      * assert (Hh : head (kids n) <> Some c).
        { intros E. apply head_elem in E. contradiction. }
        repeat case_decide; destruct_and?; try reflexivity; try congruence; tauto.
      * apply last_None in El. rewrite El. cbn.
        repeat case_decide; destruct_and?; try reflexivity; try congruence; tauto.
    + rewrite !decide_False by (intros [E _]; contradiction). reflexivity.
  - intros k. rewrite (RemoveChild_strip _ _ _ _ Hh2), (AppendChild_strip _ _ _ _ Hh1).
    reflexivity.
Qed.

Lemma store_next (c x : nat) (f : Node -> Node) (h h' : gmap nat Node) :
  (x = c -> forall nd, NextSibling (f nd) = NextSibling nd) ->
  store x f h = Some h' ->
  NextSibling <$> h' !! c = NextSibling <$> h !! c.
Proof.
  intros Hf H. unfold store in H. destruct (h !! x) as [nd|] eqn:E; [|discriminate].
  injection H as <-. destruct (decide (x = c)) as [->|Hne].
  - rewrite lookup_insert_eq, E. cbn. rewrite Hf; reflexivity.
  - rewrite lookup_insert_ne by exact Hne. reflexivity.
Qed.

Lemma set_NextSibling_same (nd : Node) (v : Ptr) :
  NextSibling nd = v -> set_NextSibling v nd = nd.
Proof. destruct nd. cbn. intros ->. reflexivity. Qed.

Ltac next_store c H :=
  match type of H with
  | store ?x ?f ?h = Some ?h' =>
      let K := fresh in
      pose proof (store_next c x f h h' (fun _ nd => eq_refl (NextSibling nd)) H) as K;
      clear H; rename K into H
  end.

(** X15: [InsertBefore] with a nil [oldChild] is [AppendChild], panics
    included, unless [newChild] is already the last child of [n]. *)
Theorem InsertBefore_nil_is_AppendChild (h : gmap nat Node) (n c : nat) :
  (forall nd, h !! n = Some nd -> LastChild nd <> Some c) ->
  InsertBefore n c None h = AppendChild n c h.
Proof.
  intros Hlast. unfold InsertBefore, AppendChild.
  destruct (h !! c) as [cn|] eqn:Ec; cbn [mbind option_bind]; [|reflexivity].
  destruct (attached cn) eqn:Ea; [reflexivity|].
  destruct (h !! n) as [nd|] eqn:En; cbn [mbind option_bind]; [|reflexivity].
  specialize (Hlast nd eq_refl).
  destruct (storeOr (LastChild nd) _ _ h) as [h1|] eqn:E1; cbn [mbind option_bind];
    [|reflexivity].
  cbn [storeOr].
  destruct (store n _ h1) as [h2|] eqn:E2; cbn [mbind option_bind]; [|reflexivity].
  destruct (store c _ h2) as [h3|] eqn:E3; cbn [mbind option_bind]; [|reflexivity].
  destruct (store c _ h3) as [h4|] eqn:E4; cbn [mbind option_bind]; [|reflexivity].
  assert (Hnx : NextSibling <$> h4 !! c = Some None).
  { next_store c E4. next_store c E3. next_store c E2.
    assert (H1 : NextSibling <$> h1 !! c = NextSibling <$> h !! c).
    { destruct (LastChild nd) as [p|]; cbn [storeOr] in E1.
      - apply (store_next c) in E1; [exact E1|]. intros ->. congruence.
      - next_store c E1. exact E1. }
    rewrite E4, E3, E2.
    rewrite H1, Ec. cbn. f_equal.
    unfold attached in Ea. apply orb_false_elim in Ea as [_ Ea].
    apply negb_false_iff, bool_decide_eq_true in Ea. exact Ea. }
  unfold store. destruct (h4 !! c) as [c4|] eqn:E; [|discriminate].
  cbn in Hnx. injection Hnx as Hnx.
  rewrite (set_NextSibling_same _ _ Hnx), insert_id by exact E. reflexivity.
Qed.

(** ** [GetAttribute] *)

Lemma find_first {A} (p : A -> bool) (l : list A) (x : A) :
  List.find p l = Some x <->
  exists l1 l2, l = l1 ++ x :: l2 /\ p x = true /\ forall y, y ∈ l1 -> p y = false.
Proof.
  induction l as [|a l IH]; cbn [List.find].
  - split; [discriminate|]. intros (l1 & l2 & E & _). destruct l1; discriminate.
  - destruct (p a) eqn:Ea.
    + split.
      * intros H. injection H as <-. exists [], l. split; [reflexivity|].
        split; [exact Ea|]. intros y Hy. inversion Hy.
      * intros (l1 & l2 & E & Hx & Hl). destruct l1 as [|b l1].
        -- injection E as -> _. reflexivity.
        -- injection E as -> _. rewrite (Hl b) in Ea by constructor. discriminate.
    + rewrite IH. split.
      * intros (l1 & l2 & -> & Hx & Hl). exists (a :: l1), l2. split; [reflexivity|].
        split; [exact Hx|]. intros y Hy. apply elem_of_cons in Hy as [->|Hy]; auto.
      * intros (l1 & l2 & E & Hx & Hl). destruct l1 as [|b l1].
        -- injection E as -> _. congruence.
        -- injection E as -> ->. exists l1, l2. split; [reflexivity|].
           split; [exact Hx|]. intros y Hy. apply Hl. constructor. exact Hy.
Qed.

Lemma find_none {A} (p : A -> bool) (l : list A) :
  List.find p l = None <-> forall y, y ∈ l -> p y = false.
Proof.
  induction l as [|a l IH]; cbn [List.find].
  - split; [|reflexivity]. intros _ y Hy. inversion Hy.
  - destruct (p a) eqn:Ea.
    + split; [discriminate|]. intros H. rewrite (H a) in Ea by constructor. discriminate.
    + rewrite IH. split.
      * intros H y Hy. apply elem_of_cons in Hy as [->|Hy]; auto.
      * intros H y Hy. apply H. constructor. exact Hy.
Qed.

(** X19: [GetAttribute] returns the first attribute of the node that has the
    key, whatever follows it, and nil exactly when no attribute has the
    key. *)
Theorem GetAttribute_first_match (h : gmap nat Node) (a : gmap nat (list Attribute))
        (n : nat) (nd : Node) (elems : list Attribute) (key : string) :
  h !! n = Some nd -> sliceElems (Attr nd) a = Some elems ->
  (GetAttribute n key h a = Some None <-> forall y, y ∈ elems -> Key y <> key) /\
  (forall x, GetAttribute n key h a = Some (Some x) <->
             exists l1 l2, elems = l1 ++ x :: l2 /\ Key x = key /\
                           forall y, y ∈ l1 -> Key y <> key).
Proof.
  intros Hn He. unfold GetAttribute. rewrite Hn. cbn [mbind option_bind].
  rewrite He. cbn [mbind option_bind]. split.
  - split.
    + intros H. injection H as H. intros y Hy. apply String.eqb_neq.
      exact (proj1 (find_none _ _) H y Hy).
    + intros H. f_equal. apply find_none. intros y Hy. apply String.eqb_neq. auto.
  - intros x. split.
    + intros H. injection H as H. apply find_first in H as (l1 & l2 & E & Hx & Hl).
      exists l1, l2. split; [exact E|]. split; [apply String.eqb_eq; exact Hx|].
      intros y Hy. apply String.eqb_neq. auto.
    + intros (l1 & l2 & E & Hx & Hl). f_equal. apply find_first.
      exists l1, l2. split; [exact E|]. split; [apply String.eqb_eq; exact Hx|].
      intros y Hy. apply String.eqb_neq. auto.
Qed.

(** ** [nodeStack] *)

Lemma copyInto_shift {A} (b : list A) (x : A) :
  copyInto (drop 1 (b ++ [x])) (b ++ [x]) = b.
Proof.
  unfold copyInto. rewrite length_drop, length_app. cbn [length].
  replace (length b + 1 - 1)%nat with (length b) by lia.
  rewrite Nat.min_l by lia.
  rewrite take_app_length. rewrite drop_ge; [apply app_nil_r|].
  rewrite length_drop, length_app. cbn. lia.
Qed.

Lemma insert_at (a b : list Ptr) (n : Ptr) :
  nodeStack.insert (Z.of_nat (length a)) n (a ++ b) = Some (a ++ n :: b).
Proof.
  unfold nodeStack.insert, sliceFrom, storeAt.
  replace (Z.to_nat (Z.of_nat (length a) + 1)) with (S (length a)) by lia.
  rewrite Nat2Z.id.
  assert (B1 : ((0 <=? Z.of_nat (length a) + 1) &&
                (Z.of_nat (length a) + 1 <=? Z.of_nat (length ((a ++ b) ++ [None])))
                = true)%Z).
  { rewrite !length_app. cbn [length]. apply andb_true_iff. split; apply Z.leb_le; lia. }
  assert (B2 : ((0 <=? Z.of_nat (length a)) &&
                (Z.of_nat (length a) <=? Z.of_nat (length ((a ++ b) ++ [None])))
                = true)%Z).
  { rewrite !length_app. cbn [length]. apply andb_true_iff. split; apply Z.leb_le; lia. }
  rewrite B1, B2. cbn [mbind option_bind].
  rewrite <- !app_assoc.
  rewrite drop_app_length.
  replace (S (length a)) with (length a + 1)%nat by lia.
  rewrite <- drop_drop, drop_app_length, take_app_add, copyInto_shift.
  assert (B3 : ((0 <=? Z.of_nat (length a)) &&
                (Z.of_nat (length a) <? Z.of_nat (length ((a ++ take 1 (b ++ [None])) ++ b)))
                = true)%Z).
  { rewrite !length_app, length_take, length_app. cbn [length]. apply andb_true_iff.
    split; [apply Z.leb_le | apply Z.ltb_lt]; lia. }
  rewrite B3. f_equal. rewrite <- app_assoc.
  rewrite insert_app_r_alt by lia. rewrite Nat.sub_diag.
  destruct b; reflexivity.
Qed.

Lemma index_from_absent (i : nat) (s : list Ptr) (n : Ptr) :
  (i <= length s)%nat -> n ∉ take i s -> nodeStack.index_from i s n = (-1)%Z.
Proof.
  unfold Ptr in *.
  induction i as [|i IH]; intros Hi Hn; [reflexivity|].
  cbn [nodeStack.index_from]. unfold Ptr in *.
  destruct (s !! i) as [x|] eqn:Hx.
  2:{ apply lookup_ge_None_1 in Hx. lia. }
  rewrite (take_S_r _ _ _ Hx) in Hn.
  cbn [default from_option id].
  assert (Hxn : x <> n).
  { intros ->. apply Hn. apply elem_of_app. right. constructor. }
  rewrite (ptr_eqb_false _ _ Hxn).
  apply IH; [lia|]. intros H. apply Hn. apply elem_of_app. left. exact H.
Qed.

Lemma index_from_app (k : nat) (s t : list Ptr) (n : Ptr) :
  (k <= length s)%nat -> nodeStack.index_from k (s ++ t) n = nodeStack.index_from k s n.
Proof.
  induction k as [|k IH]; intros Hk; [reflexivity|].
  cbn [nodeStack.index_from]. unfold Ptr in *. rewrite lookup_app_l by lia. rewrite IH by lia. reflexivity.
Qed.

Lemma index_found (l1 l2 : list Ptr) (n : Ptr) :
  n ∉ l2 -> nodeStack.index (l1 ++ n :: l2) n = Z.of_nat (length l1).
Proof.
  unfold nodeStack.index.
  induction l2 as [|x l2 IH] using rev_ind; intros Hn.
  - rewrite length_app. cbn [length]. rewrite Nat.add_1_r. cbn [nodeStack.index_from]. unfold Ptr in *.
    rewrite list_lookup_middle by reflexivity. cbn. rewrite ptr_eqb_true; reflexivity.
  - replace (l1 ++ n :: l2 ++ [x]) with ((l1 ++ n :: l2) ++ [x])
      by (rewrite <- app_assoc; reflexivity).
    rewrite length_app. cbn [length]. rewrite Nat.add_1_r. cbn [nodeStack.index_from]. unfold Ptr in *.
    rewrite list_lookup_middle by reflexivity. cbn [default from_option id].
    assert (Hxn : x <> n).
    { intros ->. apply Hn. apply elem_of_app. right. constructor. }
    rewrite (ptr_eqb_false _ _ Hxn).
    rewrite index_from_app by (apply Nat.le_refl). apply IH.
    intros H. apply Hn. apply elem_of_app. left. exact H.
Qed.

Lemma index_absent (s : list Ptr) (n : Ptr) :
  n ∉ s -> nodeStack.index s n = (-1)%Z.
Proof.
  intros H. apply index_from_absent; [lia|]. rewrite take_ge by lia. exact H.
Qed.

(** The last occurrence of an element of a list. *)
Lemma last_occurrence (s : list Ptr) (n : Ptr) :
  n ∈ s -> exists l1 l2, s = l1 ++ n :: l2 /\ n ∉ l2.
Proof.
  induction s as [|x s IH]; intros H; [inversion H|].
  destruct (decide (n ∈ s)) as [Hs|Hs].
  - destruct (IH Hs) as (l1 & l2 & -> & Hn). exists (x :: l1), l2. auto.
  - exists [], s. split; [|exact Hs]. apply elem_of_cons in H as [->|H]; [reflexivity|].
    contradiction.
Qed.

Lemma remove_found (l1 l2 : list Ptr) (n : Ptr) :
  n ∉ l2 -> nodeStack.remove n (l1 ++ n :: l2) = l1 ++ l2.
Proof.
  intros Hn. unfold nodeStack.remove. rewrite (index_found _ _ _ Hn).
  replace (Z.of_nat (length l1) =? -1)%Z with false by (symmetry; apply Z.eqb_neq; lia).
  rewrite Nat2Z.id.
  rewrite take_app_length.
  replace (S (length l1)) with (length l1 + 1)%nat by lia.
  rewrite <- drop_drop, drop_app_length. cbn [drop].
  unfold copyInto. cbn [length]. rewrite drop_0, Nat.min_r by lia.
  rewrite firstn_all.
  set (d := drop (length l2) (n :: l2)).
  assert (Hd : length d = 1%nat).
  { unfold d. rewrite length_drop. cbn [length]. lia. }
  rewrite (app_assoc l1 l2 d), length_app, Hd, Nat.add_sub.
  first [rewrite take_insert_ge by lia | rewrite take_insert by lia].
  apply take_app_length.
Qed.

Lemma remove_absent (s : list Ptr) (n : Ptr) : n ∉ s -> nodeStack.remove n s = s.
Proof. intros H. unfold nodeStack.remove. rewrite (index_absent _ _ H). reflexivity. Qed.

(** X20: [s.insert(i, n)] puts [n] at index [i] and moves the entries from
    [i] on up by one.  It panics exactly when [i] is not an index of the
    stack or its length. *)
Theorem nodeStack_insert_moves_up (i : Z) (n : Ptr) (s : list Ptr) :
  nodeStack.insert i n s =
  if ((0 <=? i) && (i <=? Z.of_nat (length s)))%Z
  then Some (take (Z.to_nat i) s ++ n :: drop (Z.to_nat i) s)
  else None.
Proof.
  destruct ((0 <=? i) && (i <=? Z.of_nat (length s)))%Z eqn:B.
  - apply andb_true_iff in B as [B1 B2]. apply Z.leb_le in B1, B2.
    rewrite <- (take_drop (Z.to_nat i) s) at 1.
    replace i with (Z.of_nat (length (take (Z.to_nat i) s))) at 1
      by (rewrite length_take; lia).
    apply insert_at.
  - unfold nodeStack.insert, sliceFrom. rewrite length_app. cbn [length].
    apply andb_false_iff in B.
    destruct ((0 <=? i + 1) && (i + 1 <=? Z.of_nat (length s + 1)))%Z eqn:B1;
      [|reflexivity].
    cbn [mbind option_bind].
    destruct ((0 <=? i) && (i <=? Z.of_nat (length s + 1)))%Z eqn:B2; [|reflexivity].
    exfalso. apply andb_true_iff in B1 as [_ B1], B2 as [B2 _].
    apply Z.leb_le in B1, B2.
    destruct B as [B|B]; [apply Z.leb_gt in B | apply Z.leb_gt in B]; lia.
Qed.

(** X21: [s.index(n)] is the index of the top-most entry that is [n], and -1
    exactly when [n] is not on the stack. *)
Theorem nodeStack_index_topmost (s : list Ptr) (n : Ptr) :
  (nodeStack.index s n = (-1)%Z <-> n ∉ s) /\
  (forall k : nat, nodeStack.index s n = Z.of_nat k <->
                   s !! k = Some n /\ n ∉ drop (S k) s).
Proof.
  destruct (decide (n ∈ s)) as [Hin|Hout].
  - destruct (last_occurrence _ _ Hin) as (l1 & l2 & -> & Hn).
    rewrite (index_found _ _ _ Hn). split.
    + split; [lia | intros H; contradiction].
    + intros k. split.
      * intros E. apply Nat2Z.inj in E. subst k. split.
        -- apply list_lookup_middle. reflexivity.
        -- replace (S (length l1)) with (length l1 + 1)%nat by lia.
           rewrite <- drop_drop, drop_app_length. exact Hn.
      * intros [Hk Hd]. f_equal.
        destruct (Nat.lt_trichotomy k (length l1)) as [Hlt|[->|Hgt]]; [|reflexivity|].
        -- exfalso. apply Hd.
           rewrite drop_app_le by lia. apply elem_of_app. right. constructor.
        -- exfalso. apply Hn.
           rewrite lookup_app_r in Hk by lia.
           destruct (k - length l1)%nat as [|j] eqn:Ej; [lia|]. cbn in Hk.
           eapply list_elem_of_lookup_2. exact Hk.
  - rewrite (index_absent _ _ Hout). split.
    + split; [intros _; exact Hout | reflexivity].
    + intros k. split; [lia|]. intros [Hk _]. exfalso. apply Hout.
      eapply list_elem_of_lookup_2. exact Hk.
Qed.

(** X22: [s.remove(n)] takes out the top-most entry that is [n] and keeps the
    others in their order; a stack without [n] stays as it is. *)
Theorem nodeStack_remove_topmost (l1 l2 : list Ptr) (n : Ptr) :
  n ∉ l2 ->
  nodeStack.remove n (l1 ++ n :: l2) = l1 ++ l2 /\ nodeStack.remove n l2 = l2.
Proof.
  intros Hn. split; [apply remove_found; exact Hn | apply remove_absent; exact Hn].
Qed.

(** X23: Inserting a node that is not on the stack above index [i], and
    removing it again, gives back the stack; in between [index] finds
    the node at [i]. *)
Theorem nodeStack_insert_then_remove (i : Z) (n : Ptr) (s : list Ptr) :
  (0 <= i <= Z.of_nat (length s))%Z -> n ∉ drop (Z.to_nat i) s ->
  exists s', nodeStack.insert i n s = Some s' /\
             nodeStack.index s' n = i /\ nodeStack.remove n s' = s.
Proof.
  intros Hi Hn. exists (take (Z.to_nat i) s ++ n :: drop (Z.to_nat i) s).
  split; [|split].
  - rewrite <- (take_drop (Z.to_nat i) s) at 1.
    replace i with (Z.of_nat (length (take (Z.to_nat i) s))) at 1
      by (rewrite length_take; lia).
    apply insert_at.
  - rewrite (index_found _ _ _ Hn), length_take. lia.
  - rewrite (remove_found _ _ _ Hn). apply take_drop.
Qed.

(** X24: Both stacks give back the entry pushed last.  On the empty stack
    [nodeStack.pop] returns nil and leaves the stack empty, and
    [insertionModeStack.pop] panics; [top] returns nil for both. *)
Theorem stacks_pop_the_last_pushed (s : list Ptr) (n : Ptr) (IM : Type)
        (t : list (option IM)) (m : option IM) :
  nodeStack.pop (s ++ [n]) = (n, s) /\ nodeStack.top (s ++ [n]) = n /\
  nodeStack.pop [] = (None, []) /\ nodeStack.top [] = None /\
  insertionModeStack.pop (t ++ [m]) = Some (m, t) /\
  insertionModeStack.top (t ++ [m]) = m /\
  (forall u : list (option IM), insertionModeStack.pop u = None <-> u = []) /\
  insertionModeStack.top ([] : list (option IM)) = None.
Proof.
  assert (L : forall (A : Type) (l : list A) (x : A),
             (length (l ++ [x]) - 1)%nat = length l).
  { intros A l x. rewrite length_app. cbn. lia. }
  assert (P : forall (A : Type) (l : list A) (x : A),
             (0 <? length (l ++ [x]))%nat = true).
  { intros A l x. apply Nat.ltb_lt. rewrite length_app. cbn. lia. }
  repeat split.
  - unfold nodeStack.pop. rewrite P, L, list_lookup_middle by reflexivity.
    rewrite take_app_length. reflexivity.
  - unfold nodeStack.top. rewrite P, L, list_lookup_middle by reflexivity. reflexivity.
  - unfold insertionModeStack.pop. rewrite P, L, list_lookup_middle by reflexivity.
    cbn. rewrite take_app_length. reflexivity.
  - unfold insertionModeStack.top. rewrite P, L, list_lookup_middle by reflexivity.
    reflexivity.
  - intros H. destruct u as [|x u] using rev_ind; [reflexivity|].
    unfold insertionModeStack.pop in H.
    rewrite P, L, list_lookup_middle in H by reflexivity. discriminate.
  - intros ->. reflexivity.
Qed.

Lemma fourNodes_flat : TreeInvariant fourNodes (fun _ => []).
Proof.
  split.
  - intros p f l H. apply ends_lookup in H as (nd & Hnd & <- & <-).
    apply fourNodes_lookup in Hnd as ->. cbn. auto.
  - reflexivity.
  - intros _. constructor.
  - intros c pa pr nx q H. apply links_lookup in H as (nd & Hnd & <- & _).
    apply fourNodes_lookup in Hnd as ->. cbn. split; [discriminate | set_solver].
  - intros c pr nx H. apply links_lookup in H as (nd & Hnd & _ & <- & <-).
    apply fourNodes_lookup in Hnd as ->. auto.
Qed.

Lemma family_built : AppendChild 0 2 fourNodes ≫= AppendChild 0 3 = Some family.
Proof. vm_compute. reflexivity. Qed.

Lemma family_invariant : TreeInvariant family familyKids.
Proof.
  pose proof family_built as Hb.
  destruct (AppendChild_keeps fourNodes _ 0 2 fourNodes_flat) as (h1 & H1 & Hinv1 & Hd1);
    [vm_compute; eauto | vm_compute; reflexivity |].
  rewrite H1 in Hb. cbn [mbind option_bind] in Hb.
  destruct (AppendChild_keeps h1 _ 0 3 Hinv1) as (h2 & H2 & Hinv2 & _).
  - apply Hd1. vm_compute. eauto.
  - vm_compute in H1. injection H1 as <-. vm_compute. reflexivity.
  - rewrite H2 in Hb. injection Hb as <-.
    refine (TreeInvariant_ext _ _ _ _ Hinv2).
    intros p. unfold familyKids, kidsAppended.
    destruct (decide (p = 0%nat)) as [->|]; reflexivity.
Qed.

Lemma AppendChild_adds_last_child_witness :
  exists h',
    AppendChild 0 1 family = Some h' /\
    TreeInvariant h' (kidsAppended familyKids 0 1) /\
    children 3 h' 0 = Some [2%nat; 3%nat; 1%nat].
Proof.
  apply (AppendChild_adds_last_child family familyKids 0 1 family_invariant).
  - vm_compute. eauto.
  - vm_compute. reflexivity.
Defined.

Lemma InsertBefore_inserts_before_witness :
  exists h',
    InsertBefore 0 1 (Some 3%nat) family = Some h' /\
    TreeInvariant h' (kidsSet familyKids 0 [2%nat; 1%nat; 3%nat]) /\
    children 3 h' 0 = Some [2%nat; 1%nat; 3%nat].
Proof.
  apply (InsertBefore_inserts_before family familyKids 0 1 3 [2%nat] [] family_invariant).
  - vm_compute. eauto.
  - vm_compute. reflexivity.
  - reflexivity.
Defined.

Lemma RemoveChild_removes_one_witness :
  exists h',
    RemoveChild 0 2 family = Some h' /\
    TreeInvariant h' (kidsSet familyKids 0 [3%nat]) /\
    isDetached h' 2 /\
    children 2 h' 0 = Some [3%nat].
Proof.
  apply (RemoveChild_removes_one family familyKids 0 2 [] [3%nat] family_invariant).
  reflexivity.
Defined.

Lemma mutators_panic_exactly_witness :
  (is_Some (AppendChild 0 2 family) <-> isDetached family 2) /\
  (is_Some (RemoveChild 0 2 family) <-> isChildOf family 2 0).
Proof.
  apply (mutators_panic_exactly family 0 2).
  - exists familyKids. exact family_invariant.
  - vm_compute. eauto.
Defined.

Lemma reparentChildren_moves_all_witness :
  exists h',
    reparentChildren 3 1 0 family = Done h' /\
    TreeInvariant h' (kidsMoved familyKids 1 0) /\
    children 2 h' 1 = Some [2%nat; 3%nat] /\
    children 0 h' 0 = Some [].
Proof.
  apply (reparentChildren_moves_all 1 0 0 family familyKids family_invariant).
  - discriminate.
  - vm_compute. eauto.
  - vm_compute. eauto.
Defined.

Lemma reparentChildren_onto_itself_loops_witness :
  reparentChildren 1000 0 0 family = NoFuel.
Proof.
  apply (reparentChildren_onto_itself_loops 1000 family familyKids 0 family_invariant).
  - vm_compute. eauto.
  - discriminate.
Defined.

Lemma AppendChild_then_RemoveChild_witness :
  exists h1, AppendChild 0 1 family = Some h1 /\ RemoveChild 0 1 h1 = Some family.
Proof.
  apply (AppendChild_then_RemoveChild family 0 1).
  - exists familyKids. exact family_invariant.
  - vm_compute. eauto.
  - vm_compute. reflexivity.
Defined.

Lemma InsertBefore_nil_is_AppendChild_witness :
  InsertBefore 0 1 None family = AppendChild 0 1 family.
Proof.
  apply (InsertBefore_nil_is_AppendChild family 0 1).
  intros nd H. vm_compute in H. injection H as <-. discriminate.
Defined.

Lemma GetAttribute_first_match_witness :
  (GetAttribute 0 "class" attrHeap threeArrays = Some None <->
   forall y, y ∈ threeAttrs -> Key y <> "class"%string) /\
  (forall x, GetAttribute 0 "class" attrHeap threeArrays = Some (Some x) <->
             exists l1 l2, threeAttrs = l1 ++ x :: l2 /\ Key x = "class"%string /\
                           forall y, y ∈ l1 -> Key y <> "class"%string).
Proof.
  apply (GetAttribute_first_match attrHeap threeArrays 0 attrNode threeAttrs "class").
  - vm_compute. reflexivity.
  - vm_compute. reflexivity.
Defined.

Lemma nodeStack_remove_topmost_witness :
  nodeStack.remove (Some 7%nat) ([Some 7%nat; Some 4%nat] ++ Some 7%nat :: [Some 5%nat])
  = [Some 7%nat; Some 4%nat] ++ [Some 5%nat] /\
  nodeStack.remove (Some 7%nat) [Some 5%nat] = [Some 5%nat].
Proof.
  apply (nodeStack_remove_topmost [Some 7%nat; Some 4%nat] [Some 5%nat] (Some 7%nat)).
  intros H. apply elem_of_cons in H as [H|H]; [discriminate | inversion H].
Defined.

Lemma nodeStack_insert_then_remove_witness :
  exists s', nodeStack.insert 1 (Some 7%nat) [Some 7%nat; Some 4%nat; Some 5%nat] = Some s' /\
             nodeStack.index s' (Some 7%nat) = 1%Z /\
             nodeStack.remove (Some 7%nat) s' = [Some 7%nat; Some 4%nat; Some 5%nat].
Proof.
  apply (nodeStack_insert_then_remove 1 (Some 7%nat) [Some 7%nat; Some 4%nat; Some 5%nat]).
  - cbn. lia.
  - cbn. intros H. apply elem_of_cons in H as [H|H]; [discriminate|].
    apply elem_of_cons in H as [H|H]; [discriminate | inversion H].
Defined.

End TreeInv.
